(* ===== verification/_CoqProject ===== *)
-Q . S2P
Prelude.v
Addr.v
World.v
Monad.v
LinkedList.v
Packet.v
Filter.v
Route.v
Netlink.v
NetlinkSpec.v
Iface.v
Session.v
Proxy.v
Receive.v
Daemon.v
Text.v
Conf.v
Alloc.v
Io.v
User.v
Privilege.v
Main.v
Diag.v
Bpf.v
RtSocket.v
RtSocketSpec.v
BsdIface.v
Counting.v
Invariant.v
IfaceSafe.v
SessionSafe.v
DaemonSafe.v
StartSafe.v
ConfSafe.v
ExitSafe.v
IoSafe.v
IoDispatch.v
MainSafe.v
BsdSafe.v
SessionSpec.v
SessionLive.v
Demo.v
UserSpec.v
UserProps.v
SessionProps.v
DaemonProps.v
IoProps.v
MainProps.v
PacketProps.v
BsdProps.v
NetlinkProps.v
ConfProps.v
