(* ===== verification/Prelude.v ===== *)
(** * unidoc-ndppd, verified: an NDP proxy daemon

    unidoc-ndppd answers IPv6 Neighbor Solicitations on one interface for targets
    that live behind another one.  For every target it keeps a session: it
    probes the target downstream, and answers upstream once the target has
    advertised itself.  This library is a shallow embedding of the daemon in
    Rocq, with the theorems that make it correct: the Linux build from [main] to
    the exit handler, and the BSD back end of its interfaces and routes.

    ** The program and its model

    The state of the C files is one record [world] (World.v): heaps of
    interfaces, proxies, rules and sessions indexed by locations, the hash
    tables and lists that link them, the routing and address tables, the clock,
    the settings, and the log [w_out] of what was sent.  A C function is a
    computation [M A] of Monad.v: it takes a world and either returns a value and
    a world or faults, where the faults are the undefined behaviours that
    matter here (NULL, a freed object, a read outside a buffer).  What the
    kernel answers is the record [kernel], a parameter of the definitions that
    ask it; the theorems hold for every one.  Around the world is the process
    (Main.v): the objects and descriptors of src/io.c, the credentials, the two
    sockets.  There a computation is a [res] of LinkedList.v, which can also be
    a loop that did not end.

    - Prelude.v: record update, machine integers, bits, tactics.
    - Addr.v: src/addr.c, for hosts of both byte orders (class [ByteOrder]).
    - World.v, Monad.v: the structs of src/ndppd.h; the monad, its
      weakest-precondition rules ([wp]) and the list macros.
    - LinkedList.v: the ND_LL macros of src/ndppd.h on pointers.
    - Packet.v: the frames of src/iface.c: checksums, [nd_iface_send_na],
      [nd_iface_send_ns], [ndL_handle_msg], [ndL_handle_ns], [ndL_handle_na].
    - Filter.v: the BPF program of [ndL_configure_filter] and its machine.
    - Route.v: the tables of src/rt.c; Netlink.v: its requests and the parser
      of its notifications; NetlinkSpec.v: the format of notifications and what
      they say.
    - Iface.v: [nd_iface_open], [nd_iface_close] and sending, and the route
      requests on the world.
    - Session.v: src/session.c.  Proxy.v: src/proxy.c and src/rule.c.
    - Receive.v: [nd_iface_rebind_all] and the two [ndL_io_handler]s.
    - Daemon.v: the order of startup and one iteration of the loop of [main].
    - Text.v: the tokenizer of src/conf.c with the C library functions it calls;
      Conf.v: the block parser and [nd_conf_load].
    - Alloc.v: src/alloc.c, on its own state.
    - Io.v: src/io.c with its two back ends, epoll and poll: creation and
      destruction of [nd_io_t], waiting and dispatch, the receive loop.
    - User.v: the [--user] option of src/ndppd.c, with the lookups in the passwd
      and group files; Privilege.v: [ndL_drop_privileges] on the credentials of a
      process, whose rules are the class [CredRules].
    - Main.v: [main] of src/ndppd.c: options, pid file, network namespace,
      sockets, daemonizing, the loop, the exit handler.
    - Diag.v: src/log.c, [nd_ntoa] and [nd_ll_ntoa], the hash seed, src/mld.c.
    - Bpf.v: the BSD receive handler over BPF buffers; RtSocket.v: the messages
      and requests of the BSD routing socket, RtSocketSpec.v: what they say;
      BsdIface.v: the BSD interfaces with their handles, and the routing socket
      at work.  The layouts of the system headers are the classes [BpfLayout],
      [RtLayout] and [IfLayout].

    ** What is proved

    - Counting.v, Invariant.v: the invariant of the running daemon: exact
      reference counts, both hash tables index exactly the live sessions, every
      pointer is live, every session agrees with its rule.  IfaceSafe.v,
      SessionSafe.v, DaemonSafe.v, StartSafe.v: startup establishes it and every
      handler keeps it, without a fault.  ConfSafe.v: what the parser builds
      from any text it accepts is what startup needs.  ExitSafe.v: the exit
      handler from any such state.
    - IoSafe.v, IoDispatch.v: the invariant of the event loop, and dispatch while
      handlers change the list.  MainSafe.v: the process.
    - SessionSpec.v: the exact effect of each session operation.  SessionLive.v:
      how sessions age over the iterations of the loop.
    - SessionProps.v: refinement of the session state machine, who is answered
      and when, the timer as a pure function, bounds on the backoff, expiry of
      sessions that are never confirmed.
    - DaemonProps.v: memory safety of the whole loop, bounds under flooding,
      exactness of reference counts, lookup, rebinding, longest-prefix routes.
    - IoProps.v: the macros implement lists, the registry of descriptors is
      exact, dispatch is safe, the two back ends call the same handlers.
    - MainProps.v: the program runs from its start to its exit, the loop refines
      the abstract daemon, the handlers drain their sockets, the exit releases
      everything, the loop runs without privileges.
    - UserSpec.v, UserProps.v: what the user option means and that it is read so;
      the order of the credential calls works.
    - PacketProps.v: the receive path never reads outside a frame, what it
      accepts is valid, frames that are sent are read back, checksums against
      RFC 1071, the socket filter against its specification.
    - NetlinkProps.v: notifications decode to what the kernel encoded, datagrams
      that are cut are read within their bytes, and the tables follow them.
    - BsdSafe.v, BsdProps.v: the BSD handles are exact whatever fails and the
      operations run, except that a frame sent on an interface that lost its
      handle dereferences NULL; buffers
      are walked within their bounds and deliver every frame to the same parser
      as on Linux, routing messages decode, rebinding follows the kernel.
    - ConfProps.v: accepted configurations are valid, names fit their buffers.
    - Alloc.v: the allocator never hands out memory that is in use.
    - Diag.v: chained addresses in one log line do not clobber each other, log
      lines fit their buffer.
    - Demo.v: a concrete configuration on which the theorems are instantiated.

    Some theorems state what the code does where it differs from its
    documentation or its intent: retransmissions that ignore their interval,
    advertisements that confirm one session only, routes that are replaced
    unnoticed, odd checksums, static sessions that never expire, comments that
    are none, a user id that keeps root, a daemon that needs a pid file, a
    counter that overflows, a BSD handle that is NULL when it is written to,
    routing messages, replies and netlink errors whose lengths are not looked at.

    ** Bounds and fuel

    The parsers recurse with fuel: the option loop, the attribute and message
    loops, the BPF records and the blocks of the configuration consume at least
    one byte per iteration, so that the length of the buffer plus one is enough,
    which [frame_parser_in_bounds], [notifications_decode], [bpf_handler_safe],
    [routing_messages_decode] and [startup_establishes_invariant] show by
    returning a result.  The BPF machine has as much fuel as the program has
    instructions; its jumps only go forward.  A walk over pointers has one step
    per object of the heap and one more; a loop that uses it up is [Spin], which
    the theorems exclude.  The handlers that drain a socket use up one answer of
    the kernel per iteration.  Times, counters and indices are unbounded
    integers: [long] milliseconds do not overflow, and counters are bounded by
    the limits that are proved; the one counter that is not is shown to overflow
    in Diag.v.

    ** What is assumed

    Netlink datagrams are those a kernel writes: the bytes of well-formed route,
    address, link, error and end-of-dump messages ([notes_wf], [end_wf]), an
    error message with its whole [struct nlmsgerr]; a datagram may be of any
    length and is cut to the buffer of the daemon ([datagram_ok] of
    NetlinkSpec.v).  Routing messages of a BSD have whole headers and, about an
    IPv6 destination, complete addresses and netmasks ([bsd_note_wf]), which
    leaves out default routes and netmasks cut short: on these the code reads
    too far.  Frames and the configuration are arbitrary bytes.  The process is
    started with the descriptors 0 to 2 open.  Handlers that run inside the epoll dispatch do not close other
    objects of the same batch, which those of the daemon satisfy.  The
    credential calls follow [CredRules].

    ** What is not modelled

    The handlers of the components are modelled without their log lines, and
    the formatting of vsnprintf, strftime and inet_ntop is an argument.  System
    calls answer through arguments: [nd_io_send] and [nd_io_bind], which only
    make one, appear as an event and as an answer.  [ndL_error] of src/conf.c
    only logs.  The handlers use heaps with fresh locations instead of the
    allocator; running out of memory ends the process there.  The sessions are
    composed with the Linux interfaces only: on the BSDs the theorems are about
    the back end itself. *)
From Stdlib Require Export ZArith Lia.
From stdpp Require Export base list gmap strings numbers.

Declare Scope ndppd_scope.
Delimit Scope ndppd_scope with ndppd.
#[global] Open Scope ndppd_scope.
#[global] Open Scope Z_scope.

Create HintDb ndppd.

(** ** Functional record update

    [Eta R] rebuilds a record from its projections; from it [derive_setter]
    builds the update function of one field, written [r <| f := v |>]. *)

Class Eta (R : Type) := eta : R → R.

Class Setter {R T : Type} (proj : R → T) := set_field : (T → T) → R → R.
Arguments set_field {R T} proj {_} _ _.

Ltac derive_setter :=
  lazymatch goal with
  | |- @Setter ?R ?T ?p =>
      let upd := constr:(fun (f : T → T) (r : R) =>
        ltac:(let whole := eval cbv beta delta [eta] in (eta r) in
              let whole := eval hnf in whole in
              let abs := eval pattern (p r) in whole in
              lazymatch abs with
              | ?ctx ?old => let res := eval cbv beta in (ctx (f old)) in exact res
              end)) in
      exact upd
  end.

Notation "r <| p := v |>" := (set_field p (fun _ => v) r)
  (at level 1, p at level 9, v at level 200,
   format "r  <| p  :=  v |>") : ndppd_scope.

(** ** Machine integers

    A C unsigned integer of width [n] is a [Z] kept below [2 ^ n]; the
    operations that can leave the range are followed by the wrap-around. *)

Definition u8_max : Z := 2 ^ 8.
Definition u16_max : Z := 2 ^ 16.
Definition u32_max : Z := 2 ^ 32.

Definition wrap32 (x : Z) : Z := x mod u32_max.
Definition wrap16 (x : Z) : Z := x mod u16_max.

Definition is_u8 (x : Z) : Prop := 0 ≤ x < u8_max.
Definition is_u16 (x : Z) : Prop := 0 ≤ x < u16_max.
Definition is_u32 (x : Z) : Prop := 0 ≤ x < u32_max.

#[export] Instance is_u8_dec x : Decision (is_u8 x).
Proof. unfold is_u8; apply _. Defined.
#[export] Instance is_u16_dec x : Decision (is_u16 x).
Proof. unfold is_u16; apply _. Defined.
#[export] Instance is_u32_dec x : Decision (is_u32 x).
Proof. unfold is_u32; apply _. Defined.

Lemma wrap32_range x : is_u32 (wrap32 x).
Proof. apply Z.mod_pos_bound; done. Qed.

Lemma wrap16_range x : is_u16 (wrap16 x).
Proof. apply Z.mod_pos_bound; done. Qed.

Lemma wrap32_small x : is_u32 x → wrap32 x = x.
Proof. apply Z.mod_small. Qed.

Lemma wrap16_small x : is_u16 x → wrap16 x = x.
Proof. apply Z.mod_small. Qed.

#[export] Hint Resolve wrap32_range wrap16_range : ndppd.

(** A [forall] over a small range of integers follows from its evaluation. *)

Lemma range_decide (n : Z) (P : Z → Prop) `{∀ i, Decision (P i)} :
  forallb (λ i, bool_decide (P i)) (seqZ 0 n) = true →
  ∀ i, 0 ≤ i < n → P i.
Proof.
  intros Hall i Hi. rewrite forallb_forall in Hall.
  apply (bool_decide_eq_true_1 (P i)), Hall.
  apply list_elem_of_In, elem_of_seqZ. lia.
Qed.

Ltac by_range n := refine (range_decide n _ _); vm_compute; reflexivity.

(** The same for the large range [0 .. 2 ^ n), walked by halving. *)
Fixpoint all_bits (n : nat) (lo : Z) (P : Z → bool) : bool :=
  match n with
  | O => P lo
  | S n => all_bits n (2 * lo) P && all_bits n (2 * lo + 1) P
  end.

Lemma all_bits_spec n lo P x :
  all_bits n lo P = true → lo * 2 ^ Z.of_nat n ≤ x < (lo + 1) * 2 ^ Z.of_nat n → P x = true.
Proof.
  revert lo. induction n as [|n IH]; intros lo; simpl all_bits.
  - change (2 ^ Z.of_nat 0) with 1. intros HP Hx. by replace x with lo by lia.
  - rewrite andb_true_iff, Nat2Z.inj_succ, Z.pow_succ_r by lia. intros [H0 H1] Hx.
    destruct (decide (x < (2 * lo + 1) * 2 ^ Z.of_nat n)); [apply (IH (2 * lo))|
      apply (IH (2 * lo + 1))]; done || lia.
Qed.

Lemma pow2_range_decide (n : nat) (P : Z → Prop) `{∀ i, Decision (P i)} :
  all_bits n 0 (λ i, bool_decide (P i)) = true →
  ∀ i, 0 ≤ i < 2 ^ Z.of_nat n → P i.
Proof.
  intros Hall i Hi. apply (bool_decide_eq_true_1 (P i)).
  refine (all_bits_spec n 0 (λ j, @bool_decide (P j) (H j)) i Hall _); lia.
Qed.

(** ** Bits *)

Lemma testbit_u n x i : 0 ≤ x < 2 ^ n → n ≤ i → Z.testbit x i = false.
Proof.
  intros Hx Hi. destruct (decide (0 ≤ n)) as [Hn|Hn].
  - rewrite <- (Z.mod_small x (2 ^ n)) by done.
    apply Z.mod_pow2_bits_high. lia.
  - rewrite Z.pow_neg_r in Hx by lia. lia.
Qed.

(** Two [n]-bit integers with the same low [n] bits are equal. *)
Lemma bits_eq_u n x y :
  0 ≤ x < 2 ^ n → 0 ≤ y < 2 ^ n →
  (∀ i, 0 ≤ i < n → Z.testbit x i = Z.testbit y i) → x = y.
Proof.
  intros Hx Hy Hb. apply Z.bits_inj'; intros i Hi.
  destruct (decide (i < n)) as [Hlt|Hge]; [apply Hb; lia|].
  rewrite (testbit_u n x), (testbit_u n y); done || lia.
Qed.

Lemma land_lt_pow2 n x m : 0 ≤ n → 0 ≤ m < 2 ^ n → 0 ≤ Z.land x m < 2 ^ n.
Proof.
  intros Hn Hm.
  assert (Z.land x m = Z.land x m mod 2 ^ n) as ->.
  { apply Z.bits_inj'; intros i Hi. rewrite Z.testbit_mod_pow2 by lia.
    destruct (Z.ltb_spec i n); [done|].
    rewrite Z.land_spec, (testbit_u n m) by lia. by rewrite andb_false_r. }
  apply Z.mod_pos_bound, Z.pow_pos_nonneg; lia.
Qed.

Lemma lor_lt_pow2 n x y :
  0 ≤ n → 0 ≤ x < 2 ^ n → 0 ≤ y < 2 ^ n → 0 ≤ Z.lor x y < 2 ^ n.
Proof.
  intros Hn Hx Hy.
  assert (Z.lor x y = Z.lor x y mod 2 ^ n) as ->.
  { apply Z.bits_inj'; intros i Hi. rewrite Z.testbit_mod_pow2 by lia.
    destruct (Z.ltb_spec i n); [done|].
    rewrite Z.lor_spec, (testbit_u n x), (testbit_u n y) by lia. done. }
  apply Z.mod_pos_bound, Z.pow_pos_nonneg; lia.
Qed.

Lemma land_eq_0_iff n x m :
  0 ≤ n → 0 ≤ m < 2 ^ n →
  Z.land x m = 0 ↔
  ∀ i, 0 ≤ i < n → Z.testbit m i = true → Z.testbit x i = false.
Proof.
  intros Hn Hm. split.
  - intros H0 i Hi Hmi.
    assert (Z.testbit (Z.land x m) i = false) as H1 by by rewrite H0, Z.bits_0.
    rewrite Z.land_spec, Hmi, andb_true_r in H1. done.
  - intros Hall. apply (bits_eq_u n); [by apply land_lt_pow2|lia|].
    intros i Hi. rewrite Z.land_spec, Z.bits_0.
    destruct (Z.testbit m i) eqn:E; [|by rewrite andb_false_r].
    by rewrite (Hall i).
Qed.

(** Induction on a list two elements at a time. *)
Lemma list_ind2 {A} (P : list A → Prop) :
  P [] → (∀ x, P [x]) → (∀ x y l, P l → P (x :: y :: l)) → ∀ l, P l.
Proof.
  intros H0 H1 H2. fix go 1. intros [|x [|y l]]; [exact H0|exact (H1 x)|exact (H2 x y l (go l))].
Qed.

(** ** Proof automation *)

Tactic Notation "case_if" "as" simple_intropattern(pat) :=
  match goal with
  | |- context [if ?b then _ else _] => destruct b eqn:pat
  end.

(** Turns the boolean tests of the code, in hypotheses, into propositions. *)
Ltac reflect_bools :=
  repeat match goal with
  | H : (_ && _) = true |- _ => apply andb_true_iff in H as [? ?]
  | H : (_ || _) = false |- _ => apply orb_false_iff in H as [? ?]
  | H : negb _ = true |- _ => apply negb_true_iff in H
  | H : negb _ = false |- _ => apply negb_false_iff in H
  | H : (_ =? _) = true |- _ => apply Z.eqb_eq in H
  | H : (_ =? _) = false |- _ => apply Z.eqb_neq in H
  | H : (_ <? _) = true |- _ => apply Z.ltb_lt in H
  | H : (_ <? _) = false |- _ => apply Z.ltb_ge in H
  | H : (_ <=? _) = true |- _ => apply Z.leb_le in H
  | H : (_ <=? _) = false |- _ => apply Z.leb_gt in H
  | H : bool_decide _ = true |- _ => apply bool_decide_eq_true_1 in H
  | H : bool_decide _ = false |- _ => apply bool_decide_eq_false_1 in H
  end.

(** Linear arithmetic with division and remainder by constants. *)
Ltac zlia := Z.to_euclidean_division_equations; lia.
