(* ===== verification/Addr.v ===== *)
(** * Addresses (src/addr.c, union nd_addr and struct nd_lladdr of src/ndppd.h)

    An IPv6 address is kept as the code keeps it: four host-order 32-bit words
    that overlay the sixteen network-order bytes.  The byte order of the host is
    the class [ByteOrder]; the prefix masks, the byte view and everything that
    depends on them are given for both orders, as the [#if] in addr.c does. *)
From S2P Require Import Prelude.

Inductive byte_order := BigEndian | LittleEndian.
Class ByteOrder := host_order : byte_order.

(** ** Data *)

(** [union nd_addr]: the [u32] view. *)
Record nd_addr := mk_addr { u32_0 : Z; u32_1 : Z; u32_2 : Z; u32_3 : Z }.

(** [struct nd_lladdr]: six bytes. *)
Record nd_lladdr := mk_ll
  { ll_0 : Z; ll_1 : Z; ll_2 : Z; ll_3 : Z; ll_4 : Z; ll_5 : Z }.

#[export] Instance nd_addr_eq_dec : EqDecision nd_addr.
Proof. solve_decision. Defined.
#[export] Instance nd_lladdr_eq_dec : EqDecision nd_lladdr.
Proof. solve_decision. Defined.

Definition u32 (a : nd_addr) (i : Z) : Z :=
  if i =? 0 then u32_0 a else if i =? 1 then u32_1 a
  else if i =? 2 then u32_2 a else u32_3 a.

(** The words are 32 bits wide. *)
Definition addr_wf (a : nd_addr) : Prop :=
  is_u32 (u32_0 a) ∧ is_u32 (u32_1 a) ∧ is_u32 (u32_2 a) ∧ is_u32 (u32_3 a).

Definition addr_zero : nd_addr := mk_addr 0 0 0 0.
Definition ll_zero : nd_lladdr := mk_ll 0 0 0 0 0 0.

(** ** The code *)

Section code.
Context {BO : ByteOrder}.

(** Position in a 32-bit word of the [i]-th byte of its memory image. *)
Definition byte_shift (i : Z) : Z :=
  match host_order with
  | LittleEndian => 8 * i
  | BigEndian => 8 * (3 - i)
  end.

(** [addr->u8[i]] *)
Definition u8 (a : nd_addr) (i : Z) : Z :=
  Z.land (Z.shiftr (u32 a (i / 4)) (byte_shift (i mod 4))) 0xff.

Definition nd_addr_is_multicast (addr : nd_addr) : bool := u8 addr 0 =? 0xff.

Definition ndL_masks : list Z :=
  match host_order with
  | BigEndian => [
    0x80000000; 0xc0000000; 0xe0000000; 0xf0000000; 0xf8000000; 0xfc000000; 0xfe000000; 0xff000000;
    0xff800000; 0xffc00000; 0xffe00000; 0xfff00000; 0xfff80000; 0xfffc0000; 0xfffe0000; 0xffff0000;
    0xffff8000; 0xffffc000; 0xffffe000; 0xfffff000; 0xfffff800; 0xfffffc00; 0xfffffe00; 0xffffff00;
    0xffffff80; 0xffffffc0; 0xffffffe0; 0xfffffff0; 0xfffffff8; 0xfffffffc; 0xfffffffe; 0xffffffff]
  | LittleEndian => [
    0x00000080; 0x000000c0; 0x000000e0; 0x000000f0; 0x000000f8; 0x000000fc; 0x000000fe; 0x000000ff;
    0x000080ff; 0x0000c0ff; 0x0000e0ff; 0x0000f0ff; 0x0000f8ff; 0x0000fcff; 0x0000feff; 0x0000ffff;
    0x0080ffff; 0x00c0ffff; 0x00e0ffff; 0x00f0ffff; 0x00f8ffff; 0x00fcffff; 0x00feffff; 0x00ffffff;
    0x80ffffff; 0xc0ffffff; 0xe0ffffff; 0xf0ffffff; 0xf8ffffff; 0xfcffffff; 0xfeffffff; 0xffffffff]
  end.

(** [ndL_masks[i]] *)
Definition ndL_mask (i : Z) : Z := nth (Z.to_nat i) ndL_masks 0.

Definition nd_addr_eq (first second : nd_addr) : bool :=
  (u32_0 first =? u32_0 second) && (u32_1 first =? u32_1 second) &&
  (u32_2 first =? u32_2 second) && (u32_3 first =? u32_3 second).

(** The loop returns false at the first word that differs under its mask. *)
Definition nd_addr_match (first second : nd_addr) (pflen : Z) : bool :=
  if 128 <? pflen then false
  else if pflen =? 0 then true
  else if pflen =? 128 then nd_addr_eq first second
  else
    let top := Z.shiftr (pflen - 1) 5 in
    forallb (λ i,
      let mask := if i <? top then 0xffffffff else ndL_mask (Z.land (pflen - 1) 31) in
      Z.land (Z.lxor (u32 first i) (u32 second i)) mask =? 0)
      (seqZ 0 (top + 1)).

(** The body of the loop of [nd_addr_combine]: the word it stores at [i]. *)
Definition combine_word (first second : nd_addr) (pflen i : Z) : Z :=
  let top := Z.shiftr (pflen - 1) 5 in
  if i =? top then
    let mask := ndL_mask (Z.land (pflen - 1) 31) in
    Z.lor (Z.land (u32 first i) mask) (Z.land (u32 second i) (Z.lxor mask 0xffffffff))
  else if i <? top then u32 first i
  else u32 second i.

Definition nd_addr_combine (first second : nd_addr) (pflen : Z) : nd_addr :=
  if pflen =? 0 then second
  else if 128 <=? pflen then first
  else
    let word := combine_word first second pflen in
    mk_addr (word 0) (word 1) (word 2) (word 3).

(** [nd_addr_hash]; the randomised seed [ndL_hash_seed] is an argument. *)
Definition nd_addr_hash (seed : Z) (addr : nd_addr) : Z :=
  let hash := seed in
  let hash := wrap32 (31 * hash + u32_0 addr) in
  let hash := wrap32 (31 * hash + u32_1 addr) in
  let hash := wrap32 (31 * hash + u32_2 addr) in
  let hash := wrap32 (31 * hash + u32_3 addr) in
  hash.

Definition ndL_count_bits (value : Z) : Z :=
  let value := wrap32 (Z.land value 0x55555555 + Z.land (Z.shiftr value 1) 0x55555555) in
  let value := wrap32 (Z.land value 0x33333333 + Z.land (Z.shiftr value 2) 0x33333333) in
  let value := wrap32 (Z.land value 0x0f0f0f0f + Z.land (Z.shiftr value 4) 0x0f0f0f0f) in
  let value := wrap32 (Z.land value 0x00ff00ff + Z.land (Z.shiftr value 8) 0x00ff00ff) in
  let value := wrap32 (Z.land value 0x0000ffff + Z.land (Z.shiftr value 16) 0x0000ffff) in
  value.

Definition nd_mask_to_pflen (netmask : nd_addr) : Z :=
  ndL_count_bits (u32_0 netmask) + ndL_count_bits (u32_1 netmask) +
  ndL_count_bits (u32_2 netmask) + ndL_count_bits (u32_3 netmask).

Definition nd_mask_from_pflen (pflen : Z) : nd_addr :=
  if pflen =? 0 then mk_addr 0 0 0 0
  else if 128 <=? pflen then mk_addr 0xffffffff 0xffffffff 0xffffffff 0xffffffff
  else
    let top := Z.shiftr (pflen - 1) 5 in
    let word i :=
      if i =? top then ndL_mask (Z.land (pflen - 1) 31)
      else if i <? top then 0xffffffff
      else 0 in
    mk_addr (word 0) (word 1) (word 2) (word 3).

Definition nd_addr_is_unspecified (addr : nd_addr) : bool :=
  (u32_0 addr =? 0) && (u32_1 addr =? 0) && (u32_2 addr =? 0) && (u32_3 addr =? 0).

(** [!memcmp(first, second, sizeof(nd_lladdr_t))] *)
Definition nd_lladdr_eq (first second : nd_lladdr) : bool :=
  (ll_0 first =? ll_0 second) && (ll_1 first =? ll_1 second) &&
  (ll_2 first =? ll_2 second) && (ll_3 first =? ll_3 second) &&
  (ll_4 first =? ll_4 second) && (ll_5 first =? ll_5 second).

Definition nd_lladdr_is_unspecified (lladdr : nd_lladdr) : bool :=
  (ll_0 lladdr =? 0) && (ll_1 lladdr =? 0) && (ll_2 lladdr =? 0) &&
  (ll_3 lladdr =? 0) && (ll_4 lladdr =? 0) && (ll_5 lladdr =? 0).

(** ** Specification: the bits of an address in network order

    Bit 0 is the most significant bit of byte 0, as prefixes count them. *)
Definition addr_bit (a : nd_addr) (i : Z) : bool :=
  Z.testbit (u8 a (i / 8)) (7 - i mod 8).

(** Where the [j]-th network-order bit of a word sits in the host-order word. *)
Definition bit_pos (j : Z) : Z :=
  byte_shift (j / 8) + (7 - j mod 8).

(** ** Lemmas *)

Lemma nd_addr_eq_spec a b : nd_addr_eq a b = true ↔ a = b.
Proof.
  unfold nd_addr_eq. destruct a, b; simpl. rewrite !andb_true_iff, !Z.eqb_eq.
  split; [intros; destruct_and!; by subst|by injection 1 as -> -> -> ->].
Qed.

Lemma nd_addr_eq_refl a : nd_addr_eq a a = true.
Proof. by apply nd_addr_eq_spec. Qed.

Lemma nd_lladdr_eq_spec a b : nd_lladdr_eq a b = true ↔ a = b.
Proof.
  unfold nd_lladdr_eq. destruct a, b; simpl. rewrite !andb_true_iff, !Z.eqb_eq.
  split; [intros; destruct_and!; by subst|by injection 1 as -> -> -> -> -> ->].
Qed.

Lemma nd_addr_is_unspecified_spec a : nd_addr_is_unspecified a = true ↔ a = addr_zero.
Proof.
  unfold nd_addr_is_unspecified, addr_zero. destruct a; simpl.
  rewrite !andb_true_iff, !Z.eqb_eq. split; [intros; destruct_and!; by subst|by injection 1 as -> -> -> ->].
Qed.

Lemma nd_lladdr_is_unspecified_spec a : nd_lladdr_is_unspecified a = true ↔ a = ll_zero.
Proof.
  unfold nd_lladdr_is_unspecified, ll_zero. destruct a; simpl.
  rewrite !andb_true_iff, !Z.eqb_eq.
  split; [intros; destruct_and!; by subst|by injection 1 as -> -> -> -> -> ->].
Qed.

Lemma u32_range a i : addr_wf a → is_u32 (u32 a i).
Proof. intros (?&?&?&?). unfold u32. repeat case_match; done. Qed.

Lemma u32_mk (f : Z → Z) w :
  0 ≤ w < 4 → u32 (mk_addr (f 0) (f 1) (f 2) (f 3)) w = f w.
Proof.
  intros Hw. assert (w = 0 ∨ w = 1 ∨ w = 2 ∨ w = 3) as [-> |[-> |[-> | ->]]] by lia; done.
Qed.

Lemma nd_addr_hash_range seed a : is_u32 (nd_addr_hash seed a).
Proof. unfold nd_addr_hash. auto with ndppd. Qed.

(** *** The bit order of a word *)

Lemma bit_pos_range j : 0 ≤ j < 32 → 0 ≤ bit_pos j < 32.
Proof. unfold bit_pos, byte_shift. destruct host_order; zlia. Qed.

Lemma bit_pos_invol j : 0 ≤ j < 32 → bit_pos (bit_pos j) = j.
Proof. unfold bit_pos, byte_shift. destruct host_order; zlia. Qed.

Lemma addr_bit_word a i :
  0 ≤ i < 128 → addr_bit a i = Z.testbit (u32 a (i / 32)) (bit_pos (i mod 32)).
Proof.
  intros Hi. unfold addr_bit, u8, bit_pos.
  rewrite Z.land_spec, Z.shiftr_spec by zlia.
  replace (i / 8 / 4) with (i / 32) by zlia.
  replace ((i / 8) mod 4) with ((i mod 32) / 8) by zlia.
  replace ((i mod 32) mod 8) with (i mod 8) by zlia.
  rewrite (Z.add_comm (7 - _)).
  change 255 with (Z.ones 8). rewrite Z.ones_spec_low by zlia.
  by rewrite andb_true_r.
Qed.

(** Every mask of the table selects exactly the leading bits it stands for. *)
Lemma ndL_mask_bit k j :
  0 ≤ k < 32 → 0 ≤ j < 32 → Z.testbit (ndL_mask k) (bit_pos j) = (j <=? k).
Proof.
  intros Hk Hj. revert k Hk.
  apply (range_decide 32 (λ k, Z.testbit (ndL_mask k) (bit_pos j) = (j <=? k))).
  revert j Hj.
  apply (range_decide 32 (λ j, forallb
    (λ k, bool_decide (Z.testbit (ndL_mask k) (bit_pos j) = (j <=? k))) (seqZ 0 32) = true)).
  unfold ndL_mask, ndL_masks, bit_pos, byte_shift.
  destruct host_order; vm_compute; reflexivity.
Qed.

Lemma ndL_mask_range k : is_u32 (ndL_mask k).
Proof.
  unfold ndL_mask. destruct (nth_in_or_default (Z.to_nat k) ndL_masks 0) as [Hin| ->];
    [|done].
  revert Hin. generalize (nth (Z.to_nat k) ndL_masks 0). intros x Hx.
  assert (Forall is_u32 ndL_masks) as Hall.
  { unfold ndL_masks. destruct host_order; apply (bool_decide_unpack _);
      vm_compute; exact I. }
  rewrite List.Forall_forall in Hall. auto.
Qed.

Lemma word_mask_match x y k :
  0 ≤ k < 32 →
  Z.land (Z.lxor x y) (ndL_mask k) = 0 ↔
  ∀ j, 0 ≤ j ≤ k → Z.testbit x (bit_pos j) = Z.testbit y (bit_pos j).
Proof.
  intros Hk. rewrite (land_eq_0_iff 32) by (done || apply ndL_mask_range).
  split.
  - intros Hall j Hj. apply xorb_eq. rewrite <- Z.lxor_spec.
    apply Hall; [apply bit_pos_range; lia|].
    rewrite ndL_mask_bit by lia. apply Z.leb_le. lia.
  - intros Hall p Hp Hm. rewrite <- (bit_pos_invol p) in Hm |- * by done.
    pose proof (bit_pos_range p Hp).
    rewrite ndL_mask_bit in Hm by lia. apply Z.leb_le in Hm.
    rewrite Z.lxor_spec, Hall by lia. apply xorb_nilpotent.
Qed.

Lemma mask31 : 0xffffffff = ndL_mask 31.
Proof. unfold ndL_mask, ndL_masks. by destruct host_order. Qed.

(** Two words agree on every bit when they agree on the bits in network order. *)
Lemma word_eq_bits x y :
  is_u32 x → is_u32 y →
  (∀ j, 0 ≤ j < 32 → Z.testbit x (bit_pos j) = Z.testbit y (bit_pos j)) → x = y.
Proof.
  intros Hx Hy Hall. apply (bits_eq_u 32); [done..|].
  intros i Hi. rewrite <- (bit_pos_invol i) by done. apply Hall, bit_pos_range, Hi.
Qed.

Lemma addr_eq_bits a b :
  addr_wf a → addr_wf b →
  (∀ i, 0 ≤ i < 128 → addr_bit a i = addr_bit b i) → a = b.
Proof.
  intros Ha Hb Hall.
  assert (∀ w, 0 ≤ w < 4 → u32 a w = u32 b w) as Hw.
  { intros w Hw. apply word_eq_bits; [by apply u32_range..|].
    intros j Hj. specialize (Hall (32 * w + j)).
    rewrite !addr_bit_word in Hall by lia.
    replace ((32 * w + j) / 32) with w in Hall by zlia.
    replace ((32 * w + j) mod 32) with j in Hall by zlia. apply Hall; lia. }
  pose proof (Hw 0). pose proof (Hw 1). pose proof (Hw 2). pose proof (Hw 3).
  destruct a, b; unfold u32 in *; simpl in *. f_equal; auto with lia.
Qed.

(** The loop of [nd_addr_match] compares exactly the first [pflen] bits. *)
Lemma nd_addr_match_loop a b pflen :
  0 < pflen < 128 →
  nd_addr_match a b pflen = true ↔
  ∀ w, 0 ≤ w ≤ (pflen - 1) / 32 →
    ∀ j, 0 ≤ j < 32 → 32 * w + j < pflen →
      Z.testbit (u32 a w) (bit_pos j) = Z.testbit (u32 b w) (bit_pos j).
Proof.
  intros Hp. unfold nd_addr_match.
  destruct (Z.ltb_spec 128 pflen); [lia|]. destruct (Z.eqb_spec pflen 0); [lia|].
  destruct (Z.eqb_spec pflen 128); [lia|].
  rewrite Z.shiftr_div_pow2 by zlia. change (2 ^ 5) with 32.
  change 31 with (Z.ones 5) at 1. rewrite Z.land_ones by zlia. change (2 ^ 5) with 32.
  rewrite forallb_forall.
  setoid_rewrite Z.eqb_eq. setoid_rewrite <- list_elem_of_In.
  setoid_rewrite elem_of_seqZ.
  split.
  - intros Hall w Hw j Hj Hlt. specialize (Hall w ltac:(zlia)).
    destruct (Z.ltb_spec w ((pflen - 1) / 32)).
    + rewrite mask31, word_mask_match in Hall by zlia. apply Hall; zlia.
    + rewrite word_mask_match in Hall by zlia. apply Hall; zlia.
  - intros Hall w Hw. destruct (Z.ltb_spec w ((pflen - 1) / 32)).
    + rewrite mask31, word_mask_match by zlia. intros; apply Hall; zlia.
    + rewrite word_mask_match by zlia. intros; apply Hall; zlia.
Qed.

Lemma nd_addr_match_bits a b pflen :
  addr_wf a → addr_wf b → 0 ≤ pflen ≤ 128 →
  nd_addr_match a b pflen = true ↔
  ∀ i, 0 ≤ i < pflen → addr_bit a i = addr_bit b i.
Proof.
  intros Ha Hb Hp.
  destruct (decide (pflen = 0)) as [-> |H0]; [unfold nd_addr_match; simpl; split; [lia|done]|].
  destruct (decide (pflen = 128)) as [-> |H128].
  { unfold nd_addr_match. simpl. rewrite nd_addr_eq_spec. split; [by intros ->|].
    by apply addr_eq_bits. }
  rewrite nd_addr_match_loop by zlia. split.
  - intros Hall i Hi. rewrite !addr_bit_word by zlia. apply Hall; zlia.
  - intros Hall w Hw j Hj Hlt. specialize (Hall (32 * w + j)).
    rewrite !addr_bit_word in Hall by zlia.
    replace ((32 * w + j) / 32) with w in Hall by zlia.
    replace ((32 * w + j) mod 32) with j in Hall by zlia. apply Hall; zlia.
Qed.

(** *** Combining a prefix with a host part *)

Lemma combine_word_range x y k :
  is_u32 x → is_u32 y →
  is_u32 (Z.lor (Z.land x (ndL_mask k)) (Z.land y (Z.lxor (ndL_mask k) 0xffffffff))).
Proof.
  intros Hx Hy. apply (lor_lt_pow2 32); [lia|..].
  - apply land_lt_pow2, ndL_mask_range. lia.
  - rewrite Z.land_comm. by apply land_lt_pow2.
Qed.

Lemma combine_word_bit x y k j :
  0 ≤ k < 32 → 0 ≤ j < 32 →
  Z.testbit (Z.lor (Z.land x (ndL_mask k)) (Z.land y (Z.lxor (ndL_mask k) 0xffffffff)))
    (bit_pos j) =
  if j <=? k then Z.testbit x (bit_pos j) else Z.testbit y (bit_pos j).
Proof.
  intros Hk Hj. pose proof (bit_pos_range j Hj).
  rewrite Z.lor_spec, !Z.land_spec, Z.lxor_spec, ndL_mask_bit by done.
  change 0xffffffff with (Z.ones 32). rewrite Z.ones_spec_low by lia.
  destruct (j <=? k), (Z.testbit x _), (Z.testbit y _); done.
Qed.

Lemma nd_addr_combine_wf a b pflen :
  addr_wf a → addr_wf b → addr_wf (nd_addr_combine a b pflen).
Proof.
  intros Ha Hb. unfold nd_addr_combine.
  destruct (pflen =? 0); [done|]. destruct (128 <=? pflen); [done|].
  cbv zeta. unfold addr_wf, combine_word; simpl.
  repeat split; repeat case_match;
    first [apply combine_word_range|idtac]; by apply u32_range.
Qed.

Lemma nd_addr_combine_bits a b pflen i :
  0 ≤ pflen → 0 ≤ i < 128 →
  addr_bit (nd_addr_combine a b pflen) i =
  if i <? pflen then addr_bit a i else addr_bit b i.
Proof.
  intros Hp Hi. unfold nd_addr_combine.
  destruct (Z.eqb_spec pflen 0) as [-> |H0]; [by destruct (Z.ltb_spec i 0); [lia|]|].
  destruct (Z.leb_spec 128 pflen); [by destruct (Z.ltb_spec i pflen); [|lia]|].
  rewrite !addr_bit_word by done. cbv zeta. rewrite u32_mk by zlia. unfold combine_word.
  rewrite Z.shiftr_div_pow2 by lia. change (2 ^ 5) with 32.
  change 31 with (Z.ones 5). rewrite Z.land_ones by lia. change (2 ^ 5) with 32.
  destruct (Z.eqb_spec (i / 32) ((pflen - 1) / 32)) as [Hw|Hw].
  - rewrite combine_word_bit by zlia.
    destruct (Z.leb_spec (i mod 32) ((pflen - 1) mod 32)), (Z.ltb_spec i pflen);
      done || zlia.
  - destruct (Z.ltb_spec (i / 32) ((pflen - 1) / 32)), (Z.ltb_spec i pflen); done || zlia.
Qed.

(** *** Counting bits *)

(** The number of bits set among the lowest [n]. *)
Fixpoint popcount (n : nat) (x : Z) : Z :=
  match n with
  | O => 0
  | S n => Z.b2z (Z.testbit x (Z.of_nat n)) + popcount n x
  end.
End code.

(** One halving step of the bit count acts on the two 16-bit halves separately. *)
Lemma land_halves x y a b :
  0 ≤ x < 2 ^ 16 → 0 ≤ a < 2 ^ 16 → 0 ≤ y → 0 ≤ b →
  Z.land (x + 2 ^ 16 * y) (a + 2 ^ 16 * b) = Z.land x a + 2 ^ 16 * Z.land y b.
Proof.
  intros Hx Ha Hy Hb.
  assert (∀ u v, 0 ≤ u < 2 ^ 16 → u + 2 ^ 16 * v = Z.lor u (Z.shiftl v 16)) as Hor.
  { intros u v Hu. rewrite (Z.mul_comm _ v), <- Z.shiftl_mul_pow2 by lia.
    rewrite Z.add_nocarry_lxor, <- Z.lxor_lor; try done;
    apply Z.bits_inj'; intros i Hi; rewrite Z.land_spec, Z.bits_0;
    (destruct (Z.ltb_spec i 16);
      [rewrite Z.shiftl_spec_low by done; apply andb_false_r
      |by rewrite (testbit_u 16 u) by lia]). }
  rewrite !Hor by (done || by apply land_lt_pow2).
  apply Z.bits_inj'; intros i Hi.
  rewrite Z.land_spec, !Z.lor_spec, Z.land_spec.
  destruct (Z.ltb_spec i 16).
  - rewrite !Z.shiftl_spec_low by done. by rewrite !orb_false_r.
  - rewrite !Z.shiftl_spec by lia. rewrite Z.land_spec.
    rewrite (testbit_u 16 x), (testbit_u 16 a) by lia. done.
Qed.

Lemma count_step k a l h :
  0 < k < 16 → 0 ≤ a < 2 ^ (16 - k) → 2 * a < 2 ^ 16 →
  0 ≤ l < 2 ^ 16 → 0 ≤ h < 2 ^ 16 →
  let step x := Z.land x a + Z.land (Z.shiftr x k) a in
  wrap32 (Z.land (l + 2 ^ 16 * h) (a + 2 ^ 16 * a) +
          Z.land (Z.shiftr (l + 2 ^ 16 * h) k) (a + 2 ^ 16 * a)) =
  step l + 2 ^ 16 * step h ∧
  0 ≤ step l < 2 ^ 16 ∧ 0 ≤ step h < 2 ^ 16.
Proof.
  intros Hk Ha H2 Hl Hh step.
  pose proof (Z.pow_le_mono_r 2 (16 - k) 16 ltac:(lia) ltac:(lia)) as Hle.
  assert (0 < 2 ^ k) as Hpk by (apply Z.pow_pos_nonneg; lia).
  assert (0 < 2 ^ (16 - k)) as Hpk' by (apply Z.pow_pos_nonneg; lia).
  assert (2 ^ 16 = 2 ^ (16 - k) * 2 ^ k) as Hpow.
  { rewrite <- Z.pow_add_r by lia. f_equal. lia. }
  assert (∀ x, 0 ≤ Z.land x a ≤ a) as Hland.
  { intros x. split; [apply Z.land_nonneg; lia|]. rewrite Z.land_comm.
    apply Z.ldiff_le; [lia|]. apply Z.bits_inj'; intros i Hi.
    rewrite Z.ldiff_spec, Z.land_spec, Z.bits_0.
    by destruct (Z.testbit a i), (Z.testbit x i). }
  assert (∀ x, 0 ≤ step x < 2 ^ 16) as Hstep.
  { intros x. unfold step. pose proof (Hland x). pose proof (Hland (Z.shiftr x k)). lia. }
  split; [|by split].
  assert (Z.shiftr (l + 2 ^ 16 * h) k =
          (Z.shiftr l k + 2 ^ (16 - k) * (h mod 2 ^ k)) + 2 ^ 16 * Z.shiftr h k) as ->.
  { rewrite !Z.shiftr_div_pow2 by lia. rewrite Hpow.
    replace (l + 2 ^ (16 - k) * 2 ^ k * h) with (l + 2 ^ (16 - k) * h * 2 ^ k) by ring.
    rewrite Z.div_add by lia. rewrite (Z.div_mod h (2 ^ k)) at 1 by lia. ring. }
  assert (0 ≤ Z.shiftr l k < 2 ^ (16 - k)) as Hlk.
  { rewrite Z.shiftr_div_pow2 by lia. split; [apply Z.div_pos; lia|].
    apply Z.div_lt_upper_bound; lia. }
  pose proof (Z.mod_pos_bound h (2 ^ k) Hpk) as Hmod.
  rewrite !land_halves by (done || (try apply Z.shiftr_nonneg); nia).
  assert (Z.land (Z.shiftr l k + 2 ^ (16 - k) * (h mod 2 ^ k)) a =
          Z.land (Z.shiftr l k) a) as ->.
  { apply (bits_eq_u (16 - k)); [by apply land_lt_pow2; [lia|]..|].
    intros i Hi. rewrite !Z.land_spec. f_equal.
    rewrite <- (Z.mod_pow2_bits_low _ (16 - k)) by lia.
    rewrite Z.mul_comm, Z.mod_add by lia. by rewrite Z.mod_small. }
  rewrite wrap32_small; [unfold step; ring|].
  pose proof (Hstep l). pose proof (Hstep h). unfold step in *. unfold is_u32, u32_max.
  change (2 ^ 32) with (2 ^ 16 * 2 ^ 16). lia.
Qed.

(** The four steps on a half, evaluated on all of them. *)
Definition half_count (x : Z) : Z :=
  let x := Z.land x 0x5555 + Z.land (Z.shiftr x 1) 0x5555 in
  let x := Z.land x 0x3333 + Z.land (Z.shiftr x 2) 0x3333 in
  let x := Z.land x 0x0f0f + Z.land (Z.shiftr x 4) 0x0f0f in
  Z.land x 0x00ff + Z.land (Z.shiftr x 8) 0x00ff.

Lemma half_count_popcount x : 0 ≤ x < 2 ^ 16 → half_count x = popcount 16 x.
Proof. revert x. refine (pow2_range_decide 16 _ _). vm_compute. reflexivity. Qed.

Lemma popcount_halves l h :
  0 ≤ l < 2 ^ 16 → popcount 32 (l + 2 ^ 16 * h) = popcount 16 l + popcount 16 h.
Proof.
  intros Hl. assert (∀ i, 0 ≤ i → Z.testbit (l + 2 ^ 16 * h) i =
    if i <? 16 then Z.testbit l i else Z.testbit h (i - 16)) as Hb.
  { intros i Hi. destruct (Z.ltb_spec i 16).
    - rewrite <- (Z.mod_pow2_bits_low _ 16) by zlia.
      rewrite Z.mul_comm, Z.mod_add by zlia. by rewrite Z.mod_small.
    - replace i with ((i - 16) + 16) at 1 by zlia. rewrite <- Z.div_pow2_bits by lia.
      rewrite Z.mul_comm, Z.div_add by zlia. by rewrite Z.div_small. }
  assert (∀ n, (n ≤ 16)%nat → popcount n (l + 2 ^ 16 * h) = popcount n l) as Hlow.
  { induction n as [|n IH]; intros Hn; cbn [popcount]; [done|].
    rewrite IH, Hb by lia. by destruct (Z.ltb_spec (Z.of_nat n) 16); [|lia]. }
  enough (∀ n, popcount (n + 16) (l + 2 ^ 16 * h) = popcount 16 l + popcount n h) as Hn
    by apply (Hn 16%nat).
  induction n as [|n IH]; [cbn [Nat.add]; rewrite Hlow by lia; cbn; lia|].
  cbn [Nat.add]. rewrite (eq_refl : popcount (S (n + 16)) _ = Z.b2z _ + popcount (n + 16) _).
  rewrite (eq_refl : popcount (S n) h = Z.b2z _ + popcount n h).
  rewrite IH, Hb by lia. destruct (Z.ltb_spec (Z.of_nat (n + 16)) 16); [lia|].
  replace (Z.of_nat (n + 16) - 16) with (Z.of_nat n) by lia. lia.
Qed.

Lemma ndL_count_bits_popcount v : is_u32 v → ndL_count_bits v = popcount 32 v.
Proof.
  intros Hv.
  assert (v = v mod 2 ^ 16 + 2 ^ 16 * (v / 2 ^ 16)) as Hsplit.
  { pose proof (Z.div_mod v (2 ^ 16)). lia. }
  pose proof (Z.mod_pos_bound v (2 ^ 16) ltac:(lia)) as Hl.
  assert (0 ≤ v / 2 ^ 16 < 2 ^ 16) as Hh by (unfold is_u32, u32_max in Hv; zlia).
  revert Hsplit Hl Hh. generalize (v mod 2 ^ 16) (v / 2 ^ 16). intros l h -> Hl Hh.
  rewrite popcount_halves by done. rewrite <- !half_count_popcount by done.
  unfold ndL_count_bits, half_count.
  change 0x55555555 with (0x5555 + 2 ^ 16 * 0x5555).
  change 0x33333333 with (0x3333 + 2 ^ 16 * 0x3333).
  change 0x0f0f0f0f with (0x0f0f + 2 ^ 16 * 0x0f0f).
  change 0x00ff00ff with (0x00ff + 2 ^ 16 * 0x00ff).
  destruct (count_step 1 0x5555 l h) as (-> & Hl1 & Hh1); [done..|].
  destruct (λ H1 H2 H3, count_step 2 0x3333 _ _ H1 H2 H3 Hl1 Hh1) as (-> & Hl2 & Hh2); [done..|].
  destruct (λ H1 H2 H3, count_step 4 0x0f0f _ _ H1 H2 H3 Hl2 Hh2) as (-> & Hl3 & Hh3); [done..|].
  destruct (λ H1 H2 H3, count_step 8 0x00ff _ _ H1 H2 H3 Hl3 Hh3) as (-> & Hl4 & Hh4); [done..|].
  match goal with |- context [Z.land (?x + 2 ^ 16 * ?y) 0xffff] => set (c := x); set (d := y) end.
  change 0x0000ffff with (Z.ones 16). rewrite !Z.land_ones, Z.shiftr_div_pow2 by lia.
  fold c in Hl4. fold d in Hh4.
  rewrite (Z.mul_comm _ d), Z.mod_add, Z.div_add by lia.
  rewrite (Z.div_small c), !Z.mod_small by lia. simpl.
  rewrite wrap32_small; [lia|]. unfold is_u32, u32_max. lia.
Qed.

Lemma mask_roundtrip_all {BO : ByteOrder} pflen :
  0 ≤ pflen < 129 →
  nd_mask_to_pflen (nd_mask_from_pflen pflen) = pflen ∧
  forallb (λ i, Bool.eqb (addr_bit (nd_mask_from_pflen pflen) i) (i <? pflen)) (seqZ 0 128) = true.
Proof.
  revert pflen.
  refine (range_decide 129 (λ p, nd_mask_to_pflen (nd_mask_from_pflen p) = p ∧
    forallb (λ i, Bool.eqb (addr_bit (nd_mask_from_pflen p) i) (i <? p)) (seqZ 0 128) = true) _).
  destruct BO; vm_compute; reflexivity.
Qed.

(** A little-endian host, on which the examples are evaluated. *)
Definition x86_host : ByteOrder := LittleEndian.

(** ** Properties *)

(** C40: [nd_addr_match] returns true exactly when the first [pflen] bits of the
    two addresses, in network order, are the same, for every prefix length the
    configuration and the routing table can hold and on both byte orders. *)
Theorem addr_match_prefix {BO : ByteOrder} a b pflen :
  addr_wf a → addr_wf b → 0 ≤ pflen ≤ 128 →
  nd_addr_match a b pflen = true ↔ ∀ i, 0 ≤ i < pflen → addr_bit a i = addr_bit b i.
Proof. apply nd_addr_match_bits. Qed.

(** [nd_addr_combine] takes the first [pflen] bits from the first address and
    the others from the second, and the result matches the first address as a
    prefix of that length: the [rewrite] of a rule moves the target into the
    rewritten prefix and keeps its host part. *)
Theorem addr_combine_rewrites {BO : ByteOrder} a b pflen :
  addr_wf a → addr_wf b → 0 ≤ pflen ≤ 128 →
  addr_wf (nd_addr_combine a b pflen) ∧
  (∀ i, 0 ≤ i < 128 → addr_bit (nd_addr_combine a b pflen) i =
     if i <? pflen then addr_bit a i else addr_bit b i) ∧
  nd_addr_match a (nd_addr_combine a b pflen) pflen = true.
Proof.
  intros Ha Hb Hp. split; [by apply nd_addr_combine_wf|]. split.
  - intros i Hi. apply nd_addr_combine_bits; lia.
  - apply nd_addr_match_bits; [done|by apply nd_addr_combine_wf|done|].
    intros i Hi. rewrite nd_addr_combine_bits by lia. by destruct (Z.ltb_spec i pflen); [|lia].
Qed.

(** the mask [nd_mask_from_pflen] builds has exactly its first [pflen] bits
    set, and [nd_mask_to_pflen] reads the length back, for every length from 0 to
    128 and both byte orders. *)
Theorem mask_pflen_roundtrip {BO : ByteOrder} pflen :
  0 ≤ pflen ≤ 128 →
  nd_mask_to_pflen (nd_mask_from_pflen pflen) = pflen ∧
  ∀ i, 0 ≤ i < 128 → addr_bit (nd_mask_from_pflen pflen) i = (i <? pflen).
Proof.
  intros Hp. destruct (mask_roundtrip_all pflen) as [Hrt Hbits]; [lia|].
  split; [done|]. intros i Hi. rewrite forallb_forall in Hbits.
  apply eqb_prop, Hbits, list_elem_of_In, elem_of_seqZ. lia.
Qed.

(** the branch-free bit count of [ndL_count_bits] is the number of set bits
    of its 32-bit argument. *)
Theorem count_bits_popcount v : is_u32 v → ndL_count_bits v = popcount 32 v.
Proof. apply ndL_count_bits_popcount. Qed.

(** ** Witnesses *)

Section witnesses.
#[local] Existing Instance x86_host.

(** 2001:db8::1 and 2001:db8::2 on a little-endian host: tests/unit.c. *)
Definition unit_a : nd_addr := mk_addr 0xb80d0120 0 0 0x01000000.
Definition unit_b : nd_addr := mk_addr 0xb80d0120 0 0 0x02000000.

Lemma addr_match_prefix_witness :
  nd_addr_match unit_a unit_b 64 = true ∧
  (∀ i, 0 ≤ i < 64 → addr_bit unit_a i = addr_bit unit_b i).
Proof.
  assert (nd_addr_match unit_a unit_b 64 = true) as H by reflexivity.
  split; [exact H|].
  apply (addr_match_prefix unit_a unit_b 64);
    [repeat split; vm_compute; congruence..|lia|exact H].
Defined.

(** fd00:1::/64 combined with ::5 is fd00:1::5: tests/unit.c. *)
Lemma addr_combine_rewrites_witness :
  nd_addr_combine (mk_addr 0x010000fd 0 0 0) (mk_addr 0 0 0 0x05000000) 64
    = mk_addr 0x010000fd 0 0 0x05000000 ∧
  nd_addr_match (mk_addr 0x010000fd 0 0 0)
    (nd_addr_combine (mk_addr 0x010000fd 0 0 0) (mk_addr 0 0 0 0x05000000) 64) 64
    = true.
Proof.
  split; [reflexivity|].
  apply (addr_combine_rewrites (mk_addr 0x010000fd 0 0 0) (mk_addr 0 0 0 0x05000000) 64);
    [repeat split; vm_compute; congruence..|lia].
Defined.

Lemma mask_pflen_roundtrip_witness :
  nd_mask_to_pflen (nd_mask_from_pflen 48) = 48 ∧
  addr_bit (nd_mask_from_pflen 48) 47 = true.
Proof.
  destruct (mask_pflen_roundtrip 48) as [H1 H2]; [lia|].
  split; [exact H1|]. rewrite (H2 47); [reflexivity|lia].
Defined.

Lemma count_bits_popcount_witness : ndL_count_bits 0xc0ffee01 = 17.
Proof. rewrite (count_bits_popcount 0xc0ffee01); [reflexivity|split; vm_compute; congruence]. Defined.
End witnesses.
