(* ===== verification/World.v ===== *)
(** * Data structures and the state of the daemon (src/ndppd.h)

    The structs of ndppd.h as records.  A pointer to a heap object is its
    location, an option when it may be NULL; the objects that are shared
    between components (interfaces, proxies, rules, sessions) live in one heap
    per type, and the [static] variables of the modules are fields of [world].
    An intrusive linked list is the list of the locations on it, head first.

    Every operation of the daemon is a computation [M A]: it transforms the
    world, and it faults when the C code would dereference NULL or an object
    that has been freed. *)
From S2P Require Import Prelude Addr.

Abbreviation loc := nat.

(** ** Enums *)

Inductive nd_state := ND_STATE_INCOMPLETE | ND_STATE_VALID | ND_STATE_STALE | ND_STATE_INVALID.
Inductive nd_mode := ND_MODE_UNKNOWN | ND_MODE_STATIC | ND_MODE_IFACE | ND_MODE_AUTO.

#[export] Instance nd_state_eq_dec : EqDecision nd_state.
Proof. solve_decision. Defined.
#[export] Instance nd_mode_eq_dec : EqDecision nd_mode.
Proof. solve_decision. Defined.

(** ** Structs *)

(** [struct nd_proxy]; [next] is the position in [w_proxy_list]. *)
Record nd_proxy := mk_proxy {
  p_ifname : string;
  p_target : nd_lladdr;
  p_iface : option loc;
  p_rules : list loc;
  p_router : bool;
  p_promiscuous : bool }.

(** [struct nd_sub] *)
Record nd_sub := mk_sub { sub_addr : nd_addr; sub_lladdr : nd_lladdr }.

(** [struct nd_session]; [next] and [next_r] are its positions in the buckets. *)
Record nd_session := mk_session {
  s_rule : loc;
  s_tgt : nd_addr;
  s_tgt_r : nd_addr;
  s_ons_count : Z;
  s_ons_time : Z;
  s_ins_time : Z;
  s_state_time : Z;
  s_state : nd_state;
  s_iface : option loc;
  s_subs : list nd_sub;
  s_autowired : bool }.

Definition ND_SESSION_MAX_SUBS : Z := 32.
Definition ND_SESSION_MAX : Z := 4096.

(** [struct nd_rule] *)
Record nd_rule := mk_rule {
  r_proxy : loc;
  r_ifname : string;
  r_target : nd_lladdr;
  r_addr : nd_addr;
  r_prefix : Z;
  r_rewrite_tgt : nd_addr;
  r_rewrite_pflen : Z;
  r_iface : option loc;
  r_autowire : bool;
  r_table : Z;
  r_mode : nd_mode }.

(** [struct nd_iface], as compiled on Linux (no [bpf_io]) *)
Record nd_iface := mk_iface {
  i_refcount : Z;
  i_name : string;
  i_lladdr : nd_lladdr;
  i_index : Z;
  i_up : bool;
  i_admin_up : bool;
  i_proxy : option loc;
  i_promiscuous : bool }.

(** [struct nd_rt_route] *)
Record nd_rt_route := mk_route {
  rt_dst : nd_addr;
  rt_oif : Z;
  rt_pflen : Z;
  rt_table : Z;
  rt_owned : bool }.

(** [struct nd_rt_addr] *)
Record nd_rt_addr := mk_rt_addr {
  ra_iif : Z;
  ra_addr : nd_addr;
  ra_pflen : Z }.

#[export] Instance nd_sub_eq_dec : EqDecision nd_sub.
Proof. solve_decision. Defined.
#[export] Instance nd_rt_route_eq_dec : EqDecision nd_rt_route.
Proof. solve_decision. Defined.
#[export] Instance nd_rt_addr_eq_dec : EqDecision nd_rt_addr.
Proof. solve_decision. Defined.

#[export] Instance eta_proxy : Eta nd_proxy := λ r,
  mk_proxy (p_ifname r) (p_target r) (p_iface r) (p_rules r) (p_router r) (p_promiscuous r).
#[export] Instance eta_session : Eta nd_session := λ r,
  mk_session (s_rule r) (s_tgt r) (s_tgt_r r) (s_ons_count r) (s_ons_time r) (s_ins_time r)
    (s_state_time r) (s_state r) (s_iface r) (s_subs r) (s_autowired r).
#[export] Instance eta_rule : Eta nd_rule := λ r,
  mk_rule (r_proxy r) (r_ifname r) (r_target r) (r_addr r) (r_prefix r) (r_rewrite_tgt r)
    (r_rewrite_pflen r) (r_iface r) (r_autowire r) (r_table r) (r_mode r).
#[export] Instance eta_iface : Eta nd_iface := λ r,
  mk_iface (i_refcount r) (i_name r) (i_lladdr r) (i_index r) (i_up r) (i_admin_up r)
    (i_proxy r) (i_promiscuous r).

#[export] Instance set_p_target : Setter p_target := ltac:(derive_setter).
#[export] Instance set_p_iface : Setter p_iface := ltac:(derive_setter).
#[export] Instance set_p_rules : Setter p_rules := ltac:(derive_setter).
#[export] Instance set_p_router : Setter p_router := ltac:(derive_setter).
#[export] Instance set_p_promiscuous : Setter p_promiscuous := ltac:(derive_setter).
#[export] Instance set_s_tgt_r : Setter s_tgt_r := ltac:(derive_setter).
#[export] Instance set_s_ons_count : Setter s_ons_count := ltac:(derive_setter).
#[export] Instance set_s_ons_time : Setter s_ons_time := ltac:(derive_setter).
#[export] Instance set_s_ins_time : Setter s_ins_time := ltac:(derive_setter).
#[export] Instance set_s_state_time : Setter s_state_time := ltac:(derive_setter).
#[export] Instance set_s_state : Setter s_state := ltac:(derive_setter).
#[export] Instance set_s_iface : Setter s_iface := ltac:(derive_setter).
#[export] Instance set_s_subs : Setter s_subs := ltac:(derive_setter).
#[export] Instance set_s_autowired : Setter s_autowired := ltac:(derive_setter).
#[export] Instance set_r_target : Setter r_target := ltac:(derive_setter).
#[export] Instance set_r_addr : Setter r_addr := ltac:(derive_setter).
#[export] Instance set_r_prefix : Setter r_prefix := ltac:(derive_setter).
#[export] Instance set_r_rewrite_tgt : Setter r_rewrite_tgt := ltac:(derive_setter).
#[export] Instance set_r_rewrite_pflen : Setter r_rewrite_pflen := ltac:(derive_setter).
#[export] Instance set_r_ifname : Setter r_ifname := ltac:(derive_setter).
#[export] Instance set_r_iface : Setter r_iface := ltac:(derive_setter).
#[export] Instance set_r_autowire : Setter r_autowire := ltac:(derive_setter).
#[export] Instance set_r_table : Setter r_table := ltac:(derive_setter).
#[export] Instance set_r_mode : Setter r_mode := ltac:(derive_setter).
#[export] Instance set_i_refcount : Setter i_refcount := ltac:(derive_setter).
#[export] Instance set_i_lladdr : Setter i_lladdr := ltac:(derive_setter).
#[export] Instance set_i_index : Setter i_index := ltac:(derive_setter).
#[export] Instance set_i_up : Setter i_up := ltac:(derive_setter).
#[export] Instance set_i_admin_up : Setter i_admin_up := ltac:(derive_setter).
#[export] Instance set_i_proxy : Setter i_proxy := ltac:(derive_setter).

(** ** Configuration variables of conf.c, with their initial values *)

Record nd_conf := mk_conf {
  nd_conf_invalid_ttl : Z;
  nd_conf_valid_ttl : Z;
  nd_conf_stale_ttl : Z;
  nd_conf_renew : Z;
  nd_conf_retrans_limit : Z;
  nd_conf_retrans_time : Z;
  nd_conf_keepalive : bool }.

Definition conf_default : nd_conf := mk_conf 10000 30000 30000 5000 3 1000 false.

#[export] Instance eta_conf : Eta nd_conf := λ r,
  mk_conf (nd_conf_invalid_ttl r) (nd_conf_valid_ttl r) (nd_conf_stale_ttl r) (nd_conf_renew r)
    (nd_conf_retrans_limit r) (nd_conf_retrans_time r) (nd_conf_keepalive r).
#[export] Instance set_invalid_ttl : Setter nd_conf_invalid_ttl := ltac:(derive_setter).
#[export] Instance set_valid_ttl : Setter nd_conf_valid_ttl := ltac:(derive_setter).
#[export] Instance set_renew : Setter nd_conf_renew := ltac:(derive_setter).
#[export] Instance set_retrans_limit : Setter nd_conf_retrans_limit := ltac:(derive_setter).
#[export] Instance set_retrans_time : Setter nd_conf_retrans_time := ltac:(derive_setter).
#[export] Instance set_keepalive : Setter nd_conf_keepalive := ltac:(derive_setter).

(** ** What the daemon asks of the kernel

    The system calls a handler makes to learn about an interface, as functions
    of their argument: one [kernel] is what they answer during one handler. *)
Record kernel := mk_kernel {
  (** [if_nametoindex(name)]: the index and the value of [errno] after it *)
  k_nametoindex : string → Z * Z;
  (** [if_indextoname(index)]: NULL is [None] *)
  k_indextoname : Z → option string;
  (** [ioctl(SIOCGIFHWADDR)] *)
  k_hwaddr : string → option nd_lladdr;
  (** [ioctl(SIOCGIFFLAGS)] *)
  k_flags : string → option Z;
  (** whether [PACKET_ADD_MEMBERSHIP] succeeds on this index *)
  k_add_membership : Z → bool → bool }.

Definition ENODEV : Z := 19.
Definition IFF_UP : Z := 1.

(** ** Observable effects *)

Inductive event :=
  (** [sendmsg] of a frame on the packet socket, to an interface index *)
  | EvFrame (ifindex : Z) (frame : list Z)
  (** [sendmsg] of a request on the netlink socket *)
  | EvNetlink (request : list Z)
  (** [PACKET_ADD_MEMBERSHIP] and [PACKET_DROP_MEMBERSHIP] that took effect
      or were requested, with the membership type *)
  | EvAddMembership (ifindex : Z) (promisc : bool)
  | EvDropMembership (ifindex : Z) (promisc : bool).

(** ** The world *)

Definition NDPPD_SESSION_BUCKETS : Z := 64.

Record world := mk_world {
  nd_current_time : Z;
  w_conf : nd_conf;
  (** addr.c: [ndL_hash_seed] *)
  w_hash_seed : Z;
  (** iface.c: the interfaces, [ndL_first_iface], whether [ndL_io] is open,
      [nd_iface_no_restore_flags] *)
  w_ifaces : gmap loc nd_iface;
  w_first_iface : list loc;
  w_pkt_io : bool;
  w_no_restore_flags : bool;
  (** proxy.c and rule.c *)
  w_proxies : gmap loc nd_proxy;
  w_proxy_list : list loc;
  w_rules : gmap loc nd_rule;
  (** session.c: [ndL_sessions], [ndL_sessions_r], [ndL_session_count] *)
  w_sessions : gmap loc nd_session;
  w_buckets : list (list loc);
  w_buckets_r : list (list loc);
  w_session_count : Z;
  (** rt.c: [ndL_routes], [ndL_addrs], [nd_rt_dump_timeout], whether [ndL_io] is open *)
  w_routes : list nd_rt_route;
  w_addrs : list nd_rt_addr;
  w_dump_timeout : Z;
  w_rt_io : bool;
  (** what has been sent, latest first *)
  w_out : list event }.

#[export] Instance eta_world : Eta world := λ r,
  mk_world (nd_current_time r) (w_conf r) (w_hash_seed r) (w_ifaces r) (w_first_iface r)
    (w_pkt_io r) (w_no_restore_flags r) (w_proxies r) (w_proxy_list r) (w_rules r)
    (w_sessions r) (w_buckets r) (w_buckets_r r) (w_session_count r) (w_routes r) (w_addrs r)
    (w_dump_timeout r) (w_rt_io r) (w_out r).
#[export] Instance set_nd_current_time : Setter nd_current_time := ltac:(derive_setter).
#[export] Instance set_w_conf : Setter w_conf := ltac:(derive_setter).
#[export] Instance set_w_ifaces : Setter w_ifaces := ltac:(derive_setter).
#[export] Instance set_w_first_iface : Setter w_first_iface := ltac:(derive_setter).
#[export] Instance set_w_pkt_io : Setter w_pkt_io := ltac:(derive_setter).
#[export] Instance set_w_no_restore_flags : Setter w_no_restore_flags := ltac:(derive_setter).
#[export] Instance set_w_proxies : Setter w_proxies := ltac:(derive_setter).
#[export] Instance set_w_proxy_list : Setter w_proxy_list := ltac:(derive_setter).
#[export] Instance set_w_rules : Setter w_rules := ltac:(derive_setter).
#[export] Instance set_w_sessions : Setter w_sessions := ltac:(derive_setter).
#[export] Instance set_w_buckets : Setter w_buckets := ltac:(derive_setter).
#[export] Instance set_w_buckets_r : Setter w_buckets_r := ltac:(derive_setter).
#[export] Instance set_w_session_count : Setter w_session_count := ltac:(derive_setter).
#[export] Instance set_w_routes : Setter w_routes := ltac:(derive_setter).
#[export] Instance set_w_addrs : Setter w_addrs := ltac:(derive_setter).
#[export] Instance set_w_dump_timeout : Setter w_dump_timeout := ltac:(derive_setter).
#[export] Instance set_w_rt_io : Setter w_rt_io := ltac:(derive_setter).
#[export] Instance set_w_out : Setter w_out := ltac:(derive_setter).

(** Reduces nested updates of the world to one [mk_world]. *)
Ltac world_cbv :=
  cbv [set_field set_nd_current_time set_w_conf set_w_ifaces set_w_first_iface set_w_pkt_io
       set_w_no_restore_flags set_w_proxies
       set_w_proxy_list set_w_rules set_w_sessions set_w_buckets set_w_buckets_r
       set_w_session_count set_w_routes set_w_addrs set_w_dump_timeout set_w_rt_io set_w_out
       nd_current_time w_conf w_hash_seed w_ifaces w_first_iface w_pkt_io w_no_restore_flags
       w_proxies w_proxy_list w_rules w_sessions w_buckets w_buckets_r w_session_count w_routes
       w_addrs w_dump_timeout w_rt_io w_out].

(** Equality of two worlds up to the reduction of their updates. *)
Ltac world_eq :=
  lazymatch goal with
  | |- _ = _ => world_cbv; try reflexivity; f_equal
  end.
