(* ===== verification/Monad.v ===== *)
(** * Computations on the world and their program logic

    [M A] is a state and error monad: a computation either returns a value and
    the next world or faults.  [wp m Q w] is its total-correctness weakest
    precondition: [m] does not fault from [w] and ends in [Q].  Every handler is
    specified by a [wp] lemma, and [wp_step] runs the rules below. *)
From S2P Require Import Prelude Addr World.

(** NULL was dereferenced, or an object that is not allocated (any more), or
    a buffer was read outside its bounds. *)
Inductive fault := NullDeref | DanglingPtr | OutOfBounds.

Inductive outcome (A : Type) :=
  | Ret (a : A) (w : world)
  | Fault (f : fault).
Arguments Ret {A} a w.
Arguments Fault {A} f.

Definition M (A : Type) : Type := world → outcome A.

#[export] Instance M_ret : MRet M := λ A a w, Ret a w.
#[export] Instance M_bind : MBind M := λ A B k m w,
  match m w with
  | Ret a w' => k a w'
  | Fault f => Fault f
  end.

(** ** Operations *)

Definition gets {A} (f : world → A) : M A := λ w, Ret (f w) w.
Definition modify (f : world → world) : M unit := λ w, Ret () (f w).

(** [if (b) m] *)
Definition when (b : bool) (m : M unit) : M unit := if b then m else mret ().

(** Dereference of a pointer that may be NULL. *)
Definition deref {A} (p : option A) : M A := λ w,
  match p with
  | Some x => Ret x w
  | None => Fault NullDeref
  end.

(** The result of a parser, which is [None] when it read out of bounds. *)
Definition in_bounds {A} (p : option A) : M A := λ w,
  match p with
  | Some x => Ret x w
  | None => Fault OutOfBounds
  end.

(** Dereference of an object in one of the heaps. *)
Definition load {A} (heap : world → gmap loc A) (l : loc) : M A := λ w,
  match heap w !! l with
  | Some x => Ret x w
  | None => Fault DanglingPtr
  end.

(** [l->field = ...] for an object in the heap [heap]. *)
Definition update {A} (heap : world → gmap loc A) `{!Setter heap} (l : loc) (f : A → A) : M unit :=
  λ w,
  match heap w !! l with
  | Some x => Ret () (set_field heap (λ h, <[l := f x]> h) w)
  | None => Fault DanglingPtr
  end.

(** [ND_NEW]: a location that is not in use, holding the initialised object. *)
Definition alloc {A} (heap : world → gmap loc A) `{!Setter heap} (x : A) : M loc := λ w,
  let l := fresh (dom (heap w)) in
  Ret l (set_field heap (λ h, <[l := x]> h) w).

(** [ND_DELETE] *)
Definition free {A} (heap : world → gmap loc A) `{!Setter heap} (l : loc) : M unit := λ w,
  match heap w !! l with
  | Some _ => Ret () (set_field heap (delete l) w)
  | None => Fault DanglingPtr
  end.

Definition emit (e : event) : M unit := modify (λ w, w <| w_out := e :: w_out w |>).

(** A loop over a linked list whose body unlinks at most the current element. *)
Fixpoint for_each {A} (l : list A) (body : A → M unit) : M unit :=
  match l with
  | [] => mret ()
  | x :: l => body x ;; for_each l body
  end.

(** [ND_LL_DELETE]: unlinks the first occurrence of [x]. *)
Fixpoint ll_delete (x : loc) (l : list loc) : list loc :=
  match l with
  | [] => []
  | y :: l => if decide (x = y) then l else y :: ll_delete x l
  end.

(** ** Weakest precondition *)

Definition wp {A} (m : M A) (Q : A → world → Prop) (w : world) : Prop :=
  match m w with
  | Ret a w' => Q a w'
  | Fault _ => False
  end.

Section wp.
Context {A B : Type}.
Implicit Types (w : world).

Lemma wp_ret (a : A) Q w : Q a w → wp (mret a) Q w.
Proof. done. Qed.

Lemma wp_bind (m : M A) (k : A → M B) Q w :
  wp m (λ a, wp (k a) Q) w → wp (m ≫= k) Q w.
Proof. unfold wp, mbind, M_bind. by destruct (m w). Qed.

Lemma wp_mono (m : M A) (P Q : A → world → Prop) w :
  wp m P w → (∀ a w', P a w' → Q a w') → wp m Q w.
Proof. unfold wp. destruct (m w); auto. Qed.

Lemma wp_and (m : M A) (P Q : A → world → Prop) w :
  wp m P w → wp m Q w → wp m (λ a w', P a w' ∧ Q a w') w.
Proof. unfold wp. destruct (m w); auto. Qed.

Lemma wp_gets (f : world → A) Q w : Q (f w) w → wp (gets f) Q w.
Proof. done. Qed.

Lemma wp_modify f (Q : unit → world → Prop) w : Q () (f w) → wp (modify f) Q w.
Proof. done. Qed.

Lemma wp_deref (x : A) (Q : A → world → Prop) w : Q x w → wp (deref (Some x)) Q w.
Proof. done. Qed.

Lemma wp_in_bounds (x : A) p (Q : A → world → Prop) w :
  p = Some x → Q x w → wp (in_bounds p) Q w.
Proof. by intros ->. Qed.

Lemma wp_load (heap : world → gmap loc A) l x Q w :
  heap w !! l = Some x → Q x w → wp (load heap l) Q w.
Proof. unfold wp, load. by intros ->. Qed.

Lemma wp_update (heap : world → gmap loc A) `{!Setter heap} l f x (Q : unit → world → Prop) w :
  heap w !! l = Some x →
  Q () (set_field heap (λ h, <[l := f x]> h) w) →
  wp (update heap l f) Q w.
Proof. unfold wp, update. by intros ->. Qed.

Lemma wp_alloc (heap : world → gmap loc A) `{!Setter heap} x (Q : loc → world → Prop) w :
  (∀ l, heap w !! l = None → Q l (set_field heap (λ h, <[l := x]> h) w)) →
  wp (alloc heap x) Q w.
Proof.
  intros HQ. unfold wp, alloc. apply HQ.
  apply not_elem_of_dom. apply is_fresh.
Qed.

Lemma wp_free (heap : world → gmap loc A) `{!Setter heap} l x (Q : unit → world → Prop) w :
  heap w !! l = Some x →
  Q () (set_field heap (delete l) w) →
  wp (free heap l) Q w.
Proof. unfold wp, free. by intros ->. Qed.

Lemma wp_when b (m : M unit) Q w :
  (b = true → wp m Q w) → (b = false → Q () w) → wp (when b m) Q w.
Proof. destruct b; intros H1 H2; [by apply H1|by apply H2]. Qed.

Lemma wp_emit e (Q : unit → world → Prop) w :
  Q () (w <| w_out := e :: w_out w |>) → wp (emit e) Q w.
Proof. done. Qed.
End wp.

(** Loop rule: [I rest] holds when [rest] is still to be visited. *)
Lemma wp_for_each {A} (I : list A → world → Prop) l (body : A → M unit) (Q : unit → world → Prop) w :
  I l w →
  (∀ x rest w, I (x :: rest) w → wp (body x) (λ _, I rest) w) →
  (∀ w, I [] w → Q () w) →
  wp (for_each l body) Q w.
Proof.
  intros HI Hbody HQ. revert w HI. induction l as [|x l IH]; intros w HI; [by apply HQ|].
  cbn [for_each]. apply wp_bind. eapply wp_mono; [by apply Hbody|]. intros [] w' HI'. by apply IH.
Qed.

(** A computation that does not fault has a result. *)
Lemma wp_returns {A} (m : M A) Q w :
  wp m Q w → ∃ a w', m w = Ret a w' ∧ Q a w'.
Proof. unfold wp. destruct (m w) as [a w'|]; [eauto|done]. Qed.

Lemma returns_wp {A} (m : M A) (Q : A → world → Prop) w a w' :
  m w = Ret a w' → Q a w' → wp m Q w.
Proof. unfold wp. by intros ->. Qed.

Ltac wp_step :=
  lazymatch goal with
  | |- wp (mbind _ _) _ _ => apply wp_bind
  | |- wp (mret _) _ _ => apply wp_ret
  | |- wp (gets _) _ _ => apply wp_gets
  | |- wp (modify _) _ _ => apply wp_modify
  | |- wp (emit _) _ _ => apply wp_emit
  | |- wp (deref (Some _)) _ _ => apply wp_deref
  | |- wp (load _ _) _ _ => eapply wp_load; [eassumption|]
  | |- wp (update _ _ _) _ _ => eapply wp_update; [eassumption|]
  | |- wp (free _ _) _ _ => eapply wp_free; [eassumption|]
  end.

(** ** Lists of locations *)

Lemma elem_of_ll_delete x y l :
  NoDup l → y ∈ ll_delete x l ↔ y ∈ l ∧ y ≠ x.
Proof.
  induction 1 as [|z l Hz Hnd IH]; simpl; [set_solver|].
  destruct (decide (x = z)) as [-> |Hne].
  - rewrite elem_of_cons. set_solver.
  - rewrite !elem_of_cons, IH. set_solver.
Qed.

Lemma NoDup_ll_delete x l : NoDup l → NoDup (ll_delete x l).
Proof.
  induction 1 as [|z l Hz Hnd IH]; simpl; [constructor|].
  destruct (decide (x = z)) as [-> |Hne]; [done|].
  constructor; [|done]. rewrite elem_of_ll_delete by done. tauto.
Qed.

Lemma ll_delete_notin x l : x ∉ l → ll_delete x l = l.
Proof.
  induction l as [|y l IH]; simpl; [done|]. rewrite not_elem_of_cons. intros [Hne Hl].
  rewrite decide_False by done. by rewrite IH.
Qed.
