(* ===== verification/LinkedList.v ===== *)
(** * Intrusive linked lists (the ND_LL macros of src/ndppd.h)

    The macros on the heap they run on: a node is the payload of the struct and
    its [next] field, a pointer is an optional location.  The components keep
    such a list as the list of the locations on it; the lemmas below show that
    this is what the pointers implement. *)
From S2P Require Import Prelude World Monad.

(** ** Results

    A loop over pointers can also run for ever: [Spin] is a loop that did not
    end within its fuel. *)
Inductive res (A : Type) :=
  | Done (a : A)
  | Crash (f : fault)
  | Spin.
Arguments Done {A} a.
Arguments Crash {A} f.
Arguments Spin {A}.

#[export] Instance res_ret : MRet res := λ A a, Done a.
#[export] Instance res_bind : MBind res := λ A B k m,
  match m with
  | Done a => k a
  | Crash f => Crash f
  | Spin => Spin
  end.

Lemma res_bind_done {A B} (m : res A) (k : A → res B) b :
  m ≫= k = Done b → ∃ a, m = Done a ∧ k a = Done b.
Proof. destruct m; [eauto|discriminate..]. Qed.

Section list.
Context {A : Type}.

Record node := mk_node { n_val : A; n_next : option loc }.

Abbreviation heap := (gmap loc node).
Implicit Types (h : heap) (p : option loc) (l : list loc).

(** [x->...] *)
Definition get h (x : loc) : res node :=
  match h !! x with
  | Some n => Done n
  | None => Crash DanglingPtr
  end.

(** [x->next = p] *)
Definition set_next h (x : loc) p : res heap :=
  n ← get h x; mret (<[x := mk_node (n_val n) p]> h).

(** ** The macros *)

Definition nd_ll_prepend h (head : option loc) (el : loc) : res (heap * option loc) :=
  h ← set_next h el head;
  mret (h, Some el).

(** [while (_last != NULL && _last->next != el) _last = _last->next;] *)
Fixpoint last_before (fuel : nat) h (last : option loc) (el : loc) : res (option loc) :=
  match fuel with
  | O => Spin
  | S fuel =>
      match last with
      | None => mret None
      | Some x =>
          n ← get h x;
          if decide (n_next n = Some el) then mret (Some x) else last_before fuel h (n_next n) el
      end
  end.

Definition nd_ll_delete (fuel : nat) h (head : option loc) (el : loc) : res (heap * option loc) :=
  last ← last_before fuel h head el;
  h ← match last with
      | Some x => n ← get h el; set_next h x (n_next n)
      | None => mret h
      end;
  if decide (head = Some el) then n ← get h el; mret (h, n_next n) else mret (h, head).

Fixpoint nd_ll_count (fuel : nat) h (el : option loc) (count : Z) : res Z :=
  match fuel with
  | O => Spin
  | S fuel =>
      match el with
      | None => mret count
      | Some x => n ← get h x; nd_ll_count fuel h (n_next n) (count + 1)
      end
  end.

(** [pred] reads fields of the element. *)
Fixpoint nd_ll_search (fuel : nat) h (el : option loc) (pred : A → bool) : res (option loc) :=
  match fuel with
  | O => Spin
  | S fuel =>
      match el with
      | None => mret None
      | Some x => n ← get h x; if pred (n_val n) then mret (Some x) else nd_ll_search fuel h (n_next n) pred
      end
  end.

(** [head ? head->next : NULL] *)
Definition next_of h p : res (option loc) :=
  match p with
  | None => mret None
  | Some x => n ← get h x; mret (n_next n)
  end.

(** [ND_LL_FOREACH_S]: the successor is read before the body runs.  [heap_of]
    is the heap of the list in the state [S] that the body transforms. *)
Section foreach.
Context {S : Type} (heap_of : S → heap) (body : loc → S → res S).

Fixpoint foreach_s_loop (fuel : nat) (el tmp : option loc) (s : S) : res S :=
  match fuel with
  | O => Spin
  | Datatypes.S fuel =>
      match el with
      | None => mret s
      | Some x =>
          s ← body x s;
          tmp' ← next_of (heap_of s) tmp;
          foreach_s_loop fuel tmp tmp' s
      end
  end.

Definition nd_ll_foreach_s (fuel : nat) (head : option loc) (s : S) : res S :=
  tmp ← next_of (heap_of s) head;
  foreach_s_loop fuel head tmp s.

(** The body once for every location of a list. *)
Fixpoint run_all (l : list loc) (s : S) : res S :=
  match l with
  | [] => mret s
  | x :: l => s ← body x s; run_all l s
  end.
End foreach.

(** ** Representation *)

(** The nodes [l] lead from [p] to [q]. *)
Fixpoint ll_seg h p l (q : option loc) : Prop :=
  match l with
  | [] => p = q
  | x :: l => p = Some x ∧ ∃ n, h !! x = Some n ∧ ll_seg h (n_next n) l q
  end.

(** [l] are the nodes of the list that starts at [p]. *)
Definition ll_list h p l : Prop := ll_seg h p l None.

Lemma ll_seg_app h p l1 l2 q : ll_seg h p (l1 ++ l2) q ↔ ∃ r, ll_seg h p l1 r ∧ ll_seg h r l2 q.
Proof.
  revert p. induction l1 as [|x l1 IH]; intros p; cbn; [naive_solver|].
  setoid_rewrite IH. naive_solver.
Qed.

Lemma ll_list_unique h p l1 l2 : ll_list h p l1 → ll_list h p l2 → l1 = l2.
Proof.
  unfold ll_list. revert p l2. induction l1 as [|x l1 IH]; intros p [|y l2]; cbn.
  - done.
  - intros -> [E _]. done.
  - intros [-> _] E. done.
  - intros (-> & n & Hn & H1) (E & n' & Hn' & H2). simplify_eq. f_equal. by eapply IH.
Qed.

(** The two parts of a list around one of its nodes. *)
Lemma ll_list_split h p l x :
  ll_list h p l → x ∈ l → ∃ l1 l2 n, l = l1 ++ x :: l2 ∧ ll_seg h p l1 (Some x) ∧
    h !! x = Some n ∧ ll_list h (n_next n) l2.
Proof.
  intros Hl (l1 & l2 & ->)%list_elem_of_split. unfold ll_list in Hl.
  apply ll_seg_app in Hl as (r & H1 & -> & n & Hn & H2). eauto 10.
Qed.

(** A list that ends has no cycle. *)
Lemma ll_list_NoDup h p l : ll_list h p l → NoDup l.
Proof.
  revert p. induction l as [|x l IH]; intros p; [constructor|].
  intros (-> & n & Hn & Hl). constructor; [|by eapply IH].
  intros Hx. destruct (ll_list_split _ _ _ _ Hl Hx) as (l1 & l2 & n' & -> & _ & Hn' & H2). simplify_eq.
  pose proof (ll_list_unique _ _ _ _ Hl H2) as E. apply (f_equal length) in E.
  rewrite length_app in E. cbn in E. lia.
Qed.

Lemma ll_list_dom h p l : ll_list h p l → ∀ x, x ∈ l → x ∈ dom h.
Proof.
  intros Hl x Hx. destruct (ll_list_split _ _ _ _ Hl Hx) as (l1 & l2 & n & _ & _ & Hn & _).
  by eapply elem_of_dom_2.
Qed.

(** ... so that the number of objects bounds the length of the walk. *)
Lemma ll_list_size h p l : ll_list h p l → (length l ≤ size h)%nat.
Proof.
  intros Hl. rewrite <- size_dom, <- (size_list_to_set (C := gset loc) l) by (by eapply ll_list_NoDup).
  apply subseteq_size. intros x. rewrite elem_of_list_to_set. by eapply ll_list_dom.
Qed.

(** Only the nodes of a segment matter. *)
Lemma ll_seg_ext h h' p l q :
  (∀ x, x ∈ l → h' !! x = h !! x) → ll_seg h p l q → ll_seg h' p l q.
Proof.
  revert p. induction l as [|x l IH]; intros p Hh; cbn; [done|].
  intros (-> & n & Hn & Hl). split; [done|]. exists n.
  split; [rewrite Hh; set_solver|]. apply IH; [|done]. intros y Hy. apply Hh. set_solver.
Qed.

Lemma ll_seg_insert h p l q x n : x ∉ l → ll_seg h p l q → ll_seg (<[x := n]> h) p l q.
Proof.
  intros Hx. apply ll_seg_ext. intros y Hy. rewrite lookup_insert_ne; [done|]. by intros ->.
Qed.

(** A write to the payload keeps the links. *)
Lemma ll_seg_payload h p l q x n v :
  h !! x = Some n → ll_seg h p l q → ll_seg (<[x := mk_node v (n_next n)]> h) p l q.
Proof.
  intros Hx. revert p. induction l as [|y l IH]; intros p; [done|]. intros (-> & m & Hm & Hl). split; [done|].
  destruct (decide (x = y)) as [-> |Hne].
  - rewrite lookup_insert_eq. eexists. split; [done|]. cbn. apply IH. congruence.
  - rewrite lookup_insert_ne by done. exists m. split; [done|]. by apply IH.
Qed.

(** ** What the macros do *)

Lemma prepend_spec h p l x n :
  ll_list h p l → h !! x = Some n → x ∉ l →
  ∃ h', nd_ll_prepend h p x = Done (h', Some x) ∧ ll_list h' (Some x) (x :: l) ∧
    h' = <[x := mk_node (n_val n) p]> h.
Proof.
  intros Hl Hx Hnot. unfold nd_ll_prepend, set_next, get. rewrite Hx. cbn.
  eexists. split; [done|]. split; [|done]. split; [done|]. eexists. split; [apply lookup_insert_eq|].
  cbn. by apply ll_seg_insert.
Qed.

Lemma count_spec fuel h p l c :
  ll_list h p l → (length l < fuel)%nat → nd_ll_count fuel h p c = Done (c + Z.of_nat (length l)).
Proof.
  revert p l c. induction fuel as [|fuel IH]; intros p l c Hl Hf; [lia|].
  destruct l as [|x l]; cbn in *.
  - unfold ll_list in Hl. cbn in Hl. subst p. unfold mret, res_ret. f_equal. lia.
  - destruct Hl as (-> & n & Hn & Hl). unfold get. rewrite Hn. cbn.
    rewrite (IH _ l) by (done || lia). f_equal. lia.
Qed.

(** The first element whose payload satisfies [f]. *)
Fixpoint find_val h (f : A → bool) l : option loc :=
  match l with
  | [] => None
  | x :: l =>
      match h !! x with
      | Some n => if f (n_val n) then Some x else find_val h f l
      | None => find_val h f l
      end
  end.

Lemma search_spec fuel h p l f :
  ll_list h p l → (length l < fuel)%nat → nd_ll_search fuel h p f = Done (find_val h f l).
Proof.
  revert p l. induction fuel as [|fuel IH]; intros p l Hl Hf; [lia|].
  destruct l as [|x l]; cbn in *.
  - unfold ll_list in Hl. cbn in Hl. by subst p.
  - destruct Hl as (-> & n & Hn & Hl). unfold get. rewrite Hn. cbn.
    destruct (f (n_val n)); [done|]. apply IH; [done|lia].
Qed.

Lemma last_before_spec fuel h p l x :
  ll_list h p l → (length l < fuel)%nat →
  ∃ o, last_before fuel h p x = Done o ∧
    match o with
    | None => p = Some x ∨ x ∉ l
    | Some y => ∃ l1 l2, l = l1 ++ y :: x :: l2
    end.
Proof.
  revert p l. induction fuel as [|fuel IH]; intros p l Hl Hf; [lia|].
  destruct l as [|y l]; cbn in *.
  - unfold ll_list in Hl. cbn in Hl. subst p. eexists. split; [done|]. right. set_solver.
  - destruct Hl as (-> & n & Hn & Hl). unfold get. rewrite Hn. cbn.
    destruct (decide (n_next n = Some x)) as [E|Hne].
    + eexists. split; [done|]. cbn. exists []. destruct l as [|z l].
      * unfold ll_list in Hl. cbn in Hl. congruence.
      * destruct Hl as [E' _]. rewrite E in E'. simplify_eq. by eexists.
    + destruct (IH (n_next n) l Hl ltac:(lia)) as (o & -> & Ho). exists o. split; [done|].
      destruct o as [z|].
      * destruct Ho as (l1 & l2 & ->). by exists (y :: l1), l2.
      * destruct Ho as [?|Hx]; [done|]. destruct (decide (x = y)) as [-> |]; [by left|].
        right. set_solver.
Qed.

Lemma ll_delete_mid l1 x l2 : x ∉ l1 → ll_delete x (l1 ++ x :: l2) = l1 ++ l2.
Proof.
  induction l1 as [|y l1 IH]; cbn; [by rewrite decide_True|].
  rewrite not_elem_of_cons. intros [Hne Hx]. by rewrite decide_False, IH by done.
Qed.

(** [ND_LL_DELETE] removes the element, and only [next] fields of other nodes
    of the list change. *)
Lemma delete_spec fuel h p l x n :
  ll_list h p l → h !! x = Some n → (length l < fuel)%nat →
  ∃ h' p', nd_ll_delete fuel h p x = Done (h', p') ∧ ll_list h' p' (ll_delete x l) ∧
    h' !! x = Some n ∧ dom h' = dom h ∧
    (p = Some x → h' = h) ∧
    (∀ y, y ∉ l → h' !! y = h !! y) ∧
    (∀ y, n_val <$> h' !! y = n_val <$> h !! y).
Proof.
  intros Hl Hx Hf. pose proof (ll_list_NoDup _ _ _ Hl) as Hnd. unfold nd_ll_delete.
  destruct (last_before_spec fuel h p l x Hl Hf) as (o & -> & Ho). cbn. destruct o as [y|].
  - destruct Ho as (l1 & l2 & ->).
    apply list.NoDup_app in Hnd as (Hnd1 & Hdisj & Hnd2). apply list.NoDup_cons in Hnd2 as [Hy Hnd2].
    apply list.NoDup_cons in Hnd2 as [Hx2 _].
    unfold ll_list in Hl. apply ll_seg_app in Hl as (r & H1 & -> & ny & Hny & E & n' & Hn' & H2).
    rewrite Hx in Hn'. injection Hn' as <-.
    unfold set_next, get. rewrite Hx. cbn. rewrite Hny. cbn.
    assert (x ≠ y) as Hxy by set_solver. rewrite lookup_insert_ne by done.
    assert (p ≠ Some x) as Hp.
    { destruct l1 as [|z l1]; cbn in H1; [congruence|]. destruct H1 as [-> _]. intros [= ->].
      eapply (Hdisj x); set_solver. }
    rewrite decide_False by done.
    eexists _, _. split; [done|]. split_and!.
    + replace (l1 ++ y :: x :: l2) with ((l1 ++ [y]) ++ x :: l2) by by rewrite <- app_assoc.
      rewrite ll_delete_mid.
      2:{ rewrite elem_of_app. intros [Hin|Hin]; [apply (Hdisj _ Hin); set_solver|set_solver]. }
      rewrite <- app_assoc. unfold ll_list. apply ll_seg_app. exists (Some y). split.
      * apply ll_seg_insert; [|done]. intros Hin. apply (Hdisj _ Hin). set_solver.
      * split; [done|]. eexists. split; [apply lookup_insert_eq|]. cbn. apply ll_seg_insert; [set_solver|done].
    + by rewrite lookup_insert_ne.
    + rewrite dom_insert_L. assert (y ∈ dom h) by (by eapply elem_of_dom_2). set_solver.
    + done.
    + intros z Hz. rewrite lookup_insert_ne; [done|]. intros ->. apply Hz. set_solver.
    + intros z. destruct (decide (z = y)) as [-> |].
      * by rewrite lookup_insert_eq, Hny.
      * by rewrite lookup_insert_ne.
  - destruct (decide (p = Some x)) as [-> |Hp].
    + unfold get, mret, res_ret. cbn. rewrite Hx. cbn. eexists _, _. split; [done|]. split_and!; [|done..].
      destruct l as [|y l]; [done|]. destruct Hl as (E & n' & Hn' & Hl). simplify_eq. cbn.
      by rewrite decide_True.
    + destruct Ho as [?|Hnot]; [done|]. eexists _, _. split; [done|]. split_and!; [|done..].
      by rewrite ll_delete_notin.
Qed.

(** ** [ND_LL_FOREACH_S] *)

Section foreach_spec.
Context {S : Type} (heap_of : S → heap) (body : loc → S → res S).

(** [I rest s]: the nodes [rest] are still to be visited.  The body may do what
    it likes with the current element, as long as it leaves those nodes alone. *)
Context (I : list loc → S → Prop).
Hypothesis body_ok : ∀ x rest s, I (x :: rest) s →
  ∃ s', body x s = Done s' ∧ I rest s' ∧ ∀ y, y ∈ rest → heap_of s' !! y = heap_of s !! y.

(** The loop runs the body once for every element of the list, in order. *)
Lemma foreach_s_spec fuel l el s :
  (length l < fuel)%nat → ll_list (heap_of s) el l → I l s →
  ∃ s', nd_ll_foreach_s heap_of body fuel el s = Done s' ∧ run_all body l s = Done s' ∧ I [] s'.
Proof.
  unfold nd_ll_foreach_s. revert el s fuel.
  induction l as [|x l IH]; intros el s fuel Hf Hl HI; destruct fuel as [|fuel]; try lia.
  - unfold ll_list in Hl. cbn in Hl. subst el. by exists s.
  - destruct Hl as (-> & n & Hn & Hl). cbn. unfold get. rewrite Hn. cbn.
    destruct (body_ok x l s HI) as (s1 & -> & HI1 & Hkeep). cbn.
    apply (IH (n_next n) s1 fuel); [cbn in Hf; lia| |done].
    by eapply ll_seg_ext.
Qed.
End foreach_spec.
End list.

Arguments node : clear implicits.
Arguments mk_node {A} n_val n_next.
