(* ===== verification/Packet.v ===== *)
(** * Neighbor Discovery frames (the packet half of src/iface.c)

    Frames are lists of bytes.  Sending builds the Ethernet, IPv6 and ICMPv6
    headers byte by byte; receiving reads them back at the offsets of the C
    structs.  A read outside the frame is [None]: the parser is in the option
    monad, so that a bounds error of the code would show as a parser that
    returns [None], and a decision to drop a packet is the value [RxDrop]. *)
From S2P Require Import Prelude Addr World Monad.

(** ** Constants of the protocol headers *)

Definition ETHERTYPE_IPV6 : Z := 0x86dd.
Definition IPPROTO_HOPOPTS : Z := 0.
Definition IPPROTO_ICMPV6 : Z := 58.
Definition ND_NEIGHBOR_SOLICIT : Z := 135.
Definition ND_NEIGHBOR_ADVERT : Z := 136.
Definition MLD_LISTENER_QUERY : Z := 130.
Definition MLD_LISTENER_REPORT : Z := 131.
Definition ND_OPT_SOURCE_LINKADDR : Z := 1.
Definition ND_OPT_TARGET_LINKADDR : Z := 2.
(** The flag bits, as the first byte of [nd_na_flags_reserved] *)
Definition ND_NA_FLAG_ROUTER : Z := 0x80.
Definition ND_NA_FLAG_SOLICITED : Z := 0x40.
Definition ND_NA_FLAG_OVERRIDE : Z := 0x20.

(** [sizeof(struct ether_header)], [sizeof(struct ip6_hdr)], [sizeof(ndL_ip6_msg_t)],
    [sizeof(struct icmp6_hdr)], [sizeof(struct nd_neighbor_solicit)] (and [_advert]) *)
Definition ETH_LEN : Z := 14.
Definition IP6_LEN : Z := 40.
Definition MSG_LEN : Z := 54.
Definition ICMP6_LEN : Z := 8.
Definition ND_LEN : Z := 24.

Section packet.
Context {BO : ByteOrder}.

(** ** Bytes *)

(** The memory image of a 16-bit or 32-bit integer in network order. *)
Definition be16 (x : Z) : list Z := [(x / 256) mod 256; x mod 256].
Definition be32 (x : Z) : list Z :=
  [(x / 2 ^ 24) mod 256; (x / 2 ^ 16) mod 256; (x / 2 ^ 8) mod 256; x mod 256].

(** The memory image of an address: its [u8] view. *)
Definition addr_bytes (a : nd_addr) : list Z := map (u8 a) (seqZ 0 16).

Definition ll_bytes (l : nd_lladdr) : list Z :=
  [ll_0 l; ll_1 l; ll_2 l; ll_3 l; ll_4 l; ll_5 l].

(** The word whose memory image is four bytes. *)
Definition word_of_bytes (b0 b1 b2 b3 : Z) : Z :=
  Z.lor (Z.shiftl b0 (byte_shift 0)) (Z.lor (Z.shiftl b1 (byte_shift 1))
    (Z.lor (Z.shiftl b2 (byte_shift 2)) (Z.shiftl b3 (byte_shift 3)))).

(** The address whose [u8] view is [b]. *)
Definition addr_of_u8 (b : Z → Z) : nd_addr :=
  let word i := word_of_bytes (b (4 * i)) (b (4 * i + 1)) (b (4 * i + 2)) (b (4 * i + 3)) in
  mk_addr (word 0) (word 1) (word 2) (word 3).

(** ** Checksums *)

Definition cksum_fold (sum : Z) : Z := if 0xffff <? sum then wrap32 (sum - 0xffff) else sum.

Fixpoint ndL_cksum_loop (sum : Z) (data : list Z) : Z :=
  match data with
  | [] => sum
  | [p] => cksum_fold (wrap32 (sum + p))
  | p0 :: p1 :: data => ndL_cksum_loop (cksum_fold (wrap32 (sum + (p0 * 256 + p1)))) data
  end.

Definition ndL_calculate_checksum (sum : Z) (data : list Z) : Z :=
  wrap16 (ndL_cksum_loop sum data).

(** [icmp6] is the ICMPv6 message of [size] bytes; the result is the value whose
    network-order bytes are stored ([htons] is left to the writer). *)
Definition ndL_calculate_icmp6_checksum (src dst : nd_addr) (icmp6 : list Z) (size : Z) : Z :=
  let hdr := addr_bytes src ++ addr_bytes dst ++ be32 size ++ [0; 0; 0] ++ [IPPROTO_ICMPV6] ++
             take 2 icmp6 ++ [0; 0] ++ take 4 (drop 4 icmp6) in
  let sum := ndL_calculate_checksum 0xffff hdr in
  let sum := ndL_calculate_checksum sum (take (Z.to_nat (size - ICMP6_LEN)) (drop 8 icmp6)) in
  wrap16 (Z.lnot sum).

(** ** Sending *)

(** [ndL_send_icmp6]: fills the headers in, checksums and sends.  [icmp6] is the
    ICMPv6 part of the message with a zero checksum. *)
Definition icmp6_frame (iface_ll dst_ll : nd_lladdr) (src dst : nd_addr) (icmp6 : list Z) : list Z :=
  let size := Z.of_nat (length icmp6) in
  let cksum := ndL_calculate_icmp6_checksum src dst icmp6 size in
  (* struct ether_header *)
  ll_bytes dst_ll ++ ll_bytes iface_ll ++ be16 ETHERTYPE_IPV6 ++
  (* struct ip6_hdr *)
  be32 (Z.shiftl 6 28) ++ be16 size ++ [IPPROTO_ICMPV6; 255] ++ addr_bytes src ++ addr_bytes dst ++
  take 2 icmp6 ++ be16 cksum ++ drop 4 icmp6.

(** The ICMPv6 part of the message of [nd_iface_send_na]. *)
Definition na_message (dst tgt : nd_addr) (tgt_ll : nd_lladdr) (router : bool) : list Z :=
  let flags := ND_NA_FLAG_OVERRIDE in
  let flags := if nd_addr_is_multicast dst then flags else Z.lor flags ND_NA_FLAG_SOLICITED in
  let flags := if router then Z.lor flags ND_NA_FLAG_ROUTER else flags in
  [ND_NEIGHBOR_ADVERT; 0; 0; 0; flags; 0; 0; 0] ++ addr_bytes tgt ++
  [ND_OPT_TARGET_LINKADDR; 1] ++ ll_bytes tgt_ll.

(** The whole frame [nd_iface_send_na] hands to the socket. *)
Definition na_frame (iface_ll : nd_lladdr) (dst : nd_addr) (dst_ll : nd_lladdr) (tgt : nd_addr)
    (tgt_ll : option nd_lladdr) (router : bool) : list Z :=
  let tgt_ll := match tgt_ll with Some l => l | None => iface_ll end in
  icmp6_frame iface_ll dst_ll tgt dst (na_message dst tgt tgt_ll router).

Definition ndL_get_local_addr (lladdr : nd_lladdr) : nd_addr :=
  addr_of_u8 (λ i, nth (Z.to_nat i)
    [0xfe; 0x80; 0; 0; 0; 0; 0; 0; Z.lxor (ll_0 lladdr) 0x02; ll_1 lladdr; ll_2 lladdr;
     0xff; 0xfe; ll_3 lladdr; ll_4 lladdr; ll_5 lladdr] 0).

(** The solicited-node multicast address of [tgt] and its Ethernet address. *)
Definition solicited_node (tgt : nd_addr) : nd_addr :=
  addr_of_u8 (λ i, nth (Z.to_nat i)
    [0xff; 0x02; 0; 0; 0; 0; 0; 0; 0; 0; 0; 0x01; 0xff; u8 tgt 13; u8 tgt 14; u8 tgt 15] 0).

Definition solicited_node_ll (tgt : nd_addr) : nd_lladdr :=
  mk_ll 0x33 0x33 0xff (u8 tgt 13) (u8 tgt 14) (u8 tgt 15).

Definition ns_message (iface_ll : nd_lladdr) (tgt : nd_addr) : list Z :=
  [ND_NEIGHBOR_SOLICIT; 0; 0; 0; 0; 0; 0; 0] ++ addr_bytes tgt ++
  [ND_OPT_SOURCE_LINKADDR; 1] ++ ll_bytes iface_ll.

(** The whole frame [nd_iface_send_ns] hands to the socket. *)
Definition ns_frame (iface_ll : nd_lladdr) (tgt : nd_addr) : list Z :=
  icmp6_frame iface_ll (solicited_node_ll tgt) (ndL_get_local_addr iface_ll) (solicited_node tgt)
    (ns_message iface_ll tgt).

(** ** Receiving *)

Definition rd8 (f : list Z) (i : Z) : option Z := f !! Z.to_nat i.

Definition rd16 (f : list Z) (i : Z) : option Z :=
  hi ← rd8 f i; lo ← rd8 f (i + 1); Some (hi * 256 + lo).

(** The bytes at [i .. i + n). *)
Definition rd_bytes (f : list Z) (i n : Z) : option (list Z) :=
  if (0 <=? i) && (i + n <=? Z.of_nat (length f))
  then Some (take (Z.to_nat n) (drop (Z.to_nat i) f)) else None.

Definition rd_addr (f : list Z) (i : Z) : option nd_addr :=
  bs ← rd_bytes f i 16; Some (addr_of_u8 (λ k, nth (Z.to_nat k) bs 0)).

Definition rd_ll (f : list Z) (i : Z) : option nd_lladdr :=
  bs ← rd_bytes f i 6;
  Some (mk_ll (nth 0 bs 0) (nth 1 bs 0) (nth 2 bs 0) (nth 3 bs 0) (nth 4 bs 0) (nth 5 bs 0)).

(** What the receive path does with a message. *)
Inductive rx :=
  | RxDrop
  | RxNS (src dst tgt : nd_addr) (src_ll : option nd_lladdr)
  | RxNA (tgt : nd_addr)
  | RxMLQ
  | RxMLR.

(** The option loop of [ndL_handle_ns], from offset [opts] on with [opts_len]
    bytes left: [Some None] when an option of length zero discards the packet,
    otherwise the last SLLAO.  Each iteration consumes at least 8 bytes, so
    [fuel = length f] iterations are enough. *)
Fixpoint ns_options (fuel : nat) (f : list Z) (opts opts_len : Z) (src_ll : option nd_lladdr)
    : option (option (option nd_lladdr)) :=
  match fuel with
  | O => None
  | S fuel =>
      if opts_len <? 8 then Some (Some src_ll) else
      ty ← rd8 f opts;
      len ← rd8 f (opts + 1);
      if len =? 0 then Some None else
      let opt_bytes := len * 8 in
      if opts_len <? opt_bytes then Some (Some src_ll) else
      src_ll ← (if (ty =? ND_OPT_SOURCE_LINKADDR) && (len =? 1)
                then Some <$> rd_ll f (opts + 2) else Some src_ll);
      ns_options fuel f (opts + opt_bytes) (opts_len - opt_bytes) src_ll
  end.

(** [ndL_handle_ns] up to the call of [nd_proxy_handle_ns]; [ih] is the offset of
    the ICMPv6 header and [len] its length. *)
Definition parse_ns (f : list Z) (ih len : Z) : option rx :=
  if len <? ND_LEN then Some RxDrop else
  tgt ← rd_addr f (ih + 8);
  if nd_addr_is_multicast tgt then Some RxDrop else
  src ← rd_addr f (ETH_LEN + 8);
  dst ← rd_addr f (ETH_LEN + 24);
  if nd_addr_is_unspecified src then Some (RxNS src dst tgt None) else
  r ← ns_options (S (length f)) f (ih + ND_LEN) (len - ND_LEN) None;
  match r with
  | None => Some RxDrop
  | Some (Some src_ll) => Some (RxNS src dst tgt (Some src_ll))
  | Some None =>
      eth_src ← rd_ll f 6;
      Some (RxNS src dst tgt (Some eth_src))
  end.

(** [ndL_handle_na] up to the call of [nd_session_find_r]. *)
Definition parse_na (f : list Z) (ih len : Z) : option rx :=
  if len <? ND_LEN then Some RxDrop else
  tgt ← rd_addr f (ih + 8);
  Some (RxNA tgt).

(** The second half of [ndL_handle_msg], once the ICMPv6 header is found at
    offset [i] of the payload. *)
Definition parse_icmp6 (f : list Z) (plen i : Z) : option rx :=
  if plen - i <? ICMP6_LEN then Some RxDrop else
  let ih := MSG_LEN + i in
  let ilen := wrap16 (plen - i) in
  src ← rd_addr f (ETH_LEN + 8);
  dst ← rd_addr f (ETH_LEN + 24);
  icmp6 ← rd_bytes f ih ilen;
  cksum ← rd16 f (ih + 2);
  if negb (ndL_calculate_icmp6_checksum src dst icmp6 ilen =? cksum) then Some RxDrop else
  hops ← rd8 f (ETH_LEN + 7);
  if negb (hops =? 255) then Some RxDrop else
  ty ← rd8 f ih;
  if ty =? ND_NEIGHBOR_SOLICIT then parse_ns f ih ilen
  else if ty =? ND_NEIGHBOR_ADVERT then parse_na f ih ilen
  else if ty =? MLD_LISTENER_QUERY then Some RxMLQ
  else if ty =? MLD_LISTENER_REPORT then Some RxMLR
  else Some RxDrop.

(** [ndL_handle_msg] *)
Definition parse_msg (f : list Z) : option rx :=
  plen ← rd16 f (ETH_LEN + 4);
  nxt ← rd8 f (ETH_LEN + 6);
  if nxt =? IPPROTO_HOPOPTS then
    if plen <? 8 then Some RxDrop else
    hlen ← rd8 f (MSG_LEN + 1);
    if plen <? 8 + hlen * 8 then Some RxDrop else
    hnxt ← rd8 f MSG_LEN;
    if negb (hnxt =? IPPROTO_ICMPV6) then Some RxDrop else
    parse_icmp6 f plen (8 + 8 * hlen)
  else if negb (nxt =? IPPROTO_ICMPV6) then Some RxDrop
  else parse_icmp6 f plen 0.

(** The checks of [ndL_io_handler] (Linux) on a received frame, then the message. *)
Definition parse_frame (f : list Z) : option rx :=
  let len := Z.of_nat (length f) in
  if len <? MSG_LEN then Some RxDrop else
  ether_type ← rd16 f 12;
  if negb (ether_type =? ETHERTYPE_IPV6) then Some RxDrop else
  plen ← rd16 f (ETH_LEN + 4);
  if negb (plen =? len - MSG_LEN) then Some RxDrop else
  parse_msg f.

(** ** Lemmas on bytes *)

Lemma u8_range a i : is_u8 (u8 a i).
Proof. by apply (land_lt_pow2 8). Qed.

Lemma addr_bytes_u8 a : Forall is_u8 (addr_bytes a).
Proof. apply Forall_map, Forall_true. intros; apply u8_range. Qed.

Lemma length_addr_bytes a : length (addr_bytes a) = 16%nat.
Proof. unfold addr_bytes. by rewrite length_map, length_seqZ. Qed.

Lemma length_ll_bytes l : length (ll_bytes l) = 6%nat.
Proof. done. Qed.

Lemma addr_bytes_nth a i : 0 ≤ i < 16 → nth (Z.to_nat i) (addr_bytes a) 0 = u8 a i.
Proof.
  intros Hi. rewrite <- (Z2Nat.id i) at 2 by lia.
  assert (Z.to_nat i < 16)%nat as Hlt by lia. revert Hlt. generalize (Z.to_nat i). intros n Hn.
  do 16 (destruct n as [|n]; [reflexivity|]). lia.
Qed.

Lemma be16_u8 x : Forall is_u8 (be16 x).
Proof. repeat (constructor; [by apply Z.mod_pos_bound|]). constructor. Qed.

Lemma be32_u8 x : Forall is_u8 (be32 x).
Proof. repeat (constructor; [by apply Z.mod_pos_bound|]). constructor. Qed.

Lemma byte_shift_range i : 0 ≤ i < 4 → 0 ≤ byte_shift i ≤ 24.
Proof. unfold byte_shift. destruct host_order; lia. Qed.

(** Bit [j] of the [k]-th byte of a word built from four bytes. *)
Lemma word_of_bytes_bit b0 b1 b2 b3 k j :
  is_u8 b0 → is_u8 b1 → is_u8 b2 → is_u8 b3 → 0 ≤ k < 4 → 0 ≤ j < 8 →
  Z.testbit (word_of_bytes b0 b1 b2 b3) (byte_shift k + j) =
  Z.testbit (if k =? 0 then b0 else if k =? 1 then b1 else if k =? 2 then b2 else b3) j.
Proof.
  intros H0 H1 H2 H3 Hk Hj. unfold word_of_bytes.
  assert (∀ b m, is_u8 b → 0 ≤ m < 4 →
    Z.testbit (Z.shiftl b (byte_shift m)) (byte_shift k + j) =
    if k =? m then Z.testbit b j else false) as Hsh.
  { intros b m Hb Hm. pose proof (byte_shift_range k Hk). pose proof (byte_shift_range m Hm).
    rewrite Z.shiftl_spec by lia. destruct (Z.eqb_spec k m) as [-> |Hne]; [f_equal; lia|].
    assert (byte_shift k + j - byte_shift m < 0 ∨ 8 ≤ byte_shift k + j - byte_shift m) as [Hn|Hn].
    { unfold byte_shift. destruct host_order; lia. }
    - by apply Z.testbit_neg_r.
    - by apply (testbit_u 8). }
  rewrite !Z.lor_spec, !Hsh by (done || lia).
  assert (k = 0 ∨ k = 1 ∨ k = 2 ∨ k = 3) as [-> |[-> |[-> | ->]]] by lia; simpl;
    rewrite ?orb_false_r; done.
Qed.

Lemma word_of_bytes_range b0 b1 b2 b3 :
  is_u8 b0 → is_u8 b1 → is_u8 b2 → is_u8 b3 → is_u32 (word_of_bytes b0 b1 b2 b3).
Proof.
  intros H0 H1 H2 H3.
  assert (∀ b k, is_u8 b → 0 ≤ k < 4 → 0 ≤ Z.shiftl b (byte_shift k) < 2 ^ 32) as Hsh.
  { intros b k [Hb1 Hb2] Hk. pose proof (byte_shift_range k Hk) as Hbs.
    rewrite Z.shiftl_mul_pow2 by lia.
    pose proof (Z.pow_le_mono_r 2 (byte_shift k) 24 ltac:(done) ltac:(lia)).
    pose proof (Z.pow_pos_nonneg 2 (byte_shift k) ltac:(done) ltac:(lia)).
    change (2 ^ 32) with (2 ^ 8 * 2 ^ 24). unfold u8_max in *. nia. }
  unfold word_of_bytes, is_u32, u32_max.
  repeat apply lor_lt_pow2; try lia; apply Hsh; done || lia.
Qed.

Section addr_of_u8.
Context (b : Z → Z) (Hb : ∀ i, 0 ≤ i < 16 → is_u8 (b i)).

Lemma addr_of_u8_wf : addr_wf (addr_of_u8 b).
Proof.
  unfold addr_of_u8, addr_wf; simpl.
  repeat split; apply word_of_bytes_range; apply Hb; lia.
Qed.

Lemma u8_addr_of_u8 i : 0 ≤ i < 16 → u8 (addr_of_u8 b) i = b i.
Proof.
  intros Hi. unfold u8, addr_of_u8. cbv zeta.
  set (word := λ w, word_of_bytes (b (4 * w)) (b (4 * w + 1)) (b (4 * w + 2)) (b (4 * w + 3))).
  change (mk_addr _ _ _ _) with (mk_addr (word 0) (word 1) (word 2) (word 3)).
  rewrite (u32_mk word) by zlia.
  apply (bits_eq_u 8); [by apply land_lt_pow2|by apply Hb|].
  intros j Hj. rewrite Z.land_spec, Z.shiftr_spec by lia.
  change 255 with (Z.ones 8). rewrite Z.ones_spec_low, andb_true_r by lia.
  rewrite Z.add_comm. unfold word.
  rewrite word_of_bytes_bit by (try apply Hb; zlia).
  f_equal. assert (i mod 4 = 0 ∨ i mod 4 = 1 ∨ i mod 4 = 2 ∨ i mod 4 = 3)
    as [Hm|[Hm|[Hm|Hm]]] by zlia; rewrite Hm; simpl; f_equal; zlia.
Qed.
End addr_of_u8.

(** The byte view determines a well-formed address. *)
Lemma addr_eq_u8 a a' :
  addr_wf a → addr_wf a' → (∀ i, 0 ≤ i < 16 → u8 a i = u8 a' i) → a = a'.
Proof.
  intros Ha Ha' Hu. apply addr_eq_bits; [done..|]. intros i Hi. unfold addr_bit.
  by rewrite Hu by zlia.
Qed.

Lemma addr_of_addr_bytes a :
  addr_wf a → addr_of_u8 (λ k, nth (Z.to_nat k) (addr_bytes a) 0) = a.
Proof.
  intros Ha.
  assert (∀ i, 0 ≤ i < 16 → is_u8 (nth (Z.to_nat i) (addr_bytes a) 0)) as Hb.
  { intros i Hi. rewrite addr_bytes_nth by done. apply u8_range. }
  apply addr_eq_u8; [by apply addr_of_u8_wf|done|].
  intros i Hi. by rewrite u8_addr_of_u8, addr_bytes_nth.
Qed.

(** ** Reads inside the frame succeed *)

Lemma rd8_Some f i : 0 ≤ i < Z.of_nat (length f) → ∃ b, rd8 f i = Some b.
Proof. intros Hi. apply lookup_lt_is_Some. lia. Qed.

Lemma rd8_u8 f i b : Forall is_u8 f → rd8 f i = Some b → is_u8 b.
Proof. intros Hf Hb. by eapply Forall_lookup_1. Qed.

Lemma rd16_Some f i :
  Forall is_u8 f → 0 ≤ i < Z.of_nat (length f) - 1 → ∃ x, rd16 f i = Some x ∧ is_u16 x.
Proof.
  intros Hf Hi. destruct (rd8_Some f i) as [hi Hhi]; [lia|].
  destruct (rd8_Some f (i + 1)) as [lo Hlo]; [lia|].
  exists (hi * 256 + lo). unfold rd16. rewrite Hhi, Hlo. split; [done|].
  pose proof (rd8_u8 _ _ _ Hf Hhi). pose proof (rd8_u8 _ _ _ Hf Hlo).
  unfold is_u8, is_u16, u8_max, u16_max in *. lia.
Qed.

Lemma rd_bytes_Some f i n :
  0 ≤ i → 0 ≤ n → i + n ≤ Z.of_nat (length f) → ∃ bs, rd_bytes f i n = Some bs.
Proof.
  intros. unfold rd_bytes. destruct (Z.leb_spec 0 i), (Z.leb_spec (i + n) (Z.of_nat (length f)));
    try lia. eauto.
Qed.

Lemma rd_addr_Some f i : 0 ≤ i → i + 16 ≤ Z.of_nat (length f) → ∃ a, rd_addr f i = Some a.
Proof.
  intros Hi Hl. destruct (rd_bytes_Some f i 16) as [bs Hbs]; [lia..|].
  unfold rd_addr. rewrite Hbs. simpl; eauto.
Qed.

Lemma rd_ll_Some f i : 0 ≤ i → i + 6 ≤ Z.of_nat (length f) → ∃ a, rd_ll f i = Some a.
Proof.
  intros Hi Hl. destruct (rd_bytes_Some f i 6) as [bs Hbs]; [lia..|].
  unfold rd_ll. rewrite Hbs. simpl; eauto.
Qed.

(** The option loop terminates within its fuel and stays inside the frame. *)
Lemma ns_options_Some fuel f opts opts_len src_ll :
  Forall is_u8 f → 0 ≤ opts → 0 ≤ opts_len → opts + opts_len ≤ Z.of_nat (length f) →
  opts_len < Z.of_nat fuel → ∃ r, ns_options fuel f opts opts_len src_ll = Some r.
Proof.
  intros Hf. revert opts opts_len src_ll.
  induction fuel as [|fuel IH]; intros opts opts_len src_ll Ho Hl Hb Hfuel; [lia|].
  simpl. destruct (Z.ltb_spec opts_len 8); [eauto|].
  destruct (rd8_Some f opts) as [ty ->]; [lia|].
  destruct (rd8_Some f (opts + 1)) as [len Hlen]; [lia|]. rewrite Hlen. simpl.
  pose proof (rd8_u8 _ _ _ Hf Hlen) as [Hlen0 _].
  destruct (Z.eqb_spec len 0); [eauto|].
  destruct (Z.ltb_spec opts_len (len * 8)); [eauto|].
  destruct (_ && _).
  - destruct (rd_ll_Some f (opts + 2)) as [ll ->]; [lia..|]. simpl. apply IH; lia.
  - simpl. apply IH; lia.
Qed.

Lemma parse_ns_Some f ih len :
  Forall is_u8 f → MSG_LEN ≤ ih → 0 ≤ len → ih + len ≤ Z.of_nat (length f) →
  ∃ r, parse_ns f ih len = Some r.
Proof.
  unfold parse_ns, MSG_LEN, ND_LEN, ETH_LEN. intros Hf Hih Hlen Hb.
  destruct (Z.ltb_spec len 24); [eauto|].
  destruct (rd_addr_Some f (ih + 8)) as [tgt ->]; [lia..|]. simpl.
  destruct (nd_addr_is_multicast tgt); [eauto|].
  destruct (rd_addr_Some f (14 + 8)) as [src ->]; [lia..|]. simpl.
  destruct (rd_addr_Some f (14 + 24)) as [dst ->]; [lia..|]. simpl.
  destruct (nd_addr_is_unspecified src); [eauto|].
  destruct (ns_options_Some (S (length f)) f (ih + 24) (len - 24) None) as [r Hr]; [done|lia..|].
  unfold ns_options in Hr; fold ns_options in Hr. rewrite Hr. simpl.
  destruct r as [[ll|]|]; [eauto| |eauto].
  destruct (rd_ll_Some f 6) as [ll ->]; [lia..|]. simpl; eauto.
Qed.

Lemma parse_icmp6_Some f plen i :
  Forall is_u8 f → is_u16 plen → plen = Z.of_nat (length f) - MSG_LEN → 0 ≤ i ≤ plen →
  ∃ r, parse_icmp6 f plen i = Some r.
Proof.
  unfold parse_icmp6, MSG_LEN, ICMP6_LEN, ETH_LEN. intros Hf Hp Hlen Hi.
  destruct (Z.ltb_spec (plen - i) 8); [eauto|].
  rewrite wrap16_small by (unfold is_u16 in *; lia).
  destruct (rd_addr_Some f (14 + 8)) as [src ->]; [lia..|]. simpl.
  destruct (rd_addr_Some f (14 + 24)) as [dst ->]; [lia..|]. simpl.
  destruct (rd_bytes_Some f (54 + i) (plen - i)) as [icmp6 ->]; [lia..|]. simpl.
  destruct (rd16_Some f (54 + i + 2)) as [ck [-> _]]; [done|lia|]. simpl.
  destruct (negb _); [eauto|].
  destruct (rd8_Some f (14 + 7)) as [hops ->]; [lia|]. simpl.
  destruct (negb _); [eauto|].
  destruct (rd8_Some f (54 + i)) as [ty ->]; [lia|]. simpl.
  destruct (ty =? _); [apply parse_ns_Some; unfold MSG_LEN; done || lia|].
  destruct (ty =? _).
  { unfold parse_na, ND_LEN. destruct (Z.ltb_spec (plen - i) 24); [eauto|].
    destruct (rd_addr_Some f (54 + i + 8)) as [tgt ->]; [lia..|]. simpl; eauto. }
  destruct (ty =? _); [eauto|]. destruct (ty =? _); eauto.
Qed.

Lemma parse_frame_Some f : Forall is_u8 f → ∃ r, parse_frame f = Some r.
Proof.
  intros Hf. unfold parse_frame, parse_msg, ETH_LEN.
  destruct (Z.ltb_spec (Z.of_nat (length f)) MSG_LEN) as [|Hlen]; [eauto|].
  unfold MSG_LEN in Hlen.
  destruct (rd16_Some f 12) as [et [-> _]]; [done|lia|]. simpl.
  destruct (negb _); [eauto|].
  destruct (rd16_Some f (14 + 4)) as [plen [Hplen Hp16]]; [done|lia|]. rewrite Hplen. simpl.
  destruct (Z.eqb_spec plen (Z.of_nat (length f) - MSG_LEN)) as [Hpl|]; simpl; [|eauto].
  unfold MSG_LEN in Hpl.
  destruct (rd8_Some f (14 + 6)) as [nxt ->]; [lia|]. simpl.
  destruct (nxt =? IPPROTO_HOPOPTS).
  - destruct (Z.ltb_spec plen 8); [eauto|].
    destruct (rd8_Some f (54 + 1)) as [hlen Hhlen]; [lia|].
    pose proof (rd8_u8 _ _ _ Hf Hhlen) as [Hh0 _].
    unfold MSG_LEN. rewrite Hhlen. simpl.
    destruct (Z.ltb_spec plen (8 + hlen * 8)); [eauto|].
    destruct (rd8_Some f 54) as [hnxt ->]; [lia|]. simpl.
    destruct (negb _); [eauto|]. apply parse_icmp6_Some; done || lia.
  - destruct (negb _); [eauto|].
    apply parse_icmp6_Some; unfold MSG_LEN, is_u16 in *; done || lia.
Qed.

(** ** Checksums against RFC 1071 *)

(** The sum of the 16-bit words of the data, the last one padded with zero. *)
Fixpoint rfc1071_sum (data : list Z) : Z :=
  match data with
  | [] => 0
  | [p] => p * 256
  | p0 :: p1 :: data => p0 * 256 + p1 + rfc1071_sum data
  end.

Lemma rfc1071_sum_app l1 l2 :
  Nat.even (length l1) = true → rfc1071_sum (l1 ++ l2) = rfc1071_sum l1 + rfc1071_sum l2.
Proof.
  induction l1 as [|x|x y l1 IH] using list_ind2; simpl; [lia|done|].
  intros Hev. rewrite IH by done. lia.
Qed.

(** One iteration keeps the sum in 1 .. 0xffff and its class modulo 0xffff. *)
Lemma cksum_fold_spec sum x :
  0 < sum ≤ 0xffff → 0 ≤ x ≤ 0xffff →
  0 < cksum_fold (wrap32 (sum + x)) ≤ 0xffff ∧
  (cksum_fold (wrap32 (sum + x))) mod 0xffff = (sum + x) mod 0xffff.
Proof.
  intros Hs Hx. rewrite wrap32_small by (unfold is_u32, u32_max; lia).
  unfold cksum_fold. destruct (Z.ltb_spec 0xffff (sum + x)).
  - rewrite wrap32_small by (unfold is_u32, u32_max; lia). split; [lia|].
    rewrite <- (Z.mod_add (sum + x - 0xffff) 1 0xffff) by lia. f_equal. lia.
  - split; [lia|done].
Qed.

Lemma ndL_cksum_loop_spec data sum :
  Forall is_u8 data → Nat.even (length data) = true → 0 < sum ≤ 0xffff →
  0 < ndL_cksum_loop sum data ≤ 0xffff ∧
  (ndL_cksum_loop sum data) mod 0xffff = (sum + rfc1071_sum data) mod 0xffff.
Proof.
  revert sum. induction data as [|x|x y l IH] using list_ind2; simpl; intros sum Hd Hev Hs.
  - by rewrite Z.add_0_r.
  - done.
  - apply Forall_cons_1 in Hd as [Hx Hd]. apply Forall_cons_1 in Hd as [Hy Hd].
    unfold is_u8, u8_max in *.
    destruct (cksum_fold_spec sum (x * 256 + y)) as [Hr Hm]; [lia..|].
    destruct (IH _ Hd Hev Hr) as [Hr' Hm']. split; [done|].
    rewrite Hm', <- Zplus_mod_idemp_l, Hm, Zplus_mod_idemp_l. f_equal. lia.
Qed.

Lemma ndL_calculate_checksum_spec data sum :
  Forall is_u8 data → Nat.even (length data) = true → 0 < sum ≤ 0xffff →
  0 < ndL_calculate_checksum sum data ≤ 0xffff ∧
  (ndL_calculate_checksum sum data) mod 0xffff = (sum + rfc1071_sum data) mod 0xffff.
Proof.
  intros Hd Hev Hs. destruct (ndL_cksum_loop_spec data sum) as [Hr Hm]; [done..|].
  unfold ndL_calculate_checksum. rewrite wrap16_small by (unfold is_u16, u16_max; lia). done.
Qed.

(** The pseudo-header of RFC 4443 and 8200 section 8.1. *)
Definition pseudo_header (src dst : nd_addr) (size : Z) : list Z :=
  addr_bytes src ++ addr_bytes dst ++ be32 size ++ [0; 0; 0; IPPROTO_ICMPV6].

Lemma be16_value x : is_u16 x → (x / 256) mod 256 * 256 + x mod 256 = x.
Proof. unfold is_u16, u16_max. intros. zlia. Qed.

Lemma rd16_be16 f i x :
  is_u16 x → rd8 f i = Some ((x / 256) mod 256) → rd8 f (i + 1) = Some (x mod 256) →
  rd16 f i = Some x.
Proof. intros Hx Hhi Hlo. unfold rd16. rewrite Hhi, Hlo. cbn [mbind option_bind]. by rewrite be16_value. Qed.

Lemma lnot16 x : 0 ≤ x ≤ 0xffff → wrap16 (Z.lnot x) = 0xffff - x.
Proof. intros. unfold wrap16, u16_max, Z.lnot. zlia. Qed.

(** The bytes [ndL_calculate_icmp6_checksum] puts together in its local [hdr]: the
    pseudo-header and the ICMPv6 header without its checksum. *)
Definition cksum_header (src dst : nd_addr) (size a b e f g h : Z) : list Z :=
  addr_bytes src ++ addr_bytes dst ++ be32 size ++ [0; 0; 0] ++ [IPPROTO_ICMPV6] ++
  [a; b] ++ [0; 0] ++ [e; f; g; h].

Lemma cksum_header_spec src dst size a b e f g h :
  Forall is_u8 [a; b; e; f; g; h] →
  let hdr := cksum_header src dst size a b e f g h in
  0 < ndL_calculate_checksum 0xffff hdr ≤ 0xffff ∧
  (ndL_calculate_checksum 0xffff hdr) mod 0xffff = (0xffff + rfc1071_sum hdr) mod 0xffff.
Proof.
  intros Hb hdr. repeat (apply Forall_cons_1 in Hb as [? Hb]).
  apply ndL_calculate_checksum_spec; [|unfold hdr, cksum_header; by rewrite !length_app, !length_addr_bytes|lia].
  unfold hdr, cksum_header. rewrite !Forall_app. repeat split; auto using addr_bytes_u8, be32_u8;
    repeat (constructor; try done).
Qed.

(** The sum over a whole message is that over [cksum_header], the checksum field
    and the rest. *)
Lemma message_sum src dst size a b c d e f g h rest :
  rfc1071_sum (pseudo_header src dst size ++ a :: b :: c :: d :: e :: f :: g :: h :: rest) =
  rfc1071_sum (cksum_header src dst size a b e f g h) + (c * 256 + d) + rfc1071_sum rest.
Proof.
  unfold cksum_header, pseudo_header. rewrite <- !app_assoc.
  rewrite !(rfc1071_sum_app (addr_bytes _)) by (by rewrite length_addr_bytes).
  rewrite !(rfc1071_sum_app (be32 _)) by done. simpl. lia.
Qed.

Section icmp6_checksum.
Context (src dst : nd_addr) (icmp6 : list Z).
Context (Hbytes : Forall is_u8 icmp6) (Heven : Nat.even (length icmp6) = true)
  (Hlen : (8 ≤ length icmp6)%nat).

Let size := Z.of_nat (length icmp6).
Let cksum := ndL_calculate_icmp6_checksum src dst icmp6 size.

Lemma icmp6_parts :
  ∃ a b c d e f g h rest, icmp6 = a :: b :: c :: d :: e :: f :: g :: h :: rest ∧
    Nat.even (length rest) = true.
Proof.
  clear size cksum. destruct icmp6 as [|a [|b [|c [|d [|e [|f [|g [|h rest]]]]]]]]; simpl in *; try lia.
  eauto 20.
Qed.

Lemma icmp6_checksum_spec :
  is_u16 cksum ∧
  (rfc1071_sum (pseudo_header src dst size ++ take 2 icmp6 ++ be16 cksum ++ drop 4 icmp6))
    mod 0xffff = 0.
Proof.
  unfold cksum, ndL_calculate_icmp6_checksum, ICMP6_LEN. clear cksum.
  destruct icmp6_parts as (a & b & c & d & e & f & g & h & rest & Hi & Hev).
  assert (take (Z.to_nat (size - 8)) (drop 8 icmp6) = rest) as ->.
  { unfold size. rewrite Hi. cbn [drop]. apply take_ge. cbn [length]. lia. }
  revert Hbytes. rewrite Hi. intros Hb. cbn [take drop].
  repeat (apply Forall_cons_1 in Hb as [? Hb]).
  change (addr_bytes src ++ _) with (cksum_header src dst size a b e f g h).
  destruct (cksum_header_spec src dst size a b e f g h) as [Hs1 Hm1]; [repeat (apply List.Forall_cons; [done|]); apply List.Forall_nil|].
  destruct (ndL_calculate_checksum_spec rest _ Hb Hev Hs1) as [Hs2 Hm2].
  revert Hs2 Hm2. set (sum := ndL_calculate_checksum _ rest). intros Hs2 Hm2.
  rewrite lnot16 by lia. split; [unfold is_u16, u16_max; lia|].
  cbn [app be16]. rewrite message_sum, be16_value by (unfold is_u16, u16_max; lia).
  match goal with |- (?x + _ + ?y) mod _ = 0 =>
    replace (x + (0xffff - sum) + y) with ((0xffff + x) + y - sum) by lia end.
  rewrite Zminus_mod, <- Zplus_mod_idemp_l, <- Hm1, Zplus_mod_idemp_l, <- Hm2, Z.sub_diag. done.
Qed.
End icmp6_checksum.

(** ** A frame that is sent is read back *)

Definition ll_wf (l : nd_lladdr) : Prop :=
  is_u8 (ll_0 l) ∧ is_u8 (ll_1 l) ∧ is_u8 (ll_2 l) ∧ is_u8 (ll_3 l) ∧ is_u8 (ll_4 l) ∧ is_u8 (ll_5 l).

Lemma addr_bytes_eq a : addr_bytes a =
  [u8 a 0; u8 a 1; u8 a 2; u8 a 3; u8 a 4; u8 a 5; u8 a 6; u8 a 7;
   u8 a 8; u8 a 9; u8 a 10; u8 a 11; u8 a 12; u8 a 13; u8 a 14; u8 a 15].
Proof. reflexivity. Qed.

(** The bytes of the addresses and of the message inside [l1 ++ l2 ++ l3]. *)
Lemma rd_bytes_app l1 l2 l3 i n :
  i = Z.of_nat (length l1) → n = Z.of_nat (length l2) → rd_bytes (l1 ++ l2 ++ l3) i n = Some l2.
Proof.
  intros -> ->. unfold rd_bytes. rewrite !length_app.
  rewrite (proj2 (Z.leb_le _ _)), (proj2 (Z.leb_le _ _)) by lia. simpl.
  rewrite !Nat2Z.id, drop_app_length, take_app_length. done.
Qed.

Lemma rd_bytes_app_end l1 l2 i n :
  i = Z.of_nat (length l1) → n = Z.of_nat (length l2) → rd_bytes (l1 ++ l2) i n = Some l2.
Proof. intros. rewrite <- (app_nil_r l2) at 1. by apply rd_bytes_app. Qed.

Lemma rd_addr_app l1 a l3 i :
  addr_wf a → i = Z.of_nat (length l1) → rd_addr (l1 ++ addr_bytes a ++ l3) i = Some a.
Proof.
  intros Ha Hi. unfold rd_addr. rewrite rd_bytes_app by (done || by rewrite length_addr_bytes).
  cbn [mbind option_bind]. by rewrite addr_of_addr_bytes.
Qed.

Lemma rd_ll_app l1 l l3 i :
  i = Z.of_nat (length l1) → rd_ll (l1 ++ ll_bytes l ++ l3) i = Some l.
Proof. intros Hi. unfold rd_ll. rewrite rd_bytes_app by done. by destruct l. Qed.

Lemma rd8_app_r l1 l2 i : 0 ≤ i → rd8 (l1 ++ l2) (Z.of_nat (length l1) + i) = rd8 l2 i.
Proof.
  intros Hi. unfold rd8. rewrite lookup_app_r by lia. f_equal. lia.
Qed.

(** What [ndL_handle_msg] finds in a frame made by [icmp6_frame]: it passes every
    check up to the dispatch on the ICMPv6 type. *)
Section frame.
Context (iface_ll dst_ll : nd_lladdr) (src dst : nd_addr) (ty code : Z) (body : list Z).
Context (Hsrc : addr_wf src) (Hdst : addr_wf dst).
(** [icmp6]: type, code, zero checksum, at least four more bytes *)
Let icmp6 := ty :: code :: 0 :: 0 :: body.
Context (Hbody : (4 ≤ length body)%nat) (Hmax : Z.of_nat (length body) < 65532).

Let f := icmp6_frame iface_ll dst_ll src dst icmp6.
Let size := Z.of_nat (length icmp6).
Let cksum := ndL_calculate_icmp6_checksum src dst icmp6 size.
Let header := ll_bytes dst_ll ++ ll_bytes iface_ll ++ be16 ETHERTYPE_IPV6 ++
  be32 (Z.shiftl 6 28) ++ be16 size ++ [IPPROTO_ICMPV6; 255].

Lemma frame_eq :
  f = header ++ addr_bytes src ++ addr_bytes dst ++ ty :: code :: be16 cksum ++ body.
Proof. unfold f, header, icmp6_frame. rewrite <- !app_assoc. done. Qed.

Lemma cksum_range : is_u16 cksum.
Proof. unfold cksum, ndL_calculate_icmp6_checksum. apply wrap16_range. Qed.

Lemma frame_length : Z.of_nat (length f) = MSG_LEN + size.
Proof.
  rewrite frame_eq. unfold size, icmp6, MSG_LEN.
  rewrite !length_app, !length_addr_bytes. simpl. lia.
Qed.

Lemma frame_checksum :
  ndL_calculate_icmp6_checksum src dst (ty :: code :: be16 cksum ++ body) size = cksum.
Proof. reflexivity. Qed.

Lemma frame_dispatch :
  parse_frame f =
  if ty =? ND_NEIGHBOR_SOLICIT then parse_ns f MSG_LEN size
  else if ty =? ND_NEIGHBOR_ADVERT then parse_na f MSG_LEN size
  else if ty =? MLD_LISTENER_QUERY then Some RxMLQ
  else if ty =? MLD_LISTENER_REPORT then Some RxMLR
  else Some RxDrop.
Proof.
  pose proof cksum_range as Hck.
  assert (8 ≤ size < 65536) as Hsize by (unfold size, icmp6; cbn [length]; lia).
  unfold parse_frame, parse_msg. rewrite frame_length.
  destruct (Z.ltb_spec (MSG_LEN + size) MSG_LEN); [lia|].
  assert (rd16 f 12 = Some ETHERTYPE_IPV6) as -> by by rewrite frame_eq.
  assert (rd16 f (ETH_LEN + 4) = Some size) as ->.
  { apply rd16_be16; [unfold is_u16, u16_max; lia|rewrite frame_eq; reflexivity..]. }
  assert (rd8 f (ETH_LEN + 6) = Some IPPROTO_ICMPV6) as -> by by rewrite frame_eq.
  cbn [mbind option_bind].
  replace (MSG_LEN + size - MSG_LEN) with size by lia. rewrite !Z.eqb_refl.
  change (IPPROTO_ICMPV6 =? IPPROTO_HOPOPTS) with false. cbn [negb].
  unfold parse_icmp6. rewrite Z.sub_0_r, wrap16_small by (unfold is_u16, u16_max; lia).
  unfold ICMP6_LEN. destruct (Z.ltb_spec size 8); [lia|].
  assert (rd_addr f (ETH_LEN + 8) = Some src) as -> by (rewrite frame_eq; by apply rd_addr_app).
  assert (rd_addr f (ETH_LEN + 24) = Some dst) as ->.
  { rewrite frame_eq. rewrite app_assoc. apply rd_addr_app; [done|].
    rewrite length_app, length_addr_bytes. done. }
  assert (rd_bytes f (MSG_LEN + 0) size = Some (ty :: code :: be16 cksum ++ body)) as ->.
  { rewrite frame_eq, !(app_assoc _ _ (_ :: _)).
    apply rd_bytes_app_end; [by rewrite !length_app, !length_addr_bytes|done]. }
  assert (rd16 f (MSG_LEN + 0 + 2) = Some cksum) as ->.
  { apply rd16_be16; [done|rewrite frame_eq; reflexivity..]. }
  assert (rd8 f (ETH_LEN + 7) = Some 255) as -> by by rewrite frame_eq.
  assert (rd8 f (MSG_LEN + 0) = Some ty) as -> by by rewrite frame_eq.
  cbn [mbind option_bind]. rewrite frame_checksum, Z.eqb_refl. done.
Qed.
End frame.

Lemma u8_addr_of_list l i :
  Forall is_u8 l → length l = 16%nat → 0 ≤ i < 16 →
  u8 (addr_of_u8 (λ k, nth (Z.to_nat k) l 0)) i = nth (Z.to_nat i) l 0.
Proof.
  intros Hl Hlen Hi. apply (u8_addr_of_u8 (λ k, nth (Z.to_nat k) l 0)); [|done].
  intros k Hk. rewrite List.Forall_forall in Hl. apply Hl, nth_In. lia.
Qed.

Lemma addr_of_list_wf l :
  Forall is_u8 l → length l = 16%nat → addr_wf (addr_of_u8 (λ k, nth (Z.to_nat k) l 0)).
Proof.
  intros Hl Hlen. apply addr_of_u8_wf. intros k Hk.
  rewrite List.Forall_forall in Hl. apply Hl, nth_In. lia.
Qed.

Definition local_addr_bytes (ll : nd_lladdr) : list Z :=
  [0xfe; 0x80; 0; 0; 0; 0; 0; 0; Z.lxor (ll_0 ll) 0x02; ll_1 ll; ll_2 ll;
   0xff; 0xfe; ll_3 ll; ll_4 ll; ll_5 ll].

Lemma local_addr_bytes_u8 ll : ll_wf ll → Forall is_u8 (local_addr_bytes ll).
Proof.
  intros (H0 & ? & ? & ? & ? & ?).
  assert (is_u8 (Z.lxor (ll_0 ll) 0x02)).
  { revert H0. generalize (ll_0 ll). by_range 256. }
  unfold local_addr_bytes. repeat (constructor; [done|]). constructor.
Qed.

Lemma ndL_get_local_addr_wf ll : ll_wf ll → addr_wf (ndL_get_local_addr ll).
Proof. intros Hl. by apply addr_of_list_wf, eq_refl; apply local_addr_bytes_u8. Qed.

(** The link-local source of a probe is never the unspecified address. *)
Lemma ndL_get_local_addr_specified ll :
  ll_wf ll → nd_addr_is_unspecified (ndL_get_local_addr ll) = false.
Proof.
  intros Hl. apply not_true_is_false. rewrite nd_addr_is_unspecified_spec. intros H0.
  pose proof (u8_addr_of_list _ 0 (local_addr_bytes_u8 ll Hl) eq_refl ltac:(lia)) as H8.
  change (addr_of_u8 _) with (ndL_get_local_addr ll) in H8. rewrite H0 in H8.
  revert H8. unfold u8, byte_shift. by destruct host_order.
Qed.

Lemma solicited_node_wf tgt : addr_wf (solicited_node tgt).
Proof.
  apply addr_of_list_wf; [|done]. repeat (constructor; [first [apply u8_range|done]|]). constructor.
Qed.

Lemma ns_frame_parse ll tgt :
  ll_wf ll → addr_wf tgt → nd_addr_is_multicast tgt = false →
  parse_frame (ns_frame ll tgt) =
  Some (RxNS (ndL_get_local_addr ll) (solicited_node tgt) tgt (Some ll)).
Proof.
  intros Hl Ht Hm. unfold ns_frame, ns_message. cbn [app].
  pose proof (ndL_get_local_addr_wf ll Hl) as Hsrc. pose proof (solicited_node_wf tgt) as Hdst.
  rewrite frame_dispatch by (done || by apply Nat.leb_le || by apply Z.ltb_lt). cbn [Z.eqb].
  change (ND_NEIGHBOR_SOLICIT =? ND_NEIGHBOR_SOLICIT) with true. cbn iota.
  match goal with |- parse_ns ?f _ _ = _ => set (fr := f) end.
  assert (fr = (ll_bytes (solicited_node_ll tgt) ++ ll_bytes ll ++ be16 ETHERTYPE_IPV6 ++
    be32 (Z.shiftl 6 28) ++ be16 32 ++ [IPPROTO_ICMPV6; 255]) ++
    addr_bytes (ndL_get_local_addr ll) ++ addr_bytes (solicited_node tgt) ++
    [ND_NEIGHBOR_SOLICIT; 0] ++ be16 (ndL_calculate_icmp6_checksum (ndL_get_local_addr ll)
       (solicited_node tgt) (ns_message ll tgt) 32) ++ [0; 0; 0; 0] ++
    addr_bytes tgt ++ [ND_OPT_SOURCE_LINKADDR; 1] ++ ll_bytes ll) as Hfr.
  { unfold fr. rewrite frame_eq. reflexivity. }
  assert (rd_addr fr (MSG_LEN + 8) = Some tgt) as Htgt.
  { rewrite Hfr, !(app_assoc _ _ (addr_bytes tgt ++ _)). apply rd_addr_app; [done|reflexivity]. }
  assert (rd_addr fr (ETH_LEN + 8) = Some (ndL_get_local_addr ll)) as Hsrc'.
  { rewrite Hfr. by apply rd_addr_app. }
  assert (rd_addr fr (ETH_LEN + 24) = Some (solicited_node tgt)) as Hdst'.
  { rewrite Hfr, app_assoc. by apply rd_addr_app. }
  assert (rd_ll fr (MSG_LEN + ND_LEN + 2) = Some ll) as Hll.
  { rewrite Hfr, <- (app_nil_r (ll_bytes ll)) at 1.
    rewrite !(app_assoc _ _ (ll_bytes ll ++ [])). apply rd_ll_app. reflexivity. }
  unfold parse_ns. rewrite Htgt, Hsrc', Hdst'. cbn [mbind option_bind].
  rewrite Hm, ndL_get_local_addr_specified by done.
  assert (length fr = 86%nat) as -> by by rewrite Hfr.
  cbn [ns_options].
  assert (rd8 fr (MSG_LEN + ND_LEN) = Some ND_OPT_SOURCE_LINKADDR) as -> by by rewrite Hfr.
  assert (rd8 fr (MSG_LEN + ND_LEN + 1) = Some 1) as -> by by rewrite Hfr.
  cbn [mbind option_bind]. rewrite Hll. reflexivity.
Qed.

Lemma na_frame_parse ill dst dst_ll tgt tgt_ll router :
  addr_wf dst → addr_wf tgt →
  parse_frame (na_frame ill dst dst_ll tgt tgt_ll router) = Some (RxNA tgt).
Proof.
  intros Hd Ht. unfold na_frame, na_message. cbn [app].
  rewrite frame_dispatch by (done || by apply Nat.leb_le || by apply Z.ltb_lt).
  change (ND_NEIGHBOR_ADVERT =? ND_NEIGHBOR_SOLICIT) with false.
  change (ND_NEIGHBOR_ADVERT =? ND_NEIGHBOR_ADVERT) with true. cbn iota.
  unfold parse_na. rewrite frame_eq.
  match goal with
  | |- context [rd_addr ?f _] => assert (rd_bytes f (MSG_LEN + 8) 16 = Some (addr_bytes tgt)) as Hb
  end; [reflexivity|].
  unfold rd_addr. rewrite Hb. cbn [mbind option_bind]. by rewrite addr_of_addr_bytes.
Qed.

(** ** What the checks of the receive path establish *)

(** One step of an equation [H : parser = Some r]: the first read succeeded, and
    the branches that drop the packet contradict [r <> RxDrop]. *)
Ltac parse_step H :=
  cbn [mbind option_bind negb] in H;
  lazymatch type of H with
  | mbind _ ?o = Some _ => destruct o eqn:?; [|discriminate H]
  | option_bind _ _ _ ?o = Some _ => destruct o eqn:?; [|discriminate H]
  | (if (?x <? ?y) then _ else _) = Some _ => destruct (Z.ltb_spec x y)
  | (if negb (?x =? ?y) then _ else _) = Some _ => destruct (Z.eqb_spec x y)
  | (if (?x =? ?y) then _ else _) = Some _ => destruct (Z.eqb_spec x y)
  | (if ?b then _ else _) = Some _ => destruct b eqn:?
  end; try (cbn [mbind option_bind negb] in H; injection H as <-; done).

Lemma parse_ns_inv f ih len src dst tgt src_ll :
  parse_ns f ih len = Some (RxNS src dst tgt src_ll) →
  ND_LEN ≤ len ∧ rd_addr f (ih + 8) = Some tgt ∧ nd_addr_is_multicast tgt = false ∧
  rd_addr f (ETH_LEN + 8) = Some src ∧
  (nd_addr_is_unspecified src = true ↔ src_ll = None).
Proof.
  intros Hp. unfold parse_ns in Hp. do 5 (parse_step Hp; try done).
  cbn [mbind option_bind] in Hp. destruct (nd_addr_is_unspecified _) eqn:Hu.
  { injection Hp as <- <- <- <-. done. }
  parse_step Hp. cbn [mbind option_bind] in Hp.
  match type of Hp with context [match ?r with _ => _ end] => destruct r as [[ll|]|] end;
    [|parse_step Hp|done]; cbn [mbind option_bind] in Hp;
    injection Hp as <- <- <- <-; repeat split; try done; by rewrite Hu.
Qed.

(** The part of [ndL_handle_msg] before the dispatch: checksum and hop limit of
    the ICMPv6 message at offset [i] of the payload have been verified. *)
Definition icmp6_verified (f : list Z) (i : Z) : Prop :=
  ∃ src dst icmp6 cksum,
    let ilen := wrap16 (Z.of_nat (length f) - MSG_LEN - i) in
    rd_addr f (ETH_LEN + 8) = Some src ∧ rd_addr f (ETH_LEN + 24) = Some dst ∧
    rd_bytes f (MSG_LEN + i) ilen = Some icmp6 ∧ rd16 f (MSG_LEN + i + 2) = Some cksum ∧
    ndL_calculate_icmp6_checksum src dst icmp6 ilen = cksum ∧
    rd8 f (ETH_LEN + 7) = Some 255.

(** The message at offset [i] has the type the result [r] belongs to. *)
Definition icmp6_dispatched (f : list Z) (i : Z) (r : rx) : Prop :=
  let ilen := wrap16 (Z.of_nat (length f) - MSG_LEN - i) in
  (rd8 f (MSG_LEN + i) = Some ND_NEIGHBOR_SOLICIT ∧ parse_ns f (MSG_LEN + i) ilen = Some r) ∨
  (rd8 f (MSG_LEN + i) = Some ND_NEIGHBOR_ADVERT ∧ parse_na f (MSG_LEN + i) ilen = Some r) ∨
  (rd8 f (MSG_LEN + i) = Some MLD_LISTENER_QUERY ∧ r = RxMLQ) ∨
  (rd8 f (MSG_LEN + i) = Some MLD_LISTENER_REPORT ∧ r = RxMLR).

(** Where the ICMPv6 header is: after the IPv6 header, or after a hop-by-hop header. *)
Definition icmp6_offset (f : list Z) (i : Z) : Prop :=
  (rd8 f (ETH_LEN + 6) = Some IPPROTO_ICMPV6 ∧ i = 0) ∨
  (rd8 f (ETH_LEN + 6) = Some IPPROTO_HOPOPTS ∧ rd8 f MSG_LEN = Some IPPROTO_ICMPV6 ∧
   ∃ hlen, rd8 f (MSG_LEN + 1) = Some hlen ∧ i = 8 + 8 * hlen).

Lemma parse_icmp6_inv f i r :
  parse_icmp6 f (Z.of_nat (length f) - MSG_LEN) i = Some r → r ≠ RxDrop →
  icmp6_verified f i ∧ icmp6_dispatched f i r.
Proof.
  intros Hp Hr. unfold parse_icmp6 in Hp. do 9 parse_step Hp.
  subst. split; [unfold icmp6_verified; eauto 10|]. unfold icmp6_dispatched.
  cbn [mbind option_bind] in Hp. repeat parse_step Hp; subst; simpl in Hp.
  - by left.
  - by right; left.
  - right; right; left. by injection Hp as <-.
  - right; right; right. by injection Hp as <-.
Qed.

Lemma parse_frame_inv f r :
  parse_frame f = Some r → r ≠ RxDrop →
  rd16 f 12 = Some ETHERTYPE_IPV6 ∧
  ∃ i, icmp6_offset f i ∧ icmp6_verified f i ∧ icmp6_dispatched f i r.
Proof.
  intros Hp Hr. unfold parse_frame in Hp. do 5 parse_step Hp. subst. split; [done|].
  cbn [negb] in Hp. unfold parse_msg in Hp. do 3 parse_step Hp; subst.
  - do 5 parse_step Hp. subst. cbn [negb] in Hp. simplify_eq.
    eexists. split; [right; eauto|]. by apply parse_icmp6_inv.
  - do 1 parse_step Hp. subst. cbn [negb] in Hp. simplify_eq.
    exists 0. split; [by left|]. by apply parse_icmp6_inv.
Qed.
End packet.
