(* ===== verification/Filter.v ===== *)
(** * The socket filter (ndL_configure_filter of src/iface.c)

    The filter is a classic BPF program: a list of instructions for a machine
    with an accumulator, an index register and a scratch memory, run on every
    frame before the daemon sees it.  The program below is the one in the
    source; [bpf_run] is the instruction set it uses, as the BPF manual defines
    it (loads are big-endian, a load outside the frame ends the run with 0, a
    jump is relative to the next instruction). *)
From S2P Require Import Prelude Addr World Monad Packet.

Inductive bpf_insn :=
  (** [BPF_LD + BPF_H + BPF_ABS], [BPF_LD + BPF_B + BPF_ABS], [BPF_LD + BPF_B + BPF_IND] *)
  | LD_H_ABS (k : Z) | LD_B_ABS (k : Z) | LD_B_IND (k : Z)
  (** [BPF_LDX + BPF_W + BPF_IMM], [BPF_ST], [BPF_LD + BPF_MEM] *)
  | LDX_IMM (k : Z) | ST (k : nat) | LD_MEM (k : nat)
  (** [BPF_ALU] with [BPF_MUL + BPF_K], [BPF_ADD + BPF_K], [BPF_ADD + BPF_X]; [BPF_MISC + BPF_TAX] *)
  | ALU_MUL_K (k : Z) | ALU_ADD_K (k : Z) | ALU_ADD_X | TAX
  (** [BPF_JMP + BPF_JEQ + BPF_K], [BPF_RET + BPF_K] *)
  | JEQ (k : Z) (jt jf : nat) | RET (k : Z).

Record bpf_state := mk_bpf { b_pc : nat; b_A : Z; b_X : Z; b_mem : list Z }.

Inductive bpf_result := Next (s : bpf_state) | Verdict (k : Z).

Definition bpf_load (f : list Z) (s : bpf_state) (v : option Z) : bpf_result :=
  match v with
  | Some a => Next (mk_bpf (S (b_pc s)) a (b_X s) (b_mem s))
  | None => Verdict 0
  end.

Definition bpf_step (f : list Z) (i : bpf_insn) (s : bpf_state) : bpf_result :=
  match i with
  | LD_H_ABS k => bpf_load f s (rd16 f k)
  | LD_B_ABS k => bpf_load f s (rd8 f k)
  | LD_B_IND k => bpf_load f s (rd8 f (wrap32 (b_X s + k)))
  | LDX_IMM k => Next (mk_bpf (S (b_pc s)) (b_A s) k (b_mem s))
  | ST k => Next (mk_bpf (S (b_pc s)) (b_A s) (b_X s) (<[k := b_A s]> (b_mem s)))
  | LD_MEM k => Next (mk_bpf (S (b_pc s)) (nth k (b_mem s) 0) (b_X s) (b_mem s))
  | ALU_MUL_K k => Next (mk_bpf (S (b_pc s)) (wrap32 (b_A s * k)) (b_X s) (b_mem s))
  | ALU_ADD_K k => Next (mk_bpf (S (b_pc s)) (wrap32 (b_A s + k)) (b_X s) (b_mem s))
  | ALU_ADD_X => Next (mk_bpf (S (b_pc s)) (wrap32 (b_A s + b_X s)) (b_X s) (b_mem s))
  | TAX => Next (mk_bpf (S (b_pc s)) (b_A s) (b_A s) (b_mem s))
  | JEQ k jt jf =>
      Next (mk_bpf (S (b_pc s + (if b_A s =? k then jt else jf))) (b_A s) (b_X s) (b_mem s))
  | RET k => Verdict k
  end.

(** Jumps only go forward, so a run takes at most as many steps as there are
    instructions; falling off the program would be [None]. *)
Fixpoint bpf_run (fuel : nat) (prog : list bpf_insn) (f : list Z) (s : bpf_state) : option Z :=
  match fuel with
  | O => None
  | S fuel =>
      match prog !! b_pc s with
      | None => None
      | Some i =>
          match bpf_step f i s with
          | Next s => bpf_run fuel prog f s
          | Verdict k => Some k
          end
      end
  end.

Definition ndL_filter : list bpf_insn := [
  (* Load P->ether_type into A. *)
  LD_H_ABS 12;
  (* Drop packet if A != ETHERTYPE_IPV6. *)
  JEQ ETHERTYPE_IPV6 0 17;
  (* Load next header offset into X. *)
  LDX_IMM (ETH_LEN + IP6_LEN);
  (* Load P->ip6_nxt. *)
  LD_B_ABS (ETH_LEN + 6);
  (* Skip if A != IPPROTO_HOPOPTS. *)
  JEQ IPPROTO_HOPOPTS 0 8;
  (* Load X->ip6h_nxt into A; save it; load ip6h_len; multiply by 8; add 8; add X; copy to X. *)
  LD_B_IND 0; ST 0; LD_B_IND 1; ALU_MUL_K 8; ALU_ADD_K 8; ALU_ADD_X; TAX;
  (* Load [0(nxt)] into A. *)
  LD_MEM 0;
  (* Fail if A != IPPROTO_ICMPV6. *)
  JEQ IPPROTO_ICMPV6 0 5;
  (* Load X->icmp6_type into A. *)
  LD_B_IND 0;
  JEQ ND_NEIGHBOR_SOLICIT 4 0;
  JEQ ND_NEIGHBOR_ADVERT 3 0;
  JEQ MLD_LISTENER_QUERY 2 0;
  JEQ MLD_LISTENER_REPORT 1 0;
  (* Drop packet. *)
  RET 0;
  (* Keep packet. *)
  RET 0xffffffff].

Definition filter_verdict (f : list Z) : option Z :=
  bpf_run (length ndL_filter) ndL_filter f (mk_bpf 0 0 0 (replicate 16 0)).

(** ** Specification *)

(** The ICMPv6 types the daemon handles. *)
Definition nd_type (ty : Z) : bool :=
  (ty =? ND_NEIGHBOR_SOLICIT) || (ty =? ND_NEIGHBOR_ADVERT) ||
  (ty =? MLD_LISTENER_QUERY) || (ty =? MLD_LISTENER_REPORT).

(** The tail of the program, from the test for ICMPv6 on. *)
Definition keep_icmp6 (f : list Z) (nxt x : Z) : bool :=
  (nxt =? IPPROTO_ICMPV6) && match rd8 f x with Some ty => nd_type ty | None => false end.

(** The frames the program is meant to keep. *)
Definition filter_spec (f : list Z) : bool :=
  match rd16 f 12, rd8 f (ETH_LEN + 6) with
  | Some ether_type, Some nxt =>
      (ether_type =? ETHERTYPE_IPV6) &&
      if nxt =? IPPROTO_HOPOPTS then
        match rd8 f MSG_LEN, rd8 f (MSG_LEN + 1) with
        | Some hnxt, Some hlen => keep_icmp6 f hnxt (MSG_LEN + (8 + 8 * hlen))
        | _, _ => false
        end
      else keep_icmp6 f nxt MSG_LEN
  | _, _ => false
  end.

Definition verdict (keep : bool) : Z := if keep then 0xffffffff else 0.

(** ** Lemmas *)

Lemma bpf_run_next fuel prog f s i s' :
  prog !! b_pc s = Some i → bpf_step f i s = Next s' →
  bpf_run (S fuel) prog f s = bpf_run fuel prog f s'.
Proof. intros Hi Hs. cbn [bpf_run]. by rewrite Hi, Hs. Qed.

Lemma bpf_run_verdict fuel prog f s i k :
  prog !! b_pc s = Some i → bpf_step f i s = Verdict k → bpf_run (S fuel) prog f s = Some k.
Proof. intros Hi Hs. cbn [bpf_run]. by rewrite Hi, Hs. Qed.

(** Executes one instruction; a load or a test on the data is resolved by the
    hypothesis about it. *)
Ltac bpf_exec :=
  cbn [bpf_step bpf_load b_A b_X b_pc b_mem];
  first [match goal with H : _ = _ |- _ => rewrite H; reflexivity end|reflexivity].
Ltac bpf_next := erewrite bpf_run_next; [|reflexivity|bpf_exec].
Ltac bpf_end := eapply bpf_run_verdict; [reflexivity|bpf_exec].

(** Running from instruction 13 on, with the next header in A and the offset of
    the ICMPv6 header in X. *)
Lemma filter_tail f nxt x mem fuel :
  0 ≤ x < 2 ^ 31 →
  bpf_run (8 + fuel) ndL_filter f (mk_bpf 13 nxt x mem) = Some (verdict (keep_icmp6 f nxt x)).
Proof.
  intros Hx. unfold keep_icmp6. cbn [Nat.add].
  assert (wrap32 (x + 0) = x) as Hw.
  { rewrite Z.add_0_r, wrap32_small by (unfold is_u32, u32_max; lia). done. }
  destruct (nxt =? IPPROTO_ICMPV6) eqn:Hn; bpf_next; [|bpf_end].
  destruct (rd8 f x) as [ty|] eqn:Hty; rewrite <- Hw in Hty; [bpf_next|bpf_end].
  unfold nd_type.
  destruct (ty =? ND_NEIGHBOR_SOLICIT) eqn:H1; bpf_next; [bpf_end|].
  destruct (ty =? ND_NEIGHBOR_ADVERT) eqn:H2; bpf_next; [bpf_end|].
  destruct (ty =? MLD_LISTENER_QUERY) eqn:H3; bpf_next; [bpf_end|].
  destruct (ty =? MLD_LISTENER_REPORT) eqn:H4; bpf_next; bpf_end.
Qed.

(** Skipping the hop-by-hop header, instructions 5 to 12. *)
Lemma filter_hopopts f mem fuel a :
  Forall is_u8 f →
  bpf_run (8 + (8 + fuel)) ndL_filter f (mk_bpf 5 a (ETH_LEN + IP6_LEN) (0 :: mem)) =
  Some (verdict match rd8 f MSG_LEN, rd8 f (MSG_LEN + 1) with
                | Some hnxt, Some hlen => keep_icmp6 f hnxt (MSG_LEN + (8 + 8 * hlen))
                | _, _ => false
                end).
Proof.
  intros Hf.
  assert (wrap32 (ETH_LEN + IP6_LEN + 0) = MSG_LEN) as Hw0 by reflexivity.
  assert (wrap32 (ETH_LEN + IP6_LEN + 1) = MSG_LEN + 1) as Hw1 by reflexivity.
  destruct (rd8 f MSG_LEN) as [hnxt|] eqn:Hn; rewrite <- Hw0 in Hn;
    cbn [Nat.add]; [do 2 bpf_next|bpf_end].
  destruct (rd8 f (MSG_LEN + 1)) as [hlen|] eqn:Hh; rewrite <- Hw1 in Hh;
    [|clear Hn; bpf_end].
  pose proof (rd8_u8 _ _ _ Hf Hh) as Hu8. unfold is_u8, u8_max in Hu8. clear Hn.
  do 6 bpf_next. cbn [b_A b_X b_pc b_mem].
  assert (wrap32 (wrap32 (wrap32 (hlen * 8) + 8) + (ETH_LEN + IP6_LEN)) = MSG_LEN + (8 + 8 * hlen))
    as -> by (unfold wrap32, u32_max, ETH_LEN, IP6_LEN, MSG_LEN; zlia).
  apply (filter_tail f hnxt _ _ fuel). unfold MSG_LEN. lia.
Qed.

Lemma filter_verdict_spec f :
  Forall is_u8 f → filter_verdict f = Some (verdict (filter_spec f)).
Proof.
  intros Hf. unfold filter_verdict, filter_spec.
  change (length ndL_filter) with (S (S (S (S (S (8 + (8 + 0))))))).
  destruct (rd16 f 12) as [et|] eqn:Het; [bpf_next|bpf_end]. clear Het.
  destruct (et =? ETHERTYPE_IPV6) eqn:He; bpf_next; clear He.
  2: { destruct (rd8 f (ETH_LEN + 6)); bpf_end. }
  bpf_next. destruct (rd8 f (ETH_LEN + 6)) as [nxt|] eqn:Hnx; [bpf_next|bpf_end]. clear Hnx.
  destruct (nxt =? IPPROTO_HOPOPTS) eqn:Hh; bpf_next; clear Hh; cbn [andb].
  - by apply filter_hopopts.
  - by apply (filter_tail f nxt MSG_LEN _ 8).
Qed.

(** Every frame the receive path acts on has passed the filter. *)
Lemma handled_frame_kept {BO : ByteOrder} f r :
  parse_frame f = Some r → r ≠ RxDrop → filter_spec f = true.
Proof.
  intros Hp Hr. destruct (parse_frame_inv f r Hp Hr) as (Het & i & Hoff & _ & Hty).
  unfold filter_spec. rewrite Het, Z.eqb_refl. cbn [andb].
  assert (∃ ty, rd8 f (MSG_LEN + i) = Some ty ∧ nd_type ty = true) as (ty & Hrd & Hnd).
  { destruct Hty as [[-> _]|[[-> _]|[[-> _]|[-> _]]]]; eexists; done. }
  destruct Hoff as [[-> ->]|(-> & -> & hlen & -> & ->)].
  - rewrite Z.add_0_r in Hrd. change (IPPROTO_ICMPV6 =? IPPROTO_HOPOPTS) with false.
    unfold keep_icmp6. by rewrite Hrd.
  - change (IPPROTO_HOPOPTS =? IPPROTO_HOPOPTS) with true. unfold keep_icmp6. by rewrite Hrd.
Qed.
