(* ===== verification/Route.v ===== *)
(** * The routing and address tables (src/rt.c)

    [ndL_routes] is a linked list kept sorted by decreasing prefix length, so
    that the first match is the longest; [ndL_addrs] is the unsorted list of
    the addresses of this host.  The second part of the file builds the netlink
    requests that add and remove the host routes of [autowire] rules. *)
From Stdlib Require Import Sorted.
From S2P Require Import Prelude Addr World Monad Packet.

(** ** The tables *)

Section tables.
Context {BO : ByteOrder}.

(** The key a route is identified by when it is added. *)
Definition same_route (a b : nd_rt_route) : bool :=
  nd_addr_eq (rt_dst a) (rt_dst b) && (rt_pflen a =? rt_pflen b) && (rt_table a =? rt_table b).

(** The second loop of [ndL_new_route]: before the first route that is not longer. *)
Fixpoint rt_insert (new_route : nd_rt_route) (routes : list nd_rt_route) : list nd_rt_route :=
  match routes with
  | [] => [new_route]
  | cur :: rest =>
      if rt_pflen cur <=? rt_pflen new_route then new_route :: cur :: rest
      else cur :: rt_insert new_route rest
  end.

Definition ndL_new_route (route : nd_rt_route) (routes : list nd_rt_route) : list nd_rt_route :=
  if existsb (λ r, same_route r route) routes then routes else rt_insert route routes.

Fixpoint ndL_delete_route (route : nd_rt_route) (routes : list nd_rt_route) : list nd_rt_route :=
  match routes with
  | [] => []
  | cur :: rest =>
      if nd_addr_eq (rt_dst cur) (rt_dst route) && (rt_oif cur =? rt_oif route) &&
         (rt_pflen cur =? rt_pflen route) && (rt_table cur =? rt_table route)
      then rest else cur :: ndL_delete_route route rest
  end.

Definition nd_rt_find_route (addr : nd_addr) (table : Z) (routes : list nd_rt_route)
    : option nd_rt_route :=
  List.find (λ r, nd_addr_match (rt_dst r) addr (rt_pflen r) && (rt_table r =? table)) routes.

Definition nd_rt_is_local_addr (index : Z) (addr : nd_addr) (addrs : list nd_rt_addr) : bool :=
  existsb (λ a, (ra_iif a =? index) && nd_addr_eq (ra_addr a) addr) addrs.

Definition same_rt_addr (index : Z) (addr : nd_addr) (pflen : Z) (a : nd_rt_addr) : bool :=
  (ra_iif a =? index) && nd_addr_eq (ra_addr a) addr && (ra_pflen a =? pflen).

Definition ndL_new_addr (index : Z) (addr : nd_addr) (pflen : Z) (addrs : list nd_rt_addr)
    : list nd_rt_addr :=
  if existsb (same_rt_addr index addr pflen) addrs then addrs
  else mk_rt_addr index addr pflen :: addrs.

Fixpoint ndL_delete_addr (index : Z) (addr : nd_addr) (pflen : Z) (addrs : list nd_rt_addr)
    : list nd_rt_addr :=
  match addrs with
  | [] => []
  | a :: rest =>
      if same_rt_addr index addr pflen a then rest else a :: ndL_delete_addr index addr pflen rest
  end.

(** ** Invariants of the tables *)

(** Longer prefixes come first. *)
Definition rt_sorted (routes : list nd_rt_route) : Prop :=
  StronglySorted (λ a b, rt_pflen b ≤ rt_pflen a) routes.

(** At most one route per destination, length and table. *)
Definition rt_key (r : nd_rt_route) : nd_addr * Z * Z := (rt_dst r, rt_pflen r, rt_table r).
Definition rt_unique (routes : list nd_rt_route) : Prop := NoDup (map rt_key routes).

Definition rt_matches (addr : nd_addr) (table : Z) (r : nd_rt_route) : Prop :=
  nd_addr_match (rt_dst r) addr (rt_pflen r) = true ∧ rt_table r = table.

Lemma same_route_spec a b : same_route a b = true ↔ rt_key a = rt_key b.
Proof.
  unfold same_route, rt_key. rewrite !andb_true_iff, nd_addr_eq_spec, !Z.eqb_eq.
  split; [by intros [[-> ->] ->]|by injection 1].
Qed.

Lemma elem_of_rt_insert r x routes : r ∈ rt_insert x routes ↔ r = x ∨ r ∈ routes.
Proof.
  induction routes as [|cur rest IH]; simpl.
  - rewrite list_elem_of_singleton, elem_of_nil. tauto.
  - destruct (_ <=? _); rewrite !elem_of_cons; [done|]. rewrite IH. tauto.
Qed.

Lemma rt_insert_Permutation x routes : rt_insert x routes ≡ₚ x :: routes.
Proof.
  induction routes as [|cur rest IH]; simpl; [done|].
  destruct (_ <=? _); [done|]. rewrite IH. apply Permutation_swap.
Qed.

Lemma rt_insert_sorted x routes : rt_sorted routes → rt_sorted (rt_insert x routes).
Proof.
  unfold rt_sorted. induction 1 as [|cur rest Hs IH Hall]; simpl; [repeat constructor|].
  destruct (Z.leb_spec (rt_pflen cur) (rt_pflen x)).
  - constructor; [by constructor|]. constructor; [done|].
    rewrite list.Forall_forall in Hall |- *. intros y Hy. pose proof (Hall y Hy). simpl in *. lia.
  - constructor; [done|]. rewrite rt_insert_Permutation. constructor; [lia|done].
Qed.

Lemma existsb_same_route x routes :
  existsb (λ r, same_route r x) routes = true ↔ rt_key x ∈ map rt_key routes.
Proof.
  rewrite existsb_exists, list_elem_of_In, in_map_iff.
  setoid_rewrite same_route_spec. split; intros (r & ? & ?); eauto.
Qed.

Lemma ndL_new_route_sorted x routes : rt_sorted routes → rt_sorted (ndL_new_route x routes).
Proof. unfold ndL_new_route. destruct (existsb _ _); [done|]. apply rt_insert_sorted. Qed.

Lemma ndL_new_route_unique x routes : rt_unique routes → rt_unique (ndL_new_route x routes).
Proof.
  unfold ndL_new_route, rt_unique. destruct (existsb _ _) eqn:E; [done|]. intros Hu.
  rewrite rt_insert_Permutation. simpl. constructor; [|done].
  rewrite <- existsb_same_route. by rewrite E.
Qed.

Lemma ndL_delete_route_sublist x routes : ndL_delete_route x routes `sublist_of` routes.
Proof.
  induction routes as [|cur rest IH]; simpl; [done|].
  destruct (_ && _); [by apply sublist_cons|by apply sublist_skip].
Qed.

Lemma rt_sorted_sublist l k : l `sublist_of` k → rt_sorted k → rt_sorted l.
Proof.
  unfold rt_sorted. induction 1 as [|x l k Hs IH|x l k Hs IH]; [done|..];
    inversion_clear 1 as [|? ? Hs' Hall].
  - constructor; [by apply IH|]. rewrite list.Forall_forall in Hall |- *.
    intros y Hy. eapply Hall, elem_of_sublist; done.
  - by apply IH.
Qed.

Lemma rt_unique_sublist l k : l `sublist_of` k → rt_unique k → rt_unique l.
Proof. unfold rt_unique. intros Hs Hk. eapply sublist_NoDup; [apply Hk|]. by apply (fmap_sublist rt_key). Qed.

Lemma same_rt_addr_spec index addr pflen a :
  same_rt_addr index addr pflen a = true ↔ a = mk_rt_addr index addr pflen.
Proof.
  unfold same_rt_addr. rewrite !andb_true_iff, nd_addr_eq_spec, !Z.eqb_eq.
  destruct a; cbn. split; [by intros [[-> ->] ->]|by injection 1].
Qed.

Lemma ndL_new_addr_nodup index addr pflen addrs : NoDup addrs → NoDup (ndL_new_addr index addr pflen addrs).
Proof.
  unfold ndL_new_addr. destruct (existsb _ _) eqn:E; [done|]. intros Hn.
  apply list.NoDup_cons. split; [|done]. intros Hin%list_elem_of_In. apply not_true_iff_false in E.
  apply E, existsb_exists. eexists. split; [exact Hin|]. by apply same_rt_addr_spec.
Qed.

Lemma ndL_delete_addr_sublist index addr pflen addrs : ndL_delete_addr index addr pflen addrs `sublist_of` addrs.
Proof.
  induction addrs as [|a rest IH]; simpl; [done|].
  destruct (same_rt_addr _ _ _ _); [by apply sublist_cons|by apply sublist_skip].
Qed.

(** The invariant of both tables. *)
Definition tables_ok (routes : list nd_rt_route) (addrs : list nd_rt_addr) : Prop :=
  rt_sorted routes ∧ rt_unique routes ∧ NoDup addrs.

Lemma tables_ok_empty : tables_ok [] [].
Proof. split_and!; constructor. Qed.

Lemma tables_ok_new_route r routes addrs : tables_ok routes addrs → tables_ok (ndL_new_route r routes) addrs.
Proof. intros (? & ? & ?). split_and!; auto using ndL_new_route_sorted, ndL_new_route_unique. Qed.

Lemma tables_ok_delete_route r routes addrs :
  tables_ok routes addrs → tables_ok (ndL_delete_route r routes) addrs.
Proof.
  intros (? & ? & ?). pose proof (ndL_delete_route_sublist r routes).
  split_and!; eauto using rt_sorted_sublist, rt_unique_sublist.
Qed.

Lemma tables_ok_new_addr index addr pflen routes addrs :
  tables_ok routes addrs → tables_ok routes (ndL_new_addr index addr pflen addrs).
Proof. intros (? & ? & ?). split_and!; auto using ndL_new_addr_nodup. Qed.

Lemma tables_ok_delete_addr index addr pflen routes addrs :
  tables_ok routes addrs → tables_ok routes (ndL_delete_addr index addr pflen addrs).
Proof. intros (? & ? & Hn). split_and!; [done|done|]. exact (sublist_NoDup _ _ Hn (ndL_delete_addr_sublist _ _ _ _)). Qed.

(** The first match in a sorted table is a longest one. *)
Lemma find_sorted_longest addr table routes r :
  rt_sorted routes → nd_rt_find_route addr table routes = Some r →
  r ∈ routes ∧ rt_matches addr table r ∧
  ∀ r', r' ∈ routes → rt_matches addr table r' → rt_pflen r' ≤ rt_pflen r.
Proof.
  unfold nd_rt_find_route, rt_matches.
  induction 1 as [|cur rest Hs IH Hall]; simpl; [done|].
  destruct (_ && _) eqn:Hm.
  - intros [= <-]. apply andb_true_iff in Hm as [Hm Ht%Z.eqb_eq].
    split; [left|]. split; [done|]. intros r' [-> |Hr']%elem_of_cons _; [done|].
    rewrite list.Forall_forall in Hall. by apply Hall.
  - intros Hf. destruct (IH Hf) as (Hin & Hmr & Hmax). split; [by right|]. split; [done|].
    intros r' [-> |Hr']%elem_of_cons [Hm' Ht']; [|by apply Hmax].
    by rewrite Hm', Ht', Z.eqb_refl in Hm.
Qed.

Lemma find_none_iff addr table routes :
  nd_rt_find_route addr table routes = None ↔ ∀ r, r ∈ routes → ¬ rt_matches addr table r.
Proof.
  unfold nd_rt_find_route, rt_matches. split.
  - intros Hn r Hr [Hm Ht]. eapply find_none in Hn; [|by apply list_elem_of_In].
    simpl in Hn. by rewrite Hm, Ht, Z.eqb_refl in Hn.
  - intros Hall. destruct (List.find _ _) as [r|] eqn:Hf; [|done].
    apply find_some in Hf as [Hin Hb]. apply andb_true_iff in Hb as [Hm Ht%Z.eqb_eq].
    destruct (Hall r); [by apply list_elem_of_In|done].
Qed.
End tables.
