(* ===== verification/Netlink.v ===== *)
(** * Netlink messages (the rtnetlink half of src/rt.c)

    Requests are built byte by byte in the layout of the packed structs of
    rt.c; received datagrams are walked with the [NLMSG_*] and [RTA_*] macros.
    Integers are in host order.  As in the frame parser, a read outside the
    received bytes is [None], so that a malformed datagram on which the code
    would read past its buffer shows as a parser without a result. *)
From S2P Require Import Prelude Addr World Monad Packet.

(** ** Constants of <linux/netlink.h> and <linux/rtnetlink.h> *)

Definition NLMSG_HDRLEN : Z := 16.
Definition NLMSG_ERROR : Z := 2.
Definition NLMSG_DONE : Z := 3.
Definition NLM_F_REQUEST : Z := 0x1.
Definition NLM_F_DUMP : Z := 0x300.
Definition NLM_F_CREATE : Z := 0x400.
Definition RTM_NEWLINK : Z := 16.
Definition RTM_DELLINK : Z := 17.
Definition RTM_NEWADDR : Z := 20.
Definition RTM_DELADDR : Z := 21.
Definition RTM_GETADDR : Z := 22.
Definition RTM_NEWROUTE : Z := 24.
Definition RTM_DELROUTE : Z := 25.
Definition RTM_GETROUTE : Z := 26.
Definition RTA_DST : Z := 1.
Definition RTA_OIF : Z := 4.
Definition IFA_ADDRESS : Z := 1.
Definition AF_INET6 : Z := 10.
Definition RTPROT_NDPPD : Z := 72.
Definition RTMSG_LEN : Z := 12.
Definition IFADDRMSG_LEN : Z := 8.
Definition RTATTR_LEN : Z := 4.

(** [NLMSG_ALIGN] and [RTA_ALIGN] *)
Definition align4 (n : Z) : Z := (n + 3) / 4 * 4.

Section netlink.
Context {BO : ByteOrder}.

(** ** Requests *)

Definition h16 (x : Z) : list Z :=
  match host_order with LittleEndian => rev (be16 x) | BigEndian => be16 x end.
Definition h32 (x : Z) : list Z :=
  match host_order with LittleEndian => rev (be32 x) | BigEndian => be32 x end.

(** [struct nlmsghdr]; [nlmsg_pid] is zero. *)
Definition nlmsghdr (len type flags seq : Z) : list Z :=
  h32 len ++ h16 type ++ h16 flags ++ h32 seq ++ h32 0.

(** [struct rtmsg]: family, dst_len, src_len, tos, table, protocol, scope, type, flags.
    [rtm_dst_len] and [rtm_table] are bytes, to which the [unsigned] arguments
    are truncated. *)
Definition rtmsg (dst_len table protocol : Z) : list Z :=
  [AF_INET6; dst_len mod 256; 0; 0; table mod 256; protocol; 0; 0] ++ h32 0.

(** [struct rtattr] *)
Definition rtattr (len type : Z) : list Z := h16 len ++ h16 type.

(** The request of [nd_rt_query_routes]. *)
Definition query_routes_request : list Z :=
  nlmsghdr 28 RTM_GETROUTE (Z.lor NLM_F_REQUEST NLM_F_DUMP) 0 ++ rtmsg 0 0 0.

(** The request of [nd_rt_query_addresses]. *)
Definition query_addresses_request : list Z :=
  nlmsghdr 24 RTM_GETADDR (Z.lor NLM_F_REQUEST NLM_F_DUMP) 1 ++ [AF_INET6; 0; 0; 0] ++ h32 0.

(** The request of [nd_rt_add_route]. *)
Definition add_route_request (dst : nd_addr) (pflen oif table : Z) : list Z :=
  nlmsghdr 56 RTM_NEWROUTE (Z.lor NLM_F_REQUEST NLM_F_CREATE) 0 ++
  rtmsg pflen table RTPROT_NDPPD ++
  rtattr 8 RTA_OIF ++ h32 oif ++
  rtattr 20 RTA_DST ++ addr_bytes dst.

(** The request of [nd_rt_remove_route]. *)
Definition remove_route_request (dst : nd_addr) (pflen table : Z) : list Z :=
  nlmsghdr 48 RTM_DELROUTE NLM_F_REQUEST 0 ++
  rtmsg pflen table RTPROT_NDPPD ++
  rtattr 20 RTA_DST ++ addr_bytes dst.

(** ** Received messages *)

Definition rdh16 (f : list Z) (i : Z) : option Z :=
  b0 ← rd8 f i; b1 ← rd8 f (i + 1);
  Some (match host_order with
        | LittleEndian => b1 * 256 + b0
        | BigEndian => b0 * 256 + b1
        end).

Definition rdh32 (f : list Z) (i : Z) : option Z :=
  b0 ← rd8 f i; b1 ← rd8 f (i + 1); b2 ← rd8 f (i + 2); b3 ← rd8 f (i + 3);
  Some (match host_order with
        | LittleEndian => ((b3 * 256 + b2) * 256 + b1) * 256 + b0
        | BigEndian => ((b0 * 256 + b1) * 256 + b2) * 256 + b3
        end).

(** The attribute loop [for (rta = ...; RTA_OK(rta, len); rta = RTA_NEXT(rta, len))]
    of the four handlers; [body] gets the type and the offset of [RTA_DATA].
    Every iteration consumes at least 4 of the bytes of [f]. *)
Fixpoint rta_walk {A} (fuel : nat) (f : list Z) (body : Z → Z → A → option A) (rta len : Z) (acc : A)
    : option A :=
  match fuel with
  | O => None
  | S fuel =>
      if len <? RTATTR_LEN then Some acc else
      rta_len ← rdh16 f rta;
      if (rta_len <? RTATTR_LEN) || (len <? rta_len) then Some acc else
      rta_type ← rdh16 f (rta + 2);
      acc ← body rta_type (rta + RTATTR_LEN) acc;
      rta_walk fuel f body (rta + align4 rta_len) (len - align4 rta_len) acc
  end.

(** The loop bodies: the last [IFA_ADDRESS]; the last [RTA_DST] and the value of
    the last [RTA_OIF]. *)
Definition addr_body (type data : Z) (addr : option Z) : option (option Z) :=
  Some (if type =? IFA_ADDRESS then Some data else addr).

Definition route_body (f : list Z) (type data : Z) (acc : option Z * Z) : option (option Z * Z) :=
  let '(dst, oif) := acc in
  if type =? RTA_OIF then oif ← rdh32 f data; Some (dst, oif)
  else if type =? RTA_DST then Some (Some data, oif)
  else Some (dst, oif).

(** What a netlink message makes the daemon do. *)
Inductive nl_msg :=
  | NlIgnore
  | NlNewAddr (index : Z) (addr : nd_addr) (pflen : Z)
  | NlDelAddr (index : Z) (addr : nd_addr) (pflen : Z)
  | NlNewRoute (route : nd_rt_route)
  | NlDelRoute (route : nd_rt_route)
  | NlLink.

(** [ndL_handle_newaddr] and [ndL_handle_deladdr] up to the table update: [msg]
    is the offset of the [struct ifaddrmsg] and [length] the payload after it. *)
Definition parse_addr (k : Z → nd_addr → Z → nl_msg) (f : list Z) (msg length : Z) : option nl_msg :=
  addr ← rta_walk (S (List.length f)) f addr_body (msg + IFADDRMSG_LEN) length None;
  match addr with
  | None => Some NlIgnore
  | Some data =>
      index ← rdh32 f (msg + 4);
      pflen ← rd8 f (msg + 1);
      addr ← rd_addr f data;
      Some (k index addr pflen)
  end.

(** [ndL_handle_newroute] and [ndL_handle_delroute] up to the table update;
    [ndL_handle_delroute] leaves [owned] false. *)
Definition parse_route (is_new : bool) (f : list Z) (msg rtl : Z) : option nl_msg :=
  '(dst, oif) ← rta_walk (S (List.length f)) f (route_body f) (msg + RTMSG_LEN) rtl (None, 0);
  match dst with
  | None => Some NlIgnore
  | Some data =>
      if oif =? 0 then Some NlIgnore else
      table ← rd8 f (msg + 4);
      pflen ← rd8 f (msg + 1);
      addr ← rd_addr f data;
      protocol ← rd8 f (msg + 5);
      Some (if is_new
            then NlNewRoute (mk_route addr oif pflen table (protocol =? RTPROT_NDPPD))
            else NlDelRoute (mk_route addr oif pflen table false))
  end.

(** One iteration of the message loop of [ndL_io_handler] that does not break:
    [hdr] is the offset of the header, [len] its [nlmsg_len].  An error message
    is read as a [struct nlmsgerr] ([error] at 0, the type of the request's
    header at 8), whatever its length, and only logged. *)
Definition parse_nlmsg (f : list Z) (hdr type len : Z) : option nl_msg :=
  let data := hdr + NLMSG_HDRLEN in
  let rtm_payload := len - (NLMSG_HDRLEN + RTMSG_LEN) in
  let ifa_payload := len - (NLMSG_HDRLEN + IFADDRMSG_LEN) in
  if type =? NLMSG_ERROR then
    (* the error and the type of the failed request, for the log *)
    _ ← rdh32 f data; _ ← rdh16 f (data + 8);
    Some NlIgnore
  else if type =? RTM_NEWROUTE then parse_route true f data rtm_payload
  else if type =? RTM_DELROUTE then parse_route false f data rtm_payload
  else if type =? RTM_NEWADDR then parse_addr NlNewAddr f data ifa_payload
  else if type =? RTM_DELADDR then parse_addr NlDelAddr f data ifa_payload
  else if (type =? RTM_NEWLINK) || (type =? RTM_DELLINK) then Some NlLink
  else Some NlIgnore.

(** The message loop of [ndL_io_handler] over one datagram: the messages in
    order, and whether [NLMSG_DONE] ended it. *)
Fixpoint nlmsg_walk (fuel : nat) (f : list Z) (hdr len : Z) : option (list nl_msg * bool) :=
  match fuel with
  | O => None
  | S fuel =>
      if len <? NLMSG_HDRLEN then Some ([], false) else
      nlmsg_len ← rdh32 f hdr;
      if (nlmsg_len <? NLMSG_HDRLEN) || (len <? nlmsg_len) then Some ([], false) else
      type ← rdh16 f (hdr + 4);
      if type =? NLMSG_DONE then Some ([], true) else
      m ← parse_nlmsg f hdr type nlmsg_len;
      '(ms, done) ← nlmsg_walk fuel f (hdr + align4 nlmsg_len) (len - align4 nlmsg_len);
      Some (m :: ms, done)
  end.

Definition parse_datagram (f : list Z) : option (list nl_msg * bool) :=
  nlmsg_walk (S (List.length f)) f 0 (Z.of_nat (List.length f)).
End netlink.
