(* ===== verification/NetlinkSpec.v ===== *)
(** * What a netlink datagram says

    The notifications of rtnetlink as data ([nl_note]), their encoding in the
    layout of <linux/rtnetlink.h>, what they are meant to make the daemon do
    ([note_meaning]), and the proof that the parser of rt.c reads exactly that
    out of the bytes. *)
From S2P Require Import Prelude Addr World Monad Packet Netlink.

(** ** Notifications *)

(** An attribute of a route or address message: [RTA_DST] or [IFA_ADDRESS] (both
    are 1), [RTA_OIF], or another one. *)
Inductive attr :=
  | AttrAddr (addr : nd_addr)
  | AttrOif (oif : Z)
  | AttrOther (type : Z) (payload : list Z).

(** A message of the kernel, with the header fields the daemon looks at and the
    others ([src_len], [tos], [scope], [type], [flags]) as they come. *)
Inductive nl_note :=
  | NoteRoute (is_new : bool) (dst_len src_len tos table protocol scope type flags : Z) (attrs : list attr)
  | NoteAddr (is_new : bool) (pflen flags scope index : Z) (attrs : list attr)
  | NoteLink (is_new : bool) (payload : list Z)
  | NoteError (payload : list Z).

(** The address and the interface a message is about: the last ones count. *)
Definition attr_sem (x : option nd_addr * Z) (a : attr) : option nd_addr * Z :=
  match a with
  | AttrAddr addr => (Some addr, snd x)
  | AttrOif oif => (fst x, oif)
  | AttrOther _ _ => x
  end.

Definition attrs_sem (attrs : list attr) : option nd_addr * Z := fold_left attr_sem attrs (None, 0).

Definition note_meaning (n : nl_note) : nl_msg :=
  match n with
  | NoteRoute is_new dst_len _ _ table protocol _ _ _ attrs =>
      match attrs_sem attrs with
      | (Some dst, oif) =>
          if oif =? 0 then NlIgnore
          else if is_new then NlNewRoute (mk_route dst oif dst_len table (protocol =? RTPROT_NDPPD))
          else NlDelRoute (mk_route dst oif dst_len table false)
      | (None, _) => NlIgnore
      end
  | NoteAddr is_new pflen _ _ index attrs =>
      match attrs_sem attrs with
      | (Some addr, _) => (if is_new then NlNewAddr else NlDelAddr) index addr pflen
      | (None, _) => NlIgnore
      end
  | NoteLink _ _ => NlLink
  | NoteError _ => NlIgnore
  end.

Section netlink.
Context {BO : ByteOrder}.

(** ** Encoding *)

Definition pad4 (n : nat) : list Z := replicate (Z.to_nat (align4 (Z.of_nat n) - Z.of_nat n)) 0.

Definition attr_type (a : attr) : Z :=
  match a with AttrAddr _ => RTA_DST | AttrOif _ => RTA_OIF | AttrOther type _ => type end.
Definition attr_payload (a : attr) : list Z :=
  match a with AttrAddr addr => addr_bytes addr | AttrOif oif => h32 oif | AttrOther _ p => p end.

Definition attr_bytes (a : attr) : list Z :=
  let p := attr_payload a in
  rtattr (RTATTR_LEN + Z.of_nat (length p)) (attr_type a) ++ p ++ pad4 (length p).

Definition attrs_bytes (attrs : list attr) : list Z := concat (map attr_bytes attrs).

Definition note_type (n : nl_note) : Z :=
  match n with
  | NoteRoute is_new _ _ _ _ _ _ _ _ _ => if is_new then RTM_NEWROUTE else RTM_DELROUTE
  | NoteAddr is_new _ _ _ _ _ => if is_new then RTM_NEWADDR else RTM_DELADDR
  | NoteLink is_new _ => if is_new then RTM_NEWLINK else RTM_DELLINK
  | NoteError _ => NLMSG_ERROR
  end.

Definition note_payload (n : nl_note) : list Z :=
  match n with
  | NoteRoute _ dst_len src_len tos table protocol scope type flags attrs =>
      [AF_INET6; dst_len; src_len; tos; table; protocol; scope; type] ++ h32 flags ++ attrs_bytes attrs
  | NoteAddr _ pflen flags scope index attrs =>
      [AF_INET6; pflen; flags; scope] ++ h32 index ++ attrs_bytes attrs
  | NoteLink _ payload | NoteError payload => payload
  end.

(** A message with its header; [rest] are the ten bytes of [nlmsg_flags],
    [nlmsg_seq] and [nlmsg_pid], which the daemon does not look at. *)
Definition message_bytes (type : Z) (rest payload : list Z) : list Z :=
  h32 (NLMSG_HDRLEN + Z.of_nat (length payload)) ++ h16 type ++ rest ++ payload ++ pad4 (length payload).

Definition note_bytes (n : list Z * nl_note) : list Z :=
  message_bytes (note_type (snd n)) (fst n) (note_payload (snd n)).

(** A datagram: messages, and at the end of a dump [NLMSG_DONE] with the other
    fields of its header and its payload. *)
Definition end_bytes (fin : option (list Z * list Z)) : list Z :=
  match fin with Some (rest, payload) => message_bytes NLMSG_DONE rest payload | None => [] end.

Definition datagram_bytes (notes : list (list Z * nl_note)) (fin : option (list Z * list Z)) : list Z :=
  concat (map note_bytes notes) ++ end_bytes fin.

Definition is_done (fin : option (list Z * list Z)) : bool :=
  match fin with Some _ => true | None => false end.

(** The size of [struct nlmsgerr]: the error and the header of the request. *)
Definition NLMSGERR_LEN : Z := 20.

(** What the encoding can represent. *)
Definition attr_wf (a : attr) : Prop :=
  match a with
  | AttrAddr addr => addr_wf addr
  | AttrOif oif => is_u32 oif
  | AttrOther type p =>
      is_u16 type ∧ type ≠ RTA_DST ∧ type ≠ RTA_OIF ∧ Z.of_nat (length p) < 65532
  end.

Definition note_wf (n : nl_note) : Prop :=
  Z.of_nat (length (note_payload n)) < 2 ^ 31 ∧
  match n with
  | NoteRoute _ _ _ _ _ _ _ _ _ attrs => Forall attr_wf attrs
  | NoteAddr _ _ _ _ index attrs => is_u32 index ∧ Forall attr_wf attrs
  | NoteLink _ _ => True
  | NoteError payload => NLMSGERR_LEN ≤ Z.of_nat (length payload)
  end.

Definition notes_wf (notes : list (list Z * nl_note)) : Prop :=
  Forall (λ n, length (fst n) = 10%nat ∧ note_wf (snd n)) notes.

Definition end_wf (fin : option (list Z * list Z)) : Prop :=
  match fin with
  | Some (rest, payload) => length rest = 10%nat ∧ Z.of_nat (length payload) < 2 ^ 31
  | None => True
  end.

Definition notes_meaning (notes : list (list Z * nl_note)) : list nl_msg :=
  map (λ n, note_meaning (snd n)) notes.

(** ** Bytes at an offset *)

Definition bytes_at (f : list Z) (off : Z) (l : list Z) : Prop :=
  ∃ pre post, f = pre ++ l ++ post ∧ off = Z.of_nat (length pre).

Lemma bytes_at_all f : bytes_at f 0 f.
Proof. exists [], []. by rewrite app_nil_r. Qed.

Lemma bytes_at_app f off l1 l2 :
  bytes_at f off (l1 ++ l2) → bytes_at f off l1 ∧ bytes_at f (off + Z.of_nat (length l1)) l2.
Proof.
  intros (pre & post & -> & ->). rewrite <- app_assoc. split.
  - by exists pre, (l2 ++ post).
  - exists (pre ++ l1), post. rewrite <- app_assoc, length_app. split; [done|lia].
Qed.

Lemma bytes_at_off f off off' l : bytes_at f off l → off = off' → bytes_at f off' l.
Proof. by intros ? <-. Qed.

Lemma bytes_at_fits f off l : bytes_at f off l → 0 ≤ off ∧ off + Z.of_nat (length l) ≤ Z.of_nat (length f).
Proof. intros (pre & post & -> & ->). rewrite !length_app. lia. Qed.

Lemma rd8_at f off l i b : bytes_at f off l → 0 ≤ i → l !! Z.to_nat i = Some b → rd8 f (off + i) = Some b.
Proof.
  intros (pre & post & -> & ->) Hi Hb. rewrite rd8_app_r by done. unfold rd8.
  by apply lookup_app_l_Some.
Qed.

Lemma rd8_at0 f off b l : bytes_at f off (b :: l) → rd8 f off = Some b.
Proof. intros Hat. rewrite <- (Z.add_0_r off). by apply (rd8_at f off (b :: l)). Qed.

Lemma rd_addr_at f off a : addr_wf a → bytes_at f off (addr_bytes a) → rd_addr f off = Some a.
Proof. intros Ha (pre & post & -> & ->). by apply rd_addr_app. Qed.

Lemma rdh16_at f off x : is_u16 x → bytes_at f off (h16 x) → rdh16 f off = Some x.
Proof.
  intros Hx Hat. unfold rdh16, h16, be16, is_u16, u16_max in *. destruct host_order; cbn [rev app] in Hat;
    rewrite (rd8_at0 _ _ _ _ Hat), (rd8_at _ _ _ 1 _ Hat ltac:(lia) eq_refl); cbn [mbind option_bind];
    f_equal; zlia.
Qed.

Lemma rdh32_at f off x : is_u32 x → bytes_at f off (h32 x) → rdh32 f off = Some x.
Proof.
  intros Hx Hat. unfold rdh32, h32, be32, is_u32, u32_max in *. destruct host_order; cbn [rev app] in Hat;
    rewrite (rd8_at0 _ _ _ _ Hat), (rd8_at _ _ _ 1 _ Hat ltac:(lia) eq_refl),
      (rd8_at _ _ _ 2 _ Hat ltac:(lia) eq_refl), (rd8_at _ _ _ 3 _ Hat ltac:(lia) eq_refl);
    cbn [mbind option_bind]; f_equal; zlia.
Qed.

Lemma rdh16_some f off l i :
  bytes_at f off l → 0 ≤ i → i + 2 ≤ Z.of_nat (length l) → is_Some (rdh16 f (off + i)).
Proof.
  intros Hat Hi Hl. unfold rdh16. rewrite <- Z.add_assoc.
  destruct (lookup_lt_is_Some_2 l (Z.to_nat i)) as [b0 H0]; [lia|].
  destruct (lookup_lt_is_Some_2 l (Z.to_nat (i + 1))) as [b1 H1]; [lia|].
  rewrite (rd8_at _ _ _ i _ Hat Hi H0), (rd8_at _ _ _ (i + 1) _ Hat ltac:(lia) H1). by eexists.
Qed.

Lemma rdh32_some f off l :
  bytes_at f off l → 4 ≤ Z.of_nat (length l) → is_Some (rdh32 f off).
Proof.
  intros Hat Hl. destruct l as [|b0 [|b1 [|b2 [|b3 l]]]]; cbn [length] in Hl; try lia. unfold rdh32.
  rewrite (rd8_at0 _ _ _ _ Hat), (rd8_at _ _ _ 1 _ Hat ltac:(lia) eq_refl),
    (rd8_at _ _ _ 2 _ Hat ltac:(lia) eq_refl), (rd8_at _ _ _ 3 _ Hat ltac:(lia) eq_refl). by eexists.
Qed.

Lemma length_h16 x : length (h16 x) = 2%nat.
Proof. unfold h16. by destruct host_order. Qed.

Lemma length_h32 x : length (h32 x) = 4%nat.
Proof. unfold h32. by destruct host_order. Qed.

Lemma length_pad4 n : Z.of_nat (length (pad4 n)) = align4 (Z.of_nat n) - Z.of_nat n.
Proof. unfold pad4, align4. rewrite length_replicate. zlia. Qed.

Lemma align4_add n k : align4 (4 * k + n) = 4 * k + align4 n.
Proof. unfold align4. zlia. Qed.

Lemma align4_ge n : n ≤ align4 n < n + 4.
Proof. unfold align4. zlia. Qed.

Lemma length_attr_bytes a : Z.of_nat (length (attr_bytes a)) = align4 (RTATTR_LEN + Z.of_nat (length (attr_payload a))).
Proof.
  unfold attr_bytes, rtattr, RTATTR_LEN. rewrite !length_app, !length_h16, (align4_add _ 1).
  rewrite !Nat2Z.inj_add, length_pad4. lia.
Qed.

Lemma attr_payload_small a : attr_wf a → Z.of_nat (length (attr_payload a)) < 65532.
Proof. destruct a; cbn; [by rewrite length_addr_bytes|by rewrite length_h32|by intros (_ & _ & _ & ?)]. Qed.

Lemma attr_type_u16 a : attr_wf a → is_u16 (attr_type a).
Proof. destruct a; [done..|]. by intros [? _]. Qed.

(** ** The attribute loop *)

Section walk.
Context {A B : Type} (f : list Z) (body : Z → Z → A → option A) (sem : B → attr → B) (R : A → B → Prop).
Context (Hbody : ∀ a data x y, attr_wf a → bytes_at f data (attr_payload a) → R x y →
  ∃ x', body (attr_type a) data x = Some x' ∧ R x' (sem y a)).

Lemma rta_walk_sem attrs : ∀ off fuel x y,
  Forall attr_wf attrs → bytes_at f off (attrs_bytes attrs) → (length attrs < fuel)%nat → R x y →
  ∃ x', rta_walk fuel f body off (Z.of_nat (length (attrs_bytes attrs))) x = Some x' ∧
        R x' (fold_left sem attrs y).
Proof using Hbody.
  induction attrs as [|a attrs IH]; intros off [|fuel] x y Hwf Hat Hfuel HR; cbn [length] in Hfuel; try lia.
  { exists x. done. }
  apply Forall_cons_1 in Hwf as [Ha Hwf]. unfold attrs_bytes in Hat |- *. cbn [map concat] in Hat |- *.
  apply bytes_at_app in Hat as [Hat Hrest]. rewrite length_app, Nat2Z.inj_add.
  rewrite length_attr_bytes in Hrest |- *. unfold attr_bytes, rtattr in Hat.
  rewrite <- !app_assoc in Hat. apply bytes_at_app in Hat as [Hlen Hat]. rewrite length_h16 in Hat.
  apply bytes_at_app in Hat as [Hty Hat]. rewrite length_h16 in Hat. apply bytes_at_app in Hat as [Hp _].
  pose proof (attr_payload_small a Ha). set (plen := Z.of_nat (length (attr_payload a))) in *.
  pose proof (align4_ge (RTATTR_LEN + plen)). unfold RTATTR_LEN in *.
  cbn [rta_walk]. unfold RTATTR_LEN. rewrite (proj2 (Z.ltb_ge _ _)) by lia.
  assert (is_u16 (4 + plen)) as Hu by (unfold is_u16, u16_max; lia).
  rewrite (rdh16_at _ _ _ Hu Hlen). cbn [mbind option_bind].
  rewrite (proj2 (Z.ltb_ge _ _)), (proj2 (Z.ltb_ge _ _)) by lia. cbn [orb].
  change (off + 2) with (off + Z.of_nat 2). rewrite (rdh16_at _ _ _ (attr_type_u16 a Ha) Hty). cbn [mbind option_bind].
  destruct (Hbody a (off + 4) x y) as (x1 & -> & HR1); [done| |done|].
  { eapply bytes_at_off; [exact Hp|lia]. }
  cbn [mbind option_bind]. rewrite Z.add_simpl_l. apply IH; [done|done|lia|done].
Qed.
End walk.

Lemma length_attrs_bytes attrs : (length attrs ≤ length (attrs_bytes attrs))%nat.
Proof.
  unfold attrs_bytes. induction attrs as [|a attrs IH]; cbn [map concat length]; [lia|].
  rewrite length_app. pose proof (length_attr_bytes a) as H.
  pose proof (align4_ge (RTATTR_LEN + Z.of_nat (length (attr_payload a)))). unfold RTATTR_LEN in *. lia.
Qed.

(** The offset kept by the loop bodies against the address they will read there. *)
Definition at_offset (f : list Z) (data : option Z) (addr : option nd_addr) : Prop :=
  match data, addr with
  | Some data, Some addr => rd_addr f data = Some addr
  | None, None => True
  | _, _ => False
  end.

Section messages.
Context (f : list Z) (attrs : list attr) (off : Z).
Context (Hwf : Forall attr_wf attrs) (Hat : bytes_at f off (attrs_bytes attrs)).

Lemma walk_fuel : (length attrs < S (length f))%nat.
Proof using Hat. pose proof (bytes_at_fits _ _ _ Hat). pose proof (length_attrs_bytes attrs). lia. Qed.

Lemma addr_walk :
  ∃ data, rta_walk (S (length f)) f addr_body off (Z.of_nat (length (attrs_bytes attrs))) None = Some data ∧
    at_offset f data (fst (attrs_sem attrs)).
Proof using All.
  apply (rta_walk_sem f addr_body attr_sem (λ x y, at_offset f x (fst y))); [|done|done|exact walk_fuel|done].
  intros a data x y Ha Hd HR. eexists. split; [reflexivity|]. destruct a as [addr|oif|ty p]; cbn.
  - by apply rd_addr_at.
  - done.
  - destruct Ha as (_ & Hne & _). unfold RTA_DST in Hne. unfold IFA_ADDRESS.
    by rewrite (proj2 (Z.eqb_neq _ _) Hne).
Qed.

Lemma route_walk :
  ∃ x, rta_walk (S (length f)) f (route_body f) off (Z.of_nat (length (attrs_bytes attrs))) (None, 0) = Some x ∧
    at_offset f (fst x) (fst (attrs_sem attrs)) ∧ snd x = snd (attrs_sem attrs).
Proof using All.
  apply (rta_walk_sem f (route_body f) attr_sem (λ x y, at_offset f (fst x) (fst y) ∧ snd x = snd y));
    [|done|done|exact walk_fuel|done].
  intros a data [x o] y Ha Hd [HR1 HR2]. cbn in HR1, HR2. subst o.
  destruct a as [addr|oif|ty p]; cbn [attr_type attr_payload] in *.
  - eexists. split; [reflexivity|]. split; [|done]. by apply rd_addr_at.
  - exists (x, oif). unfold route_body. rewrite Z.eqb_refl, (rdh32_at _ _ _ Ha Hd). done.
  - exists (x, snd y). unfold route_body. destruct Ha as (_ & H1 & H2 & _).
    by rewrite (proj2 (Z.eqb_neq _ _) H1), (proj2 (Z.eqb_neq _ _) H2).
Qed.
End messages.

(** ** Messages *)

Lemma parse_route_note f msg is_new dst_len src_len tos table protocol scope type flags attrs :
  let n := NoteRoute is_new dst_len src_len tos table protocol scope type flags attrs in
  Forall attr_wf attrs → bytes_at f msg (note_payload n) →
  parse_route is_new f msg (Z.of_nat (length (attrs_bytes attrs))) = Some (note_meaning n).
Proof.
  intros n Hwf Hat. cbn [note_payload n] in Hat. apply bytes_at_app in Hat as [Hm Hat].
  apply bytes_at_app in Hat as [_ Hat]. rewrite length_h32 in Hat.
  eapply (bytes_at_off _ _ (msg + RTMSG_LEN)) in Hat; [|cbn [length]; unfold RTMSG_LEN; lia].
  unfold parse_route. destruct (route_walk f attrs _ Hwf Hat) as ([data oif] & -> & Hd & Ho).
  cbn [mbind option_bind fst snd] in *. unfold n, note_meaning.
  destruct (attrs_sem attrs) as [dst oif']. cbn [fst snd] in *. subst oif'.
  destruct data as [data|], dst as [dst|]; [|done..]. cbn [at_offset] in Hd.
  destruct (oif =? 0); [done|].
  rewrite (rd8_at _ _ _ 4 _ Hm ltac:(lia) eq_refl), (rd8_at _ _ _ 1 _ Hm ltac:(lia) eq_refl), Hd,
    (rd8_at _ _ _ 5 _ Hm ltac:(lia) eq_refl).
  cbn [mbind option_bind]. by destruct is_new.
Qed.

Lemma parse_addr_note f msg (is_new : bool) pflen flags scope index attrs :
  let n := NoteAddr is_new pflen flags scope index attrs in
  is_u32 index → Forall attr_wf attrs → bytes_at f msg (note_payload n) →
  parse_addr (if is_new then NlNewAddr else NlDelAddr) f msg (Z.of_nat (length (attrs_bytes attrs))) =
  Some (note_meaning n).
Proof.
  intros n Hi Hwf Hat. cbn [note_payload n] in Hat. apply bytes_at_app in Hat as [Hm Hat].
  apply bytes_at_app in Hat as [Hix Hat]. rewrite length_h32 in Hat. cbn [length] in Hix, Hat.
  change (Z.of_nat 4) with 4 in Hix.
  eapply (bytes_at_off _ _ (msg + IFADDRMSG_LEN)) in Hat; [|unfold IFADDRMSG_LEN; lia].
  unfold parse_addr. destruct (addr_walk f attrs _ Hwf Hat) as (data & -> & Hd).
  cbn [mbind option_bind] in *. unfold n, note_meaning.
  destruct (attrs_sem attrs) as [addr oif]. cbn [fst] in Hd.
  destruct data as [data|], addr as [addr|]; [|done..]. cbn [at_offset] in Hd.
  rewrite (rdh32_at _ _ _ Hi Hix), (rd8_at _ _ _ 1 _ Hm ltac:(lia) eq_refl), Hd. done.
Qed.

Lemma parse_note f hdr n :
  note_wf n → bytes_at f (hdr + NLMSG_HDRLEN) (note_payload n) →
  parse_nlmsg f hdr (note_type n) (NLMSG_HDRLEN + Z.of_nat (length (note_payload n))) = Some (note_meaning n).
Proof.
  intros [_ Hwf] Hat.
  destruct n as [is_new ? ? ? ? ? ? ? ? attrs|is_new ? ? ? index attrs|is_new p|p].
  - pose proof (parse_route_note f _ is_new _ _ _ _ _ _ _ _ attrs Hwf Hat) as Hp.
    cbn [note_payload]. rewrite !length_app, length_h32. cbn [length].
    unfold parse_nlmsg, NLMSG_HDRLEN, RTMSG_LEN in *.
    replace (16 + Z.of_nat (8 + (4 + length (attrs_bytes attrs))) - (16 + 12))
      with (Z.of_nat (length (attrs_bytes attrs))) by lia.
    destruct is_new; exact Hp.
  - destruct Hwf as [Hi Hwf]. pose proof (parse_addr_note f _ is_new _ _ _ index attrs Hi Hwf Hat) as Hp.
    cbn [note_payload]. rewrite !length_app, length_h32. cbn [length].
    unfold parse_nlmsg, NLMSG_HDRLEN, IFADDRMSG_LEN in *.
    replace (16 + Z.of_nat (4 + (4 + length (attrs_bytes attrs))) - (16 + 8))
      with (Z.of_nat (length (attrs_bytes attrs))) by lia.
    destruct is_new; exact Hp.
  - by destruct is_new.
  - cbn [note_payload] in Hat. unfold NLMSGERR_LEN in Hwf.
    destruct (rdh32_some _ _ _ Hat) as [e He]; [lia|]. destruct (rdh16_some _ _ _ 8 Hat) as [t Ht]; [lia..|].
    unfold parse_nlmsg. cbn [note_type]. rewrite Z.eqb_refl, He, Ht. done.
Qed.

(** ** Datagrams *)

Lemma length_message_bytes type rest payload :
  length rest = 10%nat →
  Z.of_nat (length (message_bytes type rest payload)) = align4 (NLMSG_HDRLEN + Z.of_nat (length payload)).
Proof.
  intros Hr. unfold message_bytes, NLMSG_HDRLEN. rewrite !length_app, length_h32, length_h16, Hr, (align4_add _ 4).
  rewrite !Nat2Z.inj_add, length_pad4. lia.
Qed.

(** The header, and after it the payload. *)
Lemma message_split type rest payload :
  message_bytes type rest payload =
  (h32 (NLMSG_HDRLEN + Z.of_nat (length payload)) ++ h16 type ++ rest) ++ payload ++ pad4 (length payload).
Proof. unfold message_bytes. by rewrite <- !app_assoc. Qed.

Lemma length_header len type rest : length rest = 10%nat → length (h32 len ++ h16 type ++ rest) = 16%nat.
Proof. intros Hr. by rewrite !length_app, length_h32, length_h16, Hr. Qed.

Lemma header_read f hdr type len rest :
  is_u16 type → is_u32 len → bytes_at f hdr (h32 len ++ h16 type ++ rest) →
  rdh32 f hdr = Some len ∧ rdh16 f (hdr + 4) = Some type.
Proof.
  intros Ht Hl Hat. apply bytes_at_app in Hat as [Hlen Hat]. rewrite length_h32 in Hat.
  apply bytes_at_app in Hat as [Hty _]. split; [by apply rdh32_at|by apply rdh16_at].
Qed.

Lemma message_len_u32 (payload : list Z) :
  Z.of_nat (length payload) < 2 ^ 31 → is_u32 (NLMSG_HDRLEN + Z.of_nat (length payload)).
Proof. unfold is_u32, u32_max, NLMSG_HDRLEN. lia. Qed.

Lemma message_header f hdr type rest payload :
  is_u16 type → length rest = 10%nat → Z.of_nat (length payload) < 2 ^ 31 →
  bytes_at f hdr (message_bytes type rest payload) →
  rdh32 f hdr = Some (NLMSG_HDRLEN + Z.of_nat (length payload)) ∧ rdh16 f (hdr + 4) = Some type ∧
  bytes_at f (hdr + NLMSG_HDRLEN) payload.
Proof.
  intros Ht Hr Hp Hat. rewrite message_split in Hat. apply bytes_at_app in Hat as [Hh Hat].
  rewrite length_header in Hat by done. apply bytes_at_app in Hat as [Hat _].
  destruct (header_read _ _ _ _ _ Ht (message_len_u32 _ Hp) Hh). done.
Qed.

Lemma note_type_u16 n : is_u16 (note_type n) ∧ (note_type n =? NLMSG_DONE) = false.
Proof. destruct n as [[] | [] | [] |]; done. Qed.

Lemma nlmsg_walk_done f fuel hdr rest payload :
  end_wf (Some (rest, payload)) → bytes_at f hdr (message_bytes NLMSG_DONE rest payload) →
  nlmsg_walk (S fuel) f hdr (Z.of_nat (length (message_bytes NLMSG_DONE rest payload))) = Some ([], true).
Proof.
  intros [Hr Hp] Hat. rewrite length_message_bytes by done.
  destruct (message_header f hdr NLMSG_DONE rest payload) as (Hl & Ht & _); [done..|].
  pose proof (align4_ge (NLMSG_HDRLEN + Z.of_nat (length payload))).
  cbn [nlmsg_walk]. unfold NLMSG_HDRLEN in *.
  rewrite (proj2 (Z.ltb_ge _ _)), Hl by lia. cbn [mbind option_bind].
  rewrite !(proj2 (Z.ltb_ge _ _)) by lia. cbn [orb]. by rewrite Ht.
Qed.

Lemma nlmsg_walk_notes notes fin f : ∀ fuel hdr,
  notes_wf notes → end_wf fin → bytes_at f hdr (datagram_bytes notes fin) → (length notes < fuel)%nat →
  nlmsg_walk fuel f hdr (Z.of_nat (length (datagram_bytes notes fin))) =
  Some (notes_meaning notes, is_done fin).
Proof.
  unfold datagram_bytes, notes_meaning. induction notes as [|[rest n] notes IH]; intros [|fuel] hdr Hwf Hfin Hat Hfuel;
    cbn [length] in Hfuel; try lia; cbn [map concat] in *.
  { cbn [app] in *. destruct fin as [[rest payload]|]; [|done]. by apply nlmsg_walk_done. }
  apply Forall_cons_1 in Hwf as [[Hr Hn] Hwf]. rewrite <- app_assoc in Hat |- *.
  apply bytes_at_app in Hat as [Hat Hrest]. rewrite length_app, Nat2Z.inj_add.
  destruct (note_type_u16 n) as [Hty Hnd].
  unfold note_bytes in *. cbn [fst snd] in *. rewrite length_message_bytes in * by done.
  destruct (message_header f hdr _ _ _ Hty Hr (proj1 Hn) Hat) as (Hl & Ht & Hp).
  set (len := NLMSG_HDRLEN + Z.of_nat (length (note_payload n))) in *.
  pose proof (align4_ge len). assert (16 ≤ len) by (unfold len, NLMSG_HDRLEN; lia).
  cbn [nlmsg_walk]. unfold NLMSG_HDRLEN at 1 2. rewrite (proj2 (Z.ltb_ge _ _)), Hl by lia. cbn [mbind option_bind].
  rewrite (proj2 (Z.ltb_ge _ _)), (proj2 (Z.ltb_ge _ _)) by lia. cbn [orb].
  rewrite Ht. cbn [mbind option_bind]. rewrite Hnd. unfold len at 1. rewrite parse_note by done.
  cbn [mbind option_bind]. rewrite Z.add_simpl_l, IH by (done || lia). done.
Qed.


(** A datagram larger than the buffer of the daemon arrives cut.  A message
    without its end is not looked at, so nothing outside the bytes received is
    read. *)
Section cut.
Context (pre l : list Z) (k : nat).
Let f := pre ++ take k l.
Let len := Z.of_nat (length (take k l)).

Lemma bytes_at_cut l1 l2 :
  l = l1 ++ l2 → Z.of_nat (length l1) ≤ len → bytes_at f (Z.of_nat (length pre)) l1.
Proof using Type.
  unfold f, len. intros -> Hk. exists pre, (take (k - length l1) l2). rewrite take_app_ge; [done|].
  rewrite length_take in Hk. lia.
Qed.

(** The first message of a cut datagram: it is skipped, or it is there whole. *)
Lemma cut_message type rest payload more :
  is_u16 type → length rest = 10%nat → Z.of_nat (length payload) < 2 ^ 31 →
  l = message_bytes type rest payload ++ more →
  let hdr := Z.of_nat (length pre) in
  let mlen := NLMSG_HDRLEN + Z.of_nat (length payload) in
  len < NLMSG_HDRLEN ∨
  rdh32 f hdr = Some mlen ∧ rdh16 f (hdr + 4) = Some type ∧
  (mlen ≤ len → bytes_at f (hdr + NLMSG_HDRLEN) payload).
Proof using Type.
  intros Ht Hr Hp Hl hdr mlen. destruct (Z.lt_ge_cases len NLMSG_HDRLEN) as [?|Hlen]; [by left|]. right.
  rewrite message_split, <- app_assoc in Hl. set (h := h32 _ ++ _) in Hl.
  assert (length h = 16%nat) as Hh by by apply length_header.
  assert (bytes_at f hdr h) as Hat.
  { eapply bytes_at_cut; [exact Hl|]. unfold NLMSG_HDRLEN in Hlen. lia. }
  destruct (header_read _ _ _ _ _ Ht (message_len_u32 _ Hp) Hat). split_and!; [done|done|]. intros Hm.
  rewrite <- app_assoc, app_assoc in Hl. eapply bytes_at_cut in Hl.
  - apply bytes_at_app in Hl as [_ Hl]. by rewrite Hh in Hl.
  - rewrite length_app, Hh. unfold mlen, NLMSG_HDRLEN in Hm. lia.
Qed.
End cut.

Lemma nlmsg_walk_cut_done fuel pre k rest payload :
  let l := message_bytes NLMSG_DONE rest payload in
  end_wf (Some (rest, payload)) →
  is_Some (nlmsg_walk (S fuel) (pre ++ take k l) (Z.of_nat (length pre)) (Z.of_nat (length (take k l)))).
Proof.
  intros l [Hr Hp]. cbn [nlmsg_walk].
  destruct (cut_message pre l k NLMSG_DONE rest payload []) as [Hlt|(-> & -> & _)];
    [done|done|done|by rewrite app_nil_r| |].
  - rewrite (proj2 (Z.ltb_lt _ _) Hlt). by eexists.
  - cbn [mbind option_bind]. destruct (_ <? _); [by eexists|]. destruct (_ || _); by eexists.
Qed.

Lemma nlmsg_walk_cut notes fin : ∀ fuel pre k,
  notes_wf notes → end_wf fin → (length (take k (datagram_bytes notes fin)) < fuel)%nat →
  is_Some (nlmsg_walk fuel (pre ++ take k (datagram_bytes notes fin)) (Z.of_nat (length pre))
    (Z.of_nat (length (take k (datagram_bytes notes fin))))).
Proof.
  unfold datagram_bytes. induction notes as [|[rest n] notes IH]; intros [|fuel] pre k Hwf Hfin Hfuel; try lia;
    cbn [map concat app] in Hfuel |- *.
  { destruct fin as [[rest payload]|]; [by apply nlmsg_walk_cut_done|].
    cbn [end_bytes]. rewrite take_nil. by eexists. }
  apply Forall_cons_1 in Hwf as [[Hr Hn] Hwf]. destruct (note_type_u16 n) as [Hty Hnd].
  rewrite <- app_assoc in Hfuel |- *. change (note_bytes (rest, n)) with
    (message_bytes (note_type n) rest (note_payload n)) in Hfuel |- *.
  set (m := message_bytes _ _ _) in *. set (more := concat _ ++ _) in *.
  destruct (cut_message pre (m ++ more) k _ rest (note_payload n) more Hty Hr (proj1 Hn) eq_refl)
    as [Hlt|(Hl & Ht & Hp)].
  { cbn [nlmsg_walk]. rewrite (proj2 (Z.ltb_lt _ _) Hlt). by eexists. }
  set (f := pre ++ _) in *. set (len := Z.of_nat (length (take _ _))) in *.
  set (mlen := NLMSG_HDRLEN + _) in *. cbn [nlmsg_walk]. rewrite Hl, Ht. cbn [mbind option_bind]. rewrite Hnd.
  destruct (len <? NLMSG_HDRLEN) eqn:E0; [by eexists|].
  destruct (mlen <? NLMSG_HDRLEN) eqn:E1; [by eexists|]. destruct (len <? mlen) eqn:E; [by eexists|]. cbn [orb].
  apply Z.ltb_ge in E0, E1, E. unfold NLMSG_HDRLEN in E0, E1.
  pose proof (parse_note f _ n Hn (Hp E)) as Hparse. fold mlen in Hparse. rewrite Hparse. cbn [mbind option_bind].
  assert (is_Some (nlmsg_walk fuel f (Z.of_nat (length pre) + align4 mlen) (len - align4 mlen))) as [[ms b] ->];
    [|by eexists].
  assert (Z.of_nat (length m) = align4 mlen) as Hm by by apply length_message_bytes.
  pose proof (align4_ge mlen). destruct (decide (length m ≤ k)%nat) as [Hk|Hk].
  - unfold len, f. rewrite take_app_ge, app_assoc, length_app in * by done.
    specialize (IH fuel (pre ++ m) (k - length m)%nat Hwf Hfin ltac:(fold more; lia)). fold more in IH.
    rewrite length_app, Nat2Z.inj_add, Hm in IH. by rewrite Nat2Z.inj_add, Hm, Z.add_simpl_l.
  - destruct fuel as [|fuel]; [lia|]. cbn [nlmsg_walk]. unfold len. rewrite length_take.
    rewrite (proj2 (Z.ltb_lt _ _)); [by eexists|]. unfold NLMSG_HDRLEN. lia.
Qed.

Lemma length_datagram notes fin :
  notes_wf notes → (length notes ≤ length (datagram_bytes notes fin))%nat.
Proof.
  unfold datagram_bytes. rewrite length_app.
  induction 1 as [|[rest n] notes [Hr _] _ IH]; cbn [map concat length]; [lia|].
  rewrite length_app. unfold note_bytes at 1. cbn [fst snd] in *.
  pose proof (length_message_bytes (note_type n) rest (note_payload n) Hr).
  pose proof (align4_ge (NLMSG_HDRLEN + Z.of_nat (length (note_payload n)))).
  unfold NLMSG_HDRLEN in *. lia.
Qed.

Lemma parse_datagram_notes notes fin :
  notes_wf notes → end_wf fin →
  parse_datagram (datagram_bytes notes fin) = Some (notes_meaning notes, is_done fin).
Proof.
  intros Hwf Hfin. unfold parse_datagram. apply nlmsg_walk_notes; [done|done|apply bytes_at_all|].
  pose proof (length_datagram notes fin Hwf). lia.
Qed.

(** What the daemon may receive: a datagram of the kernel, or as much of it as
    the buffer holds. *)
Definition datagram_ok (d : list Z) : Prop :=
  ∃ notes fin k, notes_wf notes ∧ end_wf fin ∧ d = take k (datagram_bytes notes fin).

Lemma datagram_ok_parses d : datagram_ok d → is_Some (parse_datagram d).
Proof.
  intros (notes & fin & k & Hwf & Hfin & ->). unfold parse_datagram.
  apply (nlmsg_walk_cut notes fin _ [] k Hwf Hfin). lia.
Qed.

Lemma datagram_ok_take n d : datagram_ok d → datagram_ok (take n d).
Proof. intros (notes & fin & k & ? & ? & ->). exists notes, fin, (n `min` k)%nat. by rewrite take_take. Qed.

Lemma datagram_ok_notes notes fin : notes_wf notes → end_wf fin → datagram_ok (datagram_bytes notes fin).
Proof. intros ? ?. exists notes, fin, (length (datagram_bytes notes fin)). by rewrite firstn_all. Qed.

(** ** The requests of the daemon as notifications *)

Lemma add_route_request_note dst pflen oif table :
  0 ≤ pflen < 256 → 0 ≤ table < 256 →
  add_route_request dst pflen oif table =
  datagram_bytes [(h16 (Z.lor NLM_F_REQUEST NLM_F_CREATE) ++ h32 0 ++ h32 0,
    NoteRoute true pflen 0 0 table RTPROT_NDPPD 0 0 0 [AttrOif oif; AttrAddr dst])] None.
Proof.
  intros Hp Ht. unfold add_route_request, datagram_bytes, note_bytes, message_bytes, nlmsghdr, rtmsg.
  cbn [note_payload note_type fst snd map concat]. unfold attrs_bytes, attr_bytes.
  cbn [map concat attr_payload attr_type]. rewrite !length_app, !length_h32, !length_addr_bytes.
  rewrite !(Z.mod_small _ 256) by done. rewrite <- !app_assoc, !app_nil_r. unfold rtattr, h16.
  by destruct host_order.
Qed.

Lemma add_route_note_wf dst pflen oif table :
  addr_wf dst → is_u32 oif →
  notes_wf [(h16 (Z.lor NLM_F_REQUEST NLM_F_CREATE) ++ h32 0 ++ h32 0,
    NoteRoute true pflen 0 0 table RTPROT_NDPPD 0 0 0 [AttrOif oif; AttrAddr dst])].
Proof.
  intros Hd Ho. apply List.Forall_cons; [|apply List.Forall_nil]. cbn [fst snd]. split.
  { by rewrite !length_app, length_h16, !length_h32. }
  split.
  - cbn [note_payload]. unfold attrs_bytes, attr_bytes, rtattr. cbn [map concat attr_payload].
    rewrite !length_app, !length_h16, !length_h32, !length_addr_bytes. done.
  - apply List.Forall_cons; [done|]. apply List.Forall_cons; [done|apply List.Forall_nil].
Qed.
End netlink.
