(* ===== verification/Iface.v ===== *)
(** * Interfaces (src/iface.c) and the route requests (src/rt.c) on the world

    An interface is shared by reference counting: [nd_iface_open] finds or
    creates it, [nd_iface_close] drops one reference.  An interface that is
    configured but absent from the kernel is kept in a waiting state ([up] is
    false), in which nothing is sent on it. *)
From S2P Require Import Prelude Addr World Monad Packet Route Netlink.

(** [ND_LL_SEARCH]: the first element whose predicate holds. *)
Fixpoint ll_search (l : list loc) (pred : loc → M bool) : M (option loc) :=
  match l with
  | [] => mret None
  | el :: rest => b ← pred el; if (b : bool) then mret (Some el) else ll_search rest pred
  end.

(** A socket ([ndL_io]) is used: it must have been opened. *)
Definition use_io (io : world → bool) : M unit :=
  open ← gets io; deref (if (open : bool) then Some () else None).

Section iface.
Context {BO : ByteOrder}.

(** ** Sending *)

(** [ndL_send_icmp6] on a frame built for the current link-layer address. *)
Definition ndL_send_icmp6 (iface : loc) (frame : nd_lladdr → list Z) : M unit :=
  i ← load w_ifaces iface;
  if negb (i_up i) then mret () else
  use_io w_pkt_io;;
  emit (EvFrame (i_index i) (frame (i_lladdr i))).

Definition nd_iface_send_na (iface : option loc) (dst : nd_addr) (dst_ll : nd_lladdr)
    (tgt : nd_addr) (tgt_ll : option nd_lladdr) (router : bool) : M unit :=
  iface ← deref iface;
  ndL_send_icmp6 iface (λ ll, na_frame ll dst dst_ll tgt tgt_ll router).

Definition nd_iface_send_ns (iface : option loc) (tgt : nd_addr) : M unit :=
  iface ← deref iface;
  ndL_send_icmp6 iface (λ ll, ns_frame ll tgt).

(** ** Opening and closing *)

Section kernel.
Context (K : kernel).

(** The last part of [nd_iface_open]: name and index are resolved. *)
Definition iface_open_resolved (name : string) (index : Z) (promiscuous : bool)
    : M (option loc) :=
  ifaces ← gets w_first_iface;
  found ← ll_search ifaces (λ l, i ← load w_ifaces l; mret ((i_index i =? index) && i_up i));
  match found with
  | Some l => update w_ifaces l (λ i, i <| i_refcount := i_refcount i + 1 |>);; mret (Some l)
  | None =>
  found ← ll_search ifaces (λ l, i ← load w_ifaces l;
            mret (negb (i_up i) && bool_decide (i_name i = name)));
  match found with
  | Some l => update w_ifaces l (λ i, i <| i_refcount := i_refcount i + 1 |>);; mret (Some l)
  | None =>
  use_io w_pkt_io;;
  match k_hwaddr K name with
  | None => mret None
  | Some lladdr =>
  if negb (k_add_membership K index promiscuous) then mret None else
  emit (EvAddMembership index promiscuous);;
  l ← alloc w_ifaces (mk_iface 1 name lladdr index true false None promiscuous);
  modify (λ w, w <| w_first_iface := l :: w_first_iface w |>);;
  mret (Some l)
  end end end.

(** The waiting state of [nd_iface_open]: the interface does not exist yet. *)
Definition iface_open_waiting (name : string) (promiscuous : bool) : M (option loc) :=
  ifaces ← gets w_first_iface;
  found ← ll_search ifaces (λ l, i ← load w_ifaces l; mret (bool_decide (i_name i = name)));
  match found with
  | Some w => update w_ifaces w (λ i, i <| i_refcount := i_refcount i + 1 |>);; mret (Some w)
  | None =>
      w ← alloc w_ifaces (mk_iface 1 name ll_zero 0 false false None promiscuous);
      modify (λ st, st <| w_first_iface := w :: w_first_iface st |>);;
      mret (Some w)
  end.

Definition nd_iface_open (name : option string) (index : Z) (promiscuous : bool)
    : M (option loc) :=
  match name with
  | None =>
      if index =? 0 then mret None else
      match k_indextoname K index with
      | None => mret None
      | Some tmp_name => iface_open_resolved tmp_name index promiscuous
      end
  | Some name =>
      let '(resolved, errno) := k_nametoindex K name in
      if resolved =? 0 then
        if (errno =? ENODEV) && (index =? 0) then iface_open_waiting name promiscuous
        else mret None
      else if negb (index =? 0) && negb (index =? resolved) then mret None
      else iface_open_resolved name resolved promiscuous
  end.

End kernel.

Definition nd_iface_close (iface : loc) : M unit :=
  update w_ifaces iface (λ i, i <| i_refcount := i_refcount i - 1 |>);;
  i ← load w_ifaces iface;
  if 0 <? i_refcount i then mret () else
  no_restore ← gets w_no_restore_flags;
  when (i_up i && negb no_restore)
    (use_io w_pkt_io;; emit (EvDropMembership (i_index i) (i_promiscuous i)));;
  modify (λ w, w <| w_first_iface := ll_delete iface (w_first_iface w) |>);;
  free w_ifaces iface.

(** The C code leaves the pointers of the closed sockets as they are; the flags
    [w_pkt_io] and [w_rt_io] say whether the socket is open, so that a use after
    the cleanup is a fault here. *)
Definition nd_iface_cleanup : M unit :=
  ifaces ← gets w_first_iface;
  for_each ifaces (λ l,
    update w_ifaces l (λ i, i <| i_refcount := 1 |>);;
    nd_iface_close l);;
  open ← gets w_pkt_io;
  when open (modify (λ w, w <| w_pkt_io := false |>)).

(** [socket], [filter] and [bind] are whether [nd_io_socket], [ndL_configure_filter]
    and [nd_io_bind] succeed. *)
Definition nd_iface_startup (socket filter bind : bool) : M bool :=
  modify (λ w, w <| w_pkt_io := socket |>);;
  if negb socket then mret false else
  if negb filter then modify (λ w, w <| w_pkt_io := false |>);; mret false else
  if negb bind then modify (λ w, w <| w_pkt_io := false |>);; mret false else
  mret true.

(** ** Route requests (src/rt.c) *)

Definition nd_rt_open (socket bind : bool) : M bool :=
  open ← gets w_rt_io;
  if (open : bool) then mret true else
  modify (λ w, w <| w_rt_io := socket |>);;
  if negb socket then mret false else
  if negb bind then modify (λ w, w <| w_rt_io := false |>);; mret false else
  mret true.

(** As [nd_iface_cleanup], for [ndL_io] of src/rt.c. *)
Definition nd_rt_cleanup : M unit :=
  open ← gets w_rt_io;
  when open (modify (λ w, w <| w_rt_io := false |>)).

Definition nd_rt_add_route (dst : nd_addr) (pflen oif table : Z) : M unit :=
  use_io w_rt_io;;
  emit (EvNetlink (add_route_request dst pflen oif table)).

Definition nd_rt_remove_route (dst : nd_addr) (pflen table : Z) : M unit :=
  use_io w_rt_io;;
  emit (EvNetlink (remove_route_request dst pflen table)).

Definition nd_rt_remove_owned_routes : M unit :=
  routes ← gets w_routes;
  for_each routes (λ route,
    when (rt_owned route) (nd_rt_remove_route (rt_dst route) (rt_pflen route) (rt_table route))).

Definition nd_rt_query_routes : M bool :=
  timeout ← gets w_dump_timeout;
  if negb (timeout =? 0) then mret false else
  now ← gets nd_current_time;
  modify (λ w, w <| w_dump_timeout := now + 5000 |>);;
  use_io w_rt_io;;
  emit (EvNetlink query_routes_request);;
  mret true.

Definition nd_rt_query_addresses : M bool :=
  timeout ← gets w_dump_timeout;
  if negb (timeout =? 0) then mret false else
  now ← gets nd_current_time;
  modify (λ w, w <| w_dump_timeout := now + 5000 |>);;
  use_io w_rt_io;;
  emit (EvNetlink query_addresses_request);;
  mret true.

End iface.
