(* ===== verification/Session.v ===== *)
(** * Sessions (src/session.c)

    A session is the state of one proxied target: whether it is known to be
    reachable, when it was probed, and which hosts wait for an answer.  Every
    session is on one bucket of each of two hash tables, keyed by the target
    and by the rewritten target. *)
From S2P Require Import Prelude Addr World Monad Packet Route Netlink Iface.

Section session.
Context {BO : ByteOrder}.

(** ** The hash tables *)

Definition NDL_BUCKET (seed : Z) (a : nd_addr) : Z := nd_addr_hash seed a mod NDPPD_SESSION_BUCKETS.

Definition bucket_of (a : nd_addr) (w : world) : nat := Z.to_nat (NDL_BUCKET (w_hash_seed w) a).

(** The list [table[NDL_BUCKET(a)]], and its replacement. *)
Definition get_bucket (table : world → list (list loc)) (a : nd_addr) (w : world) : list loc :=
  table w !!! bucket_of a w.

Definition upd_bucket (table : world → list (list loc)) `{!Setter table} (a : nd_addr)
    (f : list loc → list loc) : M unit :=
  modify (λ w, set_field table (alter f (bucket_of a w)) w).

(** [l->field = ...] for a session *)
Definition set_session (l : loc) (f : nd_session → nd_session) : M unit := update w_sessions l f.

Definition set_state (l : loc) (st : nd_state) : M unit :=
  now ← gets nd_current_time;
  set_session l (λ s, s <| s_state := st |> <| s_state_time := now |>).

Definition nd_session_find (tgt : nd_addr) (proxy : loc) : M (option loc) :=
  bucket ← gets (get_bucket w_buckets tgt);
  ll_search bucket (λ l,
    s ← load w_sessions l;
    rule ← load w_rules (s_rule s);
    mret (bool_decide (r_proxy rule = proxy) && nd_addr_eq (s_tgt s) tgt)).

Definition nd_session_find_r (tgt : nd_addr) (iface : loc) : M (option loc) :=
  bucket ← gets (get_bucket w_buckets_r tgt);
  ll_search bucket (λ l,
    s ← load w_sessions l;
    mret (bool_decide (s_iface s = Some iface) && nd_addr_eq (s_tgt_r s) tgt)).

(** ** Autowired routes *)

Definition ndL_up (l : loc) : M unit :=
  s ← load w_sessions l;
  match s_iface s with
  | None => mret ()
  | Some iface =>
      i ← load w_ifaces iface;
      if negb (i_up i) then mret () else
      if s_autowired s then mret () else
      rule ← load w_rules (s_rule s);
      if negb (r_autowire rule) then mret () else
      nd_rt_add_route (s_tgt s) 128 (i_index i) (r_table rule);;
      set_session l (λ s, s <| s_autowired := true |>)
  end.

Definition ndL_down (l : loc) : M unit :=
  s ← load w_sessions l;
  match s_iface s with
  | None => mret ()
  | Some iface =>
      if negb (s_autowired s) then mret () else
      rule ← load w_rules (s_rule s);
      nd_rt_remove_route (s_tgt s) 128 (r_table rule);;
      set_session l (λ s, s <| s_autowired := false |>)
  end.

(** ** Handlers *)

(** The address advertised for a rule: NULL means that of the interface. *)
Definition rule_tgt_ll (rule : nd_rule) : option nd_lladdr :=
  if nd_lladdr_is_unspecified (r_target rule) then None else Some (r_target rule).

Definition allnodes_ll : nd_lladdr := mk_ll 0x33 0x33 0 0 0 1.
Definition allnodes : nd_addr :=
  addr_of_u8 (λ i, nth (Z.to_nat i) [0xff; 0x02; 0; 0; 0; 0; 0; 0; 0; 0; 0; 0; 0; 0; 0; 1] 0).

Definition same_sub (src : nd_addr) (src_ll : nd_lladdr) (sub : nd_sub) : bool :=
  nd_addr_eq (sub_addr sub) src && nd_lladdr_eq (sub_lladdr sub) src_ll.

Section kernel.
Context (K : kernel).

(** The VALID branch of [nd_session_handle_ns]. *)
Definition session_answer_ns (s : nd_session) (src : nd_addr) (src_ll : option nd_lladdr) : M unit :=
  rule ← load w_rules (s_rule s);
  proxy ← load w_proxies (r_proxy rule);
  let tgt_ll := rule_tgt_ll rule in
  match (if nd_addr_is_unspecified src then None else src_ll) with
  | None => nd_iface_send_na (p_iface proxy) allnodes allnodes_ll (s_tgt s) tgt_ll (p_router proxy)
  | Some ll => nd_iface_send_na (p_iface proxy) src ll (s_tgt s) tgt_ll (p_router proxy)
  end.

(** The route re-check of an INVALID session without interface. *)
Definition session_recheck_route (l : loc) : M unit :=
  s ← load w_sessions l;
  if negb (bool_decide (s_state s = ND_STATE_INVALID) && bool_decide (s_iface s = None)) then mret ()
  else
  rule ← load w_rules (s_rule s);
  if negb (bool_decide (r_mode rule = ND_MODE_AUTO)) then mret () else
  route ← gets (λ w, nd_rt_find_route (s_tgt s) (r_table rule) (w_routes w));
  match route with
  | None => mret ()
  | Some route =>
      proxy ← load w_proxies (r_proxy rule);
      piface ← deref (p_iface proxy);
      pi ← load w_ifaces piface;
      if rt_oif route =? i_index pi then mret () else
      iface ← nd_iface_open K None (rt_oif route) false;
      set_session l (λ s, s <| s_iface := iface |>);;
      match iface with
      | None => mret ()
      | Some _ =>
          set_state l ND_STATE_INCOMPLETE;;
          now ← gets nd_current_time;
          set_session l (λ s, s <| s_ons_count := 1 |> <| s_ons_time := now |>);;
          nd_iface_send_ns iface (s_tgt_r s)
      end
  end.

(** The probe of a STALE session. *)
Definition session_probe_stale (l : loc) : M unit :=
  s ← load w_sessions l;
  now ← gets nd_current_time;
  conf ← gets w_conf;
  if bool_decide (s_state s = ND_STATE_STALE) && negb (bool_decide (s_iface s = None)) &&
     (nd_conf_retrans_time conf <=? now - s_ons_time s)
  then
    set_session l (λ s, s <| s_ons_count := if s_ons_count s =? 0 then 1 else s_ons_count s |>
                          <| s_ons_time := now |>);;
    nd_iface_send_ns (s_iface s) (s_tgt_r s)
  else mret ().

Definition nd_session_handle_ns (l : loc) (src : nd_addr) (src_ll : option nd_lladdr) : M unit :=
  now ← gets nd_current_time;
  set_session l (λ s, s <| s_ins_time := now |>);;
  s ← load w_sessions l;
  if bool_decide (s_state s = ND_STATE_VALID) then session_answer_ns s src src_ll else
  match src_ll with
  | None => mret ()
  | Some ll =>
      let full := ND_SESSION_MAX_SUBS <=? Z.of_nat (length (s_subs s)) in
      if negb (existsb (same_sub src ll) (s_subs s)) && full then mret () else
      when (negb (existsb (same_sub src ll) (s_subs s)))
        (set_session l (λ s, s <| s_subs := mk_sub src ll :: s_subs s |>));;
      session_recheck_route l;;
      session_probe_stale l
  end.

Definition nd_session_handle_na (l : loc) : M unit :=
  now ← gets nd_current_time;
  s ← load w_sessions l;
  if bool_decide (s_state s = ND_STATE_VALID)
  then set_session l (λ s, s <| s_state_time := now |>)
  else
  rule ← load w_rules (s_rule s);
  for_each (s_subs s) (λ sub,
    proxy ← load w_proxies (r_proxy rule);
    nd_iface_send_na (p_iface proxy) (sub_addr sub) (sub_lladdr sub) (s_tgt s)
      (rule_tgt_ll rule) (p_router proxy));;
  set_session l (λ s, s <| s_subs := [] |>);;
  ndL_up l;;
  set_state l ND_STATE_VALID.

(** ** Creation *)

(** [nd_session_create] from the choice of the interface on. *)
Definition session_start_probe (l : loc) (rule : nd_rule) : M unit :=
  s ← load w_sessions l;
  match s_iface s with
  | Some _ =>
      now ← gets nd_current_time;
      set_session l (λ s, s <| s_state := ND_STATE_INCOMPLETE |> <| s_ons_count := 1 |>
                            <| s_ons_time := now |>);;
      nd_iface_send_ns (s_iface s) (s_tgt_r s)
  | None =>
      when (bool_decide (r_mode rule = ND_MODE_STATIC))
        (set_session l (λ s, s <| s_state := ND_STATE_VALID |>))
  end.

(** [rule->iface && rule->iface->up && nd_rt_is_local_addr(...)] *)
Definition rule_iface_owns (rule : nd_rule) (a : nd_addr) : M bool :=
  match r_iface rule with
  | None => mret false
  | Some iface =>
      i ← load w_ifaces iface;
      if negb (i_up i) then mret false else
      gets (λ w, nd_rt_is_local_addr (i_index i) a (w_addrs w))
  end.

(** The interface of a session of an [auto] rule; [false] when there is none. *)
Definition session_auto_iface (l : loc) (rule : nd_rule) (tgt : nd_addr) : M bool :=
  route ← gets (λ w, nd_rt_find_route tgt (r_table rule) (w_routes w));
  match route with
  | None => mret false
  | Some route =>
      proxy ← load w_proxies (r_proxy rule);
      piface ← deref (p_iface proxy);
      pi ← load w_ifaces piface;
      if rt_oif route =? i_index pi then mret false else
      iface ← nd_iface_open K None (rt_oif route) false;
      set_session l (λ s, s <| s_iface := iface |>);;
      mret (bool_decide (iface ≠ None))
  end.

(** The part of [nd_session_create] after the session is linked. *)
Definition session_init (l : loc) (rule : nd_rule) (tgt tgt_r : nd_addr) : M unit :=
  if bool_decide (r_mode rule = ND_MODE_AUTO) then
    found ← session_auto_iface l rule tgt;
    if (found : bool) then session_start_probe l rule
    else set_session l (λ s, s <| s_state := ND_STATE_INVALID |>)
  else
    owned ← (if bool_decide (r_mode rule = ND_MODE_IFACE) then rule_iface_owns rule tgt_r
             else mret false);
    if (owned : bool) then set_session l (λ s, s <| s_state := ND_STATE_VALID |>) else
    set_session l (λ s, s <| s_iface := r_iface rule |>);;
    match r_iface rule with
    | Some iface => update w_ifaces iface (λ i, i <| i_refcount := i_refcount i + 1 |>)
    | None => mret ()
    end;;
    session_start_probe l rule.

Definition nd_session_create (rule_l : loc) (tgt : nd_addr) : M (option loc) :=
  count ← gets w_session_count;
  if ND_SESSION_MAX <=? count then mret None else
  rule ← load w_rules rule_l;
  now ← gets nd_current_time;
  let tgt_r := nd_addr_combine (r_rewrite_tgt rule) tgt (r_rewrite_pflen rule) in
  l ← alloc w_sessions
        (mk_session rule_l tgt tgt_r 0 0 0 now ND_STATE_INCOMPLETE None [] false);
  modify (λ w, w <| w_session_count := w_session_count w + 1 |>);;
  upd_bucket w_buckets tgt (cons l);;
  upd_bucket w_buckets_r tgt_r (cons l);;
  session_init l rule tgt tgt_r;;
  mret (Some l).

End kernel.

(** ** The timer *)

(** The delay before the next probe of a STALE session. *)
Definition stale_backoff (conf : nd_conf) (ons_count : Z) : Z :=
  let shift := Z.quot ons_count 3 in
  let shift := if 16 <? shift then 16 else shift in
  if negb (ons_count =? 0) && (0 <? nd_conf_retrans_limit conf) &&
     (Z.rem ons_count (nd_conf_retrans_limit conf) =? 0)
  then Z.shiftl (nd_conf_retrans_time conf) shift else nd_conf_retrans_time conf.

Definition update_incomplete (l : loc) (s : nd_session) : M unit :=
  now ← gets nd_current_time;
  conf ← gets w_conf;
  waiting ← match s_iface s with
            | None => mret false
            | Some iface => i ← load w_ifaces iface; mret (negb (i_up i))
            end;
  if (waiting : bool) then
    if now - s_state_time s <? nd_conf_invalid_ttl conf
    then set_session l (λ s, s <| s_ons_time := now |>)
    else set_state l ND_STATE_INVALID
  else if now - s_ons_time s <? nd_conf_retrans_time conf then mret () else
  set_session l (λ s, s <| s_ons_count := s_ons_count s + 1 |>);;
  if nd_conf_retrans_limit conf <? s_ons_count s + 1
  then set_state l ND_STATE_INVALID
  else nd_iface_send_ns (s_iface s) (s_tgt_r s).

Definition update_invalid (l : loc) (s : nd_session) : M unit :=
  now ← gets nd_current_time;
  conf ← gets w_conf;
  if now - s_state_time s <? nd_conf_invalid_ttl conf then mret () else
  ndL_down l;;
  match s_iface s with
  | Some iface => nd_iface_close iface
  | None => mret ()
  end;;
  upd_bucket w_buckets (s_tgt s) (ll_delete l);;
  upd_bucket w_buckets_r (s_tgt_r s) (ll_delete l);;
  modify (λ w, w <| w_session_count := w_session_count w - 1 |>);;
  free w_sessions l.

Definition update_valid (l : loc) (s : nd_session) : M unit :=
  now ← gets nd_current_time;
  conf ← gets w_conf;
  if now - s_state_time s <? nd_conf_valid_ttl conf then mret () else
  match s_iface s with
  | None =>
      rule ← load w_rules (s_rule s);
      keep ← (if bool_decide (r_mode rule = ND_MODE_STATIC) then mret true
              else rule_iface_owns rule (s_tgt_r s));
      if (keep : bool) then set_session l (λ s, s <| s_state_time := now |>)
      else set_state l ND_STATE_INVALID
  | Some _ =>
      set_state l ND_STATE_STALE;;
      set_session l (λ s, s <| s_ons_time := now |>);;
      if nd_conf_keepalive conf || (now - s_ins_time s <? nd_conf_valid_ttl conf) then
        set_session l (λ s, s <| s_ons_count := 1 |>);;
        nd_iface_send_ns (s_iface s) (s_tgt_r s)
      else set_session l (λ s, s <| s_ons_count := 0 |>)
  end.

Definition update_stale (l : loc) (s : nd_session) : M unit :=
  now ← gets nd_current_time;
  conf ← gets w_conf;
  if nd_conf_stale_ttl conf <=? now - s_state_time s then set_state l ND_STATE_INVALID else
  if negb (nd_conf_keepalive conf) && (nd_conf_valid_ttl conf <? now - s_ins_time s) then mret ()
  else if now - s_ons_time s <? stale_backoff conf (s_ons_count s) then mret () else
  set_session l (λ s, s <| s_ons_count := s_ons_count s + 1 |> <| s_ons_time := now |>);;
  nd_iface_send_ns (s_iface s) (s_tgt_r s).

Definition nd_session_update (l : loc) : M unit :=
  s ← load w_sessions l;
  match s_state s with
  | ND_STATE_INCOMPLETE => update_incomplete l s
  | ND_STATE_INVALID => update_invalid l s
  | ND_STATE_VALID => update_valid l s
  | ND_STATE_STALE => update_stale l s
  end.

Definition nd_session_update_all : M unit :=
  for_each (seq 0 (Z.to_nat NDPPD_SESSION_BUCKETS)) (λ i,
    bucket ← gets (λ w, w_buckets w !!! i);
    for_each bucket nd_session_update).

Definition nd_session_iface_changed (iface : loc) (up : bool) : M unit :=
  for_each (seq 0 (Z.to_nat NDPPD_SESSION_BUCKETS)) (λ i,
    bucket ← gets (λ w, w_buckets w !!! i);
    for_each bucket (λ l,
      s ← load w_sessions l;
      if negb (bool_decide (s_iface s = Some iface)) then mret () else
      if negb up then set_session l (λ s, s <| s_autowired := false |>)
      else when (bool_decide (s_state s = ND_STATE_VALID)) (ndL_up l))).

End session.
