(* ===== verification/Proxy.v ===== *)
(** * Proxies and rules (src/proxy.c, src/rule.c) *)
From S2P Require Import Prelude Addr World Monad Packet Route Netlink Iface Session.

(** A loop whose body may end the enclosing function with [false]. *)
Fixpoint all_of {A} (l : list A) (body : A → M bool) : M bool :=
  match l with
  | [] => mret true
  | x :: l => b ← body x; if (b : bool) then all_of l body else mret false
  end.

Section proxy.
Context {BO : ByteOrder}.

Definition nd_rule_create (proxy : loc) : M loc :=
  p ← load w_proxies proxy;
  rule ← alloc w_rules
           (mk_rule proxy "" (p_target p) addr_zero 0 addr_zero 0 None false 0 ND_MODE_UNKNOWN);
  update w_proxies proxy (λ p, p <| p_rules := rule :: p_rules p |>);;
  mret rule.

Definition nd_proxy_create (ifname : string) : M (option loc) :=
  proxies ← gets w_proxy_list;
  found ← ll_search proxies (λ l, p ← load w_proxies l; mret (bool_decide (p_ifname p = ifname)));
  match found with
  | Some _ => mret None
  | None =>
      l ← alloc w_proxies (mk_proxy ifname ll_zero None [] false false);
      modify (λ w, w <| w_proxy_list := l :: w_proxy_list w |>);;
      mret (Some l)
  end.

Section kernel.
Context (K : kernel).

Definition nd_proxy_handle_ns (proxy : loc) (src dst tgt : nd_addr) (src_ll : option nd_lladdr)
    : M unit :=
  session ← nd_session_find tgt proxy;
  match session with
  | Some session => nd_session_handle_ns K session src src_ll
  | None =>
      p ← load w_proxies proxy;
      rule ← ll_search (p_rules p) (λ l,
               r ← load w_rules l; mret (nd_addr_match (r_addr r) tgt (r_prefix r)));
      match rule with
      | None => mret ()
      | Some rule =>
          session ← nd_session_create K rule tgt;
          match session with
          | None => mret ()
          | Some session => nd_session_handle_ns K session src src_ll
          end
      end
  end.

(** The body of the rule loop of [nd_proxy_startup]. *)
Definition startup_rule (rule : loc) : M bool :=
  r ← load w_rules rule;
  if bool_decide (r_ifname r = "") then mret true else
  iface ← nd_iface_open K (Some (r_ifname r)) 0 false;
  update w_rules rule (λ r, r <| r_iface := iface |>);;
  mret (bool_decide (iface ≠ None)).

(** The body of the proxy loop of [nd_proxy_startup]. *)
Definition startup_proxy (proxy : loc) : M bool :=
  p ← load w_proxies proxy;
  if bool_decide (p_rules p = []) then mret false else
  iface ← nd_iface_open K (Some (p_ifname p)) 0 (p_promiscuous p);
  update w_proxies proxy (λ p, p <| p_iface := iface |>);;
  match iface with
  | None => mret false
  | Some iface =>
      update w_ifaces iface (λ i, i <| i_proxy := Some proxy |>);;
      all_of (p_rules p) startup_rule
  end.

Definition nd_proxy_startup : M bool :=
  proxies ← gets w_proxy_list;
  if bool_decide (proxies = []) then mret false else all_of proxies startup_proxy.

End kernel.
End proxy.
