(* ===== verification/Receive.v ===== *)
(** * The event handlers of the daemon (src/iface.c, src/rt.c)

    [nd_iface_rebind_all] reconciles the interfaces with the kernel, and the
    two [ndL_io_handler]s act on a received frame and on a received netlink
    datagram. *)
From S2P Require Import Prelude Addr World Monad Packet Route Netlink Iface Session Proxy.

Section receive.
Context {BO : ByteOrder}.

(** ** Rebinding (src/iface.c, Linux) *)

Section kernel.
Context (K : kernel).

(** The refresh of the link-layer address. *)
Definition rebind_lladdr (l : loc) (i : nd_iface) : M unit :=
  match k_hwaddr K (i_name i) with
  | None => mret ()
  | Some new_lladdr =>
      when (negb (nd_lladdr_eq (i_lladdr i) new_lladdr))
        (update w_ifaces l (λ i, i <| i_lladdr := new_lladdr |>))
  end.

(** [ioctl(SIOCGIFFLAGS) == 0 && (flags & IFF_UP)] *)
Definition kernel_admin_up (name : string) : bool :=
  match k_flags K name with
  | None => false
  | Some flags => negb (Z.land flags IFF_UP =? 0)
  end.

(** The interface is absent: it goes to the waiting state. *)
Definition rebind_absent (l : loc) (i : nd_iface) : M unit :=
  when (i_up i)
    (update w_ifaces l (λ i, i <| i_up := false |> <| i_admin_up := false |>);;
     nd_session_iface_changed l false).

(** The interface is present at index [cur]. *)
Definition rebind_present (l : loc) (i : nd_iface) (cur : Z) : M unit :=
  use_io w_pkt_io;;
  rebind_lladdr l i;;
  let admin_up := kernel_admin_up (i_name i) in
  if (cur =? i_index i) && i_up i then
    when (negb (Bool.eqb admin_up (i_admin_up i))) (nd_session_iface_changed l admin_up);;
    update w_ifaces l (λ i, i <| i_admin_up := admin_up |>)
  else
  if negb (k_add_membership K cur (i_promiscuous i)) then mret () else
  emit (EvAddMembership cur (i_promiscuous i));;
  when (negb (i_index i =? 0) && negb (i_index i =? cur))
    (emit (EvDropMembership (i_index i) (i_promiscuous i)));;
  when (i_up i) (nd_session_iface_changed l false);;
  update w_ifaces l (λ i, i <| i_index := cur |> <| i_up := true |>);;
  when admin_up (nd_session_iface_changed l true);;
  update w_ifaces l (λ i, i <| i_admin_up := admin_up |>).

Definition rebind_iface (l : loc) : M unit :=
  i ← load w_ifaces l;
  let '(cur, errno) := k_nametoindex K (i_name i) in
  if cur =? 0 then
    if negb (errno =? 0) && negb (errno =? ENODEV) then mret ()
    else rebind_absent l i
  else rebind_present l i cur.

Definition nd_iface_rebind_all : M unit :=
  open ← gets w_pkt_io;
  if negb open then mret () else
  ifaces ← gets w_first_iface;
  for_each ifaces rebind_iface.

(** ** A received frame (src/iface.c) *)

(** The part of [ndL_handle_ns] and [ndL_handle_na] that acts on the message
    that was decoded; MLD messages are only logged. *)
Definition ndL_handle_rx (iface : loc) (r : rx) : M unit :=
  match r with
  | RxNS src dst tgt src_ll =>
      i ← load w_ifaces iface;
      match i_proxy i with
      | None => mret ()
      | Some proxy => nd_proxy_handle_ns K proxy src dst tgt src_ll
      end
  | RxNA tgt =>
      session ← nd_session_find_r tgt iface;
      match session with
      | None => mret ()
      | Some session => nd_session_handle_na session
      end
  | RxDrop | RxMLQ | RxMLR => mret ()
  end.

(** One iteration of [ndL_io_handler]: the frame came in on index [ifindex]. *)
Definition ndL_handle_frame (ifindex : Z) (frame : list Z) : M unit :=
  ifaces ← gets w_first_iface;
  found ← ll_search ifaces (λ l, i ← load w_ifaces l; mret (i_up i && (i_index i =? ifindex)));
  match found with
  | None => mret ()
  | Some iface =>
      r ← in_bounds (parse_frame frame);
      ndL_handle_rx iface r
  end.

(** ** A received netlink datagram (src/rt.c) *)

Definition ndL_handle_nlmsg (m : nl_msg) : M unit :=
  match m with
  | NlIgnore => mret ()
  | NlNewAddr index addr pflen =>
      modify (λ w, w <| w_addrs := ndL_new_addr index addr pflen (w_addrs w) |>)
  | NlDelAddr index addr pflen =>
      modify (λ w, w <| w_addrs := ndL_delete_addr index addr pflen (w_addrs w) |>)
  | NlNewRoute route => modify (λ w, w <| w_routes := ndL_new_route route (w_routes w) |>)
  | NlDelRoute route => modify (λ w, w <| w_routes := ndL_delete_route route (w_routes w) |>)
  | NlLink => nd_iface_rebind_all
  end.

(** One datagram of the netlink socket. *)
Definition ndL_handle_datagram (f : list Z) : M unit :=
  p ← in_bounds (parse_datagram f);
  for_each (fst p) ndL_handle_nlmsg;;
  when (snd p) (modify (λ w, w <| w_dump_timeout := 0 |>)).

End kernel.
End receive.
