(* ===== verification/Daemon.v ===== *)
(** * The main loop (src/ndppd.c)

    One iteration of the [for (;;)] of [main]: the timers, then [nd_io_poll],
    which calls the handlers of the sockets that are readable, then the clock. *)
From S2P Require Import Prelude Addr World Monad Packet Route Netlink Iface Session Proxy Receive.

(** What [nd_io_poll] can deliver to a handler: a frame with the index of the
    interface it came in on, or a netlink datagram. *)
Inductive input :=
  | InFrame (ifindex : Z) (frame : list Z)
  | InDatagram (datagram : list Z).

(** The local variables of [main] that live across iterations. *)
Record loop_vars := mk_loop {
  querying_routes : bool;
  last_session_update : Z;
  last_iface_check : Z }.

Definition loop_start : loop_vars := mk_loop true 0 0.

Section daemon.
Context {BO : ByteOrder}.

Definition handle_input (K : kernel) (i : input) : M unit :=
  match i with
  | InFrame ifindex frame => ndL_handle_frame K ifindex frame
  | InDatagram datagram => ndL_handle_datagram K datagram
  end.

(** The end of the route dump. *)
Definition loop_dump (v : loop_vars) : M bool :=
  now ← gets nd_current_time;
  timeout ← gets w_dump_timeout;
  when (timeout <=? now) (modify (λ w, w <| w_dump_timeout := 0 |>));;
  timeout ← gets w_dump_timeout;
  if querying_routes v && (timeout =? 0) then
    nd_rt_remove_owned_routes;;
    _ ← nd_rt_query_addresses;
    mret false
  else mret (querying_routes v).

(** The timers at the top of an iteration; [K] answers the system calls of the
    periodic rebind. *)
Definition loop_timers (K : kernel) (v : loop_vars) : M loop_vars :=
  querying ← loop_dump v;
  now ← gets nd_current_time;
  update ← (if 100 <? now - last_session_update v
            then nd_session_update_all;; mret now else mret (last_session_update v));
  check ← (if 5000 <? now - last_iface_check v
           then nd_iface_rebind_all K;; mret now else mret (last_iface_check v));
  mret (mk_loop querying update check).

(** Every input comes with the kernel that its handler sees; [now'] is the time
    read at the end. *)
Definition loop_iteration (K : kernel) (inputs : list (kernel * input)) (now' : Z) (v : loop_vars)
    : M loop_vars :=
  v ← loop_timers K v;
  for_each inputs (λ ki, handle_input (fst ki) (snd ki));;
  modify (λ w, w <| nd_current_time := now' |>);;
  mret v.

(** The start of [main] once the configuration is loaded: the sockets, the
    interfaces and the first route dump.  [false] is [EXIT_FAILURE]. *)
Definition daemon_start (K : kernel) (pkt_socket pkt_filter pkt_bind rt_socket rt_bind : bool)
    : M bool :=
  ok ← nd_iface_startup pkt_socket pkt_filter pkt_bind;
  if negb ok then mret false else
  ok ← nd_proxy_startup K;
  if negb ok then mret false else
  ok ← nd_rt_open rt_socket rt_bind;
  if negb ok then mret false else
  _ ← nd_rt_query_routes;
  mret true.

(** [atexit(ndL_exit)], without [nd_alloc_cleanup], which frees the chunks. *)
Definition ndL_exit : M unit :=
  nd_iface_cleanup;;
  nd_rt_cleanup.

End daemon.
