(* ===== verification/Text.v ===== *)
(** * Text (the tokenizer of src/conf.c and the C library functions it calls)

    The configuration is a list of bytes.  The position of the tokenizer
    ([ndL_state_t]) is the bytes from [data[offset]] to [data[length)], with the
    line and column it reports errors at.  A tokenizer that fails leaves the
    position alone, as in the source, and is [None].

    Of the C library, the character classes (in the C locale), [strchr],
    [strtoll], [inet_pton] and [ether_aton] are written out as glibc has them. *)
From Stdlib Require Import Ascii.
From S2P Require Import Prelude Addr World Monad Packet.

(** ** Characters *)

Definition chr (c : ascii) : Z := Z.of_nat (nat_of_ascii c).

Definition in_range (lo hi c : Z) : bool := (lo <=? c) && (c <=? hi).

Definition isdigit (c : Z) : bool := in_range (chr "0") (chr "9") c.
Definition isalpha (c : Z) : bool := in_range (chr "a") (chr "z") c || in_range (chr "A") (chr "Z") c.
Definition isalnum (c : Z) : bool := isalpha c || isdigit c.
Definition isxdigit (c : Z) : bool :=
  isdigit c || in_range (chr "a") (chr "f") c || in_range (chr "A") (chr "F") c.
(** space, \t, \n, \v, \f, \r *)
Definition isspace (c : Z) : bool := (c =? 32) || in_range 9 13 c.
Definition NEWLINE : Z := 10.

(** [strchr(valid, c)] finds the terminating NUL too. *)
Definition strchr (valid : list Z) (c : Z) : bool := (c =? 0) || existsb (Z.eqb c) valid.

Definition bytes_of_string (s : string) : list Z := map chr (String.list_ascii_of_string s).

(** The string a buffer holds: up to its first NUL. *)
Fixpoint cstring (buf : list Z) : string :=
  match buf with
  | [] => EmptyString
  | c :: buf => if c =? 0 then EmptyString else String (ascii_of_nat (Z.to_nat c)) (cstring buf)
  end.

Definition hex_value (c : Z) : option Z :=
  if isdigit c then Some (c - chr "0")
  else if in_range (chr "a") (chr "f") c then Some (c - chr "a" + 10)
  else if in_range (chr "A") (chr "F") c then Some (c - chr "A" + 10)
  else None.

(** ** [strtoll(buf, &endptr, 10)] on a buffer without leading space *)

Definition LLONG_MAX : Z := 2 ^ 63 - 1.
Definition LLONG_MIN : Z := - 2 ^ 63.

(** The digits at the front, their value, and what follows them. *)
Fixpoint digits (acc : Z) (buf : list Z) : Z * list Z :=
  match buf with
  | c :: rest => if isdigit c then digits (acc * 10 + (c - chr "0")) rest else (acc, buf)
  | [] => (acc, [])
  end.

(** The value and [endptr]; without a digit nothing is converted. *)
Definition strtoll (buf : list Z) : Z * list Z :=
  let neg := match buf with c :: _ => c =? chr "-" | [] => false end in
  let body := if neg then drop 1 buf else buf in
  match body with
  | c :: _ =>
      if isdigit c then
        let '(v, rest) := digits 0 body in
        (if neg then Z.max LLONG_MIN (- v) else Z.min LLONG_MAX v, rest)
      else (0, buf)
  | [] => (0, buf)
  end.

(** ** [inet_pton(AF_INET6, ...)] *)

(** The dotted quad at the end: the octets read so far, the current one, and
    whether it has a digit. *)
Fixpoint inet_pton4 (src : list Z) (done : list Z) (cur : Z) (saw_digit : bool) : option (list Z) :=
  match src with
  | [] =>
      let octets := done ++ (if saw_digit then [cur] else []) in
      if bool_decide (length octets = 4%nat) && saw_digit then Some octets else None
  | ch :: src =>
      if isdigit ch then
        let new := cur * 10 + (ch - chr "0") in
        if saw_digit && (cur =? 0) then None
        else if 255 <? new then None
        else if negb saw_digit && (4 <=? Z.of_nat (length done)) then None
        else inet_pton4 src done new true
      else if (ch =? chr ".") && saw_digit then
        if Z.of_nat (length done) =? 3 then None else inet_pton4 src (done ++ [cur]) 0 false
      else None
  end.

(** The state of the loop of [inet_pton6]: the bytes written ([tp]), where [::]
    was seen ([colonp]), the digits of the current group and its start
    ([curtok]). *)
Record pton := mk_pton {
  pt_bytes : list Z;
  pt_colon : option nat;
  pt_xdigits : Z;
  pt_val : Z;
  pt_curtok : list Z }.

Definition pton_group (s : pton) : option (list Z) :=
  if 16 <? Z.of_nat (length (pt_bytes s)) + 2 then None
  else Some (pt_bytes s ++ be16 (pt_val s)).

Fixpoint pton_loop (src : list Z) (s : pton) : option pton :=
  match src with
  | [] => Some s
  | ch :: rest =>
      match hex_value ch with
      | Some digit =>
          if pt_xdigits s =? 4 then None
          else pton_loop rest (mk_pton (pt_bytes s) (pt_colon s) (pt_xdigits s + 1)
                                 (pt_val s * 16 + digit) (pt_curtok s))
      | None =>
          if ch =? chr ":" then
            if pt_xdigits s =? 0 then
              match pt_colon s with
              | Some _ => None
              | None => pton_loop rest (mk_pton (pt_bytes s) (Some (length (pt_bytes s))) 0 (pt_val s) rest)
              end
            else if bool_decide (rest = []) then None
            else bytes ← pton_group s; pton_loop rest (mk_pton bytes (pt_colon s) 0 0 rest)
          else if (ch =? chr ".") && (Z.of_nat (length (pt_bytes s)) + 4 <=? 16) then
            octets ← inet_pton4 (pt_curtok s) [] 0 false;
            Some (mk_pton (pt_bytes s ++ octets) (pt_colon s) 0 (pt_val s) [])
          else None
      end
  end.

(** The end of [inet_pton6]: the last group and the expansion of [::]. *)
Definition pton_finish (s : pton) : option (list Z) :=
  bytes ← (if 0 <? pt_xdigits s then pton_group s else Some (pt_bytes s));
  bytes ← match pt_colon s with
          | Some n =>
              if bool_decide (length bytes = 16%nat) then None
              else Some (take n bytes ++ replicate (16 - length bytes) 0 ++ drop n bytes)
          | None => Some bytes
          end;
  if bool_decide (length bytes = 16%nat) then Some bytes else None.

Definition inet_pton6 (src : list Z) : option (list Z) :=
  match src with
  | [] => None
  | c :: rest =>
      let start := if c =? chr ":" then rest else src in
      if (c =? chr ":") && negb (bool_decide (head rest = Some (chr ":"))) then None
      else s ← pton_loop start (mk_pton [] None 0 0 start); pton_finish s
  end.

(** ** [ether_aton] *)

(** One octet: one or two hexadecimal digits; [cnt] is its index. *)
Definition ether_octet (cnt : nat) (asc : list Z) : option (Z * list Z) :=
  match asc with
  | [] => None
  | c :: asc =>
      number ← hex_value c;
      let stop := match asc with
                  | [] => bool_decide (cnt = 5%nat)
                  | ch :: _ => if bool_decide (cnt < 5)%nat then ch =? chr ":" else isspace ch
                  end in
      if (stop : bool) then Some (number, asc) else
      match asc with
      | [] => None
      | ch :: asc =>
          low ← hex_value ch;
          if bool_decide (cnt < 5)%nat && negb (bool_decide (head asc = Some (chr ":"))) then None
          else Some (number * 16 + low, asc)
      end
  end.

Fixpoint ether_octets (n cnt : nat) (asc : list Z) : option (list Z) :=
  match n with
  | O => Some []
  | S n =>
      '(b, asc) ← ether_octet cnt asc;
      bs ← ether_octets n (S cnt) (drop 1 asc);
      Some (b :: bs)
  end.

Definition ether_aton (asc : list Z) : option nd_lladdr :=
  bs ← ether_octets 6 0 asc;
  Some (mk_ll (nth 0 bs 0) (nth 1 bs 0) (nth 2 bs 0) (nth 3 bs 0) (nth 4 bs 0) (nth 5 bs 0)).

(** ** The tokenizer *)

Record ndL_state := mk_state { st_rest : list Z; st_line : Z; st_column : Z }.

(** [n] bytes further on the same line. *)
Definition st_advance (st : ndL_state) (n : nat) (rest : list Z) : ndL_state :=
  mk_state rest (st_line st) (st_column st + Z.of_nat n).

Definition ndL_eof (st : ndL_state) : bool :=
  match st_rest st with [] => true | _ => false end.

Fixpoint skip_loop (comment : bool) (rest : list Z) (column : Z) : list Z * Z :=
  match rest with
  | [] => ([], column)
  | c :: rest' =>
      let comment := comment || (c =? chr "#") in
      if (c =? NEWLINE) || (negb comment && negb (isspace c)) then (rest, column)
      else skip_loop comment rest' (column + 1)
  end.

Definition ndL_skip (st : ndL_state) : ndL_state :=
  let '(rest, column) := skip_loop false (st_rest st) (st_column st) in
  mk_state rest (st_line st) column.

(** The accepted character; 0 when there is none (and for a NUL, which is
    consumed). *)
Definition ndL_accept (st : ndL_state) (valid : list Z) : Z * ndL_state :=
  match st_rest st with
  | [] => (0, st)
  | c :: rest =>
      if negb (strchr valid c) then (0, st)
      else if c =? NEWLINE then (c, mk_state rest (st_line st + 1) 1)
      else (c, mk_state rest (st_line st) (st_column st + 1))
  end.

(** At most [n] characters of a class, as the loops that fill [buf[64]]. *)
Fixpoint token (n : nat) (class : Z → bool) (rest : list Z) : list Z * list Z :=
  match n, rest with
  | S n, c :: rest' =>
      if class c then let '(buf, rest) := token n class rest' in (c :: buf, rest) else ([], rest)
  | _, _ => ([], rest)
  end.

(** The token in [buf], unless it is empty or fills the buffer. *)
Definition accept_token (st : ndL_state) (class : Z → bool) : option (list Z * ndL_state) :=
  let '(buf, rest) := token 64 class (st_rest st) in
  if bool_decide (length buf = 64%nat) || bool_decide (buf = []) then None
  else Some (buf, st_advance st (length buf) rest).

Definition ndL_accept_int (st : ndL_state) (min max : Z) : option (Z * ndL_state) :=
  '(buf, st) ← accept_token st (λ c, isdigit c || (c =? chr "-"));
  let '(value, endptr) := strtoll buf in
  if negb (bool_decide (endptr = [])) || (max <? value) || (value <? min) then None
  else Some (value, st).

Section addr.
Context {BO : ByteOrder}.

Definition ndL_accept_addr (st : ndL_state) : option (nd_addr * ndL_state) :=
  '(buf, st) ← accept_token st (λ c, isxdigit c || (c =? chr ".") || (c =? chr ":"));
  bytes ← inet_pton6 buf;
  Some (addr_of_u8 (λ i, nth (Z.to_nat i) bytes 0), st).
End addr.

Definition ndL_accept_lladdr (st : ndL_state) : option (nd_lladdr * ndL_state) :=
  '(buf, st) ← accept_token st (λ c, isxdigit c || (c =? chr ":"));
  out ← ether_aton buf;
  Some (out, st).

Definition name_valid : list Z := bytes_of_string "$-_.".
Definition name_char (c : Z) : bool := isalnum c || strchr name_valid c.

(** The loop of [ndL_accept_name] with room for [room] characters. *)
Fixpoint name_loop (room : nat) (first : bool) (rest : list Z) : list Z * list Z :=
  match room, rest with
  | S room, c :: rest' =>
      if negb (if first then isalpha c else name_char c) then ([], rest)
      else let '(buf, rest) := name_loop room false rest' in (c :: buf, rest)
  | _, _ => ([], rest)
  end.

(** [size] is the size of the buffer, the NUL included. *)
Definition ndL_accept_name (st : ndL_state) (size : nat) : option (list Z * ndL_state) :=
  let '(buf, rest) := name_loop (size - 1) true (st_rest st) in
  if bool_decide (buf = []) then None
  else if bool_decide (length buf = size - 1)%nat &&
          match rest with c :: _ => name_char c | [] => false end then None
  else Some (buf, st_advance st (length buf) rest).

Definition ndL_accept_bool (st : ndL_state) : option (bool * ndL_state) :=
  match ndL_accept_name st 16 with
  | None => Some (true, st)
  | Some (buf, st) =>
      let name := cstring buf in
      if bool_decide (name = "yes") || bool_decide (name = "true") then Some (true, st)
      else if bool_decide (name = "no") || bool_decide (name = "false") then Some (false, st)
      else None
  end.

(** ** Lemmas *)

(** The bytes that are left. *)
Definition left_ (st : ndL_state) : nat := length (st_rest st).

Lemma skip_left st : (left_ (ndL_skip st) ≤ left_ st)%nat.
Proof.
  unfold left_, ndL_skip. generalize (st_column st), false. induction (st_rest st) as [|c rest IH];
    intros col com; cbn [skip_loop]; [done|]. destruct (_ || _); [done|].
  specialize (IH (col + 1) (com || (c =? chr "#"))). destruct (skip_loop _ _ _). cbn in *. lia.
Qed.

Lemma accept_left st valid c st' :
  ndL_accept st valid = (c, st') → (left_ st' ≤ left_ st)%nat ∧ (c ≠ 0 → (left_ st' < left_ st)%nat).
Proof.
  unfold ndL_accept, left_. destruct (st_rest st) as [|x rest] eqn:E.
  - intros [= <- <-]. rewrite E. done.
  - destruct (negb _); [intros [= <- <-]; rewrite E; done|].
    destruct (_ =? _); intros [= <- <-]; cbn; lia.
Qed.

Lemma token_length n class rest : length rest = (length (token n class rest).1 + length (token n class rest).2)%nat.
Proof.
  revert rest. induction n as [|n IH]; intros [|c rest]; cbn; [done..|]. destruct (class c); [|done].
  specialize (IH rest). destruct (token n class rest). cbn in *. lia.
Qed.

Lemma accept_token_left st class buf st' :
  accept_token st class = Some (buf, st') → (left_ st' < left_ st)%nat.
Proof.
  unfold accept_token, left_. pose proof (token_length 64 class (st_rest st)).
  destruct (token _ _ _) as [b r]. destruct (bool_decide (length b = 64%nat)); [done|].
  destruct (bool_decide_reflect (b = [])) as [|Hb]; [done|]. intros [= -> <-]. cbn in *.
  destruct buf; [done|]. cbn in *. lia.
Qed.

Lemma name_loop_length room first rest :
  length rest = (length (name_loop room first rest).1 + length (name_loop room first rest).2)%nat.
Proof.
  revert first rest. induction room as [|room IH]; intros first [|c rest]; cbn; [done..|].
  destruct (negb _); [done|]. specialize (IH false rest). destruct (name_loop room false rest). cbn in *. lia.
Qed.

(** A name consumes input, and starts with a letter. *)
Lemma accept_name_Some st size buf st' :
  ndL_accept_name st size = Some (buf, st') → (left_ st' < left_ st)%nat ∧ cstring buf ≠ "".
Proof.
  unfold ndL_accept_name, left_. pose proof (name_loop_length (size - 1) true (st_rest st)).
  destruct (name_loop (size - 1) true (st_rest st)) as [b r] eqn:Hl.
  destruct (bool_decide_reflect (b = [])) as [|Hb]; [done|]. destruct (_ && _); [done|].
  intros [= -> <-]. cbn in *. destruct (size - 1)%nat as [|room]; [cbn in Hl; congruence|].
  destruct (st_rest st) as [|c rest]; [cbn in Hl; congruence|]. cbn [name_loop] in Hl.
  destruct (isalpha c) eqn:Ha; cbn [negb] in Hl; [|congruence].
  destruct (name_loop room false rest). injection Hl as <- <-. cbn in *. split; [lia|].
  destruct (Z.eqb_spec c 0) as [-> |]; [done|]. done.
Qed.

Lemma accept_bool_left st b st' : ndL_accept_bool st = Some (b, st') → (left_ st' ≤ left_ st)%nat.
Proof.
  unfold ndL_accept_bool. destruct (ndL_accept_name st 16) as [[buf st1]|] eqn:Hn.
  - apply accept_name_Some in Hn as [? _]. repeat destruct (_ || _); intros; simplify_eq; lia.
  - intros [= <- <-]. done.
Qed.

Lemma accept_int_Some st lo hi v st' :
  ndL_accept_int st lo hi = Some (v, st') → lo ≤ v ≤ hi ∧ (left_ st' < left_ st)%nat.
Proof.
  unfold ndL_accept_int. destruct (accept_token st _) as [[buf st1]|] eqn:Ht; cbn [mbind option_bind]; [|done].
  destruct (strtoll buf) as [value endptr]. destruct (_ || _) eqn:E; [done|]. intros [= <- <-].
  reflect_bools. split; [lia|]. by eapply accept_token_left.
Qed.

Lemma accept_lladdr_left st v st' : ndL_accept_lladdr st = Some (v, st') → (left_ st' < left_ st)%nat.
Proof.
  unfold ndL_accept_lladdr. destruct (accept_token st _) as [[buf st1]|] eqn:Ht; cbn [mbind option_bind]; [|done].
  destruct (ether_aton buf); cbn [mbind option_bind]; [|done]. intros [= _ <-]. by eapply accept_token_left.
Qed.

Lemma accept_addr_left {BO : ByteOrder} st v st' : ndL_accept_addr st = Some (v, st') → (left_ st' < left_ st)%nat.
Proof.
  unfold ndL_accept_addr. destruct (accept_token st _) as [[buf st1]|] eqn:Ht; cbn [mbind option_bind]; [|done].
  destruct (inet_pton6 buf); cbn [mbind option_bind]; [|done]. intros [= _ <-]. by eapply accept_token_left.
Qed.
