(* ===== verification/Conf.v ===== *)
(** * The configuration (src/conf.c)

    A recursive-descent parser over nested blocks: the top level holds settings
    and [proxy] blocks, a proxy holds [rule] blocks.  What may occur in a block is
    the table [ndL_cfinfo_table]; the parser creates proxies and rules as it
    meets them and stores values through the pointer of the current block.  A
    failure anywhere ends the whole parse. *)
From Stdlib Require Import Ascii.
From S2P Require Import Prelude Addr World Monad Packet Route Netlink Iface Session Proxy Text.

(** ** The table *)

Inductive cf_scope := NDL_DEFAULT | NDL_PROXY | NDL_RULE.
(** The types [NDL_ADDR] and [NDL_NAME] of the source have no entry in the table. *)
Inductive cf_type := NDL_NONE | NDL_INT | NDL_BOOL | NDL_LLADDR.

(** [offset]: the variable or the field a value is stored in. *)
Inductive cf_field :=
  | CfNothing
  | CfInvalidTtl | CfValidTtl | CfRenew | CfRetransLimit | CfRetransTime | CfKeepalive
  | CfRouter | CfPromiscuous | CfProxyTarget
  | CfAutowire | CfTable | CfRuleTarget.

Inductive cf_cb := CbProxy | CbRule | CbRewrite | CbMode.

Record ndL_cfinfo := mk_cf {
  cf_key : string;
  cf_scope_of : cf_scope;
  cf_type_of : cf_type;
  cf_offset : cf_field;
  cf_min : Z;
  cf_max : Z;
  cf_callback : option cf_cb }.

Definition ndL_cfinfo_table : list ndL_cfinfo := [
  mk_cf "proxy" NDL_DEFAULT NDL_NONE CfNothing 0 0 (Some CbProxy);
  mk_cf "rule" NDL_PROXY NDL_NONE CfNothing 0 0 (Some CbRule);
  mk_cf "rewrite" NDL_RULE NDL_NONE CfNothing 0 0 (Some CbRewrite);
  mk_cf "invalid-ttl" NDL_DEFAULT NDL_INT CfInvalidTtl 1000 3600000 None;
  mk_cf "valid-ttl" NDL_DEFAULT NDL_INT CfValidTtl 10000 3600000 None;
  mk_cf "renew" NDL_DEFAULT NDL_INT CfRenew 0 0 None;
  mk_cf "retrans-limit" NDL_DEFAULT NDL_INT CfRetransLimit 0 10 None;
  mk_cf "retrans-time" NDL_DEFAULT NDL_INT CfRetransTime 0 60000 None;
  mk_cf "keepalive" NDL_DEFAULT NDL_BOOL CfKeepalive 0 0 None;
  mk_cf "router" NDL_PROXY NDL_BOOL CfRouter 0 0 None;
  mk_cf "promiscuous" NDL_PROXY NDL_BOOL CfPromiscuous 0 0 None;
  mk_cf "auto" NDL_RULE NDL_NONE CfNothing 0 0 (Some CbMode);
  mk_cf "static" NDL_RULE NDL_NONE CfNothing 0 0 (Some CbMode);
  mk_cf "autowire" NDL_RULE NDL_BOOL CfAutowire 0 0 None;
  mk_cf "iface" NDL_RULE NDL_NONE CfNothing 0 0 (Some CbMode);
  mk_cf "target" NDL_PROXY NDL_LLADDR CfProxyTarget 0 0 None;
  mk_cf "target" NDL_RULE NDL_LLADDR CfRuleTarget 0 0 None;
  mk_cf "table" NDL_RULE NDL_INT CfTable 0 255 None].

#[export] Instance cf_scope_eq_dec : EqDecision cf_scope.
Proof. solve_decision. Defined.

(** The [void *ptr] of a block. *)
Inductive cf_ptr := PtrNull | PtrProxy (l : loc) | PtrRule (l : loc).

Definition ptr_proxy (p : cf_ptr) : option loc := match p with PtrProxy l => Some l | _ => None end.
Definition ptr_rule (p : cf_ptr) : option loc := match p with PtrRule l => Some l | _ => None end.

(** Stores through [ptr + offset]; a pointer of the wrong kind is a fault. *)
Definition set_conf (f : nd_conf → nd_conf) : M unit := modify (λ w, w <| w_conf := f (w_conf w) |>).
Definition set_proxy (ptr : cf_ptr) (f : nd_proxy → nd_proxy) : M unit :=
  l ← deref (ptr_proxy ptr); update w_proxies l f.
Definition set_rule (ptr : cf_ptr) (f : nd_rule → nd_rule) : M unit :=
  l ← deref (ptr_rule ptr); update w_rules l f.

Definition store_int (ptr : cf_ptr) (field : cf_field) (v : Z) : M unit :=
  match field with
  | CfInvalidTtl => set_conf (λ c, c <| nd_conf_invalid_ttl := v |>)
  | CfValidTtl => set_conf (λ c, c <| nd_conf_valid_ttl := v |>)
  | CfRenew => set_conf (λ c, c <| nd_conf_renew := v |>)
  | CfRetransLimit => set_conf (λ c, c <| nd_conf_retrans_limit := v |>)
  | CfRetransTime => set_conf (λ c, c <| nd_conf_retrans_time := v |>)
  | CfTable => set_rule ptr (λ r, r <| r_table := v |>)
  | _ => deref None
  end.

Definition store_bool (ptr : cf_ptr) (field : cf_field) (v : bool) : M unit :=
  match field with
  | CfKeepalive => set_conf (λ c, c <| nd_conf_keepalive := v |>)
  | CfRouter => set_proxy ptr (λ p, p <| p_router := v |>)
  | CfPromiscuous => set_proxy ptr (λ p, p <| p_promiscuous := v |>)
  | CfAutowire => set_rule ptr (λ r, r <| r_autowire := v |>)
  | _ => deref None
  end.

Definition store_lladdr (ptr : cf_ptr) (field : cf_field) (v : nd_lladdr) : M unit :=
  match field with
  | CfProxyTarget => set_proxy ptr (λ p, p <| p_target := v |>)
  | CfRuleTarget => set_rule ptr (λ r, r <| r_target := v |>)
  | _ => deref None
  end.

(** ** Parsing *)

(** [false]; [true] with the new position; or the model ran out of fuel. *)
Inductive parsed := PFail | POk (st : ndL_state) | PFuel.

(** The [switch (t->type)] of [ndL_parse_block]. *)
Definition parse_value (t : ndL_cfinfo) (ptr : cf_ptr) (st : ndL_state) : M (option ndL_state) :=
  match cf_type_of t with
  | NDL_NONE => mret (Some st)
  | NDL_BOOL =>
      match ndL_accept_bool st with
      | None => mret None
      | Some (v, st) => store_bool ptr (cf_offset t) v;; mret (Some st)
      end
  | NDL_INT =>
      match ndL_accept_int st (cf_min t) (cf_max t) with
      | None => mret None
      | Some (v, st) => store_int ptr (cf_offset t) v;; mret (Some st)
      end
  | NDL_LLADDR =>
      match ndL_accept_lladdr st with
      | None => mret None
      | Some (v, st) => store_lladdr ptr (cf_offset t) v;; mret (Some st)
      end
  end.

Definition IF_NAMESIZE : nat := 16.

Section conf.
Context {BO : ByteOrder}.

(** An optional prefix length after an address. *)
Definition accept_prefix (st : ndL_state) : option (Z * ndL_state) :=
  let '(c, st) := ndL_accept st (bytes_of_string "/") in
  if negb (c =? 0) then ndL_accept_int st 0 128 else Some (128, st).

Definition ndL_parse_rewrite (st : ndL_state) (rule : loc) : M parsed :=
  match ndL_accept_addr st with
  | None => mret PFail
  | Some (addr, st) =>
      update w_rules rule (λ r, r <| r_rewrite_tgt := addr |>);;
      match accept_prefix st with
      | None => mret PFail
      | Some (pflen, st) =>
          update w_rules rule (λ r, r <| r_rewrite_pflen := pflen |>);;
          mret (POk st)
      end
  end.

Definition ndL_parse_mode (key : string) (st : ndL_state) (rule : loc) : M parsed :=
  r ← load w_rules rule;
  if negb (bool_decide (r_mode r = ND_MODE_UNKNOWN)) then mret PFail
  else if bool_decide (key = "auto") then
    update w_rules rule (λ r, r <| r_mode := ND_MODE_AUTO |>);; mret (POk st)
  else if bool_decide (key = "static") then
    update w_rules rule (λ r, r <| r_mode := ND_MODE_STATIC |>);; mret (POk st)
  else
    match ndL_accept_name st IF_NAMESIZE with
    | None => mret PFail
    | Some (buf, st) =>
        update w_rules rule (λ r, r <| r_ifname := cstring buf |>);;
        update w_rules rule (λ r, r <| r_mode := ND_MODE_IFACE |>);;
        mret (POk st)
    end.

(** The callbacks that open a block get the block parser as an argument. *)
Section blocks.
Context (parse_block : cf_scope → cf_ptr → ndL_state → M parsed).

Definition ndL_parse_rule (st : ndL_state) (proxy : loc) : M parsed :=
  rule ← nd_rule_create proxy;
  match ndL_accept_addr st with
  | None => mret PFail
  | Some (addr, st) =>
      update w_rules rule (λ r, r <| r_addr := addr |>);;
      match accept_prefix st with
      | None => mret PFail
      | Some (prefix, st) =>
          update w_rules rule (λ r, r <| r_prefix := prefix |>);;
          update w_rules rule (λ r, r <| r_table := 254 |>);;
          res ← parse_block NDL_RULE (PtrRule rule) st;
          match res with
          | POk st =>
              r ← load w_rules rule;
              if bool_decide (r_mode r = ND_MODE_UNKNOWN) then mret PFail
              else if r_autowire r && negb (bool_decide (r_mode r = ND_MODE_IFACE)) then mret PFail
              else mret (POk st)
          | res => mret res
          end
      end
  end.

Definition ndL_parse_proxy (st : ndL_state) : M parsed :=
  match ndL_accept_name st IF_NAMESIZE with
  | None => mret PFail
  | Some (ifname, st) =>
      proxy ← nd_proxy_create (cstring ifname);
      match proxy with
      | None => mret PFail
      | Some proxy => parse_block NDL_PROXY (PtrProxy proxy) st
      end
  end.

(** [t->cb(state, t, ptr)] *)
Definition run_cb (t : ndL_cfinfo) (ptr : cf_ptr) (st : ndL_state) (cb : cf_cb) : M parsed :=
  match cb with
  | CbProxy => ndL_parse_proxy st
  | CbRule => proxy ← deref (ptr_proxy ptr); ndL_parse_rule st proxy
  | CbRewrite => rule ← deref (ptr_rule ptr); ndL_parse_rewrite st rule
  | CbMode => rule ← deref (ptr_rule ptr); ndL_parse_mode (cf_key t) st rule
  end.
End blocks.

(** The head of [ndL_parse_block], up to its loop. *)
Definition enter_block (loop : cf_scope → cf_ptr → ndL_state → M parsed) (scope : cf_scope)
    (ptr : cf_ptr) (st : ndL_state) : M parsed :=
  let st := ndL_skip st in
  if bool_decide (scope = NDL_DEFAULT) then loop scope ptr st
  else
    let '(c, st) := ndL_accept st (bytes_of_string "{") in
    if c =? 0 then mret PFail else loop scope ptr st.

(** The entry of the table for a key: the first of that scope. *)
Definition find_cfinfo (scope : cf_scope) (key : string) : option ndL_cfinfo :=
  List.find (λ t, bool_decide (cf_scope_of t = scope) && bool_decide (key = cf_key t)) ndL_cfinfo_table.

(** What must follow a setting: the end, [}] or a newline. *)
Definition at_separator (st : ndL_state) : bool :=
  match st_rest st with
  | [] => true
  | c :: _ => (c =? chr "}") || (c =? NEWLINE)
  end.

(** The loop of [ndL_parse_block].  Every iteration that goes on consumes a byte. *)
Fixpoint block_loop (fuel : nat) (scope : cf_scope) (ptr : cf_ptr) (st : ndL_state) : M parsed :=
  match fuel with
  | O => mret PFuel
  | S fuel =>
      let '(c, st) := ndL_accept (ndL_skip st) (NEWLINE :: bytes_of_string "}") in
      if c =? chr "}" then mret (if bool_decide (scope = NDL_DEFAULT) then PFail else POk st)
      else if c =? NEWLINE then block_loop fuel scope ptr st
      else if ndL_eof st then mret (if bool_decide (scope = NDL_DEFAULT) then POk st else PFail)
      else
      match ndL_accept_name st 32 with
      | None => mret PFail
      | Some (key, st) =>
          match find_cfinfo scope (cstring key) with
          | None => mret PFail
          | Some t =>
              value ← parse_value t ptr (ndL_skip st);
              match value with
              | None => mret PFail
              | Some st =>
                  res ← match cf_callback t with
                        | None => mret (POk st)
                        | Some cb => run_cb (enter_block (block_loop fuel)) t ptr (ndL_skip st) cb
                        end;
                  match res with
                  | POk st =>
                      let st := ndL_skip st in
                      if at_separator st then block_loop fuel scope ptr st else mret PFail
                  | res => mret res
                  end
              end
          end
      end
  end.

Definition ndL_parse_block (fuel : nat) : cf_scope → cf_ptr → ndL_state → M parsed :=
  enter_block (block_loop fuel).

(** [nd_conf_load] on the bytes of the file; [None] when it cannot be opened or
    read.  An empty file cannot be read either: [fread] of nothing returns 0. *)
Definition nd_conf_load (file : option (list Z)) : M parsed :=
  match file with
  | None | Some [] => mret PFail
  | Some data => ndL_parse_block (S (length data)) NDL_DEFAULT PtrNull (mk_state data 1 0)
  end.
End conf.
