(* ===== verification/Alloc.v ===== *)
(** * The allocator (src/alloc.c)

    Objects of at most 128 bytes are carved from chunks that come from [malloc]
    and are never given back; freed objects go to one of 16 lists by size and are
    reused.  A pointer is a chunk and an offset in it.  The lists run through the
    freed objects themselves; they are lists of pointers here, which is sound as
    long as nobody writes to a freed object: the theorem below shows that the
    allocator never hands out an object that overlaps one in use. *)
From S2P Require Import Prelude.

Definition NDPPD_CHUNK_ALLOC_SIZE : Z := 16384.
Definition NDPPD_CHUNK_ALLOC_MAX : Z := Z.shiftl 1 20.
Definition NDPPD_MAX_ALLOC : Z := 128.
(** [(sizeof(ndL_chunk_t) + 7U) & ~7U] on a 64-bit host *)
Definition CHUNK_HEADER : Z := 24.

Definition ptr : Type := nat * Z.

(** [struct ndL_chunk]; [malloc] gives it the address [ch_addr]. *)
Record ndL_chunk := mk_chunk { ch_addr : nat; ch_size : Z; ch_free : Z }.

Record alloc_state := mk_alloc {
  ndL_chunks : list ndL_chunk;
  ndL_alloc_size : Z;
  ndL_free_objects : list (list ptr) }.

Definition alloc_init : alloc_state := mk_alloc [] NDPPD_CHUNK_ALLOC_SIZE (replicate 16 []).

(** [ndL_fatal] and a failing [malloc] end the process. *)
Inductive alloc_result (A : Type) := AOk (a : A) (st : alloc_state) | AFatal.
Arguments AOk {A} a st.
Arguments AFatal {A}.

(** [(size + 7U) & ~7U] *)
Definition round8 (size : Z) : Z := Z.land (size + 7) 0xfffffff8.

Definition alloc_bucket (size : Z) : nat := Z.to_nat (Z.shiftr size 3 - 1).

Definition nd_free (p : ptr) (size : Z) (st : alloc_state) : alloc_result unit :=
  if (size =? 0) || (NDPPD_MAX_ALLOC <? size) then AFatal else
  let bucket := alloc_bucket (round8 size) in
  AOk () (mk_alloc (ndL_chunks st) (ndL_alloc_size st) (alter (cons p) bucket (ndL_free_objects st))).

(** [(void * )chunk + chunk->size - chunk->free], and [chunk->free -= size] *)
Definition chunk_ptr (c : ndL_chunk) : ptr := (ch_addr c, ch_size c - ch_free c).
Definition chunk_take (size : Z) (c : ndL_chunk) : ndL_chunk :=
  mk_chunk (ch_addr c) (ch_size c) (ch_free c - size).

(** The search for a chunk with enough space. *)
Fixpoint alloc_in_chunks (size : Z) (chunks : list ndL_chunk) : option (ptr * list ndL_chunk) :=
  match chunks with
  | [] => None
  | c :: rest =>
      if size <=? ch_free c then Some (chunk_ptr c, chunk_take size c :: rest)
      else '(p, rest) ← alloc_in_chunks size rest; Some (p, c :: rest)
  end.

(** The size of the next chunk. *)
Definition grow_alloc_size (size : Z) : Z :=
  let size := if size <? NDPPD_CHUNK_ALLOC_MAX then size * 2 else size in
  if NDPPD_CHUNK_ALLOC_MAX <? size then NDPPD_CHUNK_ALLOC_MAX else size.

(** A new chunk; [malloc] succeeds or not. *)
Definition alloc_new_chunk (malloc : bool) (size : Z) (st : alloc_state) : alloc_result ptr :=
  if negb malloc then AFatal else
  let c := mk_chunk (length (ndL_chunks st)) (ndL_alloc_size st) (ndL_alloc_size st - CHUNK_HEADER) in
  AOk (chunk_ptr c) (mk_alloc (chunk_take size c :: ndL_chunks st) (grow_alloc_size (ndL_alloc_size st))
                       (ndL_free_objects st)).

Definition nd_alloc (malloc : bool) (size : Z) (st : alloc_state) : alloc_result ptr :=
  if (size =? 0) || (NDPPD_MAX_ALLOC <? size) then AFatal else
  let size := round8 size in
  let bucket := alloc_bucket size in
  match ndL_free_objects st !!! bucket with
  | obj :: rest =>
      AOk obj (mk_alloc (ndL_chunks st) (ndL_alloc_size st) (<[bucket := rest]> (ndL_free_objects st)))
  | [] =>
      match alloc_in_chunks size (ndL_chunks st) with
      | Some (p, chunks) => AOk p (mk_alloc chunks (ndL_alloc_size st) (ndL_free_objects st))
      | None => alloc_new_chunk malloc size st
      end
  end.

(** [nd_strdup] of a string of [len] characters *)
Definition nd_strdup (malloc : bool) (len : Z) (st : alloc_state) : alloc_result ptr :=
  nd_alloc malloc (len + 1) st.

(** [nd_alloc_cleanup]: [free] of every chunk; [owned] are the addresses [malloc] has
    given out, and freeing anything else is [None]. *)
Fixpoint free_chunks (chunks : list ndL_chunk) (owned : gset nat) : option (gset nat) :=
  match chunks with
  | [] => Some owned
  | c :: rest => if decide (ch_addr c ∈ owned) then free_chunks rest (owned ∖ {[ch_addr c]}) else None
  end.

Definition nd_alloc_cleanup (st : alloc_state) (owned : gset nat) : option (gset nat) :=
  free_chunks (ndL_chunks st) owned.

(** ** Blocks *)

(** An object with its (rounded) size. *)
Definition block : Type := ptr * Z.

Definition disjoint (a b : block) : Prop :=
  a.1.1 ≠ b.1.1 ∨ a.1.2 + a.2 ≤ b.1.2 ∨ b.1.2 + b.2 ≤ a.1.2.

Fixpoint pairwise (bs : list block) : Prop :=
  match bs with
  | [] => True
  | b :: bs => Forall (disjoint b) bs ∧ pairwise bs
  end.

(** A block lies in the used part of a chunk, after its header, aligned to 8. *)
Definition in_chunk (chunks : list ndL_chunk) (b : block) : Prop :=
  ∃ c, c ∈ chunks ∧ ch_addr c = b.1.1 ∧ CHUNK_HEADER ≤ b.1.2 ∧ 8 ≤ b.2 ∧
    b.1.2 + b.2 ≤ ch_size c - ch_free c ∧ (8 | b.1.2) ∧ (8 | b.2).

(** The free objects: those of list [i] have [8 * (i + 1)] bytes. *)
Fixpoint free_blocks (i : Z) (frees : list (list ptr)) : list block :=
  match frees with
  | [] => []
  | ps :: frees => map (λ p, (p, 8 * (i + 1))) ps ++ free_blocks (i + 1) frees
  end.

Record alloc_inv (live : list block) (st : alloc_state) : Prop := {
  ai_addrs : ∀ c, c ∈ ndL_chunks st → (ch_addr c < length (ndL_chunks st))%nat;
  ai_unique : NoDup (map ch_addr (ndL_chunks st));
  ai_chunk c : c ∈ ndL_chunks st → CHUNK_HEADER ≤ ch_size c - ch_free c ∧ 0 ≤ ch_free c ∧
    (8 | ch_size c - ch_free c) ∧ ch_size c ≤ NDPPD_CHUNK_ALLOC_MAX;
  ai_size : NDPPD_CHUNK_ALLOC_SIZE ≤ ndL_alloc_size st ≤ NDPPD_CHUNK_ALLOC_MAX;
  ai_buckets : length (ndL_free_objects st) = 16%nat;
  ai_blocks : Forall (in_chunk (ndL_chunks st)) (live ++ free_blocks 0 (ndL_free_objects st));
  ai_disjoint : pairwise (live ++ free_blocks 0 (ndL_free_objects st)) }.

(** What a program can reach that frees only what it has, with its size. *)
Inductive heap_reachable : alloc_state → list block → Prop :=
  | heap_start : heap_reachable alloc_init []
  | heap_alloc st live malloc size p st' :
      heap_reachable st live → 0 ≤ size → nd_alloc malloc size st = AOk p st' →
      heap_reachable st' ((p, round8 size) :: live)
  | heap_free st live1 live2 p size st' :
      heap_reachable st (live1 ++ (p, round8 size) :: live2) → 0 ≤ size → nd_free p size st = AOk () st' →
      heap_reachable st' (live1 ++ live2).

(** ** Lemmas *)

Lemma round8_spec size :
  0 < size ≤ 128 → round8 size = 8 * Z.of_nat (S (alloc_bucket (round8 size))) ∧
    (alloc_bucket (round8 size) < 16)%nat ∧ size ≤ round8 size.
Proof.
  intros Hs. revert size Hs.
  assert (∀ size, 0 ≤ size < 129 → 0 < size → round8 size = 8 * Z.of_nat (S (alloc_bucket (round8 size))) ∧
    (alloc_bucket (round8 size) < 16)%nat ∧ size ≤ round8 size) as H; [|intros; apply H; lia].
  by_range 129.
Qed.

Lemma disjoint_sym a b : disjoint a b → disjoint b a.
Proof. unfold disjoint. naive_solver. Qed.

Lemma pairwise_perm l k : l ≡ₚ k → pairwise l → pairwise k.
Proof.
  induction 1 as [|x l k Hp IH|x y l|l k m H1 IH1 H2 IH2]; cbn.
  - done.
  - intros [Hx Hl]. split; [by rewrite <- Hp|by apply IH].
  - intros [Hy [Hx Hl]]. apply Forall_cons_1 in Hy as [Hyx Hy]. split_and!; [|done|done].
    apply List.Forall_cons; [by apply disjoint_sym|done].
  - auto.
Qed.

Lemma free_blocks_cons frees : ∀ i k ps p,
  frees !! k = Some ps →
  free_blocks i (<[k := p :: ps]> frees) ≡ₚ (p, 8 * (i + Z.of_nat k + 1)) :: free_blocks i frees.
Proof.
  induction frees as [|qs frees IH]; intros i [|k] ps p Hk; try done; cbn in *.
  - simplify_eq. by rewrite Z.add_0_r.
  - rewrite (IH (i + 1) k ps p Hk). rewrite <- Permutation_middle.
    replace (i + 1 + Z.of_nat k + 1) with (i + Z.of_nat (S k) + 1) by lia. done.
Qed.

Lemma alloc_in_chunks_Some size chunks p chunks' :
  alloc_in_chunks size chunks = Some (p, chunks') →
  ∃ l1 c l2, chunks = l1 ++ c :: l2 ∧ chunks' = l1 ++ chunk_take size c :: l2 ∧ p = chunk_ptr c ∧
    size ≤ ch_free c.
Proof.
  revert p chunks'. induction chunks as [|c rest IH]; intros p chunks'; cbn; [done|].
  destruct (Z.leb_spec size (ch_free c)).
  - intros [= <- <-]. by exists [], c, rest.
  - destruct (alloc_in_chunks size rest) as [[q rest']|]; cbn; [|done]. intros [= <- <-].
    destruct (IH q rest' eq_refl) as (l1 & c' & l2 & -> & -> & -> & ?). by exists (c :: l1), c', l2.
Qed.

Lemma alloc_inv_perm live live' st : live ≡ₚ live' → alloc_inv live st → alloc_inv live' st.
Proof.
  intros Hp [? ? ? ? ? Hb Hd]. constructor; [done..| |].
  - by rewrite <- Hp.
  - eapply pairwise_perm; [|exact Hd]. by rewrite Hp.
Qed.

(** An object moves from its list to the program. *)
Lemma alloc_inv_reuse live st k p ps :
  alloc_inv live st → ndL_free_objects st !! k = Some (p :: ps) →
  alloc_inv ((p, 8 * (Z.of_nat k + 1)) :: live)
    (mk_alloc (ndL_chunks st) (ndL_alloc_size st) (<[k := ps]> (ndL_free_objects st))).
Proof.
  intros [? ? ? ? Hlen Hb Hd] Hk.
  assert (live ++ free_blocks 0 (ndL_free_objects st) ≡ₚ
    ((p, 8 * (Z.of_nat k + 1)) :: live) ++ free_blocks 0 (<[k := ps]> (ndL_free_objects st))) as Hperm.
  { rewrite <- (list_insert_id (ndL_free_objects st) k (p :: ps) Hk) at 1.
    rewrite <- (list_insert_insert_eq _ k (p :: ps) ps).
    rewrite free_blocks_cons by (apply list_lookup_insert_eq; by eapply lookup_lt_Some).
    rewrite Z.add_0_l. by rewrite <- Permutation_middle. }
  constructor; cbn [ndL_chunks ndL_alloc_size ndL_free_objects]; [done..| | |].
  - by rewrite length_insert.
  - by rewrite <- Hperm.
  - by eapply pairwise_perm.
Qed.

(** An object moves from the program to its list. *)
Lemma alloc_inv_free live st k p ps :
  alloc_inv ((p, 8 * (Z.of_nat k + 1)) :: live) st → ndL_free_objects st !! k = Some ps →
  alloc_inv live
    (mk_alloc (ndL_chunks st) (ndL_alloc_size st) (<[k := p :: ps]> (ndL_free_objects st))).
Proof.
  intros [? ? ? ? Hlen Hb Hd] Hk.
  assert (((p, 8 * (Z.of_nat k + 1)) :: live) ++ free_blocks 0 (ndL_free_objects st) ≡ₚ
    live ++ free_blocks 0 (<[k := p :: ps]> (ndL_free_objects st))) as Hperm.
  { rewrite (free_blocks_cons _ 0 k ps p Hk), Z.add_0_l. by rewrite <- Permutation_middle. }
  constructor; cbn [ndL_chunks ndL_alloc_size ndL_free_objects]; [done..| | |].
  - by rewrite length_insert.
  - by rewrite <- Hperm.
  - by eapply pairwise_perm.
Qed.

(** A chunk is added; [malloc] gives it a fresh address. *)
Lemma alloc_inv_chunk live st :
  alloc_inv live st →
  alloc_inv live (mk_alloc
    (mk_chunk (length (ndL_chunks st)) (ndL_alloc_size st) (ndL_alloc_size st - CHUNK_HEADER) :: ndL_chunks st)
    (grow_alloc_size (ndL_alloc_size st)) (ndL_free_objects st)).
Proof.
  intros [Ha Hu Hc Hs Hl Hb Hd]. unfold NDPPD_CHUNK_ALLOC_SIZE in Hs.
  change NDPPD_CHUNK_ALLOC_MAX with 1048576 in Hs.
  constructor; cbn [ndL_chunks ndL_alloc_size ndL_free_objects map]; [| | | |done| |done].
  - intros c [-> |Hin]%elem_of_cons; cbn; [lia|]. specialize (Ha c Hin). lia.
  - apply list.NoDup_cons. split; [|done]. intros Hin%list_elem_of_fmap. destruct Hin as (c & E & Hin).
    cbn in E. specialize (Ha c Hin). lia.
  - intros c [-> |Hin]%elem_of_cons; [|by apply Hc]. unfold CHUNK_HEADER. cbn.
    change NDPPD_CHUNK_ALLOC_MAX with 1048576. split_and!; try lia.
    replace (ndL_alloc_size st - (ndL_alloc_size st - 24)) with (8 * 3) by lia. apply Z.divide_factor_l.
  - unfold grow_alloc_size, NDPPD_CHUNK_ALLOC_SIZE. change NDPPD_CHUNK_ALLOC_MAX with 1048576.
    destruct (Z.ltb_spec (ndL_alloc_size st) 1048576);
      destruct (Z.ltb_spec 1048576 (ndL_alloc_size st * 2)), (Z.ltb_spec 1048576 (ndL_alloc_size st)); lia.
  - eapply list.Forall_impl; [exact Hb|]. intros b (c & Hin & H). exists c. split; [by right|done].
Qed.

(** Space is carved off a chunk. *)
Lemma alloc_inv_carve live chunks size alloc_size frees l1 c l2 :
  alloc_inv live (mk_alloc chunks alloc_size frees) → chunks = l1 ++ c :: l2 → size ≤ ch_free c →
  8 ≤ size → (8 | size) →
  alloc_inv ((chunk_ptr c, size) :: live) (mk_alloc (l1 ++ chunk_take size c :: l2) alloc_size frees).
Proof.
  intros [Ha Hu Hc Hs Hl Hb Hd] -> Hsz Hs8 Hdiv. cbn [ndL_chunks ndL_alloc_size ndL_free_objects] in *.
  assert (c ∈ l1 ++ c :: l2) as Hin by (apply elem_of_app; right; left).
  destruct (Hc c Hin) as (Hc1 & Hc2 & Hc3 & Hc4).
  assert (map ch_addr (l1 ++ chunk_take size c :: l2) = map ch_addr (l1 ++ c :: l2)) as Hmap
    by by rewrite !map_app.
  assert (∀ x, x ∈ l1 ++ chunk_take size c :: l2 → x = chunk_take size c ∨ x ∈ l1 ++ c :: l2) as Hback
    by (intros x; rewrite !elem_of_app, !elem_of_cons; naive_solver).
  assert (∀ b, in_chunk (l1 ++ c :: l2) b → in_chunk (l1 ++ chunk_take size c :: l2) b) as Hmono.
  { intros b (c' & Hin' & E & ? & ? & ? & ?). rewrite elem_of_app, elem_of_cons in Hin'.
    destruct Hin' as [?|[-> |?]].
    - exists c'. split; [rewrite elem_of_app; by left|done].
    - exists (chunk_take size c). split; [rewrite elem_of_app; right; left|]. cbn. split_and!; [done..|lia|tauto|tauto].
    - exists c'. split; [rewrite elem_of_app; right; by right|done]. }
  constructor; cbn [ndL_chunks ndL_alloc_size ndL_free_objects]; [| | |done|done| |].
  - intros x Hx. rewrite length_app. cbn [length]. rewrite length_app in Ha. cbn [length] in Ha.
    destruct (Hback x Hx) as [-> |Hx']; [apply (Ha c Hin)|by apply Ha].
  - by rewrite Hmap.
  - intros x Hx. destruct (Hback x Hx) as [-> |Hx']; [|by apply Hc]. cbn.
    split_and!; [lia|lia| |done]. replace (ch_size c - (ch_free c - size)) with (ch_size c - ch_free c + size) by lia.
    by apply Z.divide_add_r.
  - cbn [app]. apply List.Forall_cons.
    + exists (chunk_take size c). split; [rewrite elem_of_app; right; left|]. cbn. split_and!; [done|done|done|lia|done|done].
    + eapply list.Forall_impl; [exact Hb|]. done.
  - cbn [app pairwise]. split; [|done]. eapply list.Forall_impl; [exact Hb|].
    intros b (c' & Hin' & E & ? & ? & ? & _). unfold disjoint. cbn.
    destruct (decide (ch_addr c = b.1.1)) as [E'|]; [|by left]. right. right.
    assert (c' = c) as ->; [|lia].
    apply list_elem_of_lookup in Hin as [i Hi], Hin' as [j Hj].
    assert (i = j) as ->; [|congruence].
    eapply (NoDup_lookup (map ch_addr (l1 ++ c :: l2))); [done|..]; rewrite (list_lookup_fmap ch_addr);
      [by rewrite Hi|rewrite Hj; cbn; congruence].
Qed.

Lemma alloc_inv_init : alloc_inv [] alloc_init.
Proof.
  constructor; cbn; try done; try (intros c; by rewrite elem_of_nil); constructor.
Qed.

(** [nd_alloc] keeps the invariant, whatever the path. *)
Lemma nd_alloc_inv live malloc size p st st' :
  alloc_inv live st → 0 ≤ size → nd_alloc malloc size st = AOk p st' →
  alloc_inv ((p, round8 size) :: live) st' ∧ 0 < size ≤ 128.
Proof.
  intros Hinv Hs. unfold nd_alloc, NDPPD_MAX_ALLOC.
  destruct (Z.eqb_spec size 0) as [|Hne]; [done|]. cbn [orb]. destruct (Z.ltb_spec 128 size); [done|].
  destruct (round8_spec size) as (Hr & Hk & Hle); [lia|]. intros Halloc. split; [|lia].
  set (k := alloc_bucket (round8 size)) in *.
  assert (round8 size = 8 * (Z.of_nat k + 1)) as Hr' by lia.
  assert (8 ≤ round8 size ∧ (8 | round8 size)) as [H8 Hdiv].
  { split; [lia|]. rewrite Hr'. apply Z.divide_factor_l. }
  destruct (lookup_lt_is_Some_2 (ndL_free_objects st) k) as [ps Hps]; [by rewrite (ai_buckets _ _ Hinv)|].
  rewrite (list_lookup_total_correct _ _ _ Hps) in Halloc. destruct ps as [|q ps].
  - destruct (alloc_in_chunks _ _) as [[q chunks]|] eqn:Hic.
    + injection Halloc as <- <-. apply alloc_in_chunks_Some in Hic as (l1 & c & l2 & E & -> & -> & ?).
      apply (alloc_inv_carve _ (ndL_chunks st)); [by destruct st|exact E|done|done|done].
    + unfold alloc_new_chunk in Halloc. destruct malloc; [|done]. cbn [negb] in Halloc. injection Halloc as <- <-.
      eapply (alloc_inv_carve _ _ _ _ _ [] _ (ndL_chunks st)); [by apply alloc_inv_chunk|done| |done|done].
      cbn. pose proof (ai_size _ _ Hinv). unfold NDPPD_CHUNK_ALLOC_SIZE, CHUNK_HEADER in *.
      assert (Z.of_nat k < 16) by lia. lia.
  - injection Halloc as <- <-. rewrite Hr'. by apply alloc_inv_reuse.
Qed.

Lemma nd_free_inv live st p size st' :
  alloc_inv ((p, round8 size) :: live) st → 0 ≤ size → nd_free p size st = AOk () st' → alloc_inv live st'.
Proof.
  intros Hinv Hs. unfold nd_free, NDPPD_MAX_ALLOC.
  destruct (Z.eqb_spec size 0) as [|Hne]; [done|]. cbn [orb]. destruct (Z.ltb_spec 128 size); [done|].
  destruct (round8_spec size) as (Hr & Hk & Hle); [lia|]. intros [= <-].
  set (k := alloc_bucket (round8 size)) in *.
  destruct (lookup_lt_is_Some_2 (ndL_free_objects st) k) as [ps Hps]; [by rewrite (ai_buckets _ _ Hinv)|].
  assert (alter (cons p) k (ndL_free_objects st) = <[k := p :: ps]> (ndL_free_objects st)) as ->.
  { apply list_eq. intros i. destruct (decide (i = k)) as [-> |Hik].
    - rewrite list_lookup_alter_eq, Hps, list_lookup_insert_eq; [done|by eapply lookup_lt_Some].
    - by rewrite list_lookup_alter_ne, list_lookup_insert_ne. }
  apply alloc_inv_free; [|done]. replace (8 * (Z.of_nat k + 1)) with (round8 size) by lia. done.
Qed.

Lemma heap_reachable_inv st live : heap_reachable st live → alloc_inv live st.
Proof.
  induction 1 as [|st live malloc size p st' _ IH Hs Ha|st live1 live2 p size st' _ IH Hs Hf].
  - apply alloc_inv_init.
  - by destruct (nd_alloc_inv _ _ _ _ _ _ IH Hs Ha).
  - eapply (nd_free_inv (live1 ++ live2)); [|exact Hs|exact Hf].
    eapply alloc_inv_perm; [|exact IH]. by rewrite <- Permutation_middle.
Qed.

(** C37: The allocator never hands out memory that is in use.  For a program that frees
    only objects it has, with their size, in every reachable state: the live
    objects do not overlap, each lies behind the header of a chunk at an offset
    that is a multiple of 8, no chunk is larger than 1 MiB; and a request of 1 to 128
    bytes is served as long as [malloc] is, with an object that overlaps no
    live one. *)
Theorem allocator_safe st live :
  heap_reachable st live →
  pairwise live ∧ Forall (in_chunk (ndL_chunks st)) live ∧
  (∀ c, c ∈ ndL_chunks st → ch_size c ≤ 1048576) ∧
  ∀ size, 0 < size ≤ 128 →
    ∃ p st', nd_alloc true size st = AOk p st' ∧ size ≤ round8 size ∧ (8 | p.2) ∧
      Forall (disjoint (p, round8 size)) live.
Proof.
  intros Hreach. pose proof (heap_reachable_inv _ _ Hreach) as Hinv.
  assert (∀ live st, alloc_inv live st → pairwise live ∧ Forall (in_chunk (ndL_chunks st)) live) as Hlive.
  { clear. intros live st [_ _ _ _ _ Hb Hd]. apply Forall_app in Hb as [? _]. split; [|done].
    revert Hd. clear. induction live as [|b live IH]; cbn; [done|]. rewrite Forall_app. intros [[? _] ?]. auto. }
  destruct (Hlive _ _ Hinv) as [Hpw Hin]. split_and!; [done|done| |].
  { intros c Hc. by destruct (ai_chunk _ _ Hinv c Hc) as (_ & _ & _ & ?). }
  intros size Hs. destruct (nd_alloc true size st) as [p st'|] eqn:Ha.
  - assert (0 ≤ size) as Hs0 by lia. destruct (nd_alloc_inv _ _ _ _ _ _ Hinv Hs0 Ha) as [Hinv' _].
    destruct (Hlive _ _ Hinv') as [[Hd _] Hin']. exists p, st'. split_and!; [done|by apply round8_spec| |done].
    apply Forall_cons_1 in Hin' as [(c & _ & _ & _ & _ & _ & ? & _) _]. done.
  - exfalso. revert Ha. unfold nd_alloc, NDPPD_MAX_ALLOC.
    destruct (Z.eqb_spec size 0); [lia|]. destruct (Z.ltb_spec 128 size); [lia|]. cbn [orb].
    destruct (_ !!! _); [|done]. by destruct (alloc_in_chunks _ _) as [[? ?]|].
Qed.

(** At exit every chunk is given back to [malloc], once, and nothing else is. *)
Theorem alloc_cleanup_complete st live owned :
  heap_reachable st live → list_to_set (map ch_addr (ndL_chunks st)) ⊆ owned →
  nd_alloc_cleanup st owned = Some (owned ∖ list_to_set (map ch_addr (ndL_chunks st))).
Proof.
  intros Hreach. pose proof (ai_unique _ _ (heap_reachable_inv _ _ Hreach)) as Hnd. unfold nd_alloc_cleanup.
  revert owned Hnd. clear. induction (ndL_chunks st) as [|c rest IH]; intros owned Hnd Hsub; cbn [map list_to_set free_chunks].
  - by rewrite difference_empty_L.
  - cbn [map] in Hnd. apply list.NoDup_cons in Hnd as [Hc Hnd]. cbn [map list_to_set] in Hsub.
    rewrite decide_True by set_solver. rewrite IH; [|done|].
    + by rewrite difference_difference_l_L.
    + intros x Hx. apply elem_of_difference. split; [set_solver|]. rewrite elem_of_singleton. intros ->.
      by rewrite elem_of_list_to_set in Hx.
Qed.

(** Two objects of 120 and 22 bytes, the first one freed. *)
Definition heap_after {A} (st : alloc_state) (r : alloc_result A) : alloc_state :=
  match r with AOk _ st' => st' | AFatal => st end.
Definition heap_demo1 : alloc_state := heap_after alloc_init (nd_alloc true 120 alloc_init).
Definition heap_demo2 : alloc_state := heap_after heap_demo1 (nd_alloc true 22 heap_demo1).
Definition heap_demo : alloc_state := heap_after heap_demo2 (nd_free (0%nat, 24) 120 heap_demo2).

Lemma heap_demo_reachable : heap_reachable heap_demo [((0%nat, 144), 24)].
Proof.
  apply (heap_free heap_demo2 [((0%nat, 144), 24)] [] (0%nat, 24) 120); [|done|reflexivity].
  apply (heap_alloc heap_demo1 [((0%nat, 24), 120)] true 22); [|done|reflexivity].
  apply (heap_alloc alloc_init [] true 120); [apply heap_start|done|reflexivity].
Qed.

Lemma allocator_safe_witness :
  pairwise [((0%nat, 144), 24)] ∧ Forall (in_chunk (ndL_chunks heap_demo)) [((0%nat, 144), 24)] ∧
  (∀ c, c ∈ ndL_chunks heap_demo → ch_size c ≤ 1048576) ∧
  ∀ size, 0 < size ≤ 128 →
    ∃ p st', nd_alloc true size heap_demo = AOk p st' ∧ size ≤ round8 size ∧ (8 | p.2) ∧
      Forall (disjoint (p, round8 size)) [((0%nat, 144), 24)].
Proof. apply (allocator_safe heap_demo [((0%nat, 144), 24)]). exact heap_demo_reachable. Defined.
