(* ===== verification/Io.v ===== *)
(** * The event loop (src/io.c)

    The list of [nd_io_t] objects, the descriptors the process has open, and the
    two back ends that wait for input: epoll, and poll when the system has no
    epoll.  The list is the pointer structure of [LinkedList]; an operation that
    would dereference a freed [nd_io_t] or write outside [ndL_pollfds] crashes.

    What the system calls answer is an argument of each operation. *)
From S2P Require Import Prelude World Monad LinkedList.

(** ** Data *)

(** [NDPPD_NO_USE_EPOLL] *)
Inductive backend := Epoll | Poll.

(** The functions that are stored in [nd_io_t.handler]: [ndL_io_handler] of
    iface.c and of rt.c. *)
Inductive io_handler := PktHandler | RtHandler.

(** [struct nd_io] without [next] *)
Record nd_io := mk_io {
  io_fd : Z;
  io_data : Z;
  io_run : option io_handler }.

(** [struct pollfd]; [events] is always [POLLIN] *)
Record pollfd := mk_pollfd { pf_fd : Z; pf_revents : Z }.

Definition pollfd_0 : pollfd := mk_pollfd 0 0.
Definition NDPPD_STATIC_POLLFDS_SIZE : Z := 8.

(** The static variables of io.c, and what the kernel keeps for them: the open
    descriptors and the interest list of the epoll instance, from a descriptor
    to its [data.ptr]. *)
Record io_state := mk_ios {
  io_heap : gmap loc (node nd_io);
  ndL_first_io : option loc;
  k_open : gset Z;
  ndL_epoll_fd : Z;
  k_epoll : gmap Z loc;
  ndL_pollfds : list pollfd;
  ndL_pollfds_count : Z;
  ndL_dirty : bool }.

#[export] Instance eta_ios : Eta io_state := λ r,
  mk_ios (io_heap r) (ndL_first_io r) (k_open r) (ndL_epoll_fd r) (k_epoll r)
    (ndL_pollfds r) (ndL_pollfds_count r) (ndL_dirty r).
#[export] Instance set_io_heap : Setter io_heap := ltac:(derive_setter).
#[export] Instance set_first_io : Setter ndL_first_io := ltac:(derive_setter).
#[export] Instance set_k_open : Setter k_open := ltac:(derive_setter).
#[export] Instance set_epoll_fd : Setter ndL_epoll_fd := ltac:(derive_setter).
#[export] Instance set_k_epoll : Setter k_epoll := ltac:(derive_setter).
#[export] Instance set_pollfds : Setter ndL_pollfds := ltac:(derive_setter).
#[export] Instance set_pollfds_count : Setter ndL_pollfds_count := ltac:(derive_setter).
#[export] Instance set_dirty : Setter ndL_dirty := ltac:(derive_setter).

(** The state of a process that starts with the descriptors [open]. *)
Definition io_start (open : gset Z) : io_state :=
  mk_ios ∅ None open 0 ∅ (replicate (Z.to_nat NDPPD_STATIC_POLLFDS_SIZE) pollfd_0) 0 false.

(** Enough fuel for a walk over the list: it has at most one node per object. *)
Definition io_fuel (s : io_state) : nat := S (size (io_heap s)).

(** ** Descriptors *)

(** POSIX: a new descriptor is the lowest that is not open. *)
Fixpoint lowest_from (n : nat) (fd : Z) (open : gset Z) : Z :=
  match n with
  | O => fd
  | S n => if decide (fd ∈ open) then lowest_from n (fd + 1) open else fd
  end.

Definition lowest_free (open : gset Z) : Z := lowest_from (size open) 0 open.

(** A system call that opens a descriptor. *)
Definition new_fd (s : io_state) : Z * io_state :=
  let fd := lowest_free (k_open s) in
  (fd, s <| k_open := {[fd]} ∪ k_open s |>).

(** [close(fd)], which also takes [fd] off the interest list. *)
Definition close_fd (fd : Z) (s : io_state) : io_state :=
  s <| k_open := k_open s ∖ {[fd]} |> <| k_epoll := delete fd (k_epoll s) |>.

(** [ND_DELETE(io)] *)
Definition free_io (io : loc) (s : io_state) : res io_state :=
  _ ← get (io_heap s) io;
  mret (s <| io_heap := delete io (io_heap s) |>).

(** [ND_LL_DELETE(ndL_first_io, io, next)] *)
Definition unlink_io (io : loc) (s : io_state) : res io_state :=
  '(h, first) ← nd_ll_delete (io_fuel s) (io_heap s) (ndL_first_io s) io;
  mret (s <| io_heap := h |> <| ndL_first_io := first |>).

Section io.
Context (be : backend).

(** ** Creation *)

(** Whether the calls [fcntl(F_GETFL)], [fcntl(F_SETFL)], [epoll_create] and
    [epoll_ctl(EPOLL_CTL_ADD)] succeed. *)
Record create_answers := mk_answers {
  a_getfl : bool;
  a_setfl : bool;
  a_epoll_create : bool;
  a_epoll_ctl : bool }.

(** The label [fail] of [ndL_create]. *)
Definition create_fail (io : loc) (s : io_state) : res (option loc * io_state) :=
  s ← unlink_io io s;
  n ← get (io_heap s) io;
  s ← free_io io (close_fd (io_fd (n_val n)) s);
  mret (None, s).

(** [ndL_epoll_fd <= 0 && (ndL_epoll_fd = epoll_create(1)) < 0]: whether there is
    an epoll instance. *)
Definition epoll_instance (a : create_answers) (s : io_state) : bool * io_state :=
  if ndL_epoll_fd s <=? 0 then
    if a_epoll_create a
    then let '(efd, s) := new_fd s in (true, s <| ndL_epoll_fd := efd |> <| k_epoll := ∅ |>)
    else (false, s <| ndL_epoll_fd := -1 |>)
  else (true, s).

Definition register_io (a : create_answers) (io : loc) (s : io_state) : res (option loc * io_state) :=
  let '(created, s) := epoll_instance a s in
  if negb created then create_fail io s else
  n ← get (io_heap s) io;
  if negb (a_epoll_ctl a) then create_fail io s else
  mret (Some io, s <| k_epoll := <[io_fd (n_val n) := io]> (k_epoll s) |>).

Definition ndL_create (a : create_answers) (fd : Z) (s : io_state) : res (option loc * io_state) :=
  if negb (a_getfl a) then mret (None, close_fd fd s) else
  if negb (a_setfl a) then mret (None, close_fd fd s) else
  let io := fresh (dom (io_heap s)) in
  let s := s <| io_heap := <[io := mk_node (mk_io fd 0 None) None]> (io_heap s) |> in
  '(h, first) ← nd_ll_prepend (io_heap s) (ndL_first_io s) io;
  let s := s <| io_heap := h |> <| ndL_first_io := first |> in
  match be with
  | Poll => mret (Some io, s <| ndL_dirty := true |>)
  | Epoll => register_io a io s
  end.

(** [ok] is whether [socket] and [open] succeed. *)
Definition nd_io_socket (ok : bool) (a : create_answers) (s : io_state) : res (option loc * io_state) :=
  if negb ok then mret (None, s) else
  let '(fd, s) := new_fd s in ndL_create a fd s.

Definition nd_io_open (ok : bool) (a : create_answers) (s : io_state) : res (option loc * io_state) :=
  if negb ok then mret (None, s) else
  let '(fd, s) := new_fd s in ndL_create a fd s.

(** [io->handler = handler], as iface.c and rt.c do after the creation. *)
Definition set_handler (io : loc) (handler : io_handler) (s : io_state) : res io_state :=
  n ← get (io_heap s) io;
  mret (s <| io_heap :=
    <[io := mk_node (mk_io (io_fd (n_val n)) (io_data (n_val n)) (Some handler)) (n_next n)]> (io_heap s) |>).

(** ** Destruction *)

Definition nd_io_close (io : option loc) (s : io_state) : res io_state :=
  match io with
  | None => mret s
  | Some io =>
      n ← get (io_heap s) io;
      let s := close_fd (io_fd (n_val n)) s in
      let s := match be with Poll => s <| ndL_dirty := true |> | Epoll => s end in
      s ← unlink_io io s;
      free_io io s
  end.

Definition nd_io_cleanup (s : io_state) : res io_state :=
  s ← nd_ll_foreach_s io_heap (λ io, nd_io_close (Some io)) (io_fuel s) (ndL_first_io s) s;
  match be with
  | Poll => mret s
  | Epoll =>
      if 0 <? ndL_epoll_fd s
      then mret ((close_fd (ndL_epoll_fd s) s) <| ndL_epoll_fd := 0 |> <| k_epoll := ∅ |>)
      else mret s
  end.

(** ** The pollfd array *)

Definition ndL_pollfds_size (s : io_state) : Z := Z.of_nat (length (ndL_pollfds s)).

(** [ndL_pollfds[i] = x] *)
Definition store_pollfd (i : Z) (x : pollfd) (a : list pollfd) : res (list pollfd) :=
  if (0 <=? i) && (i <? Z.of_nat (length a)) then mret (<[Z.to_nat i := x]> a) else Crash OutOfBounds.

Fixpoint fill_pollfds (fuel : nat) (h : gmap loc (node nd_io)) (io : option loc) (index : Z) (a : list pollfd)
    : res (Z * list pollfd) :=
  match fuel with
  | O => Spin
  | S fuel =>
      match io with
      | None => mret (index, a)
      | Some x =>
          n ← get h x;
          a ← store_pollfd index (mk_pollfd (io_fd (n_val n)) 0) a;
          fill_pollfds fuel h (n_next n) (index + 1) a
      end
  end.

(** [realloc] succeeds; what it copies is overwritten below. *)
Definition ndL_refresh_pollfds (s : io_state) : res io_state :=
  count ← nd_ll_count (io_fuel s) (io_heap s) (ndL_first_io s) 0;
  let a := if ndL_pollfds_size s <? count then replicate (Z.to_nat (count * 2)) pollfd_0 else ndL_pollfds s in
  '(index, a) ← fill_pollfds (io_fuel s) (io_heap s) (ndL_first_io s) 0 a;
  mret (s <| ndL_pollfds := a |> <| ndL_pollfds_count := index |>).

(** ** Waiting *)

(** What a call that can be interrupted answers. *)
Inductive answer (R : Type) :=
  | AIntr (next : answer R)
  | AErr
  | AOk (r : R).
Arguments AIntr {R} next.
Arguments AErr {R}.
Arguments AOk {R} r.

(** [do { ... } while (... < 0 && errno == EINTR)] *)
Fixpoint retry {R} (a : answer R) : option R :=
  match a with
  | AIntr a => retry a
  | AErr => None
  | AOk r => Some r
  end.

(** A handler transforms the descriptors and the rest of the program. *)
Section poll.
Context {T : Type} (handler : io_handler → loc → Z → io_state * T → res (io_state * T)).

(** [if (io->handler) io->handler(io, events)] *)
Definition call_handler (io : loc) (events : Z) (st : io_state * T) : res (io_state * T) :=
  n ← get (io_heap (fst st)) io;
  match io_run (n_val n) with
  | Some h => handler h io events st
  | None => mret st
  end.

Fixpoint epoll_dispatch (events : list (loc * Z)) (st : io_state * T) : res (io_state * T) :=
  match events with
  | [] => mret st
  | (io, ev) :: events => st ← call_handler io ev st; epoll_dispatch events st
  end.

(** [ready] are the descriptors that are ready, with their events: at most the
    first eight are reported, each with its [data.ptr]. *)
Definition epoll_events (ready : list (Z * Z)) (s : io_state) : list (loc * Z) :=
  take 8 (omap (λ '(fd, ev), (λ io, (io, ev)) <$> k_epoll s !! fd) ready).

(** [poll] fills in [revents]. *)
Definition set_revents (ready : list (Z * Z)) (p : pollfd) : pollfd :=
  mk_pollfd (pf_fd p) (default 0 (snd <$> find (λ r, fst r =? pf_fd p) ready)).

(** The number of descriptors that [poll] returns. *)
Definition poll_len (a : list pollfd) : Z :=
  Z.of_nat (length (filter (λ p, pf_revents p ≠ 0) a)).

Fixpoint poll_dispatch (fuel : nat) (i : Z) (st : io_state * T) : res (io_state * T) :=
  match fuel with
  | O => Spin
  | S fuel =>
      if i <? ndL_pollfds_count (fst st) then
        match ndL_pollfds (fst st) !! Z.to_nat i with
        | None => Crash OutOfBounds
        | Some p =>
            if pf_revents p =? 0 then poll_dispatch fuel (i + 1) st else
            found ← nd_ll_search (io_fuel (fst st)) (io_heap (fst st)) (ndL_first_io (fst st))
                      (λ io, io_fd io =? pf_fd p);
            st ← match found with
                 | Some io => call_handler io (pf_revents p) st
                 | None => mret st
                 end;
            poll_dispatch fuel (i + 1) st
        end
      else mret st
  end.

Definition nd_io_poll (a : answer (list (Z * Z))) (st : io_state * T) : res (bool * (io_state * T)) :=
  match be with
  | Epoll =>
      match retry a with
      | None => mret (false, st)
      | Some ready =>
          st ← epoll_dispatch (epoll_events ready (fst st)) st;
          mret (true, st)
      end
  | Poll =>
      s ← (if ndL_dirty (fst st)
           then s ← ndL_refresh_pollfds (fst st); mret (s <| ndL_dirty := false |>)
           else mret (fst st));
      match retry a with
      | None => mret (false, (s, snd st))
      | Some ready =>
          let n := Z.to_nat (ndL_pollfds_count s) in
          let polled := set_revents ready <$> take n (ndL_pollfds s) in
          let s := s <| ndL_pollfds := polled ++ drop n (ndL_pollfds s) |> in
          if poll_len polled =? 0 then mret (true, (s, snd st)) else
          st ← poll_dispatch (S n) 0 (s, snd st);
          mret (true, st)
      end
  end.
End poll.
End io.

Arguments AIntr {R} next.
Arguments AErr {R}.
Arguments AOk {R} r.

(** ** Receiving *)

(** What successive calls of [recvmsg] or [read] on a descriptor answer until
    the queue is empty, after which they answer [EAGAIN]: an interruption, an
    error, or data together with what comes with it. *)
Inductive received (X : Type) :=
  | RIntr
  | RErr
  | RData (x : X) (bytes : list Z).
Arguments RIntr {X}.
Arguments RErr {X}.
Arguments RData {X} x bytes.

(** [len < 0] is [None]; data longer than the buffer is cut. *)
Fixpoint nd_io_recv {X} (size : nat) (script : list (received X)) : option (X * list Z) * list (received X) :=
  match script with
  | [] => (None, [])
  | RIntr :: script => nd_io_recv size script
  | RErr :: script => (None, script)
  | RData x bytes :: script => (Some (x, take size bytes), script)
  end.
