(* ===== verification/User.v ===== *)
(** * The --user option (src/ndppd.c)

    [ndL_parse_userspec] and the lookups in /etc/passwd and /etc/group.  A C
    string is the list of its bytes before the NUL; a file is the list of its
    bytes, or [None] when it cannot be opened. *)
From Stdlib Require Import Ascii.
From S2P Require Import Prelude World Text.

Definition COLON : Z := chr ":".

(** ** Strings *)

Definition ndL_all_digits (s : list Z) : bool :=
  match s with
  | [] => false
  | _ => forallb isdigit s
  end.

(** [strchr(s, c)] for a [c] other than NUL: the string from the first [c] on. *)
Fixpoint strchr_at (c : Z) (s : list Z) : option (list Z) :=
  match s with
  | [] => None
  | x :: rest => if x =? c then Some s else strchr_at c rest
  end.

(** What is before the first [c], or everything. *)
Fixpoint until (c : Z) (s : list Z) : list Z :=
  match s with
  | [] => []
  | x :: rest => if x =? c then [] else x :: until c rest
  end.

(** [for (i = 0; i < n; i++) { start = strchr(start, ':'); ... start++; }] *)
Fixpoint skip_fields (n : nat) (start : list Z) : option (list Z) :=
  match n with
  | O => Some start
  | S n =>
      match strchr_at COLON start with
      | None => None
      | Some at_colon => skip_fields n (drop 1 at_colon)
      end
  end.

Definition is_eol (c : Z) : bool := (c =? 10) || (c =? 13).

(** [while (len > 0 && (start[len - 1] == '\n' || ...)) len--;] *)
Fixpoint trim_eol (s : list Z) : list Z :=
  match s with
  | [] => []
  | c :: s =>
      match trim_eol s with
      | [] => if is_eol c then [] else [c]
      | t => c :: t
      end
  end.

Definition ndL_split_field (line : list Z) (n : nat) (out_size : Z) : option (list Z) :=
  match skip_fields n line with
  | None => None
  | Some start =>
      let field := trim_eol (until COLON start) in
      if out_size <=? Z.of_nat (length field) then None else Some field
  end.

(** ** [strtoul(s, &end, 10)] on a string of digits *)

Definition ULONG_MAX : Z := 2 ^ 64 - 1.

(** The value, the rest of the string, and whether [errno] is [ERANGE]. *)
Definition strtoul (s : list Z) : Z * list Z * bool :=
  let '(v, rest) := digits 0 s in
  (Z.min v ULONG_MAX, rest, ULONG_MAX <? v).

Definition ndL_parse_ulong (s : list Z) (max : Z) : option Z :=
  let '(v, rest, erange) := strtoul s in
  if negb (bool_decide (rest = [])) || ((v =? ULONG_MAX) && erange) || (max <? v) then None
  else Some v.

(** [(uid_t)strtoul(s, NULL, 10)] *)
Definition id_of (s : list Z) : Z := wrap32 (fst (fst (strtoul s))).

(** ** Files *)

(** [fgets(line, size, fp)]: up to [n = size - 1] bytes, or up to a newline. *)
Fixpoint fgets (n : nat) (file : list Z) : list Z * list Z :=
  match n, file with
  | O, _ => ([], file)
  | _, [] => ([], [])
  | S n, c :: file =>
      if c =? 10 then ([c], file)
      else let '(line, rest) := fgets n file in (c :: line, rest)
  end.

(** The buffers that successive calls fill, until the end of the file; each
    takes at least one byte, so that [fuel] calls are enough for [fuel] bytes. *)
Fixpoint fgets_lines (fuel : nat) (n : nat) (file : list Z) : list (list Z) :=
  match fuel, file with
  | O, _ => []
  | _, [] => []
  | S fuel, _ => let '(line, rest) := fgets n file in line :: fgets_lines fuel n rest
  end.

Definition LINE_SIZE : nat := 512.

(** The C strings in the buffer [char line[512]]. *)
Definition file_lines (file : list Z) : list (list Z) :=
  until 0 <$> fgets_lines (length file) (LINE_SIZE - 1) file.

(** The loop of [ndL_lookup_user]: [continue] goes on to the next line, and
    [break] leaves the user not found. *)
Fixpoint lookup_user_loop (name : list Z) (lines : list (list Z)) : option (Z * Z) :=
  match lines with
  | [] => None
  | line :: lines =>
      match ndL_split_field line 0 128 with
      | None => lookup_user_loop name lines
      | Some field =>
          if negb (bool_decide (field = name)) then lookup_user_loop name lines else
          match ndL_split_field line 2 32, ndL_split_field line 3 32 with
          | Some uid_str, Some gid_str =>
              if negb (ndL_all_digits uid_str) || negb (ndL_all_digits gid_str) then None
              else Some (id_of uid_str, id_of gid_str)
          | _, _ => None
          end
      end
  end.

Definition ndL_lookup_user (passwd : option (list Z)) (name : list Z) : option (Z * Z) :=
  file ← passwd; lookup_user_loop name (file_lines file).

Fixpoint lookup_group_loop (name : list Z) (lines : list (list Z)) : option Z :=
  match lines with
  | [] => None
  | line :: lines =>
      match ndL_split_field line 0 128 with
      | None => lookup_group_loop name lines
      | Some field =>
          if negb (bool_decide (field = name)) then lookup_group_loop name lines else
          match ndL_split_field line 2 32 with
          | None => None
          | Some gid_str => if negb (ndL_all_digits gid_str) then None else Some (id_of gid_str)
          end
      end
  end.

Definition ndL_lookup_group (group : option (list Z)) (name : list Z) : option Z :=
  file ← group; lookup_group_loop name (file_lines file).

(** ** The option *)

Definition id_max : Z := 4294967294.
Definition USER_PART_SIZE : Z := 128.

(** The user part and the group part of the string. *)
Definition split_userspec (spec : list Z) : option (list Z * option (list Z)) :=
  match spec with
  | [] => None
  | _ =>
      match strchr_at COLON spec with
      | Some colon =>
          if bool_decide (is_Some (strchr_at COLON (drop 1 colon))) then None else
          let n := Z.of_nat (length spec) - Z.of_nat (length colon) in
          if n =? 0 then None else
          if USER_PART_SIZE <=? n then None else
          match drop 1 colon with
          | [] => None
          | group_part => Some (take (Z.to_nat n) spec, Some group_part)
          end
      | None =>
          if USER_PART_SIZE <=? Z.of_nat (length spec) then None else Some (spec, None)
      end
  end.

Section files.
Context (passwd group : option (list Z)).

Definition resolve_user (user_part : list Z) : option (Z * Z) :=
  if ndL_all_digits user_part then
    v ← ndL_parse_ulong user_part id_max; Some (wrap32 v, wrap32 v)
  else ndL_lookup_user passwd user_part.

Definition resolve_group (group_part : list Z) : option Z :=
  if ndL_all_digits group_part then
    v ← ndL_parse_ulong group_part id_max; Some (wrap32 v)
  else ndL_lookup_group group group_part.

Definition ndL_parse_userspec (spec : list Z) : option (Z * Z) :=
  '(user_part, group_part) ← split_userspec spec;
  '(uid, gid) ← resolve_user user_part;
  match group_part with
  | None => Some (uid, gid)
  | Some g => gid ← resolve_group g; Some (uid, gid)
  end.
End files.
