(* ===== verification/Privilege.v ===== *)
(** * Dropping privileges (src/ndppd.c)

    [ndL_drop_privileges] against what it relies on of the kernel: the class
    [CredKernel] has the system calls, and [CredRules] what credentials(7) and
    capabilities(7) say of them.  [linux_creds] is an instance. *)
From S2P Require Import Prelude World User.

(** ** Credentials *)

Record creds := mk_creds {
  c_ruid : Z; c_euid : Z; c_suid : Z;
  c_rgid : Z; c_egid : Z; c_sgid : Z;
  c_groups : list Z;
  (** capability sets as bit masks *)
  c_permitted : Z;
  c_effective : Z;
  c_inheritable : Z;
  c_keepcaps : bool }.

#[export] Instance eta_creds : Eta creds := λ c,
  mk_creds (c_ruid c) (c_euid c) (c_suid c) (c_rgid c) (c_egid c) (c_sgid c) (c_groups c)
    (c_permitted c) (c_effective c) (c_inheritable c) (c_keepcaps c).
#[export] Instance set_c_ruid : Setter c_ruid := ltac:(derive_setter).
#[export] Instance set_c_euid : Setter c_euid := ltac:(derive_setter).
#[export] Instance set_c_suid : Setter c_suid := ltac:(derive_setter).
#[export] Instance set_c_rgid : Setter c_rgid := ltac:(derive_setter).
#[export] Instance set_c_egid : Setter c_egid := ltac:(derive_setter).
#[export] Instance set_c_sgid : Setter c_sgid := ltac:(derive_setter).
#[export] Instance set_c_groups : Setter c_groups := ltac:(derive_setter).
#[export] Instance set_c_permitted : Setter c_permitted := ltac:(derive_setter).
#[export] Instance set_c_effective : Setter c_effective := ltac:(derive_setter).
#[export] Instance set_c_inheritable : Setter c_inheritable := ltac:(derive_setter).
#[export] Instance set_c_keepcaps : Setter c_keepcaps := ltac:(derive_setter).

Definition CAP_SETGID : Z := 6.
Definition CAP_SETUID : Z := 7.
Definition CAP_NET_ADMIN : Z := 12.
Definition CAP_NET_RAW : Z := 13.

(** The calling thread has the capability [cap] in its effective set. *)
Definition capable (c : creds) (cap : Z) : bool := Z.testbit (c_effective c) cap.

(** [(uid_t)-1] and [(gid_t)-1], which the calls take for "do not change". *)
Definition NO_ID : Z := 4294967295.

(** The new value of an id that is set to [x]. *)
Definition pick (x old : Z) : Z := if x =? NO_ID then old else x.

(** ** What the kernel does *)

Class CredKernel := {
  sys_keepcaps : creds → option creds;
  sys_setgroups : list Z → creds → option creds;
  sys_setresgid : Z → Z → Z → creds → option creds;
  sys_setresuid : Z → Z → Z → creds → option creds;
  (** effective, permitted, inheritable *)
  sys_capset : Z → Z → Z → creds → option creds }.

Definition set_gids (r e s : Z) (c : creds) : creds :=
  c <| c_rgid := pick r (c_rgid c) |> <| c_egid := pick e (c_egid c) |> <| c_sgid := pick s (c_sgid c) |>.

Definition set_uids (r e s : Z) (c : creds) : creds :=
  c <| c_ruid := pick r (c_ruid c) |> <| c_euid := pick e (c_euid c) |> <| c_suid := pick s (c_suid c) |>.

Definition some_root (c : creds) : bool := (c_ruid c =? 0) || (c_euid c =? 0) || (c_suid c =? 0).

(** capabilities(7), "Effect of user ID changes on capabilities". *)
Definition adjust_caps (old new : creds) : creds :=
  let new :=
    if some_root old && negb (some_root new) && negb (c_keepcaps old)
    then new <| c_permitted := 0 |> <| c_effective := 0 |> else new in
  if (c_euid old =? 0) && negb (c_euid new =? 0) then new <| c_effective := 0 |> else new.

(** [a] is contained in [b]. *)
Definition cap_subset (a b : Z) : bool := Z.land a b =? a.

Class CredRules (K : CredKernel) : Prop := {
  (** what a call does when it succeeds *)
  keepcaps_effect c c' : sys_keepcaps c = Some c' → c' = c <| c_keepcaps := true |>;
  setgroups_effect g c c' : sys_setgroups g c = Some c' → c' = c <| c_groups := g |>;
  setresgid_effect r e s c c' : sys_setresgid r e s c = Some c' → c' = set_gids r e s c;
  setresuid_effect r e s c c' : sys_setresuid r e s c = Some c' → c' = adjust_caps c (set_uids r e s c);
  capset_effect e p i c c' : sys_capset e p i c = Some c' →
    c' = c <| c_effective := e |> <| c_permitted := p |> <| c_inheritable := i |>;
  (** a call that the caller is entitled to succeeds *)
  keepcaps_permitted c : is_Some (sys_keepcaps c);
  setgroups_permitted g c : capable c CAP_SETGID = true → (NO_ID ∉ g) → is_Some (sys_setgroups g c);
  setresgid_permitted r e s c : capable c CAP_SETGID = true → is_Some (sys_setresgid r e s c);
  setresuid_permitted r e s c : capable c CAP_SETUID = true → is_Some (sys_setresuid r e s c);
  capset_permitted e p c :
    cap_subset p (c_permitted c) = true → cap_subset e p = true → is_Some (sys_capset e p 0 c);
  (** and one that it is not entitled to fails with [EPERM] *)
  setgroups_denied g c : capable c CAP_SETGID = false → sys_setgroups g c = None }.

(** ** The function *)

(** [(1U << CAP_NET_RAW) | (1U << CAP_NET_ADMIN)] *)
Definition cap_mask : Z := Z.lor (Z.shiftl 1 CAP_NET_RAW) (Z.shiftl 1 CAP_NET_ADMIN).

Section drop.
Context `{K : CredKernel}.

(** The credentials after the call, and whether it returned [true]; a call
    that fails leaves the ones before it in place. *)
Definition ndL_drop_privileges (passwd group : option (list Z)) (userspec : list Z) (c : creds)
    : bool * creds :=
  match ndL_parse_userspec passwd group userspec with
  | None => (false, c)
  | Some (uid, gid) =>
      if uid =? 0 then (false, c) else
      match sys_keepcaps c with
      | None => (false, c)
      | Some c =>
          match sys_setgroups [gid] c with
          | None => (false, c)
          | Some c =>
              match sys_setresgid gid gid gid c with
              | None => (false, c)
              | Some c =>
                  match sys_setresuid uid uid uid c with
                  | None => (false, c)
                  | Some c =>
                      match sys_capset cap_mask cap_mask 0 c with
                      | None => (false, c)
                      | Some c => (true, c)
                      end
                  end
              end
          end
      end
  end.
End drop.

(** ** An instance *)

Definition linux_creds : CredKernel := {|
  sys_keepcaps c := Some (c <| c_keepcaps := true |>);
  sys_setgroups g c :=
    if capable c CAP_SETGID && bool_decide (NO_ID ∉ g) then Some (c <| c_groups := g |>) else None;
  sys_setresgid r e s c := if capable c CAP_SETGID then Some (set_gids r e s c) else None;
  sys_setresuid r e s c :=
    if capable c CAP_SETUID then Some (adjust_caps c (set_uids r e s c)) else None;
  sys_capset e p i c :=
    if cap_subset p (c_permitted c) && cap_subset e p
    then Some (c <| c_effective := e |> <| c_permitted := p |> <| c_inheritable := i |>) else None |}.

#[export] Instance linux_rules : CredRules linux_creds.
Proof.
  split; unfold sys_keepcaps, sys_setgroups, sys_setresgid, sys_setresuid, sys_capset, linux_creds.
  - by intros c c' [= <-].
  - intros g c c'. case_match; [by intros [= <-]|done].
  - intros r e s c c'. case_match; [by intros [= <-]|done].
  - intros r e s c c'. case_match; [by intros [= <-]|done].
  - intros e p i c c'. case_match; [by intros [= <-]|done].
  - eauto.
  - intros g c -> Hg. rewrite bool_decide_eq_true_2 by done. eauto.
  - intros r e s c ->. eauto.
  - intros r e s c ->. eauto.
  - intros e p c -> ->. eauto.
  - by intros g c ->.
Qed.

(** ** What it achieves *)

(** Every id is [uid] or [gid], and the only capabilities are the two that the
    daemon goes on to use. *)
Definition dropped_to (uid gid : Z) (c : creds) : Prop :=
  c_ruid c = uid ∧ c_euid c = uid ∧ c_suid c = uid ∧
  c_rgid c = gid ∧ c_egid c = gid ∧ c_sgid c = gid ∧ c_groups c = [gid] ∧
  c_permitted c = cap_mask ∧ c_effective c = cap_mask ∧ c_inheritable c = 0.
