(* ===== verification/Main.v ===== *)
(** * The program (src/ndppd.c)

    [main]: options, the order of the startup, the event loop with the handlers
    that drain the two sockets, and the exit.  The state of the process is the
    world of the daemon, the descriptors of io.c, the credentials and the two
    [ndL_io] pointers of iface.c and rt.c. *)
From S2P Require Import Prelude Addr World Monad Packet Route Netlink Iface Session Proxy Receive.
From S2P Require Import Daemon Text Conf Alloc LinkedList Io User Privilege.

(** ** Options *)

(** What [getopt_long] returns, with [optarg]. *)
Inductive getopt :=
  | GConfig (arg : list Z)
  | GDaemon
  | GVerbose
  | GPidfile (arg : list Z)
  | GUser (arg : list Z)
  | GSyslog
  | GNetns (arg : list Z)
  | GOther.

Definition ND_LOG_INFO : Z := 1.
Definition ND_LOG_TRACE : Z := 3.

Record options := mk_options {
  nd_opt_config_path : option (list Z);
  nd_opt_daemonize : bool;
  nd_opt_verbosity : Z;
  nd_opt_pidfile_path : option (list Z);
  nd_opt_user : option (list Z);
  nd_opt_syslog : bool;
  opt_netns : option (list Z) }.

#[export] Instance eta_options : Eta options := λ o,
  mk_options (nd_opt_config_path o) (nd_opt_daemonize o) (nd_opt_verbosity o) (nd_opt_pidfile_path o)
    (nd_opt_user o) (nd_opt_syslog o) (opt_netns o).
#[export] Instance set_config_path : Setter nd_opt_config_path := ltac:(derive_setter).
#[export] Instance set_daemonize : Setter nd_opt_daemonize := ltac:(derive_setter).
#[export] Instance set_verbosity : Setter nd_opt_verbosity := ltac:(derive_setter).
#[export] Instance set_pidfile_path : Setter nd_opt_pidfile_path := ltac:(derive_setter).
#[export] Instance set_user : Setter nd_opt_user := ltac:(derive_setter).
#[export] Instance set_syslog : Setter nd_opt_syslog := ltac:(derive_setter).
#[export] Instance set_netns : Setter opt_netns := ltac:(derive_setter).

Definition options_start : options := mk_options None false ND_LOG_INFO None None false None.

(** [nd_strdup(optarg)]: [nd_alloc] ends the process when the copy is larger than
    its largest object. *)
Definition strdup_ok (arg : list Z) : bool := Z.of_nat (length arg) + 1 <=? NDPPD_MAX_ALLOC.

(** [None]: --netns was given twice, or an argument is too long. *)
Fixpoint main_options (opts : list getopt) (o : options) : option options :=
  match opts with
  | [] => Some o
  | ch :: opts =>
      match ch with
      | GConfig arg =>
          if negb (strdup_ok arg) then None else main_options opts (o <| nd_opt_config_path := Some arg |>)
      | GDaemon => main_options opts (o <| nd_opt_daemonize := true |>)
      | GVerbose =>
          main_options opts
            (if nd_opt_verbosity o <? ND_LOG_TRACE
             then o <| nd_opt_verbosity := nd_opt_verbosity o + 1 |> else o)
      | GPidfile arg =>
          if negb (strdup_ok arg) then None else main_options opts (o <| nd_opt_pidfile_path := Some arg |>)
      | GUser arg =>
          if negb (strdup_ok arg) then None else main_options opts (o <| nd_opt_user := Some arg |>)
      | GSyslog => main_options opts (o <| nd_opt_syslog := true |>)
      | GNetns arg =>
          if bool_decide (is_Some (opt_netns o)) || negb (strdup_ok arg) then None
          else main_options opts (o <| opt_netns := Some arg |>)
      | GOther => main_options opts o
      end
  end.

(** ** The process *)

Record process := mk_process {
  pr_world : world;
  pr_io : io_state;
  pr_creds : creds;
  (** [ndL_io] of iface.c and of rt.c *)
  pr_pkt : option loc;
  pr_rt : option loc }.

#[export] Instance eta_process : Eta process := λ p,
  mk_process (pr_world p) (pr_io p) (pr_creds p) (pr_pkt p) (pr_rt p).
#[export] Instance set_pr_world : Setter pr_world := ltac:(derive_setter).
#[export] Instance set_pr_io : Setter pr_io := ltac:(derive_setter).
#[export] Instance set_pr_creds : Setter pr_creds := ltac:(derive_setter).
#[export] Instance set_pr_pkt : Setter pr_pkt := ltac:(derive_setter).
#[export] Instance set_pr_rt : Setter pr_rt := ltac:(derive_setter).

(** A computation of the daemon, run in a process. *)
Definition lift {A} (m : M A) (w : world) : res (A * world) :=
  match m w with
  | Ret a w => Done (a, w)
  | Fault f => Crash f
  end.

Definition on_world {A} (m : M A) (p : process) : res (A * process) :=
  '(a, w) ← lift m (pr_world p);
  mret (a, p <| pr_world := w |>).

(** ** The pid file and the background *)

(** [open] of the pid file in [ndL_check_pidfile]. *)
Inductive open_answer := OMissing | OError | OOpened.

(** [flock_ok] is whether the lock is obtained. *)
Definition ndL_check_pidfile (answer : open_answer) (flock_ok : bool) : bool :=
  match answer with
  | OMissing => true
  | OError => false
  | OOpened => flock_ok
  end.

(** The answers to the calls of [ndL_daemonize]; [d_open] is that of [open] for a
    path that is not NULL. *)
Inductive fork_answer := FError | FParent | FChild.

Record daemonize_answers := mk_daemonize {
  d_open : bool;
  d_flock : bool;
  d_fork : fork_answer;
  d_setsid : bool;
  d_chdir : bool }.

Inductive daemonized := DFalse | DTrue | DExit.

(** [DExit] is the parent, which calls [exit(0)]. *)
Definition ndL_daemonize (path : option (list Z)) (a : daemonize_answers) (p : process)
    : daemonized * process :=
  if negb (bool_decide (is_Some path)) || negb (d_open a) then (DFalse, p) else
  let '(fd, s) := new_fd (pr_io p) in
  if negb (d_flock a) then (DFalse, p <| pr_io := close_fd fd s |>) else
  let p := p <| pr_io := s |> in
  match d_fork a with
  | FError => (DFalse, p)
  | FParent => (DExit, p <| pr_world := (pr_world p) <| w_no_restore_flags := true |> |>)
  | FChild =>
      if negb (d_setsid a) then (DFalse, p) else
      if negb (d_chdir a) then (DFalse, p) else
      (DTrue, p <| pr_io := close_fd 2 (close_fd 1 (close_fd 0 (pr_io p))) |>)
  end.

(** [open] and [setns] *)
Definition ndL_netns (open_ok setns_ok : bool) : bool :=
  if negb open_ok then false else setns_ok.

(** ** Startup *)

Section main.
Context {BO : ByteOrder} `{CK : CredKernel}.

(** A socket of the startup: [socket], the calls of [ndL_create], and [bind]. *)
Record socket_answers := mk_socket {
  so_socket : bool;
  so_create : create_answers;
  so_filter : bool;
  so_bind : bool }.

(** What the system answers during the startup. *)
Record start_env := mk_env {
  se_time : Z;
  se_pidfile : open_answer * bool;
  se_config : option (list Z);
  se_netns : bool * bool;
  se_pkt : socket_answers;
  se_kernel : kernel;
  se_rt : socket_answers;
  se_passwd : option (list Z);
  se_group : option (list Z);
  se_daemonize : daemonize_answers }.

(** [nd_iface_startup] with its socket: [ndL_io] of iface.c. *)
Definition start_pkt (a : socket_answers) (p : process) : res (bool * process) :=
  '(io, s) ← nd_io_socket Epoll (so_socket a) (so_create a) (pr_io p);
  '(ok, p) ← on_world (nd_iface_startup (bool_decide (is_Some io)) (so_filter a) (so_bind a))
               (p <| pr_io := s |>);
  match io with
  | None => mret (ok, p <| pr_pkt := None |>)
  | Some x =>
      if (ok : bool) then s ← set_handler x PktHandler (pr_io p);
                          mret (true, p <| pr_io := s |> <| pr_pkt := Some x |>)
      else s ← nd_io_close Epoll (Some x) (pr_io p);
           mret (false, p <| pr_io := s |> <| pr_pkt := None |>)
  end.

(** [nd_rt_open] with its socket: [ndL_io] of rt.c. *)
Definition start_rt (a : socket_answers) (p : process) : res (bool * process) :=
  if bool_decide (is_Some (pr_rt p)) then mret (true, p) else
  '(io, s) ← nd_io_socket Epoll (so_socket a) (so_create a) (pr_io p);
  '(ok, p) ← on_world (nd_rt_open (bool_decide (is_Some io)) (so_bind a)) (p <| pr_io := s |>);
  match io with
  | None => mret (ok, p <| pr_rt := None |>)
  | Some x =>
      if (ok : bool) then s ← set_handler x RtHandler (pr_io p);
                          mret (true, p <| pr_io := s |> <| pr_rt := Some x |>)
      else s ← nd_io_close Epoll (Some x) (pr_io p);
           mret (false, p <| pr_io := s |> <| pr_rt := None |>)
  end.

(** How [main] goes on: it returns, the parent of the daemon exits, or the loop
    starts. *)
Inductive outcome_of_start :=
  | SReturn (code : Z) (p : process)
  | SParent (p : process)
  | SLoop (p : process).

Definition EXIT_SUCCESS : Z := 0.
Definition EXIT_FAILURE : Z := 1.

(** From the privileges to the loop. *)
Definition main_background (e : start_env) (o : options) (p : process) : res outcome_of_start :=
  let '(dropped, p) :=
    match nd_opt_user o with
    | None => (true, p)
    | Some spec =>
        let '(ok, c) := ndL_drop_privileges (se_passwd e) (se_group e) spec (pr_creds p) in
        (ok, p <| pr_creds := c |>)
    end in
  if negb dropped then mret (SReturn EXIT_FAILURE p) else
  let '(d, p) :=
    if nd_opt_daemonize o then ndL_daemonize (nd_opt_pidfile_path o) (se_daemonize e) p else (DTrue, p) in
  match d with
  | DFalse => mret (SReturn EXIT_FAILURE p)
  | DExit => mret (SParent p)
  | DTrue => '(_, p) ← on_world nd_rt_query_routes p; mret (SLoop p)
  end.

(** From the sockets on. *)
Definition main_sockets (e : start_env) (o : options) (p : process) : res outcome_of_start :=
  '(ok, p) ← start_pkt (se_pkt e) p;
  if negb ok then mret (SReturn EXIT_FAILURE p) else
  '(ok, p) ← on_world (nd_proxy_startup (se_kernel e)) p;
  if negb ok then mret (SReturn EXIT_FAILURE p) else
  '(ok, p) ← start_rt (se_rt e) p;
  if negb ok then mret (SReturn EXIT_FAILURE p) else
  main_background e o p.

Definition main_start (e : start_env) (opts : list getopt) (p : process) : res outcome_of_start :=
  match main_options opts options_start with
  | None => mret (SReturn EXIT_FAILURE p)
  | Some o =>
      let p := p <| pr_world := (pr_world p) <| nd_current_time := se_time e |> |> in
      if bool_decide (is_Some (nd_opt_pidfile_path o)) &&
         negb (ndL_check_pidfile (fst (se_pidfile e)) (snd (se_pidfile e)))
      then mret (SReturn EXIT_FAILURE p) else
      '(r, p) ← on_world (nd_conf_load (se_config e)) p;
      match r with
      | PFuel => Spin
      | PFail => mret (SReturn EXIT_FAILURE p)
      | POk _ =>
          if bool_decide (is_Some (opt_netns o)) && negb (ndL_netns (fst (se_netns e)) (snd (se_netns e)))
          then mret (SReturn EXIT_FAILURE p)
          else main_sockets e o p
      end
  end.

(** ** The handlers *)

Definition PKT_BUF : nat := 2048.
Definition RT_BUF : nat := 4096.

(** [ndL_io_handler] of iface.c; a frame comes with the kernel its handler sees
    and its interface index. *)
Fixpoint pkt_io_handler (fuel : nat) (script : list (received (kernel * Z))) (w : world) : res world :=
  match fuel with
  | O => Spin
  | S fuel =>
      match nd_io_recv PKT_BUF script with
      | (None, _) => mret w
      | (Some (K, ifindex, buf), script) =>
          if Z.of_nat (length buf) =? 0 then mret w else
          '(_, w) ← lift (ndL_handle_frame K ifindex buf) w;
          pkt_io_handler fuel script w
      end
  end.

(** [ndL_io_handler] of rt.c *)
Fixpoint rt_io_handler (fuel : nat) (script : list (received kernel)) (w : world) : res world :=
  match fuel with
  | O => Spin
  | S fuel =>
      match nd_io_recv RT_BUF script with
      | (None, _) => mret w
      | (Some (K, buf), script) =>
          '(_, w) ← lift (ndL_handle_datagram K buf) w;
          rt_io_handler fuel script w
      end
  end.

(** ** The loop *)

(** One turn of the loop, as the system sees it: whether a signal has come, the
    kernel of the timers, the answer to the wait, what the two sockets hold when
    they are read, and the time at the end. *)
Record turn := mk_turn {
  t_stop : bool;
  t_kernel : kernel;
  t_wait : answer (list (Z * Z));
  t_pkt : list (received (kernel * Z));
  t_rt : list (received kernel);
  t_now : Z }.

Definition daemon_handler (t : turn) (h : io_handler) (io : loc) (events : Z) (st : io_state * world)
    : res (io_state * world) :=
  w ← match h with
      | PktHandler => pkt_io_handler (S (length (t_pkt t))) (t_pkt t) (snd st)
      | RtHandler => rt_io_handler (S (length (t_rt t))) (t_rt t) (snd st)
      end;
  mret (fst st, w).

Inductive after_turn :=
  | TBreak (code : Z) (p : process)
  | TNext (v : loop_vars) (p : process).

(** [be] is the back end of io.c. *)
Definition main_turn (be : backend) (t : turn) (v : loop_vars) (p : process) : res after_turn :=
  if t_stop t then mret (TBreak EXIT_SUCCESS p) else
  '(v, p) ← on_world (loop_timers (t_kernel t) v) p;
  '(ok, (s, w)) ← nd_io_poll be (daemon_handler t) (t_wait t) (pr_io p, pr_world p);
  let p := p <| pr_io := s |> <| pr_world := w |> in
  if negb ok then mret (TBreak EXIT_FAILURE p) else
  mret (TNext v (p <| pr_world := w <| nd_current_time := t_now t |> |>)).

(** The loop for as long as there are turns. *)
Fixpoint main_loop (be : backend) (turns : list turn) (v : loop_vars) (p : process) : res after_turn :=
  match turns with
  | [] => mret (TNext v p)
  | t :: turns =>
      r ← main_turn be t v p;
      match r with
      | TBreak code p => mret (TBreak code p)
      | TNext v p => main_loop be turns v p
      end
  end.

(** ** The exit *)

(** [ndL_exit], with the sockets. *)
Definition main_exit (be : backend) (p : process) : res process :=
  '(_, p) ← on_world nd_iface_cleanup p;
  s ← nd_io_close be (pr_pkt p) (pr_io p);
  '(_, p) ← on_world nd_rt_cleanup (p <| pr_io := s |>);
  s ← nd_io_close be (pr_rt p) (pr_io p);
  mret (p <| pr_io := s |>).

End main.
