(* ===== verification/Diag.v ===== *)
(** * Diagnostics and small services (src/log.c, src/mld.c and parts of src/addr.c)

    [nd_log_printf], the ring of static buffers that [nd_ntoa] and [nd_ll_ntoa]
    write to, the seed of the hash, and the stub of mld.c.  What [vsnprintf],
    [inet_ntop] and [ether_ntoa_r] make of their arguments is a parameter; [int]
    has 32 bits and wraps. *)
From S2P Require Import Prelude Addr World Monad Packet Text Route Netlink Iface LinkedList Io Main.

(** ** Logging *)

Definition ND_LOG_ERROR : Z := 0.
Definition ND_LOG_DEBUG : Z := 2.

(** The static variables of log.c and [nd_daemonized]. *)
Record log_state := mk_log {
  l_verbosity : Z;
  l_opt_syslog : bool;
  l_daemonized : bool;
  ndL_syslog_opened : bool }.

(** Where a line goes: [syslog] with a priority, or standard output with the
    seconds and milliseconds of the time and the name of the level. *)
Inductive log_line :=
  | ToSyslog (priority : Z) (buf : list Z)
  | ToStdout (secs millis : Z) (name : string) (buf : list Z).

Definition LOG_ERR : Z := 3.
Definition LOG_INFO : Z := 6.
Definition LOG_DEBUG : Z := 7.

Definition LOG_BUF : nat := 512.
Definition log_marker : list Z := bytes_of_string "<log format error>".

(** [const int pris[]] and [const char *names[]] *)
Definition log_priority (level : Z) : Z := nth (Z.to_nat level) [LOG_ERR; LOG_INFO; LOG_DEBUG; LOG_DEBUG] 0.
Definition log_name (level : Z) : string := nth (Z.to_nat level) ["error"; "info"; "debug"; "trace"] "".

Definition ndL_open_syslog (st : log_state) : log_state :=
  if ndL_syslog_opened st then st
  else mk_log (l_verbosity st) (l_opt_syslog st) (l_daemonized st) true.

(** [formatted] is the text that the format and its arguments stand for, or
    [None] when [vsnprintf] fails. *)
Definition nd_log_printf (now level : Z) (formatted : option (list Z)) (st : log_state)
    : option log_line * log_state :=
  if l_verbosity st <? level then (None, st) else
  let st := if l_daemonized st || l_opt_syslog st then ndL_open_syslog st else st in
  let buf := match formatted with
             | Some text => take (LOG_BUF - 1) text
             | None => take (LOG_BUF - 1) log_marker
             end in
  if ndL_syslog_opened st then (Some (ToSyslog (log_priority level) buf), st)
  else (Some (ToStdout (Z.quot now 1000) (Z.rem now 1000) (log_name level) buf), st).

(** ** The text of an address *)

(** [static int index; static char buf[3][64]] *)
Record ring := mk_ring { r_index : Z; r_buf : list (list Z) }.

Definition RING : nat := 3.
Definition RING_BUF : nat := 64.
Definition ring_start : ring := mk_ring 0 (replicate RING []).

(** [int] after an increment *)
Definition wrap_int (x : Z) : Z := (x + 2 ^ 31) mod 2 ^ 32 - 2 ^ 31.

(** A pointer to one of the buffers, or to the literal. *)
Inductive text_ptr := RingBuf (i : nat) | NullText.

(** [addr ? inet_ntop(..., buf[index++ % 3], 64) : "(null)"]; [%] takes the sign of
    the index. *)
Definition ring_print (addr : option (list Z)) (r : ring) : res (text_ptr * ring) :=
  match addr with
  | None => mret (NullText, r)
  | Some text =>
      let i := Z.rem (r_index r) 3 in
      if (0 <=? i) && (i <? Z.of_nat (length (r_buf r))) && (Z.of_nat (length text) <? Z.of_nat RING_BUF)
      then mret (RingBuf (Z.to_nat i), mk_ring (wrap_int (r_index r + 1)) (<[Z.to_nat i := text]> (r_buf r)))
      else Crash OutOfBounds
  end.

Section text.
Context (inet_ntop : nd_addr → list Z) (ether_ntoa_r : nd_lladdr → list Z).

Definition nd_ntoa (addr : option nd_addr) (r : ring) : res (text_ptr * ring) :=
  ring_print (inet_ntop <$> addr) r.

Definition nd_ll_ntoa (addr : option nd_lladdr) (r : ring) : res (text_ptr * ring) :=
  ring_print (ether_ntoa_r <$> addr) r.
End text.

(** What a pointer shows when it is read. *)
Definition show_text (p : text_ptr) (r : ring) : list Z :=
  match p with
  | RingBuf i => r_buf r !!! i
  | NullText => bytes_of_string "(null)"
  end.

(** Successive calls. *)
Fixpoint print_all (texts : list (list Z)) (r : ring) : res (list text_ptr * ring) :=
  match texts with
  | [] => mret ([], r)
  | t :: texts =>
      '(p, r) ← ring_print (Some t) r;
      '(ps, r) ← print_all texts r;
      mret (p :: ps, r)
  end.

(** ** The seed of the hash *)

Section seed.
Context {BO : ByteOrder}.

(** The answers of the system: [open] of /dev/urandom, [read] of up to four bytes
    (at most [EINTR] any number of times before it), the time and the pid. *)
Definition ndL_init_hash_seed (opened : bool) (urandom : answer (list Z)) (tv_sec tv_usec pid : Z) : Z :=
  let fallback :=
    let seed := Z.lxor (Z.lxor (wrap32 (wrap32 tv_sec * 2654435761)) (wrap32 (wrap32 tv_usec * 40503)))
                  (wrap32 pid) in
    if seed =? 0 then 0x9e3779b9 else seed in
  if negb opened then fallback else
  match retry urandom with
  | Some [b0; b1; b2; b3] =>
      let seed := word_of_bytes b0 b1 b2 b3 in
      if negb (seed =? 0) then seed else fallback
  | _ => fallback
  end.

Lemma lxor_range a b : is_u32 a → is_u32 b → is_u32 (Z.lxor a b).
Proof.
  unfold is_u32, u32_max. intros Ha Hb. assert (0 ≤ Z.lxor a b) as H0 by (apply Z.lxor_nonneg; lia).
  split; [done|]. destruct (decide (Z.lxor a b = 0)) as [->|Hne]; [done|]. change 4294967296 with (2 ^ 32).
  apply Z.log2_lt_pow2; [lia|]. eapply Z.le_lt_trans; [apply Z.log2_lxor; lia|].
  assert (∀ x, 0 ≤ x < 4294967296 → Z.log2 x < 32) as Hl.
  { intros x Hx. destruct (decide (x = 0)) as [->|]; [done|]. apply Z.log2_lt_pow2; [lia|]. apply Hx. }
  apply Z.max_lub_lt; auto.
Qed.

(** The seed is never 0, and a 32-bit word. *)
Lemma hash_seed_ok opened urandom tv_sec tv_usec pid :
  (∀ bytes, retry urandom = Some bytes → Forall is_u8 bytes) →
  let seed := ndL_init_hash_seed opened urandom tv_sec tv_usec pid in seed ≠ 0 ∧ is_u32 seed.
Proof.
  intros Hu. unfold ndL_init_hash_seed. set (x := Z.lxor _ _).
  assert (let fallback := if x =? 0 then 0x9e3779b9 else x in fallback ≠ 0 ∧ is_u32 fallback) as Hf.
  { destruct (Z.eqb_spec x 0); [by split|]. split; [done|]. unfold x. by repeat apply lxor_range; apply wrap32_range. }
  destruct opened; cbn [negb]; [|exact Hf].
  destruct (retry urandom) as [[|b0 [|b1 [|b2 [|b3 [|b4 bs]]]]]|] eqn:E; try exact Hf.
  destruct (Z.eqb_spec (word_of_bytes b0 b1 b2 b3) 0); [exact Hf|]. cbn [negb]. split; [done|].
  specialize (Hu _ eq_refl). rewrite !List.Forall_cons_iff in Hu. apply word_of_bytes_range; tauto.
Qed.
End seed.

(** ** The stub of mld.c *)

(** It opens the interface and returns NULL: the reference stays with nobody. *)
Definition nd_mld_watch (K : kernel) (ifname : string) : M (option loc) :=
  iface ← nd_iface_open K (Some ifname) 0 false;
  match iface with
  | None => mret None
  | Some _ => mret None
  end.

(** ** Lemmas *)

Definition ring_ok (r : ring) : Prop := length (r_buf r) = RING.
Definition text_ok (t : list Z) : Prop := (length t < RING_BUF)%nat.

Lemma wrap_int_small x : - 2 ^ 31 ≤ x < 2 ^ 31 → wrap_int x = x.
Proof. intros Hx. unfold wrap_int. rewrite Z.mod_small by lia. lia. Qed.

Lemma ring_print_ok t r :
  ring_ok r → text_ok t → 0 ≤ r_index r →
  ring_print (Some t) r = Done (RingBuf (Z.to_nat (r_index r mod 3)),
    mk_ring (wrap_int (r_index r + 1)) (<[Z.to_nat (r_index r mod 3) := t]> (r_buf r))).
Proof.
  intros Hr Ht Hi. unfold ring_print. rewrite Z.rem_mod_nonneg by lia. pose proof (Z.mod_pos_bound (r_index r) 3).
  unfold ring_ok, RING, text_ok, RING_BUF in *. rewrite Hr.
  rewrite (proj2 (Z.leb_le 0 _)), (proj2 (Z.ltb_lt _ _)), (proj2 (Z.ltb_lt _ _)) by lia. done.
Qed.

(** The index counts the calls. *)
Lemma print_all_index texts r :
  ring_ok r → Forall text_ok texts → 0 ≤ r_index r < 2 ^ 31 → r_index r + Z.of_nat (length texts) ≤ 2 ^ 31 →
  ∃ ps r', print_all texts r = Done (ps, r') ∧ ring_ok r' ∧
    r_index r' = wrap_int (r_index r + Z.of_nat (length texts)).
Proof.
  intros Hr Ht. revert r Hr. induction Ht as [|t texts Ht _ IH]; intros r Hr Hi Hn; cbn [print_all].
  - eexists _, _. split; [done|]. split; [done|]. rewrite wrap_int_small; cbn in *; lia.
  - rewrite ring_print_ok by (done || lia). cbn [mbind res_bind]. cbn [length] in Hn. rewrite Nat2Z.inj_succ in Hn.
    set (r1 := mk_ring _ _). assert (ring_ok r1) as Hr1 by (unfold ring_ok, r1; cbn [r_buf]; by rewrite length_insert).
    destruct (decide (texts = [])) as [->|Hne].
    + eexists _, _. split; [done|]. by split.
    + assert (r_index r1 = r_index r + 1) as E1.
      { apply wrap_int_small. destruct texts; [done|]. cbn [length] in Hn. lia. }
      destruct (IH r1 Hr1) as (ps & r' & -> & Hr' & Ei); [destruct texts; [done|cbn [length] in Hn; lia]|lia|]. eexists _, r'. split; [done|]. split; [done|].
      rewrite Ei, E1. f_equal. cbn [length]. lia.
Qed.

(** The buffer of the [k]-th call. *)
Definition slot (k : Z) : nat := Z.to_nat (k mod 3).

Lemma slot_lt k : (slot k < 3)%nat.
Proof. unfold slot. pose proof (Z.mod_pos_bound k 3). lia. Qed.

Lemma slot_ne j k : j < k < j + 3 → slot j ≠ slot k.
Proof.
  unfold slot. intros Hjk E. apply Z2Nat.inj in E; [|apply Z.mod_pos_bound; lia..].
  assert ((k - j) mod 3 = 0) as E0 by (by rewrite Zminus_mod, E, Z.sub_diag).
  rewrite Z.mod_small in E0; lia.
Qed.

(** Up to three calls write to different buffers, and leave the ones of the calls
    just before. *)
Lemma print_all_slots texts x b :
  length b = 3%nat → Forall text_ok texts → (length texts ≤ 3)%nat → 0 ≤ x → x + Z.of_nat (length texts) < 2 ^ 31 →
  ∃ ps b', print_all texts (mk_ring x b) = Done (ps, mk_ring (x + Z.of_nat (length texts)) b') ∧
    length ps = length texts ∧
    (∀ j t, texts !! j = Some t → ps !! j = Some (RingBuf (slot (x + Z.of_nat j))) ∧ b' !! slot (x + Z.of_nat j) = Some t) ∧
    (∀ k, x + Z.of_nat (length texts) - 3 ≤ k < x → b' !! slot k = b !! slot k).
Proof.
  intros Hb Ht. revert x b Hb. induction Ht as [|t texts Ht _ IH]; intros x b Hb Hn Hx Hx2; cbn [print_all].
  { exists [], b. cbn. rewrite Z.add_0_r. by split_and!. }
  cbn [length] in *. rewrite ring_print_ok by done. cbn [mbind res_bind r_index r_buf].
  rewrite wrap_int_small by lia. fold (slot x).
  destruct (IH (x + 1) (<[slot x := t]> b)) as (ps & b' & -> & Hps & Hj & Hk); [by rewrite length_insert|lia..|].
  cbn [mbind res_bind]. exists (RingBuf (slot x) :: ps), b'. split_and!.
  - unfold mret, res_ret. do 3 f_equal. lia.
  - cbn. by rewrite Hps.
  - intros [|j] t' E; cbn in E |- *.
    + injection E as <-. rewrite Z.add_0_r. split; [done|]. rewrite Hk by lia.
      apply list_lookup_insert_eq. rewrite Hb. apply slot_lt.
    + destruct (Hj j t' E) as [H1 H2]. replace (x + Z.of_nat (S j)) with (x + 1 + Z.of_nat j) by lia. done.
  - intros k Hkx. rewrite Hk by lia. apply list_lookup_insert_ne. apply not_eq_sym, slot_ne. lia.
Qed.

(** ** Theorems *)

(** Chained calls do not disturb each other.  While the counter has not run
    over, the pointers that up to three successive calls of [nd_ntoa] return show
    each its own address when they are read, as the arguments of one log line
    are. *)
Theorem ntoa_chains texts r :
  ring_ok r → Forall text_ok texts → (length texts ≤ 3)%nat → 0 ≤ r_index r < 2 ^ 31 - 3 →
  ∃ ps r', print_all texts r = Done (ps, r') ∧ (λ p, show_text p r') <$> ps = texts.
Proof.
  destruct r as [x b]. intros Hr Ht Hlen [Hi Hi2]. cbn [r_index] in *.
  destruct (print_all_slots texts x b Hr Ht Hlen Hi) as (ps & b' & E & Hps & Hj & _); [lia|].
  eexists _, _. split; [exact E|]. apply list_eq. intros j. rewrite list_lookup_fmap.
  destruct (texts !! j) as [t|] eqn:Ej.
  - destruct (Hj j t Ej) as [-> H2]. cbn. by rewrite (list_lookup_total_correct _ _ _ H2).
  - by rewrite (proj2 (lookup_ge_None ps j)) by (rewrite Hps; by apply lookup_ge_None).
Qed.

(** The counter is an [int]: call number 2^31 + 1 writes before the buffers. *)
Theorem ntoa_counter_overflows texts t :
  Forall text_ok texts → Z.of_nat (length texts) = 2 ^ 31 →
  ∃ ps r', print_all texts ring_start = Done (ps, r') ∧ ring_print (Some t) r' = Crash OutOfBounds.
Proof.
  intros Ht Hn. destruct (print_all_index texts ring_start) as (ps & r' & E & _ & Ei); [done|done|done|cbn; lia|].
  exists ps, r'. split; [done|]. unfold ring_print. rewrite Ei, Hn. reflexivity.
Qed.

(** A log line is bounded and goes to one place.  A message above the chosen
    verbosity is dropped; any other fits the buffer of 512 bytes with its NUL,
    cut if need be, and goes to syslog once it was opened (by --syslog) and from
    then on, and to standard output otherwise. *)
Theorem log_line_bounded now level formatted st :
  let '(line, st') := nd_log_printf now level formatted st in
  (line = None ↔ l_verbosity st < level) ∧
  (∀ pri buf, line = Some (ToSyslog pri buf) → (length buf < LOG_BUF)%nat ∧ ndL_syslog_opened st' = true) ∧
  (∀ secs ms name buf, line = Some (ToStdout secs ms name buf) →
     (length buf < LOG_BUF)%nat ∧ l_daemonized st = false ∧ l_opt_syslog st = false ∧ ndL_syslog_opened st = false) ∧
  (ndL_syslog_opened st = true → ndL_syslog_opened st' = true).
Proof.
  assert (∀ l : list Z, (length (take (LOG_BUF - 1) l) < LOG_BUF)%nat) as Hlen.
  { intros l. rewrite length_take. unfold LOG_BUF. lia. }
  unfold nd_log_printf. destruct (Z.ltb_spec (l_verbosity st) level); [by split_and!|].
  set (buf := match formatted with Some _ => _ | None => _ end).
  assert (length buf < LOG_BUF)%nat as Hbuf by (unfold buf; destruct formatted; apply Hlen). clearbody buf.
  destruct st as [v o d op]. unfold ndL_open_syslog. cbn [l_daemonized l_opt_syslog ndL_syslog_opened l_verbosity] in *.
  destruct o, d, op; cbn [orb ndL_syslog_opened];
    (split; [split; [done|lia]|]); split_and!; intros; simplify_eq; auto.
Qed.
