(* ===== verification/Bpf.v ===== *)
(** * Receiving from a BPF device (src/iface.c, BSD)

    On the BSDs every interface has its own /dev/bpf handle.  One [read] returns
    several captured frames, each behind a [struct bpf_hdr]; [ndL_io_handler]
    walks them.  The layout of that header is the operating system's: it is the
    class [BpfLayout], and [BpfLayoutOk] is what <net/bpf.h> guarantees of it. *)
From S2P Require Import Prelude Addr World Monad Packet Netlink NetlinkSpec LinkedList Io.

Class BpfLayout := {
  (** [sizeof(struct bpf_hdr)] *)
  bh_size : Z;
  (** the offsets of [bh_caplen] (32 bits) and [bh_hdrlen] (16 bits) *)
  bh_caplen_at : Z;
  bh_hdrlen_at : Z;
  (** [BPF_ALIGNMENT] is this power of two *)
  bpf_align_log : Z }.

Class BpfLayoutOk (L : BpfLayout) : Prop := {
  bh_caplen_in : 0 ≤ bh_caplen_at ∧ bh_caplen_at + 4 ≤ bh_size;
  bh_hdrlen_in : 0 ≤ bh_hdrlen_at ∧ bh_hdrlen_at + 2 ≤ bh_size;
  bh_fields_disjoint : bh_caplen_at + 4 ≤ bh_hdrlen_at ∨ bh_hdrlen_at + 2 ≤ bh_caplen_at;
  bpf_align_pos : 0 ≤ bpf_align_log }.

Section bpf.
Context {BO : ByteOrder} {L : BpfLayout}.

Definition BPF_ALIGNMENT : Z := 2 ^ bpf_align_log.

(** [((x) + (BPF_ALIGNMENT - 1)) & ~(BPF_ALIGNMENT - 1)], in a 64-bit [size_t] *)
Definition BPF_WORDALIGN (x : Z) : Z := Z.land (x + (BPF_ALIGNMENT - 1)) (Z.lnot (BPF_ALIGNMENT - 1)).

(** The checks on a record whose [caplen] bytes start at [pkt_offset], then
    [ndL_handle_msg]: [msg] points into the read buffer. *)
Definition bpf_msg (buf : list Z) (pkt_offset caplen : Z) : option rx :=
  if caplen <? MSG_LEN then Some RxDrop else
  let msg := drop (Z.to_nat pkt_offset) buf in
  ether_type ← rd16 msg 12;
  if negb (ether_type =? ETHERTYPE_IPV6) then Some RxDrop else
  plen ← rd16 msg (ETH_LEN + 4);
  if negb (plen =? caplen - MSG_LEN) then Some RxDrop else
  parse_msg msg.

(** The loop over the records of one buffer, from offset [i] on: the messages in
    order.  [bh_hdrlen + bh_caplen] is a 32-bit sum. *)
Fixpoint bpf_walk (fuel : nat) (buf : list Z) (i : Z) : option (list rx) :=
  match fuel with
  | O => None
  | S fuel =>
      let ulen := Z.of_nat (length buf) in
      if ulen <=? i then Some [] else
      if ulen <? i + bh_size then Some [] else
      hdrlen ← rdh16 buf (i + bh_hdrlen_at);
      caplen ← rdh32 buf (i + bh_caplen_at);
      let pkt_offset := i + hdrlen in
      let advance := BPF_WORDALIGN (wrap32 (hdrlen + caplen)) in
      if advance =? 0 then Some [] else
      if (ulen <? pkt_offset) || (ulen - pkt_offset <? caplen)
      then bpf_walk fuel buf (i + advance) else
      r ← bpf_msg buf pkt_offset caplen;
      rs ← bpf_walk fuel buf (i + advance);
      Some (r :: rs)
  end.

(** One buffer: every iteration advances by at least one byte. *)
Definition bpf_buffer (buf : list Z) : option (list rx) := bpf_walk (S (length buf)) buf 0.

Definition BPF_BUF : nat := 4096.

(** [nd_io_read]: interrupted calls are repeated. *)
Fixpoint nd_io_read (count : nat) (script : list (received unit)) : option (list Z) * list (received unit) :=
  match script with
  | [] => (None, [])
  | RIntr :: script => nd_io_read count script
  | RErr :: script => (None, script)
  | RData _ bytes :: script => (Some (take count bytes), script)
  end.

(** [ndL_io_handler]: reads until there is nothing left; the messages it hands to
    [ndL_handle_msg], for the interface of the handle.  Each iteration uses up at
    least one answer of [script]. *)
Fixpoint bpf_io_handler (fuel : nat) (script : list (received unit)) : option (list rx) :=
  match fuel with
  | O => None
  | S fuel =>
      match nd_io_read BPF_BUF script with
      | (None, _) => Some []
      | (Some buf, script) =>
          if (length buf =? 0)%nat then Some [] else
          rs ← bpf_buffer buf;
          rest ← bpf_io_handler fuel script;
          Some (rs ++ rest)
      end
  end.

(** ** Alignment *)

Lemma BPF_WORDALIGN_spec `{!BpfLayoutOk L} x :
  0 ≤ x → x ≤ BPF_WORDALIGN x < x + BPF_ALIGNMENT ∧ BPF_WORDALIGN x mod BPF_ALIGNMENT = 0.
Proof.
  intros Hx. pose proof bpf_align_pos.
  pose proof (Z.pow_pos_nonneg 2 bpf_align_log ltac:(done) ltac:(done)) as Hpos.
  assert (BPF_WORDALIGN x = (x + (BPF_ALIGNMENT - 1)) / BPF_ALIGNMENT * BPF_ALIGNMENT) as ->.
  { unfold BPF_WORDALIGN, BPF_ALIGNMENT. rewrite <- (Z.ldiff_land _ (2 ^ bpf_align_log - 1)).
    replace (2 ^ bpf_align_log - 1) with (Z.ones bpf_align_log) by (rewrite Z.ones_equiv; lia).
    by rewrite Z.ldiff_ones_r, Z.shiftl_mul_pow2, Z.shiftr_div_pow2. }
  fold BPF_ALIGNMENT in Hpos. split; [|apply Z_mod_mult].
  pose proof (Z.div_mod (x + (BPF_ALIGNMENT - 1)) BPF_ALIGNMENT ltac:(lia)).
  pose proof (Z.mod_pos_bound (x + (BPF_ALIGNMENT - 1)) BPF_ALIGNMENT Hpos). nia.
Qed.

(** A sum that is aligned already, or that wraps to zero, is what it is. *)
Lemma BPF_WORDALIGN_pos `{!BpfLayoutOk L} x : 0 ≤ x → BPF_WORDALIGN x ≠ 0 → 0 < BPF_WORDALIGN x.
Proof. intros Hx. pose proof (BPF_WORDALIGN_spec x Hx). lia. Qed.

(** ** Reads that succeed also succeed in a longer buffer *)

Lemma rd8_mono f g i b : rd8 f i = Some b → rd8 (f ++ g) i = Some b.
Proof. apply lookup_app_l_Some. Qed.

Lemma rd16_mono f g i x : rd16 f i = Some x → rd16 (f ++ g) i = Some x.
Proof.
  unfold rd16. destruct (rd8 f i) eqn:E; [|done]. destruct (rd8 f (i + 1)) eqn:E'; [|done].
  by rewrite (rd8_mono _ g _ _ E), (rd8_mono _ g _ _ E').
Qed.

Lemma rd_bytes_mono f g i n bs : rd_bytes f i n = Some bs → rd_bytes (f ++ g) i n = Some bs.
Proof.
  unfold rd_bytes. rewrite length_app. destruct (Z.leb_spec 0 i), (Z.leb_spec (i + n) (Z.of_nat (length f)));
    cbn [andb]; [|done..]. rewrite (proj2 (Z.leb_le _ _)) by lia. intros [= <-].
  destruct (decide (n ≤ 0)); [by replace (Z.to_nat n) with 0%nat by lia|].
  by rewrite drop_app_le, take_app_le by (rewrite ?length_drop; lia).
Qed.

Lemma rd_addr_mono f g i a : rd_addr f i = Some a → rd_addr (f ++ g) i = Some a.
Proof.
  unfold rd_addr. destruct (rd_bytes f i 16) eqn:E; [|done]. by rewrite (rd_bytes_mono _ g _ _ _ E).
Qed.

Lemma rd_ll_mono f g i a : rd_ll f i = Some a → rd_ll (f ++ g) i = Some a.
Proof.
  unfold rd_ll. destruct (rd_bytes f i 6) eqn:E; [|done]. by rewrite (rd_bytes_mono _ g _ _ _ E).
Qed.

Lemma bind_mono {A B} (m m' : option A) (k k' : A → option B) r :
  (∀ a, m = Some a → m' = Some a) → (∀ a, k a = Some r → k' a = Some r) →
  m ≫= k = Some r → m' ≫= k' = Some r.
Proof. intros Hm Hk. destruct m as [a|]; [|done]. rewrite (Hm a eq_refl). apply Hk. Qed.

Ltac mono_step :=
  first
    [ apply bind_mono; [solve [intros ?; eauto using rd8_mono, rd16_mono, rd_bytes_mono, rd_addr_mono, rd_ll_mono]
                       |intros ?]
    | match goal with |- (if ?b then _ else _) = _ → _ => destruct b; [done|] end ].

Lemma ns_options_mono fuel fuel' f g opts opts_len src_ll r :
  (fuel ≤ fuel')%nat → ns_options fuel f opts opts_len src_ll = Some r →
  ns_options fuel' (f ++ g) opts opts_len src_ll = Some r.
Proof.
  revert fuel' opts opts_len src_ll. induction fuel as [|fuel IH]; [done|].
  intros [|fuel'] opts opts_len src_ll Hle; [lia|]. cbn [ns_options].
  do 3 mono_step. mono_step. mono_step.
  apply bind_mono; [|intros ?; apply IH; lia]. intros ll. destruct (_ && _); [|done].
  rewrite !fmap_Some. intros (ll1 & Hl & ->). eauto using rd_ll_mono.
Qed.

Lemma parse_ns_mono f g ih len r : parse_ns f ih len = Some r → parse_ns (f ++ g) ih len = Some r.
Proof.
  unfold parse_ns. do 5 mono_step.
  match goal with |- (if ?b then _ else _) = _ → _ => destruct b; [done|] end.
  apply bind_mono; [intros x; apply ns_options_mono; rewrite length_app; lia|].
  intros [[ll|]|]; [done| |done]. apply bind_mono; [intros ?; apply rd_ll_mono|done].
Qed.

Lemma parse_icmp6_mono f g plen i r : parse_icmp6 f plen i = Some r → parse_icmp6 (f ++ g) plen i = Some r.
Proof.
  unfold parse_icmp6. do 9 mono_step.
  destruct (_ =? _); [apply parse_ns_mono|]. destruct (_ =? _); [|done].
  unfold parse_na. do 2 mono_step. done.
Qed.

Lemma parse_msg_mono f g r : parse_msg f = Some r → parse_msg (f ++ g) = Some r.
Proof.
  unfold parse_msg. do 2 mono_step. destruct (_ =? IPPROTO_HOPOPTS).
  - do 5 mono_step. apply parse_icmp6_mono.
  - mono_step. apply parse_icmp6_mono.
Qed.

(** ** A record and the frame in it *)

(** The checks on a record read what [parse_frame] reads from the frame alone. *)
Lemma bpf_msg_slice buf off caplen frame :
  Forall is_u8 frame → bytes_at buf off frame → caplen = Z.of_nat (length frame) →
  bpf_msg buf off caplen = parse_frame frame.
Proof.
  intros Hu8 (pre & post & -> & ->) ->. destruct (parse_frame_Some frame Hu8) as [r Hr]. rewrite Hr.
  revert Hr. unfold parse_frame, bpf_msg. rewrite Nat2Z.id, drop_app_length.
  do 5 mono_step. apply parse_msg_mono.
Qed.

(** Host-order reads inside the buffer give integers of their width. *)
Lemma rdh16_Some f i :
  Forall is_u8 f → 0 ≤ i → i + 2 ≤ Z.of_nat (length f) → ∃ x, rdh16 f i = Some x ∧ is_u16 x.
Proof.
  intros Hf Hi Hl. destruct (rd8_Some f i) as [b0 H0]; [lia|]. destruct (rd8_Some f (i + 1)) as [b1 H1]; [lia|].
  pose proof (rd8_u8 _ _ _ Hf H0). pose proof (rd8_u8 _ _ _ Hf H1).
  unfold rdh16. rewrite H0, H1. cbn [mbind option_bind]. eexists. split; [done|].
  unfold is_u8, is_u16, u8_max, u16_max in *. destruct host_order; lia.
Qed.

Lemma rdh32_Some f i :
  Forall is_u8 f → 0 ≤ i → i + 4 ≤ Z.of_nat (length f) → ∃ x, rdh32 f i = Some x ∧ is_u32 x.
Proof.
  intros Hf Hi Hl. destruct (rd8_Some f i) as [b0 H0]; [lia|]. destruct (rd8_Some f (i + 1)) as [b1 H1]; [lia|].
  destruct (rd8_Some f (i + 2)) as [b2 H2]; [lia|]. destruct (rd8_Some f (i + 3)) as [b3 H3]; [lia|].
  pose proof (rd8_u8 _ _ _ Hf H0). pose proof (rd8_u8 _ _ _ Hf H1).
  pose proof (rd8_u8 _ _ _ Hf H2). pose proof (rd8_u8 _ _ _ Hf H3).
  unfold rdh32. rewrite H0, H1, H2, H3. cbn [mbind option_bind]. eexists. split; [done|].
  unfold is_u8, is_u32, u8_max, u32_max in *. destruct host_order; lia.
Qed.

(** The frame inside bounds that were checked. *)
Lemma slice_at (f : list Z) off n :
  0 ≤ off → 0 ≤ n → off + n ≤ Z.of_nat (length f) →
  ∃ l, bytes_at f off l ∧ Z.of_nat (length l) = n ∧ (Forall is_u8 f → Forall is_u8 l).
Proof.
  intros Ho Hn Hl. exists (take (Z.to_nat n) (drop (Z.to_nat off) f)). split_and!.
  - exists (take (Z.to_nat off) f), (drop (Z.to_nat n) (drop (Z.to_nat off) f)).
    rewrite !take_drop, length_take. split; [done|lia].
  - rewrite length_take, length_drop. lia.
  - intros Hf. by apply Forall_take, Forall_drop.
Qed.

(** ** The walk *)

(** [rs] are the messages of frames that lie inside [buf]. *)
Definition captured (buf : list Z) (rs : list rx) : Prop :=
  Forall (λ r, ∃ off frame, bytes_at buf off frame ∧ parse_frame frame = Some r) rs.

Lemma bpf_walk_captured `{!BpfLayoutOk L} buf fuel i :
  Forall is_u8 buf → 0 ≤ i → Z.max 0 (Z.of_nat (length buf) - i) < Z.of_nat fuel →
  ∃ rs, bpf_walk fuel buf i = Some rs ∧ captured buf rs.
Proof.
  intros Hf. revert i. induction fuel as [|fuel IH]; intros i Hi Hfuel.
  { lia. }
  pose proof bh_caplen_in. pose proof bh_hdrlen_in. cbn [bpf_walk].
  destruct (Z.leb_spec (Z.of_nat (length buf)) i); [exists []; split; [done|apply List.Forall_nil]|].
  destruct (Z.ltb_spec (Z.of_nat (length buf)) (i + bh_size)); [exists []; split; [done|apply List.Forall_nil]|].
  destruct (rdh16_Some buf (i + bh_hdrlen_at)) as (hdrlen & -> & [Hh _]); [done|lia..|].
  destruct (rdh32_Some buf (i + bh_caplen_at)) as (caplen & -> & [Hc _]); [done|lia..|].
  cbn [mbind option_bind]. pose proof (wrap32_range (hdrlen + caplen)) as [Hw _].
  destruct (Z.eqb_spec (BPF_WORDALIGN (wrap32 (hdrlen + caplen))) 0) as [|Hadv]; [exists []; split; [done|apply List.Forall_nil]|].
  apply BPF_WORDALIGN_pos in Hadv; [|done].
  destruct (IH (i + BPF_WORDALIGN (wrap32 (hdrlen + caplen)))) as (rs & -> & Hrs); [lia..|].
  destruct (Z.ltb_spec (Z.of_nat (length buf)) (i + hdrlen)); [by exists rs|].
  destruct (Z.ltb_spec (Z.of_nat (length buf) - (i + hdrlen)) caplen); [by exists rs|]. cbn [orb].
  destruct (slice_at buf (i + hdrlen) caplen) as (frame & Hat & Hlen & Hu8); [lia..|].
  specialize (Hu8 Hf). destruct (parse_frame_Some frame Hu8) as [r Hr].
  rewrite (bpf_msg_slice _ _ _ frame), Hr by done. cbn [mbind option_bind].
  exists (r :: rs). split; [done|]. apply List.Forall_cons; eauto.
Qed.

(** ** The buffer of a [read]

    A record is its header, of [bh_hdrlen] bytes, and the captured frame; the
    next record starts at the next multiple of [BPF_ALIGNMENT]. *)

Definition record_wf (r : list Z * list Z) : Prop :=
  let '(hdr, frame) := r in
  bytes_at hdr bh_hdrlen_at (h16 (Z.of_nat (length hdr))) ∧
  bytes_at hdr bh_caplen_at (h32 (Z.of_nat (length frame))) ∧
  Z.of_nat (length hdr) < u16_max ∧ Z.of_nat (length hdr) + Z.of_nat (length frame) < u32_max ∧
  bh_size ≤ Z.of_nat (length hdr) + Z.of_nat (length frame) ∧ Forall is_u8 frame.

Definition record_len (r : list Z * list Z) : Z := Z.of_nat (length r.1) + Z.of_nat (length r.2).

Fixpoint records_bytes (rs : list (list Z * list Z)) : list Z :=
  match rs with
  | [] => []
  | [(hdr, frame)] => hdr ++ frame
  | (hdr, frame) :: rs =>
      hdr ++ frame ++
      replicate (Z.to_nat (BPF_WORDALIGN (record_len (hdr, frame)) - record_len (hdr, frame))) 0 ++
      records_bytes rs
  end.

Lemma bytes_at_in f off l off' l' :
  bytes_at f off l → bytes_at l off' l' → bytes_at f (off + off') l'.
Proof.
  intros (pre & post & -> & ->) (pre' & post' & -> & ->).
  exists (pre ++ pre'), (post' ++ post). rewrite length_app, <- !app_assoc. split; [done|lia].
Qed.

(** One iteration on a record that the kernel wrote. *)
Lemma bpf_walk_record `{!BpfLayoutOk L} fuel buf i hdr frame :
  record_wf (hdr, frame) → bytes_at buf i (hdr ++ frame) →
  bpf_walk (S fuel) buf i =
    (r ← parse_frame frame;
     rs ← bpf_walk fuel buf (i + BPF_WORDALIGN (record_len (hdr, frame)));
     Some (r :: rs)).
Proof.
  intros (Hhl & Hcl & Hh16 & Hsum & Hsize & Hu8) Hat. pose proof (bytes_at_fits _ _ _ Hat) as [Hi Hfit].
  rewrite length_app in Hfit. destruct (bytes_at_app _ _ _ _ Hat) as [Hhdr Hframe].
  pose proof bh_caplen_in. pose proof bh_hdrlen_in.
  cbn [bpf_walk]. rewrite (proj2 (Z.leb_gt _ _)), (proj2 (Z.ltb_ge _ _)) by lia.
  assert (is_u16 (Z.of_nat (length hdr))) by (split; lia).
  assert (is_u32 (Z.of_nat (length frame))) by (unfold is_u32 in *; lia).
  rewrite (rdh16_at _ _ _ ltac:(eassumption) (bytes_at_in _ _ _ _ _ Hhdr Hhl)).
  rewrite (rdh32_at _ _ _ ltac:(eassumption) (bytes_at_in _ _ _ _ _ Hhdr Hcl)).
  cbn [mbind option_bind]. rewrite wrap32_small by (unfold is_u32; lia).
  change (_ + Z.of_nat (length frame)) with (record_len (hdr, frame)).
  pose proof (BPF_WORDALIGN_spec (record_len (hdr, frame)) ltac:(unfold record_len; lia)) as [Hal _].
  assert (0 < record_len (hdr, frame)) by (unfold record_len in *; cbn [fst snd]; lia).
  rewrite (proj2 (Z.eqb_neq _ _)), (proj2 (Z.ltb_ge _ _)), (proj2 (Z.ltb_ge _ _)) by lia.
  cbn [orb]. by rewrite (bpf_msg_slice _ _ _ frame).
Qed.

Lemma bpf_walk_end fuel buf i : Z.of_nat (length buf) ≤ i → bpf_walk (S fuel) buf i = Some [].
Proof. intros Hi. cbn [bpf_walk]. by rewrite (proj2 (Z.leb_le _ _)). Qed.

Lemma bpf_walk_records `{!BpfLayoutOk L} rs fuel buf i :
  Forall record_wf rs → bytes_at buf i (records_bytes rs) →
  Z.of_nat (length buf) = i + Z.of_nat (length (records_bytes rs)) →
  Z.of_nat (length (records_bytes rs)) < Z.of_nat fuel →
  bpf_walk fuel buf i = mapM (λ r, parse_frame r.2) rs.
Proof.
  pose proof bh_caplen_in. intros Hwf. revert fuel i. induction Hwf as [|[hdr frame] rs Hr Hrs IH].
  - intros [|fuel] i _ Hlen; cbn [records_bytes length] in *; [lia|]. intros _. apply bpf_walk_end. lia.
  - pose proof Hr as (_ & _ & _ & _ & Hsize & _).
    pose proof (BPF_WORDALIGN_spec (record_len (hdr, frame)) ltac:(unfold record_len; lia)) as [Hal _].
    intros [|fuel] i Hat Hlen Hfuel; [cbn [length]; lia|]. cbn [mapM snd].
    destruct rs as [|r' rs].
    + cbn [records_bytes] in *. rewrite length_app in *. unfold record_len in *. cbn [fst snd] in *.
      rewrite (bpf_walk_record _ _ _ hdr frame) by done.
      destruct fuel as [|fuel]; [lia|]. unfold record_len; cbn [fst snd]. by rewrite bpf_walk_end by lia.
    + change (records_bytes ((hdr, frame) :: r' :: rs)) with
        (hdr ++ frame ++ replicate (Z.to_nat (BPF_WORDALIGN (record_len (hdr, frame)) - record_len (hdr, frame))) 0
         ++ records_bytes (r' :: rs)) in *.
      set (tail := records_bytes (r' :: rs)) in *. set (adv := BPF_WORDALIGN _) in *.
      rewrite !length_app, length_replicate in *. unfold record_len in *. cbn [fst snd] in *.
      rewrite (bpf_walk_record _ _ _ hdr frame); [|done|].
      2:{ rewrite !app_assoc, <- (app_assoc (hdr ++ frame)) in Hat. by apply bytes_at_app in Hat as [Hat _]. }
      change (BPF_WORDALIGN (record_len (hdr, frame))) with adv.
      rewrite (IH fuel (i + adv)); [done| |lia..].
      apply bytes_at_app in Hat as [_ Hat]. apply bytes_at_app in Hat as [_ Hat].
      apply bytes_at_app in Hat as [_ Hat]. rewrite length_replicate in Hat.
      eapply bytes_at_off; [done|]. lia.
Qed.
End bpf.
