(* ===== verification/RtSocket.v ===== *)
(** * The routing socket (src/rt.c, BSD)

    The kernel reports routes, addresses and interfaces in messages of its own
    layout: a header, [struct rt_msghdr] or [struct ifa_msghdr], followed by the
    socket addresses whose bits are set in a mask.  These layouts and the
    numbers in them are the operating system's and are collected in the class
    [RtLayout]; what <net/route.h> guarantees of them is [RtLayoutOk].  As in
    Netlink.v a read outside the received bytes is [None], and the messages are
    reduced to the updates [nl_msg] that both systems make. *)
From S2P Require Import Prelude Addr World Monad Packet Netlink NetlinkSpec.

Class RtLayout := {
  (** [sizeof(struct rt_msghdr)] and the offsets of its fields; the first four
      bytes are those of [ndL_msghdr_t] *)
  rtm_size : Z;
  rtm_index_at : Z;
  rtm_pid_at : Z;
  rtm_flags_at : Z;
  rtm_addrs_at : Z;
  (** [rtm_tableid], which FreeBSD does not have *)
  rtm_tableid_at : option Z;
  (** [sizeof(struct ifa_msghdr)] and its fields *)
  ifam_size : Z;
  ifam_index_at : Z;
  ifam_addrs_at : Z;
  (** [sizeof(struct sockaddr_dl)] *)
  sdl_size : Z;
  (** [RTAX_MAX], [RTM_VERSION], [AF_INET6], [AF_LINK], [RTF_PROTO3], [RTM_IFINFO],
      [RTM_IFANNOUNCE] *)
  RTAX_MAX : nat;
  RTM_VERSION : Z;
  BSD_AF_INET6 : Z;
  BSD_AF_LINK : Z;
  RTF_PROTO3_bit : Z;
  BSD_RTM_IFINFO : Z;
  BSD_RTM_IFANNOUNCE : option Z }.

(** Numbers that are the same everywhere. *)
Definition BSD_RTM_ADD : Z := 1.
Definition BSD_RTM_DELETE : Z := 2.
Definition BSD_RTM_GET : Z := 4.
Definition BSD_RTM_NEWADDR : Z := 12.
Definition BSD_RTM_DELADDR : Z := 13.
Definition RTAX_DST : nat := 0.
Definition RTAX_GATEWAY : nat := 1.
Definition RTAX_NETMASK : nat := 2.
Definition RTAX_IFA : nat := 5.
Definition RTF_UP : Z := 1.
(** [sizeof(u_long)], [sizeof(struct sockaddr_in6)], [offsetof(struct sockaddr_in6, sin6_addr)] *)
Definition U_LONG : Z := 8.
Definition SIN6_SIZE : Z := 28.
Definition SIN6_ADDR : Z := 8.
(** [sizeof(ndL_msghdr_t)] and the offset of its [type] *)
Definition MSGHDR_SIZE : Z := 4.
Definition MSGHDR_TYPE : Z := 3.

(** [(x + sizeof(u_long) - 1) & ~(sizeof(u_long) - 1)] *)
Definition roundup_long (x : Z) : Z := Z.land (x + U_LONG - 1) (Z.lnot (U_LONG - 1)).

Section rt.
Context {BO : ByteOrder} {L : RtLayout}.

(** ** Received messages *)

(** [ndL_get_rtas] for the indices from [i] on: the offset of each address that
    is present.  [sa_len] is the first byte of a socket address, [sa_family] the
    second. *)
Fixpoint ndL_get_rtas (n : nat) (i : Z) (f : list Z) (addrs sa : Z) : option (list (option Z)) :=
  match n with
  | O => Some []
  | S n =>
      if Z.testbit addrs i then
        sa_len ← rd8 f sa;
        rtas ← ndL_get_rtas n (i + 1) f addrs (sa + roundup_long sa_len);
        Some (Some sa :: rtas)
      else
        rtas ← ndL_get_rtas n (i + 1) f addrs sa;
        Some (None :: rtas)
  end.

(** [rtas[k]] *)
Definition rta (rtas : list (option Z)) (k : nat) : option Z := mjoin (rtas !! k).

(** The prefix length of the netmask, zero without one. *)
Definition rta_pflen (f : list Z) (rtas : list (option Z)) : option Z :=
  match rta rtas RTAX_NETMASK with
  | None => Some 0
  | Some netmask => mask ← rd_addr f (netmask + SIN6_ADDR); Some (nd_mask_to_pflen mask)
  end.

(** [hdr->rtm_tableid], or 0 on FreeBSD. *)
Definition rtm_table (f : list Z) (hdr : Z) : option Z :=
  match rtm_tableid_at with
  | None => Some 0
  | Some off => rdh16 f (hdr + off)
  end.

(** [ndL_handle_rt] up to the update of the table. *)
Definition ndL_handle_rt (f : list Z) (hdr : Z) : option nl_msg :=
  addrs ← rdh32 f (hdr + rtm_addrs_at);
  rtas ← ndL_get_rtas RTAX_MAX 0 f addrs (hdr + rtm_size);
  match rta rtas RTAX_DST with
  | None => Some NlIgnore
  | Some dst_sa =>
      family ← rd8 f (dst_sa + 1);
      if negb (family =? BSD_AF_INET6) then Some NlIgnore else
      pflen ← rta_pflen f rtas;
      dst ← rd_addr f (dst_sa + SIN6_ADDR);
      index ← rdh16 f (hdr + rtm_index_at);
      table ← rtm_table f hdr;
      flags ← rdh32 f (hdr + rtm_flags_at);
      let route := mk_route dst index pflen table (Z.testbit flags RTF_PROTO3_bit) in
      type ← rd8 f (hdr + MSGHDR_TYPE);
      Some (if (type =? BSD_RTM_GET) || (type =? BSD_RTM_ADD) then NlNewRoute route
            else if type =? BSD_RTM_DELETE then NlDelRoute route
            else NlIgnore)
  end.

(** [ndL_handle_ifa] up to the update of the table. *)
Definition ndL_handle_ifa (f : list Z) (hdr : Z) : option nl_msg :=
  addrs ← rdh32 f (hdr + ifam_addrs_at);
  rtas ← ndL_get_rtas RTAX_MAX 0 f addrs (hdr + ifam_size);
  match rta rtas RTAX_IFA with
  | None => Some NlIgnore
  | Some ifa_sa =>
      family ← rd8 f (ifa_sa + 1);
      if negb (family =? BSD_AF_INET6) then Some NlIgnore else
      pflen ← rta_pflen f rtas;
      ifa ← rd_addr f (ifa_sa + SIN6_ADDR);
      type ← rd8 f (hdr + MSGHDR_TYPE);
      index ← rdh16 f (hdr + ifam_index_at);
      Some (if type =? BSD_RTM_NEWADDR then NlNewAddr index ifa pflen
            else if type =? BSD_RTM_DELADDR then NlDelAddr index ifa pflen
            else NlIgnore)
  end.

(** The [switch] of [ndL_handle]. *)
Definition bsd_handle_msg (f : list Z) (hdr type : Z) : option nl_msg :=
  if (type =? BSD_RTM_ADD) || (type =? BSD_RTM_GET) || (type =? BSD_RTM_DELETE)
  then ndL_handle_rt f hdr
  else if (type =? BSD_RTM_NEWADDR) || (type =? BSD_RTM_DELADDR) then ndL_handle_ifa f hdr
  else if (type =? BSD_RTM_IFINFO) || bool_decide (BSD_RTM_IFANNOUNCE = Some type) then Some NlLink
  else Some NlIgnore.

(** The loop of [ndL_handle] from offset [i] on: what the messages ask for, in
    order.  Every iteration consumes at least four bytes. *)
Fixpoint bsd_handle (fuel : nat) (f : list Z) (i : Z) : option (list nl_msg) :=
  match fuel with
  | O => None
  | S fuel =>
      let buflen := Z.of_nat (length f) in
      if buflen <=? i then Some [] else
      if buflen <? i + MSGHDR_SIZE then Some [] else
      msglen ← rdh16 f i;
      if (msglen <? MSGHDR_SIZE) || (buflen - i <? msglen) then Some [] else
      type ← rd8 f (i + MSGHDR_TYPE);
      m ← bsd_handle_msg f i type;
      ms ← bsd_handle fuel f (i + msglen);
      Some (m :: ms)
  end.

Definition ndL_handle (f : list Z) : option (list nl_msg) := bsd_handle (S (length f)) f 0.

(** ** Requests *)

(** A struct of [size] zero bytes with initialisers at offsets. *)
Definition poke (b : Z * list Z) (l : list Z) : list Z :=
  take (Z.to_nat b.1) l ++ b.2 ++ drop (Z.to_nat b.1 + length b.2) l.

Definition struct_bytes (size : Z) (inits : list (Z * list Z)) : list Z :=
  foldr poke (replicate (Z.to_nat size) 0) inits.

(** [struct rt_msghdr] with the fields the requests set. *)
Definition rt_msghdr (msglen type pid flags addrs index table : Z) : list Z :=
  struct_bytes rtm_size
    ([(0, h16 msglen); (2, [RTM_VERSION]); (MSGHDR_TYPE, [type]); (rtm_index_at, h16 index);
      (rtm_pid_at, h32 pid); (rtm_flags_at, h32 flags); (rtm_addrs_at, h32 addrs)] ++
     match rtm_tableid_at with Some off => [(off, h16 table)] | None => [] end).

(** [struct sockaddr_in6] with its length, family and address, followed by the
    padding up to a multiple of [sizeof(u_long)]. *)
Definition sockaddr_in6 (addr : nd_addr) : list Z :=
  [SIN6_SIZE; BSD_AF_INET6; 0; 0; 0; 0; 0; 0] ++ addr_bytes addr ++ [0; 0; 0; 0] ++
  replicate (Z.to_nat (roundup_long SIN6_SIZE - SIN6_SIZE)) 0.

(** [struct sockaddr_dl] with its length, family and index, padded likewise. *)
Definition sockaddr_dl (index : Z) : list Z :=
  [sdl_size; BSD_AF_LINK] ++ h16 index ++ replicate (Z.to_nat (roundup_long sdl_size - 4)) 0.

(** [RTA_DST | RTA_GATEWAY | RTA_NETMASK] and [RTA_DST | RTA_NETMASK] *)
Definition add_addrs : Z := Z.lor 1 (Z.lor 2 4).
Definition remove_addrs : Z := Z.lor 1 4.

(** The message of [nd_rt_add_route]. *)
Definition add_route_msg (pid : Z) (dst : nd_addr) (pflen oif table : Z) : list Z :=
  let body := sockaddr_in6 dst ++ sockaddr_dl oif ++ sockaddr_in6 (nd_mask_from_pflen pflen) in
  rt_msghdr (rtm_size + Z.of_nat (length body)) BSD_RTM_ADD pid
    (Z.lor RTF_UP (Z.shiftl 1 RTF_PROTO3_bit)) add_addrs oif table ++ body.

(** The message of [nd_rt_remove_route]. *)
Definition remove_route_msg (pid : Z) (dst : nd_addr) (pflen table : Z) : list Z :=
  let body := sockaddr_in6 dst ++ sockaddr_in6 (nd_mask_from_pflen pflen) in
  rt_msghdr (rtm_size + Z.of_nat (length body)) BSD_RTM_DELETE pid 0 remove_addrs 0 table ++ body.
End rt.

(** ** What the system headers guarantee *)

Section layout.
Context {L : RtLayout}.

(** The fields of [struct rt_msghdr] that are used, with their sizes. *)
Definition rtm_fields : list (Z * Z) :=
  [(0, 2); (2, 1); (MSGHDR_TYPE, 1); (rtm_index_at, 2); (rtm_pid_at, 4); (rtm_flags_at, 4); (rtm_addrs_at, 4)] ++
  match rtm_tableid_at with Some off => [(off, 2)] | None => [] end.

Definition apart (a b : Z * Z) : bool := (a.1 + a.2 <=? b.1) || (b.1 + b.2 <=? a.1).

Fixpoint all_apart (fs : list (Z * Z)) : bool :=
  match fs with
  | [] => true
  | f :: fs => forallb (apart f) fs && all_apart fs
  end.

(** The fields do not overlap and lie inside the struct, which is a multiple of
    [sizeof(u_long)] long; message types do not collide. *)
Class RtLayoutOk : Prop := {
  rtm_fields_in : forallb (λ f, (0 <=? f.1) && (f.1 + f.2 <=? rtm_size)) rtm_fields = true;
  rtm_fields_apart : all_apart rtm_fields = true;
  rtm_size_long : rtm_size mod U_LONG = 0;
  rtm_size_small : rtm_size < 1024;
  sdl_size_in : 4 ≤ sdl_size < 256;
  rtax_max : (6 ≤ RTAX_MAX ≤ 31)%nat;
  rtf_proto3 : 0 < RTF_PROTO3_bit < 31;
  ifinfo_new : BSD_RTM_IFINFO ∉ [BSD_RTM_ADD; BSD_RTM_DELETE; BSD_RTM_GET; BSD_RTM_NEWADDR; BSD_RTM_DELADDR] }.
End layout.
Arguments RtLayoutOk : clear implicits.
