(* ===== verification/RtSocketSpec.v ===== *)
(** * What the messages of the routing socket say

    The messages of <net/route.h> as data ([bsd_note]), their bytes, what they
    are meant to make the daemon do ([bsd_meaning]), and the proof that
    [ndL_handle] reads exactly that out of the bytes, as long as every socket
    address has a length and the IPv6 ones are complete. *)
From S2P Require Import Prelude Addr World Monad Packet Netlink NetlinkSpec Bpf RtSocket.

(** ** Rounding *)

Lemma roundup_long_spec x : x ≤ roundup_long x < x + 8.
Proof.
  unfold roundup_long, U_LONG. change (8 - 1) with (Z.ones 3).
  rewrite <- Z.ldiff_land, Z.ldiff_ones_r, Z.shiftl_mul_pow2, Z.shiftr_div_pow2 by done. zlia.
Qed.

Section spec.
Context {BO : ByteOrder} {L : RtLayout}.

(** ** Socket addresses *)

Definition sa_padded (sa : list Z) : list Z :=
  sa ++ replicate (Z.to_nat (roundup_long (Z.of_nat (length sa)) - Z.of_nat (length sa))) 0.

Definition sas_bytes (sas : list (option (list Z))) : list Z :=
  concat (map (λ sa, match sa with Some sa => sa_padded sa | None => [] end) sas).

(** The first byte is the length of the address. *)
Definition sa_wf (sa : option (list Z)) : Prop :=
  match sa with Some sa => ∃ rest, sa = Z.of_nat (length sa) :: rest | None => True end.

(** The mask [rtm_addrs] names the addresses that are there, from bit [i] on. *)
Definition addrs_mask (addrs i : Z) (sas : list (option (list Z))) : Prop :=
  ∀ k sa, sas !! k = Some sa → Z.testbit addrs (i + Z.of_nat k) = bool_decide (is_Some sa).

(** The address of index [k], if it is there. *)
Definition sa_of (sas : list (option (list Z))) (k : nat) : option (list Z) := mjoin (sas !! k).

Definition is_in6 (sa : list Z) : bool := bool_decide (sa !! 1%nat = Some BSD_AF_INET6).

(** The IPv6 address in a socket address. *)
Definition in6_addr (sa : list Z) : nd_addr :=
  match rd_addr sa SIN6_ADDR with Some a => a | None => addr_zero end.

Definition sas_pflen (sas : list (option (list Z))) : Z :=
  match sa_of sas RTAX_NETMASK with Some m => nd_mask_to_pflen (in6_addr m) | None => 0 end.

(** A socket address that holds an IPv6 address in full. *)
Definition sa_complete (sa : list Z) : Prop := SIN6_ADDR + 16 ≤ Z.of_nat (length sa).

(** ** Messages *)

Inductive bsd_note :=
  | BRoute (hdr : list Z) (type index flags table : Z) (sas : list (option (list Z)))
  | BAddr (hdr : list Z) (is_new : bool) (index : Z) (sas : list (option (list Z)))
  | BLink (hdr : list Z)
  | BOther (hdr : list Z) (type : Z).

Definition bsd_note_bytes (n : bsd_note) : list Z :=
  match n with
  | BRoute hdr _ _ _ _ sas | BAddr hdr _ _ sas => hdr ++ sas_bytes sas
  | BLink hdr | BOther hdr _ => hdr
  end.

Definition bsd_note_type (n : bsd_note) : Z :=
  match n with
  | BRoute _ type _ _ _ _ => type
  | BAddr _ is_new _ _ => if is_new then BSD_RTM_NEWADDR else BSD_RTM_DELADDR
  | BLink _ => BSD_RTM_IFINFO
  | BOther _ type => type
  end.

Definition bsd_meaning (n : bsd_note) : nl_msg :=
  match n with
  | BRoute _ type index flags table sas =>
      match sa_of sas RTAX_DST with
      | Some sa =>
          if negb (is_in6 sa) then NlIgnore else
          let route := mk_route (in6_addr sa) index (sas_pflen sas) table (Z.testbit flags RTF_PROTO3_bit) in
          if type =? BSD_RTM_DELETE then NlDelRoute route else NlNewRoute route
      | None => NlIgnore
      end
  | BAddr _ is_new index sas =>
      match sa_of sas RTAX_IFA with
      | Some sa =>
          if negb (is_in6 sa) then NlIgnore else
          (if is_new then NlNewAddr else NlDelAddr) index (in6_addr sa) (sas_pflen sas)
      | None => NlIgnore
      end
  | BLink _ => NlLink
  | BOther _ _ => NlIgnore
  end.

(** The addresses of a message, named by its mask; if the one the message is about
    is an IPv6 address, then it and the netmask are complete. *)
Definition sas_wf (addrs : Z) (key : nat) (sas : list (option (list Z))) : Prop :=
  length sas = RTAX_MAX ∧ Forall sa_wf sas ∧ addrs_mask addrs 0 sas ∧
  ∀ sa, sa_of sas key = Some sa →
    (2 ≤ length sa)%nat ∧
    (is_in6 sa = true → sa_complete sa ∧ ∀ m, sa_of sas RTAX_NETMASK = Some m → sa_complete m).

(** The fields of the header are where the layout says. *)
Definition bsd_note_wf (n : bsd_note) : Prop :=
  let len := Z.of_nat (length (bsd_note_bytes n)) in
  is_u16 len ∧ bytes_at (bsd_note_bytes n) 0 (h16 len) ∧
  bytes_at (bsd_note_bytes n) MSGHDR_TYPE [bsd_note_type n] ∧
  match n with
  | BRoute hdr type index flags table sas =>
      type ∈ [BSD_RTM_ADD; BSD_RTM_GET; BSD_RTM_DELETE] ∧
      Z.of_nat (length hdr) = rtm_size ∧
      is_u16 index ∧ bytes_at hdr rtm_index_at (h16 index) ∧
      is_u32 flags ∧ bytes_at hdr rtm_flags_at (h32 flags) ∧
      match rtm_tableid_at with
      | Some off => is_u16 table ∧ bytes_at hdr off (h16 table)
      | None => table = 0
      end ∧
      ∃ addrs, is_u32 addrs ∧ bytes_at hdr rtm_addrs_at (h32 addrs) ∧ sas_wf addrs RTAX_DST sas
  | BAddr hdr _ index sas =>
      Z.of_nat (length hdr) = ifam_size ∧
      is_u16 index ∧ bytes_at hdr ifam_index_at (h16 index) ∧
      ∃ addrs, is_u32 addrs ∧ bytes_at hdr ifam_addrs_at (h32 addrs) ∧ sas_wf addrs RTAX_IFA sas
  | BLink _ => True
  | BOther _ type =>
      type ∉ [BSD_RTM_ADD; BSD_RTM_DELETE; BSD_RTM_GET; BSD_RTM_NEWADDR; BSD_RTM_DELADDR; BSD_RTM_IFINFO] ∧
      BSD_RTM_IFANNOUNCE ≠ Some type
  end.

(** ** Reading the addresses *)

(** [rtas] points at the addresses [sas] inside [f]. *)
Definition points_at (f : list Z) (rtas : list (option Z)) (sas : list (option (list Z))) : Prop :=
  Forall2 (λ r sa, match r, sa with
                   | Some off, Some sa => bytes_at f off sa
                   | None, None => True
                   | _, _ => False
                   end) rtas sas.

Lemma get_rtas_points f addrs sas i sa :
  Forall sa_wf sas → addrs_mask addrs i sas → bytes_at f sa (sas_bytes sas) →
  ∃ rtas, ndL_get_rtas (length sas) i f addrs sa = Some rtas ∧ points_at f rtas sas.
Proof.
  intros Hwf. revert i sa. induction Hwf as [|[b|] sas Hb Hsas IH]; intros i sa Hmask Hat.
  - by exists []; split; [|constructor].
  - pose proof (Hmask 0%nat _ eq_refl) as Hbit. rewrite Z.add_0_r in Hbit. cbn [length ndL_get_rtas].
    rewrite Hbit. destruct Hb as [rest Hb].
    change (sas_bytes (Some b :: sas)) with (sa_padded b ++ sas_bytes sas) in Hat.
    apply bytes_at_app in Hat as [Hsa Hat]. apply bytes_at_app in Hsa as [Hsa _].
    pose proof Hsa as Hlen. rewrite Hb in Hlen. rewrite (rd8_at0 _ _ _ _ Hlen). cbn [mbind option_bind].
    pose proof (roundup_long_spec (Z.of_nat (length b))).
    destruct (IH (i + 1) (sa + roundup_long (Z.of_nat (length b)))) as (rtas & Hr & Hp).
    + intros k x Hk. specialize (Hmask (S k) x Hk). rewrite <- Hmask. f_equal. lia.
    + eapply bytes_at_off; [done|]. unfold sa_padded. rewrite length_app, length_replicate. lia.
    + rewrite Hr. exists (Some sa :: rtas). split; [done|]. by constructor.
  - pose proof (Hmask 0%nat _ eq_refl) as Hbit. rewrite Z.add_0_r in Hbit. cbn [length ndL_get_rtas].
    rewrite Hbit. cbn [bool_decide decide_rel].
    destruct (IH (i + 1) sa) as (rtas & Hr & Hp).
    + intros k x Hk. specialize (Hmask (S k) x Hk). rewrite <- Hmask. f_equal. lia.
    + done.
    + rewrite Hr. exists (None :: rtas). split; [done|]. by constructor.
Qed.

Lemma points_at_rta f rtas sas k :
  points_at f rtas sas →
  match rta rtas k, sa_of sas k with
  | Some off, Some sa => bytes_at f off sa
  | None, None => True
  | _, _ => False
  end.
Proof.
  intros Hp. unfold rta, sa_of. revert k.
  induction Hp as [|r sa rtas sas Hr Hp IH]; intros [|k]; [done..| |apply IH].
  cbn [lookup list_lookup mjoin option_join]. by destruct r, sa.
Qed.

(** The IPv6 address of a complete socket address inside [f]. *)
Lemma rd_in6 f off sa :
  bytes_at f off sa → sa_complete sa →
  rd_addr f (off + SIN6_ADDR) = Some (in6_addr sa).
Proof.
  unfold sa_complete. intros (pre & post & -> & ->) Hlen. unfold in6_addr.
  destruct (rd_addr_Some sa SIN6_ADDR ltac:(done) Hlen) as [a Ha]. rewrite Ha.
  unfold rd_addr in *. destruct (rd_bytes sa SIN6_ADDR 16) as [bs|] eqn:Hbs; [|done]. rewrite <- Ha.
  replace (rd_bytes (pre ++ sa ++ post) (Z.of_nat (length pre) + SIN6_ADDR) 16) with (Some bs); [done|].
  symmetry. apply (rd_bytes_mono _ post) in Hbs. revert Hbs. unfold rd_bytes, SIN6_ADDR in *.
  rewrite !length_app. destruct (Z.leb_spec (8 + 16) (Z.of_nat (length sa + length post))); [|done].
  rewrite (proj2 (Z.leb_le _ _)), (proj2 (Z.leb_le _ _)) by lia. cbn [andb].
  replace (Z.to_nat (Z.of_nat (length pre) + 8)) with (length pre + Z.to_nat 8)%nat by lia.
  rewrite drop_app_add, (proj2 (Z.leb_le (Z.of_nat (length pre) + 8 + 16) _)) by lia. done.
Qed.

Lemma rd_family f off sa :
  bytes_at f off sa → (2 ≤ length sa)%nat →
  ∃ fam, rd8 f (off + 1) = Some fam ∧ (fam =? BSD_AF_INET6) = is_in6 sa.
Proof.
  intros Hat Hlen. destruct (rd8_Some sa 1) as [fam Hfam]; [lia|].
  exists fam. split; [by eapply rd8_at|]. unfold is_in6, rd8 in *. change (Z.to_nat 1) with 1%nat in Hfam.
  rewrite Hfam. destruct (Z.eqb_spec fam BSD_AF_INET6) as [-> |Hne]; [by rewrite bool_decide_eq_true_2|].
  symmetry. apply bool_decide_eq_false_2. by intros [= ?].
Qed.

Lemma rta_pflen_spec f rtas sas :
  points_at f rtas sas → (∀ m, sa_of sas RTAX_NETMASK = Some m → sa_complete m) →
  rta_pflen f rtas = Some (sas_pflen sas).
Proof.
  intros Hp Hc. pose proof (points_at_rta f rtas sas RTAX_NETMASK Hp) as Hr. unfold rta_pflen, sas_pflen.
  destruct (rta rtas RTAX_NETMASK) as [off|], (sa_of sas RTAX_NETMASK) as [m|]; try done.
  by rewrite (rd_in6 _ _ m) by auto.
Qed.

(** ** Reading the messages *)

(** A field of the header of a message inside [f]. *)
Lemma field_at f i hdr body off b :
  bytes_at f i (hdr ++ body) → bytes_at hdr off b → bytes_at f (i + off) b.
Proof. intros Hat Hb. apply bytes_at_app in Hat as [Hat _]. by eapply bytes_at_in. Qed.

(** The addresses of a message inside [f], and what is read of them. *)
Lemma read_sas f sa addrs key sas :
  sas_wf addrs key sas → bytes_at f sa (sas_bytes sas) →
  ∃ rtas, ndL_get_rtas RTAX_MAX 0 f addrs sa = Some rtas ∧
    match sa_of sas key with
    | None => rta rtas key = None
    | Some b => ∃ off fam, rta rtas key = Some off ∧ rd8 f (off + 1) = Some fam ∧
        (fam =? BSD_AF_INET6) = is_in6 b ∧
        (is_in6 b = true → rta_pflen f rtas = Some (sas_pflen sas) ∧
           rd_addr f (off + SIN6_ADDR) = Some (in6_addr b))
    end.
Proof.
  intros (Hlen & Hwf & Hmask & Hkey) Hat.
  destruct (get_rtas_points f addrs sas 0 sa Hwf Hmask Hat) as (rtas & Hr & Hp). rewrite Hlen in Hr.
  exists rtas. split; [done|]. pose proof (points_at_rta f rtas sas key Hp) as Hk.
  destruct (rta rtas key) as [off|], (sa_of sas key) as [b|]; try done.
  destruct (Hkey b eq_refl) as [H2 Hin6]. destruct (rd_family f off b Hk H2) as (fam & Hfam & Heq).
  exists off, fam. split_and!; [done..|]. intros Hb. destruct (Hin6 Hb) as [Hc Hm].
  split; [by apply rta_pflen_spec|by apply rd_in6].
Qed.

Lemma ndL_handle_rt_spec f i hdr type index flags table sas :
  bsd_note_wf (BRoute hdr type index flags table sas) →
  bytes_at f i (hdr ++ sas_bytes sas) →
  ndL_handle_rt f i = Some (bsd_meaning (BRoute hdr type index flags table sas)).
Proof.
  intros (_ & _ & Hty & Htype & Hhdr & Hi16 & Hix & Hf32 & Hfl & Htab & addrs & Ha32 & Had & Hsas) Hat.
  cbn [bsd_note_bytes bsd_note_type] in Hty.
  unfold ndL_handle_rt. rewrite (rdh32_at f (i + rtm_addrs_at) addrs Ha32) by (by eapply field_at).
  destruct (bytes_at_app _ _ _ _ Hat) as [_ Hbody]. rewrite Hhdr in Hbody. cbn [mbind option_bind].
  destruct (read_sas f (i + rtm_size) addrs RTAX_DST sas Hsas Hbody) as (rtas & -> & Hdst).
  cbn [mbind option_bind bsd_meaning]. destruct (sa_of sas RTAX_DST) as [b|]; [|by rewrite Hdst].
  destruct Hdst as (off & fam & -> & -> & Hfam & Hin6). cbn [mbind option_bind]. rewrite Hfam.
  destruct (is_in6 b); cbn [negb]; [|done]. destruct (Hin6 eq_refl) as [-> ->]. cbn [mbind option_bind].
  rewrite (rdh16_at f (i + rtm_index_at) index Hi16) by (by eapply field_at).
  assert (rtm_table f i = Some table) as ->.
  { unfold rtm_table. destruct rtm_tableid_at as [o|]; [|by rewrite Htab].
    destruct Htab as [? ?]. apply rdh16_at; [done|]. by eapply field_at. }
  rewrite (rdh32_at f (i + rtm_flags_at) flags Hf32) by (by eapply field_at).
  rewrite (rd8_at0 f (i + MSGHDR_TYPE) type []) by (by eapply bytes_at_in).
  cbn [mbind option_bind]. f_equal. rewrite !elem_of_cons, elem_of_nil in Htype.
  destruct Htype as [-> |[-> |[-> |[]]]]; done.
Qed.

Lemma ndL_handle_ifa_spec f i hdr is_new index sas :
  bsd_note_wf (BAddr hdr is_new index sas) →
  bytes_at f i (hdr ++ sas_bytes sas) →
  ndL_handle_ifa f i = Some (bsd_meaning (BAddr hdr is_new index sas)).
Proof.
  intros (_ & _ & Hty & Hhdr & Hi16 & Hix & addrs & Ha32 & Had & Hsas) Hat.
  cbn [bsd_note_bytes bsd_note_type] in Hty.
  unfold ndL_handle_ifa. rewrite (rdh32_at f (i + ifam_addrs_at) addrs Ha32) by (by eapply field_at).
  destruct (bytes_at_app _ _ _ _ Hat) as [_ Hbody]. rewrite Hhdr in Hbody. cbn [mbind option_bind].
  destruct (read_sas f (i + ifam_size) addrs RTAX_IFA sas Hsas Hbody) as (rtas & -> & Hifa).
  cbn [mbind option_bind bsd_meaning]. destruct (sa_of sas RTAX_IFA) as [b|]; [|by rewrite Hifa].
  destruct Hifa as (off & fam & -> & -> & Hfam & Hin6). cbn [mbind option_bind]. rewrite Hfam.
  destruct (is_in6 b); cbn [negb]; [|done]. destruct (Hin6 eq_refl) as [-> ->]. cbn [mbind option_bind].
  rewrite (rd8_at0 f (i + MSGHDR_TYPE) (if is_new then BSD_RTM_NEWADDR else BSD_RTM_DELADDR) [])
    by (by eapply bytes_at_in).
  rewrite (rdh16_at f (i + ifam_index_at) index Hi16) by (by eapply field_at).
  cbn [mbind option_bind]. by destruct is_new.
Qed.

Lemma bsd_handle_msg_spec `{!RtLayoutOk L} f i n :
  bsd_note_wf n → bytes_at f i (bsd_note_bytes n) →
  bsd_handle_msg f i (bsd_note_type n) = Some (bsd_meaning n).
Proof.
  intros Hwf Hat. unfold bsd_handle_msg. destruct n as [hdr type index flags table sas|hdr is_new index sas|hdr|hdr type].
  - cbn [bsd_note_type]. pose proof Hwf as (_ & _ & _ & Htype & _).
    assert ((type =? BSD_RTM_ADD) || (type =? BSD_RTM_GET) || (type =? BSD_RTM_DELETE) = true) as ->.
    { rewrite !elem_of_cons, elem_of_nil in Htype. by destruct Htype as [-> |[-> |[-> |[]]]]. }
    by apply ndL_handle_rt_spec.
  - cbn [bsd_note_type].
    replace ((_ || _) || _) with false by (by destruct is_new).
    replace (_ || _) with true by (by destruct is_new). by apply ndL_handle_ifa_spec.
  - cbn [bsd_note_type bsd_meaning]. pose proof ifinfo_new as Hnew. rewrite !not_elem_of_cons in Hnew.
    destruct Hnew as (H1 & H2 & H3 & H4 & H5 & _).
    rewrite !(proj2 (Z.eqb_neq _ _)) by done. by rewrite Z.eqb_refl.
  - destruct Hwf as (_ & _ & _ & Hnot & Hann). cbn [bsd_note_type bsd_meaning].
    rewrite !not_elem_of_cons in Hnot. destruct Hnot as (H1 & H2 & H3 & H4 & H5 & H6 & _).
    rewrite !(proj2 (Z.eqb_neq _ _)) by done. by rewrite bool_decide_eq_false_2.
Qed.

Lemma bsd_handle_spec `{!RtLayoutOk L} notes fuel f i :
  Forall bsd_note_wf notes → bytes_at f i (concat (map bsd_note_bytes notes)) →
  Z.of_nat (length f) = i + Z.of_nat (length (concat (map bsd_note_bytes notes))) →
  Z.of_nat (length (concat (map bsd_note_bytes notes))) < Z.of_nat fuel →
  bsd_handle fuel f i = Some (map bsd_meaning notes).
Proof.
  intros Hwf. revert fuel i. induction Hwf as [|n notes Hn Hnotes IH]; intros [|fuel] i Hat Hlen Hfuel;
    cbn [map concat length] in *; try lia; cbn [bsd_handle].
  - by rewrite (proj2 (Z.leb_le _ _)) by lia.
  - pose proof Hn as (H16 & Hml & Hty & _). rewrite length_app in *.
    apply bytes_at_app in Hat as [Hn_at Hat].
    assert (MSGHDR_SIZE ≤ Z.of_nat (length (bsd_note_bytes n))) as H4.
    { destruct (bytes_at_fits _ _ _ Hty) as [_ Hfit]. unfold MSGHDR_TYPE, MSGHDR_SIZE in *. cbn [length] in Hfit. lia. }
    assert (MSGHDR_SIZE = 4) as E4 by done.
    rewrite (proj2 (Z.leb_gt _ _)), (proj2 (Z.ltb_ge _ (i + _))) by lia.
    replace i with (i + 0) at 1 by lia. rewrite (rdh16_at _ _ _ H16) by (by eapply bytes_at_in).
    cbn [mbind option_bind]. rewrite !(proj2 (Z.ltb_ge _ _)) by lia. cbn [orb].
    rewrite (rd8_at0 f (i + MSGHDR_TYPE) (bsd_note_type n) []) by (by eapply bytes_at_in).
    cbn [mbind option_bind]. rewrite bsd_handle_msg_spec by done. cbn [mbind option_bind].
    by rewrite IH by (done || lia).
Qed.
End spec.

(** ** Initialised structs *)

Lemma bytes_at_take f off l :
  bytes_at f off l ↔ 0 ≤ off ∧ off + Z.of_nat (length l) ≤ Z.of_nat (length f) ∧
    take (length l) (drop (Z.to_nat off) f) = l.
Proof.
  split.
  - intros Hat. pose proof (bytes_at_fits _ _ _ Hat) as [? ?]. split_and!; [done..|].
    destruct Hat as (pre & post & -> & ->). by rewrite Nat2Z.id, drop_app_length, take_app_length.
  - intros (Ho & Hl & Ht). exists (take (Z.to_nat off) f), (drop (length l) (drop (Z.to_nat off) f)).
    rewrite <- Ht at 1. rewrite !take_drop, length_take. split; [done|lia].
Qed.

Section poke.
Context (b : Z * list Z) (l : list Z).
Context (Hb : 0 ≤ b.1) (Hl : b.1 + Z.of_nat (length b.2) ≤ Z.of_nat (length l)).

Lemma length_poke : length (poke b l) = length l.
Proof using Hb Hl. unfold poke. rewrite !length_app, length_take, length_drop. lia. Qed.

Lemma poke_at : bytes_at (poke b l) b.1 b.2.
Proof using Hb Hl.
  exists (take (Z.to_nat b.1) l), (drop (Z.to_nat b.1 + length b.2) l). rewrite length_take. split; [done|lia].
Qed.

Lemma poke_apart off x :
  apart (b.1, Z.of_nat (length b.2)) (off, Z.of_nat (length x)) = true →
  bytes_at l off x → bytes_at (poke b l) off x.
Proof using Hb Hl.
  rewrite !bytes_at_take, length_poke. unfold apart. cbn [fst snd].
  rewrite orb_true_iff, !Z.leb_le. intros Hap (Ho & Hx & Ht). split_and!; [done..|]. rewrite <- Ht at 2.
  unfold poke. destruct Hap as [Hap|Hap].
  - rewrite !drop_app_ge by (rewrite ?length_take; lia). rewrite drop_drop. do 2 f_equal.
    rewrite length_take. lia.
  - rewrite drop_app_le, take_app_le by (rewrite ?length_drop, ?length_take; lia).
    rewrite skipn_firstn_comm, take_take. f_equal. lia.
Qed.
End poke.

(** Every initialiser is found at its offset. *)
Lemma struct_bytes_at size inits :
  all_apart (map (λ b, (b.1, Z.of_nat (length b.2))) inits) = true →
  forallb (λ f, (0 <=? f.1) && (f.1 + f.2 <=? size)) (map (λ b, (b.1, Z.of_nat (length b.2))) inits) = true →
  0 ≤ size →
  Z.of_nat (length (struct_bytes size inits)) = size ∧
  ∀ b, b ∈ inits → bytes_at (struct_bytes size inits) b.1 b.2.
Proof.
  intros Hap Hin Hs. induction inits as [|b inits IH].
  { split; [unfold struct_bytes; cbn [foldr]; rewrite length_replicate; lia|]. intros b Hb. by apply elem_of_nil in Hb. }
  cbn [map all_apart forallb fst snd] in Hap, Hin.
  apply andb_true_iff in Hap as [Hb Hap]. apply andb_true_iff in Hin as [Hin0 Hin].
  apply andb_true_iff in Hin0 as [H0 H1]. apply Z.leb_le in H0, H1.
  destruct (IH Hap Hin) as [Hlen Hat]. change (struct_bytes size (b :: inits)) with (poke b (struct_bytes size inits)).
  rewrite length_poke by lia. split; [done|]. intros b' [-> |Hb']%elem_of_cons; [apply poke_at; lia|].
  apply poke_apart; [lia..| |by apply Hat]. rewrite forallb_forall in Hb. apply Hb.
  apply in_map_iff. exists b'. split; [done|]. by apply list_elem_of_In.
Qed.

(** ** The daemon's own requests *)

Section requests.
Context {BO : ByteOrder} {L : RtLayout} {LOk : RtLayoutOk L}.

Lemma rtm_size_ge : 4 ≤ rtm_size.
Proof.
  pose proof rtm_fields_in as H. unfold rtm_fields in H. cbn [app forallb fst snd] in H.
  repeat (apply andb_true_iff in H as [? H]). unfold MSGHDR_TYPE in *.
  repeat match goal with Hb : _ && _ = true |- _ => apply andb_true_iff in Hb as [? ?] end.
  repeat match goal with Hb : (_ <=? _) = true |- _ => apply Z.leb_le in Hb end. lia.
Qed.

Lemma rt_msghdr_at msglen type pid flags addrs index table :
  let hdr := rt_msghdr msglen type pid flags addrs index table in
  Z.of_nat (length hdr) = rtm_size ∧
  bytes_at hdr 0 (h16 msglen) ∧ bytes_at hdr MSGHDR_TYPE [type] ∧
  bytes_at hdr rtm_index_at (h16 index) ∧ bytes_at hdr rtm_flags_at (h32 flags) ∧
  bytes_at hdr rtm_addrs_at (h32 addrs) ∧
  match rtm_tableid_at with Some off => bytes_at hdr off (h16 table) | None => True end.
Proof.
  intros hdr. unfold rt_msghdr in hdr. set (inits := _ ++ _) in hdr.
  assert (map (λ b : Z * list Z, (b.1, Z.of_nat (length b.2))) inits = rtm_fields) as Hf.
  { unfold inits, rtm_fields. rewrite map_app. cbn [map fst snd length]. rewrite !length_h16, !length_h32.
    destruct rtm_tableid_at; cbn [map fst snd]; [by rewrite length_h16|done]. }
  pose proof rtm_size_ge.
  destruct (struct_bytes_at rtm_size inits) as [Hlen Hat];
    [rewrite Hf; apply rtm_fields_apart|rewrite Hf; apply rtm_fields_in|lia|].
  assert (∀ off b, (off, b) ∈ inits → bytes_at hdr off b) as Hat' by (intros off b Hb; apply (Hat (off, b) Hb)).
  split; [done|]. unfold inits in Hat'. split_and!; try (apply Hat'; set_solver).
  destruct rtm_tableid_at; [apply Hat'; set_solver|done].
Qed.

(** The socket addresses of the requests, without their padding. *)
Definition sin6 (addr : nd_addr) : list Z :=
  [SIN6_SIZE; BSD_AF_INET6; 0; 0; 0; 0; 0; 0] ++ addr_bytes addr ++ [0; 0; 0; 0].
Definition sdl (index : Z) : list Z :=
  [sdl_size; BSD_AF_LINK] ++ h16 index ++ replicate (Z.to_nat (sdl_size - 4)) 0.

Lemma length_sin6 addr : length (sin6 addr) = 28%nat.
Proof. unfold sin6. by rewrite !length_app, length_addr_bytes. Qed.

Lemma length_sdl index : Z.of_nat (length (sdl index)) = sdl_size.
Proof.
  pose proof sdl_size_in. unfold sdl. rewrite !length_app, length_h16, length_replicate. cbn [length]. lia.
Qed.

Lemma sockaddr_in6_padded addr : sockaddr_in6 addr = sa_padded (sin6 addr).
Proof. unfold sockaddr_in6, sa_padded. rewrite length_sin6. unfold sin6. by rewrite <- !app_assoc. Qed.

Lemma sockaddr_dl_padded index : sockaddr_dl index = sa_padded (sdl index).
Proof.
  pose proof sdl_size_in. pose proof (roundup_long_spec sdl_size).
  unfold sockaddr_dl, sa_padded. rewrite length_sdl. unfold sdl. rewrite <- !app_assoc. do 3 f_equal.
  rewrite <- replicate_add. f_equal. lia.
Qed.

Lemma in6_addr_sin6 addr : addr_wf addr → in6_addr (sin6 addr) = addr.
Proof.
  intros Ha. unfold in6_addr, sin6. rewrite (rd_addr_app [_; _; _; _; _; _; _; _]) by done. done.
Qed.

Lemma sin6_wf addr : sa_wf (Some (sin6 addr)).
Proof. unfold sa_wf. rewrite length_sin6. by eexists. Qed.

Lemma sdl_wf index : sa_wf (Some (sdl index)).
Proof. unfold sa_wf. rewrite length_sdl. by eexists. Qed.

Lemma mask_addr_wf pflen : 0 ≤ pflen ≤ 128 → addr_wf (nd_mask_from_pflen pflen).
Proof.
  intros Hp. assert (0 ≤ pflen < 129) as Hp' by lia. clear Hp. revert pflen Hp'.
  refine (range_decide 129 (λ p, addr_wf (nd_mask_from_pflen p)) _). destruct BO; vm_compute; reflexivity.
Qed.

Lemma h16_mod x : h16 x = h16 (x mod u16_max).
Proof.
  unfold h16, be16, u16_max. assert ((x mod 2 ^ 16) / 256 mod 256 = x / 256 mod 256) as -> by zlia.
  by assert ((x mod 2 ^ 16) mod 256 = x mod 256) as -> by zlia.
Qed.

(** [rtas] with the first three addresses, and none from the fourth on. *)
Definition three (dst gateway mask : option (list Z)) : list (option (list Z)) :=
  [dst; gateway; mask] ++ replicate (RTAX_MAX - 3) None.

Lemma length_three dst gateway mask : length (three dst gateway mask) = RTAX_MAX.
Proof. pose proof rtax_max. unfold three. rewrite length_app, length_replicate. cbn [length]. lia. Qed.

Lemma sas_bytes_three dst gateway mask :
  sas_bytes (three dst gateway mask) = sas_bytes [dst; gateway; mask].
Proof.
  unfold three, sas_bytes. rewrite map_app, concat_app.
  rewrite <- (app_nil_r (concat (map _ [dst; gateway; mask]))) at 2. f_equal.
  induction (RTAX_MAX - 3)%nat; [done|]. done.
Qed.

Lemma three_mask dst gateway mask addrs :
  0 ≤ addrs < 8 →
  Z.testbit addrs 0 = bool_decide (is_Some dst) → Z.testbit addrs 1 = bool_decide (is_Some gateway) →
  Z.testbit addrs 2 = bool_decide (is_Some mask) → addrs_mask addrs 0 (three dst gateway mask).
Proof.
  intros Ha H0 H1 H2 k sa Hk. destruct k as [|[|[|k]]]; [injection Hk as <-; done..|].
  rewrite Z.add_0_l, (testbit_u 3) by (done || lia).
  apply list_elem_of_lookup_2 with (i := k) in Hk. apply elem_of_replicate in Hk as [-> _]. done.
Qed.

(** The addresses of a request, which are complete. *)
Lemma three_wf dst pflen gateway addrs :
  0 ≤ addrs < 8 → sa_wf gateway →
  Z.testbit addrs 0 = true → Z.testbit addrs 1 = bool_decide (is_Some gateway) → Z.testbit addrs 2 = true →
  sas_wf addrs RTAX_DST (three (Some (sin6 dst)) gateway (Some (sin6 (nd_mask_from_pflen pflen)))).
Proof.
  intros Ha Hg H0 H1 H2. split; [apply length_three|]. split.
  { unfold three. repeat (apply List.Forall_cons; [first [apply sin6_wf|done]|]).
    apply Forall_replicate. done. }
  split; [by apply three_mask|]. intros sa [= <-]. rewrite length_sin6. split; [lia|]. intros _. unfold sa_complete.
  rewrite length_sin6. split; [done|]. intros m [= <-]. by rewrite length_sin6.
Qed.

Definition table_of (table : Z) : Z := match rtm_tableid_at with Some _ => table | None => 0 end.

(** A request of the daemon as a message of the kernel. *)
Lemma request_wf type pid flags addrs index table dst gateway pflen body :
  let sas := three (Some (sin6 dst)) gateway (Some (sin6 (nd_mask_from_pflen pflen))) in
  let hdr := rt_msghdr (rtm_size + Z.of_nat (length body)) type pid flags addrs index table in
  type ∈ [BSD_RTM_ADD; BSD_RTM_GET; BSD_RTM_DELETE] → is_u32 flags → is_u16 table →
  0 ≤ addrs < 8 → sa_wf gateway →
  Z.testbit addrs 0 = true → Z.testbit addrs 1 = bool_decide (is_Some gateway) → Z.testbit addrs 2 = true →
  body = sas_bytes sas → Z.of_nat (length body) < 1024 →
  bsd_note_wf (BRoute hdr type (index mod u16_max) flags (table_of table) sas).
Proof.
  intros sas hdr Htype Hfl Htab Ha Hg H0 H1 H2 -> Hlen.
  destruct (rt_msghdr_at (rtm_size + Z.of_nat (length (sas_bytes sas))) type pid flags addrs index table)
    as (Hsz & Hml & Hty & Hix & Hf & Had & Htb). fold hdr in Hsz, Hml, Hty, Hix, Hf, Had, Htb.
  pose proof rtm_size_small. pose proof rtm_size_ge.
  assert (∀ off b, bytes_at hdr off b → bytes_at (hdr ++ sas_bytes sas) off b) as Happ.
  { intros off b (pre & post & -> & ->). exists pre, (post ++ sas_bytes sas). by rewrite <- !app_assoc. }
  unfold bsd_note_wf. cbn [bsd_note_bytes bsd_note_type]. rewrite length_app, Nat2Z.inj_add, Hsz.
  split; [unfold is_u16, u16_max; lia|]. split_and!; [by apply Happ..|done|done| | | | | |].
  - by apply Z.mod_pos_bound.
  - by rewrite <- h16_mod.
  - done.
  - done.
  - unfold table_of. by destruct rtm_tableid_at.
  - exists addrs. split_and!; [unfold is_u32, u32_max; lia|done|]. by apply three_wf.
Qed.

Lemma sas_bytes_add dst oif pflen :
  sas_bytes (three (Some (sin6 dst)) (Some (sdl oif)) (Some (sin6 (nd_mask_from_pflen pflen)))) =
  sockaddr_in6 dst ++ sockaddr_dl oif ++ sockaddr_in6 (nd_mask_from_pflen pflen).
Proof.
  rewrite sas_bytes_three, !sockaddr_in6_padded, sockaddr_dl_padded. unfold sas_bytes. cbn [map concat].
  by rewrite app_nil_r.
Qed.

Lemma sas_bytes_remove dst pflen :
  sas_bytes (three (Some (sin6 dst)) None (Some (sin6 (nd_mask_from_pflen pflen)))) =
  sockaddr_in6 dst ++ sockaddr_in6 (nd_mask_from_pflen pflen).
Proof.
  rewrite sas_bytes_three, !sockaddr_in6_padded. unfold sas_bytes. cbn [map concat]. by rewrite app_nil_r.
Qed.

Lemma length_sockaddr_in6 addr : length (sockaddr_in6 addr) = 32%nat.
Proof. unfold sockaddr_in6. by rewrite !length_app, length_addr_bytes. Qed.

Lemma length_sockaddr_dl index : Z.of_nat (length (sockaddr_dl index)) < 264.
Proof.
  rewrite sockaddr_dl_padded. unfold sa_padded. rewrite length_app, length_replicate, length_sdl.
  pose proof (roundup_long_spec sdl_size). pose proof sdl_size_in. pose proof (length_sdl index). lia.
Qed.

(** The flags of [nd_rt_add_route]: the route is marked as the daemon's own. *)
Lemma own_flags : is_u32 (Z.lor RTF_UP (Z.shiftl 1 RTF_PROTO3_bit)) ∧
  Z.testbit (Z.lor RTF_UP (Z.shiftl 1 RTF_PROTO3_bit)) RTF_PROTO3_bit = true.
Proof.
  pose proof rtf_proto3. rewrite Z.lor_spec, Z.shiftl_spec, Z.sub_diag, orb_true_r by lia. split; [|done].
  apply (lor_lt_pow2 32); [done..|]. rewrite Z.shiftl_1_l.
  pose proof (Z.pow_lt_mono_r 2 RTF_PROTO3_bit 32 ltac:(done) ltac:(done) ltac:(lia)).
  pose proof (Z.pow_pos_nonneg 2 RTF_PROTO3_bit ltac:(done) ltac:(lia)). lia.
Qed.

Lemma sin6_is_in6 dst : is_in6 (sin6 dst) = true.
Proof. by apply bool_decide_eq_true_2. Qed.

(** What a request says when it is read as a message. *)
Lemma request_meaning hdr type index flags table dst gateway pflen :
  addr_wf dst → 0 ≤ pflen ≤ 128 →
  bsd_meaning (BRoute hdr type index flags table
                 (three (Some (sin6 dst)) gateway (Some (sin6 (nd_mask_from_pflen pflen))))) =
  let route := mk_route dst index pflen table (Z.testbit flags RTF_PROTO3_bit) in
  if type =? BSD_RTM_DELETE then NlDelRoute route else NlNewRoute route.
Proof.
  intros Hdst Hp. cbn [bsd_meaning]. unfold sas_pflen.
  change (sa_of (three _ _ _) RTAX_DST) with (Some (sin6 dst)).
  change (sa_of (three _ _ _) RTAX_NETMASK) with (Some (sin6 (nd_mask_from_pflen pflen))).
  cbn iota beta.
  rewrite sin6_is_in6, !in6_addr_sin6 by (done || by apply mask_addr_wf). cbn [negb].
  by rewrite (proj1 (mask_roundtrip_all pflen ltac:(lia))).
Qed.
End requests.
