(* ===== verification/BsdIface.v ===== *)
(** * Interfaces on BPF devices, and the routing socket at work (src/iface.c, src/rt.c, BSD)

    On the BSDs an interface owns a handle on /dev/bpf ([bpf_io]) through which
    frames are read and written; it is bound to the interface when it is opened,
    and [nd_iface_rebind_all] closes and reopens it when the interface has
    changed.  The state adds to the world the objects of io.c, the [bpf_io] of
    every interface (NULL where the map has none) and what was written. *)
From S2P Require Import Prelude Addr World Monad Packet Route Netlink Iface LinkedList Io Main Bpf RtSocket.

(** ** What the kernel answers *)

(** [sizeof(struct if_msghdr)], from <net/if.h> *)
Class IfLayout := ifm_size : Z.

(** [offsetof(struct sockaddr_dl, sdl_nlen)] and [sdl_data], [ETHER_ADDR_LEN],
    [sizeof(sysctl_buf)] *)
Definition SDL_NLEN : Z := 5.
Definition SDL_DATA : Z := 8.
Definition ETHER_ADDR_LEN : Z := 6.
Definition SYSCTL_BUF : Z := 512.

(** Whether the calls on a new BPF device succeed: [open], those of [ndL_create],
    the ioctls [BIOCSBLEN], [BIOCSETIF], [BIOCPROMISC], [BIOCIMMEDIATE], and
    [BIOCSETF] in [ndL_configure_filter]. *)
Record bpf_answers := mk_bpf_answers {
  ba_open : bool;
  ba_create : create_answers;
  ba_blen : bool;
  ba_setif : bool;
  ba_promisc : bool;
  ba_immediate : bool;
  ba_filter : bool }.

Record bsd_kernel := mk_bsd_kernel {
  (** [if_nametoindex] and [if_indextoname] *)
  bk_nametoindex : string → Z;
  bk_indextoname : Z → option string;
  (** a device opened for the interface of this name *)
  bk_bpf : string → bpf_answers;
  (** the reply to [sysctl(NET_RT_IFLIST)] for this index, at most [SYSCTL_BUF]
      bytes, and what was in the buffer before *)
  bk_iflist : Z → option (list Z);
  bk_stack : list Z }.

(** ** State *)

Record bsd := mk_bsd {
  b_world : world;
  b_io : io_state;
  (** [iface->bpf_io] *)
  b_bpf : gmap loc loc;
  (** [ndL_io] of rt.c *)
  b_rt : option loc;
  (** what was written to a handle, latest first *)
  b_written : list (loc * list Z) }.

#[export] Instance eta_bsd : Eta bsd := λ r,
  mk_bsd (b_world r) (b_io r) (b_bpf r) (b_rt r) (b_written r).
#[export] Instance set_b_world : Setter b_world := ltac:(derive_setter).
#[export] Instance set_b_io : Setter b_io := ltac:(derive_setter).
#[export] Instance set_b_bpf : Setter b_bpf := ltac:(derive_setter).
#[export] Instance set_b_rt : Setter b_rt := ltac:(derive_setter).
#[export] Instance set_b_written : Setter b_written := ltac:(derive_setter).

(** A computation on the world. *)
Definition on_w {A} (m : M A) (b : bsd) : res (A * bsd) :=
  '(a, w) ← lift m (b_world b);
  mret (a, b <| b_world := w |>).

(** A pointer that may be NULL. *)
Definition not_null {A} (p : option A) : res A :=
  match p with Some x => Done x | None => Crash NullDeref end.

Definition checked {A} (p : option A) : res A :=
  match p with Some x => Done x | None => Crash OutOfBounds end.

(** [io->data = (uintptr_t)iface] *)
Definition set_data (io : loc) (data : Z) (s : io_state) : res io_state :=
  n ← get (io_heap s) io;
  mret (s <| io_heap := <[io := mk_node (mk_io (io_fd (n_val n)) data (io_run (n_val n))) (n_next n)]> (io_heap s) |>).

(** [nd_io_write]: a failed write is only logged. *)
Definition nd_io_write (io : option loc) (data : list Z) (b : bsd) : res bsd :=
  io ← not_null io;
  _ ← get (io_heap (b_io b)) io;
  mret (b <| b_written := (io, data) :: b_written b |>).

Section bsd.
Context {BO : ByteOrder} {IL : IfLayout} {RL : RtLayout}.

(** ** Sending and closing *)

Definition bsd_send_icmp6 (iface : loc) (frame : nd_lladdr → list Z) (b : bsd) : res bsd :=
  '(i, b) ← on_w (load w_ifaces iface) b;
  if negb (i_up i) then mret b else
  nd_io_write (b_bpf b !! iface) (frame (i_lladdr i)) b.

Definition bsd_iface_close (iface : loc) (b : bsd) : res bsd :=
  '(_, b) ← on_w (update w_ifaces iface (λ i, i <| i_refcount := i_refcount i - 1 |>)) b;
  '(i, b) ← on_w (load w_ifaces iface) b;
  if 0 <? i_refcount i then mret b else
  s ← nd_io_close Poll (b_bpf b !! iface) (b_io b);
  let b := b <| b_io := s |> in
  '(_, b) ← on_w (modify (λ w, w <| w_first_iface := ll_delete iface (w_first_iface w) |>);;
                  free w_ifaces iface) b;
  mret (b <| b_bpf := delete iface (b_bpf b) |>).

(** [ND_LL_FOREACH_S]; [ndL_io] is not used. *)
Definition bsd_iface_cleanup (b : bsd) : res bsd :=
  run_all (λ l b,
    '(_, b) ← on_w (update w_ifaces l (λ i, i <| i_refcount := 1 |>)) b;
    bsd_iface_close l b) (w_first_iface (b_world b)) b.

(** ** The link-layer address *)

(** The reply of [NET_RT_IFLIST] is a [struct if_msghdr] and a [struct sockaddr_dl],
    whose address follows a name of [sdl_nlen] bytes ([LLADDR]).  The buffer is
    on the stack: beyond the reply it holds what was there.  [Some None] is a
    reply that is too short. *)
Definition iflist_lladdr (stack reply : list Z) : option (option nd_lladdr) :=
  if Z.of_nat (length reply) <? ifm_size + SDL_DATA + ETHER_ADDR_LEN then Some None else
  let sysctl_buf := reply ++ drop (length reply) stack in
  sdl_nlen ← rd8 sysctl_buf (ifm_size + SDL_NLEN);
  lladdr ← rd_ll sysctl_buf (ifm_size + SDL_DATA + sdl_nlen);
  Some (Some lladdr).

Section kernel.
Context (K : bsd_kernel).

(** ** A new handle *)

(** From [nd_io_open] to [BIOCIMMEDIATE]: an ioctl that fails closes the handle. *)
Definition bpf_open (name : string) (s : io_state) : res (option loc * io_state) :=
  let a := bk_bpf K name in
  '(io, s) ← nd_io_open Poll (ba_open a) (ba_create a) s;
  match io with
  | None => mret (None, s)
  | Some io =>
      s ← set_handler io PktHandler s;
      if ba_blen a && ba_setif a && ba_promisc a && ba_immediate a then mret (Some io, s) else
      s ← nd_io_close Poll (Some io) s;
      mret (None, s)
  end.

(** [ndL_configure_filter], after which the handle is kept or closed. *)
Definition bpf_filter (name : string) (io : loc) (s : io_state) : res (option loc * io_state) :=
  if ba_filter (bk_bpf K name) then mret (Some io, s) else
  s ← nd_io_close Poll (Some io) s;
  mret (None, s).

(** ** Opening *)

(** [sysctl] and the check of its reply, in [nd_iface_open]: the address, or the
    handle is closed. *)
Definition open_lladdr (index : Z) (io : loc) (s : io_state) : res (option nd_lladdr * io_state) :=
  r ← match bk_iflist K index with
      | None => mret None
      | Some reply => checked (iflist_lladdr (bk_stack K) reply)
      end;
  match r with
  | Some lladdr => mret (Some lladdr, s)
  | None => s ← nd_io_close Poll (Some io) s; mret (None, s)
  end.

(** The handle of a new interface with its address. *)
Definition bpf_device (name : string) (index : Z) (s : io_state) : res (option (loc * nd_lladdr) * io_state) :=
  '(io, s) ← bpf_open name s;
  match io with
  | None => mret (None, s)
  | Some io =>
      '(lladdr, s) ← open_lladdr index io s;
      match lladdr with
      | None => mret (None, s)
      | Some lladdr =>
          '(io, s) ← bpf_filter name io s;
          mret (match io with Some io => Some (io, lladdr) | None => None end, s)
      end
  end.

(** The new [nd_iface_t], on the list and tied to its handle. *)
Definition add_iface (name : string) (index : Z) (promiscuous : bool) (io : loc) (lladdr : nd_lladdr) (b : bsd)
    : res (loc * bsd) :=
  '(l, b) ← on_w (l ← alloc w_ifaces (mk_iface 1 name lladdr index true false None promiscuous);
                  modify (λ w, w <| w_first_iface := l :: w_first_iface w |>);;
                  mret l) b;
  s ← set_data io (Z.of_nat l) (b_io b);
  mret (l, b <| b_io := s |> <| b_bpf := <[l := io]> (b_bpf b) |>).

Definition bsd_open_resolved (name : string) (index : Z) (promiscuous : bool) (b : bsd)
    : res (option loc * bsd) :=
  '(found, b) ← on_w (ifaces ← gets w_first_iface;
                      ll_search ifaces (λ l, i ← load w_ifaces l; mret ((i_index i =? index) && i_up i))) b;
  match found with
  | Some l =>
      '(_, b) ← on_w (update w_ifaces l (λ i, i <| i_refcount := i_refcount i + 1 |>)) b;
      mret (Some l, b)
  | None =>
      '(dev, s) ← bpf_device name index (b_io b);
      let b := b <| b_io := s |> in
      match dev with
      | None => mret (None, b)
      | Some (io, lladdr) =>
          '(l, b) ← add_iface name index promiscuous io lladdr b;
          mret (Some l, b)
      end
  end.

Definition bsd_iface_open (name : option string) (index : Z) (promiscuous : bool) (b : bsd)
    : res (option loc * bsd) :=
  match name with
  | None =>
      if index =? 0 then mret (None, b) else
      match bk_indextoname K index with
      | None => mret (None, b)
      | Some tmp_name => bsd_open_resolved tmp_name index promiscuous b
      end
  | Some name =>
      let resolved := bk_nametoindex K name in
      if resolved =? 0 then mret (None, b)
      else if negb (index =? 0) && negb (index =? resolved) then mret (None, b)
      else bsd_open_resolved name resolved promiscuous b
  end.

(** ** Rebinding *)

(** The handle of an interface that has changed is closed and opened again. *)
Definition bpf_reopen (l : loc) (name : string) (cur : Z) (new_lladdr : nd_lladdr) (b : bsd) : res bsd :=
  s ← nd_io_close Poll (b_bpf b !! l) (b_io b);
  let b := b <| b_io := s |> <| b_bpf := delete l (b_bpf b) |> in
  '(io, s) ← bpf_open name (b_io b);
  let b := b <| b_io := s |> in
  match io with
  | None => mret b
  | Some io =>
      '(io, s) ← bpf_filter name io (b_io b);
      let b := b <| b_io := s |> in
      match io with
      | None => mret b
      | Some io =>
          s ← set_data io (Z.of_nat l) (b_io b);
          let b := b <| b_io := s |> <| b_bpf := <[l := io]> (b_bpf b) |> in
          '(_, b) ← on_w (update w_ifaces l (λ i, i <| i_index := cur |> <| i_lladdr := new_lladdr |>)) b;
          mret b
      end
  end.

(** The body of the loop of [nd_iface_rebind_all]. *)
Definition bsd_rebind_iface (l : loc) (b : bsd) : res bsd :=
  '(i, b) ← on_w (load w_ifaces l) b;
  let cur := bk_nametoindex K (i_name i) in
  if cur =? 0 then mret b else
  match bk_iflist K cur with
  | None => mret b
  | Some reply =>
      r ← checked (iflist_lladdr (bk_stack K) reply);
      match r with
      | None => mret b
      | Some new_lladdr =>
          let lladdr_changed := negb (nd_lladdr_eq (i_lladdr i) new_lladdr) in
          let index_changed := negb (cur =? i_index i) in
          if negb lladdr_changed && negb index_changed && bool_decide (is_Some (b_bpf b !! l)) then mret b else
          bpf_reopen l (i_name i) cur new_lladdr b
      end
  end.

Definition bsd_rebind_all (b : bsd) : res bsd :=
  run_all bsd_rebind_iface (w_first_iface (b_world b)) b.

(** ** The routing socket *)

Definition bsd_rt_open (socket : bool) (a : create_answers) (b : bsd) : res (bool * bsd) :=
  match b_rt b with
  | Some _ => mret (true, b)
  | None =>
      '(io, s) ← nd_io_socket Poll socket a (b_io b);
      let b := b <| b_io := s |> <| b_rt := io |> in
      match io with
      | None => mret (false, b)
      | Some io => s ← set_handler io RtHandler (b_io b); mret (true, b <| b_io := s |>)
      end
  end.

(** What one message does. *)
Definition bsd_apply (m : nl_msg) (b : bsd) : res bsd :=
  match m with
  | NlIgnore => mret b
  | NlNewAddr index addr pflen =>
      mret (b <| b_world := (b_world b) <| w_addrs := ndL_new_addr index addr pflen (w_addrs (b_world b)) |> |>)
  | NlDelAddr index addr pflen =>
      mret (b <| b_world := (b_world b) <| w_addrs := ndL_delete_addr index addr pflen (w_addrs (b_world b)) |> |>)
  | NlNewRoute route =>
      mret (b <| b_world := (b_world b) <| w_routes := ndL_new_route route (w_routes (b_world b)) |> |>)
  | NlDelRoute route =>
      mret (b <| b_world := (b_world b) <| w_routes := ndL_delete_route route (w_routes (b_world b)) |> |>)
  | NlLink => bsd_rebind_all b
  end.

Fixpoint bsd_apply_all (ms : list nl_msg) (b : bsd) : res bsd :=
  match ms with
  | [] => mret b
  | m :: ms => b ← bsd_apply m b; bsd_apply_all ms b
  end.

(** [ndL_handle(buf, buflen)] *)
Definition bsd_handle_buffer (buf : list Z) (b : bsd) : res bsd :=
  ms ← checked (ndL_handle buf);
  bsd_apply_all ms b.

(** [ndL_dump]: whether the first [sysctl] and [malloc] succeed, and what the
    second [sysctl] returns. *)
Definition ndL_dump (size_ok malloc_ok : bool) (data : option (list Z)) (b : bsd) : res (bool * bsd) :=
  if negb size_ok then mret (false, b) else
  if negb malloc_ok then mret (false, b) else
  match data with
  | None => mret (false, b)
  | Some buf => b ← bsd_handle_buffer buf b; mret (true, b)
  end.

(** [ndL_io_handler] of rt.c: each iteration uses up at least one answer. *)
Fixpoint bsd_rt_handler (fuel : nat) (script : list (received unit)) (b : bsd) : res bsd :=
  match fuel with
  | O => Spin
  | S fuel =>
      match nd_io_recv RT_BUF script with
      | (None, _) => mret b
      | (Some (_, buf), script) =>
          b ← bsd_handle_buffer buf b;
          bsd_rt_handler fuel script b
      end
  end.
End kernel.

Definition bsd_add_route (pid : Z) (dst : nd_addr) (pflen oif table : Z) (b : bsd) : res bsd :=
  nd_io_write (b_rt b) (add_route_msg pid dst pflen oif table) b.

Definition bsd_remove_route (pid : Z) (dst : nd_addr) (pflen table : Z) (b : bsd) : res bsd :=
  nd_io_write (b_rt b) (remove_route_msg pid dst pflen table) b.
End bsd.
