(* ===== verification/Counting.v ===== *)
(** * Counting references and hash tables

    The bookkeeping that the world invariant rests on: how many objects of a
    heap refer to an interface, and when the buckets of a hash table hold
    exactly the sessions of the heap. *)
From S2P Require Import Prelude Addr World Monad Packet Route Netlink Iface Session.

(** ** References from a heap *)

Section refs_in.
Context {A : Type} (f : A → option loc).

(** 1 when the object refers to [l]. *)
Definition ref_ind (x : A) (l : loc) : Z := if decide (f x = Some l) then 1 else 0.

(** The number of objects of the heap [m] that refer to [l]. *)
Definition refs_in (m : gmap loc A) (l : loc) : Z :=
  map_fold (λ _ x n, ref_ind x l + n) 0 m.

Lemma refs_in_empty l : refs_in ∅ l = 0.
Proof. done. Qed.

Lemma refs_in_new m k x l :
  m !! k = None → refs_in (<[k := x]> m) l = ref_ind x l + refs_in m l.
Proof.
  intros Hk. unfold refs_in. rewrite map_fold_insert_L; [done| |done]. intros. lia.
Qed.

Lemma refs_in_delete m k x l :
  m !! k = Some x → refs_in m l = ref_ind x l + refs_in (delete k m) l.
Proof.
  intros Hk. rewrite <- (insert_delete_id m k x Hk) at 1.
  apply refs_in_new, lookup_delete_eq.
Qed.

Lemma refs_in_update m k x y l :
  m !! k = Some x → refs_in (<[k := y]> m) l = refs_in m l - ref_ind x l + ref_ind y l.
Proof.
  intros Hk. rewrite (refs_in_delete m k x l Hk).
  rewrite <- insert_delete_eq. rewrite refs_in_new by apply lookup_delete_eq. lia.
Qed.

Lemma ref_ind_range x l : 0 ≤ ref_ind x l ≤ 1.
Proof. unfold ref_ind. case_decide; lia. Qed.

Lemma ref_ind_eq x l : f x = Some l → ref_ind x l = 1.
Proof. intros H. unfold ref_ind. by rewrite decide_True. Qed.

Lemma ref_ind_ne x l : f x ≠ Some l → ref_ind x l = 0.
Proof. intros H. unfold ref_ind. by rewrite decide_False. Qed.

Lemma refs_in_nonneg m l : 0 ≤ refs_in m l.
Proof.
  induction m as [|k x m Hk IH] using map_ind; [done|].
  rewrite refs_in_new by done. pose proof (ref_ind_range x l). lia.
Qed.

Lemma refs_in_pos m k x l : m !! k = Some x → f x = Some l → 0 < refs_in m l.
Proof.
  intros Hk Hx. rewrite (refs_in_delete m k x l Hk), (ref_ind_eq x l Hx).
  pose proof (refs_in_nonneg (delete k m) l). lia.
Qed.

Lemma refs_in_zero m l : refs_in m l = 0 → ∀ k x, m !! k = Some x → f x ≠ Some l.
Proof. intros H k x Hk Hx. pose proof (refs_in_pos m k x l Hk Hx). lia. Qed.

Lemma refs_in_none m l : (∀ k x, m !! k = Some x → f x = None) → refs_in m l = 0.
Proof.
  induction m as [|k x m Hk IH] using map_ind; [done|]. intros H.
  rewrite refs_in_new, ref_ind_ne, IH; [done| | |done].
  - intros k' x' Hk'. apply (H k'). rewrite lookup_insert_ne; [done|]. congruence.
  - by rewrite (H k x) by apply lookup_insert_eq.
Qed.

(** An update that keeps the reference keeps the count. *)
Lemma refs_in_same m k x y l :
  m !! k = Some x → f y = f x → refs_in (<[k := y]> m) l = refs_in m l.
Proof.
  intros Hk Hf. rewrite (refs_in_update m k x y l Hk).
  unfold ref_ind. rewrite Hf. lia.
Qed.
End refs_in.

(** References held by the running code itself: one per occurrence. *)
Definition tok (ex : list loc) (l : loc) : Z :=
  Z.of_nat (length (filter (λ k, k = l) ex)).

Lemma tok_cons k ex l : tok (k :: ex) l = (if decide (k = l) then 1 else 0) + tok ex l.
Proof.
  unfold tok. rewrite filter_cons. case_decide; [cbn [length]; lia|lia].
Qed.

Lemma tok_nonneg ex l : 0 ≤ tok ex l.
Proof. unfold tok. lia. Qed.

(** ** Hash tables *)

Section table.
Context {BO : ByteOrder} (seed : Z) (key : nd_session → nd_addr).

Definition bucket_index (a : nd_addr) : nat := Z.to_nat (NDL_BUCKET seed a).

(** Every bucket lists, once each, the sessions of [h] whose key hashes to it. *)
Definition table_ok (table : list (list loc)) (h : gmap loc nd_session) : Prop :=
  length table = Z.to_nat NDPPD_SESSION_BUCKETS ∧
  ∀ i bucket, table !! i = Some bucket →
    NoDup bucket ∧ ∀ l, l ∈ bucket ↔ ∃ s, h !! l = Some s ∧ bucket_index (key s) = i.

Lemma bucket_index_lt a : (bucket_index a < Z.to_nat NDPPD_SESSION_BUCKETS)%nat.
Proof.
  unfold bucket_index, NDL_BUCKET, NDPPD_SESSION_BUCKETS.
  pose proof (Z.mod_pos_bound (nd_addr_hash seed a) 64 ltac:(done)). lia.
Qed.

Section ops.
Context (table : list (list loc)) (h : gmap loc nd_session) (Hok : table_ok table h).

Lemma table_bucket a : ∃ bucket, table !! bucket_index a = Some bucket.
Proof. apply lookup_lt_is_Some. destruct Hok as [-> _]. apply bucket_index_lt. Qed.

Lemma table_bucket_total a l :
  l ∈ table !!! bucket_index a ↔ ∃ s, h !! l = Some s ∧ bucket_index (key s) = bucket_index a.
Proof.
  destruct (table_bucket a) as [b Hb]. rewrite (list_lookup_total_correct _ _ _ Hb).
  by apply Hok.
Qed.

Lemma table_bucket_NoDup a : NoDup (table !!! bucket_index a).
Proof.
  destruct (table_bucket a) as [b Hb]. rewrite (list_lookup_total_correct _ _ _ Hb).
  by apply (proj2 Hok (bucket_index a)).
Qed.

Lemma table_ok_new l s :
  h !! l = None → table_ok (alter (cons l) (bucket_index (key s)) table) (<[l := s]> h).
Proof.
  intros Hl. destruct Hok as [Hlen Hb]. split; [by rewrite length_alter|].
  intros i bucket Hi. destruct (decide (i = bucket_index (key s))) as [-> |Hne].
  - rewrite list_lookup_alter_eq in Hi. apply fmap_Some in Hi as (b & Hi & ->).
    destruct (Hb _ _ Hi) as [Hnd Hin]. split.
    + constructor; [|done]. rewrite Hin. intros (s' & Hs' & _). by rewrite Hl in Hs'.
    + intros l'. rewrite elem_of_cons, Hin. destruct (decide (l' = l)) as [-> |Hne].
      * rewrite lookup_insert_eq. split; [eauto|by left].
      * rewrite lookup_insert_ne by done. naive_solver.
  - rewrite list_lookup_alter_ne in Hi by done. destruct (Hb _ _ Hi) as [Hnd Hin].
    split; [done|]. intros l'. rewrite Hin. destruct (decide (l' = l)) as [-> |Hne'].
    + rewrite lookup_insert_eq, Hl. naive_solver.
    + by rewrite lookup_insert_ne by done.
Qed.

Lemma table_ok_delete l s :
  h !! l = Some s → table_ok (alter (ll_delete l) (bucket_index (key s)) table) (delete l h).
Proof.
  intros Hl. destruct Hok as [Hlen Hb]. split; [by rewrite length_alter|].
  intros i bucket Hi. destruct (decide (i = bucket_index (key s))) as [-> |Hne].
  - rewrite list_lookup_alter_eq in Hi. apply fmap_Some in Hi as (b & Hi & ->).
    destruct (Hb _ _ Hi) as [Hnd Hin]. split; [by apply NoDup_ll_delete|].
    intros l'. rewrite elem_of_ll_delete by done. rewrite Hin.
    destruct (decide (l' = l)) as [-> |Hne].
    + rewrite lookup_delete_eq. naive_solver.
    + rewrite lookup_delete_ne by done. naive_solver.
  - rewrite list_lookup_alter_ne in Hi by done. destruct (Hb _ _ Hi) as [Hnd Hin].
    split; [done|]. intros l'. rewrite Hin. destruct (decide (l' = l)) as [-> |Hne'].
    + rewrite lookup_delete_eq, Hl. naive_solver.
    + by rewrite lookup_delete_ne by done.
Qed.

Lemma table_ok_update l s s' :
  h !! l = Some s → key s' = key s → table_ok table (<[l := s']> h).
Proof.
  intros Hl Hkey. destruct Hok as [Hlen Hb]. split; [done|].
  intros i bucket Hi. destruct (Hb _ _ Hi) as [Hnd Hin]. split; [done|].
  intros l'. rewrite Hin. destruct (decide (l' = l)) as [-> |Hne].
  - rewrite lookup_insert_eq, Hl. split; intros (? & [= <-] & <-); eexists; split; eauto; congruence.
  - by rewrite lookup_insert_ne by done.
Qed.
End ops.

Lemma table_ok_empty : table_ok (replicate (Z.to_nat NDPPD_SESSION_BUCKETS) []) ∅.
Proof.
  split; [apply length_replicate|]. intros i bucket [-> _]%lookup_replicate.
  split; [constructor|]. intros l. rewrite elem_of_nil, lookup_empty. naive_solver.
Qed.
End table.
