(* ===== verification/Invariant.v ===== *)
(** * The invariant of the running daemon

    [base_inv ex w] is what every operation keeps, also half-way through a
    handler: the lists and the heaps agree, pointers are live, and the
    reference count of an interface is the number of proxies, rules and sessions
    that refer to it, plus [ex] references that the running code holds (or has
    given up ahead of clearing a pointer, when negative).  [world_inv w] is what
    holds between two handlers of the running daemon.  The parts are stated on
    the fields they depend on, so that they survive changes of other fields by
    conversion. *)
From S2P Require Import Prelude Addr World Monad Packet Route Netlink Iface Session Counting.

Section invariant.
Context {BO : ByteOrder}.
Implicit Types (w : world) (l : loc) (s : nd_session) (ex n : loc → Z).

(** ** Definitions *)

(** The indicator of one location, and no extra references. *)
Definition one l : loc → Z := λ k, if decide (k = l) then 1 else 0.
Definition none : loc → Z := λ _, 0.

Lemma none_nonneg k : 0 ≤ none k.
Proof. done. Qed.

(** [n l] references to the interface [l] exist. *)
Record iface_inv n (ifaces : gmap loc nd_iface) (first : list loc) (proxies : gmap loc nd_proxy)
    : Prop := {
  ii_nodup : NoDup first;
  ii_dom l : l ∈ first ↔ is_Some (ifaces !! l);
  ii_ref l i : ifaces !! l = Some i → i_refcount i = n l ∧ 1 ≤ n l;
  ii_live l : 0 < n l → is_Some (ifaces !! l);
  ii_proxy l i pl : ifaces !! l = Some i → i_proxy i = Some pl →
    ∃ p, proxies !! pl = Some p ∧ p_iface p = Some l }.

Record graph_inv (plist : list loc) (proxies : gmap loc nd_proxy) (rules : gmap loc nd_rule)
    : Prop := {
  gi_list : NoDup plist;
  gi_dom l : l ∈ plist ↔ is_Some (proxies !! l);
  gi_rule rl r : rules !! rl = Some r → is_Some (proxies !! r_proxy r);
  gi_rules pl p rl : proxies !! pl = Some p → rl ∈ p_rules p →
    ∃ r, rules !! rl = Some r ∧ r_proxy r = pl }.

(** What holds of a session from its creation on. *)
Record session_ok (rules : gmap loc nd_rule) s : Prop := {
  so_rule : ∃ r, rules !! s_rule s = Some r ∧
    s_tgt_r s = nd_addr_combine (r_rewrite_tgt r) (s_tgt s) (r_rewrite_pflen r) ∧
    (s_autowired s = true → r_autowire r = true);
  so_autowired : s_autowired s = true → s_iface s ≠ None;
  so_subs : Z.of_nat (length (s_subs s)) ≤ ND_SESSION_MAX_SUBS;
  so_subs_nodup : NoDup (s_subs s) }.

(** At most one session per target and proxy. *)
Definition sessions_unique (rules : gmap loc nd_rule) (sessions : gmap loc nd_session) : Prop :=
  ∀ l l' s s' r r',
    sessions !! l = Some s → sessions !! l' = Some s' →
    rules !! s_rule s = Some r → rules !! s_rule s' = Some r' →
    s_tgt s = s_tgt s' → r_proxy r = r_proxy r' → l = l'.

Record session_inv (seed : Z) (buckets buckets_r : list (list loc)) (count : Z)
    (sessions : gmap loc nd_session) (rules : gmap loc nd_rule) : Prop := {
  si_table : table_ok seed s_tgt buckets sessions;
  si_table_r : table_ok seed s_tgt_r buckets_r sessions;
  si_count : count = Z.of_nat (size sessions);
  si_max : count ≤ ND_SESSION_MAX;
  si_ok l s : sessions !! l = Some s → session_ok rules s;
  si_unique : sessions_unique rules sessions }.

Definition iface_refs w l : Z :=
  refs_in p_iface (w_proxies w) l + refs_in r_iface (w_rules w) l + refs_in s_iface (w_sessions w) l.

Record base_inv ex w : Prop := {
  bi_iface : iface_inv (λ l, iface_refs w l + ex l) (w_ifaces w) (w_first_iface w) (w_proxies w);
  bi_graph : graph_inv (w_proxy_list w) (w_proxies w) (w_rules w);
  bi_session : session_inv (w_hash_seed w) (w_buckets w) (w_buckets_r w) (w_session_count w)
                 (w_sessions w) (w_rules w);
  bi_pkt_io : w_pkt_io w = true }.

(** A rule after [nd_proxy_startup]. *)
Definition rule_ok (r : nd_rule) : Prop :=
  match r_mode r with
  | ND_MODE_UNKNOWN => False
  | ND_MODE_STATIC | ND_MODE_AUTO => r_iface r = None ∧ r_autowire r = false
  | ND_MODE_IFACE => r_iface r ≠ None
  end.

Record running (proxies : gmap loc nd_proxy) (rules : gmap loc nd_rule) (rt_io : bool) : Prop := {
  rn_proxy pl p : proxies !! pl = Some p → p_iface p ≠ None;
  rn_rule rl r : rules !! rl = Some r → rule_ok r;
  rn_rt_io : rt_io = true }.

(** The states and interfaces a session of the rule [r] can have. *)
Definition state_ok (r : nd_rule) s : Prop :=
  match r_mode r, s_iface s with
  | ND_MODE_STATIC, None => s_state s = ND_STATE_VALID
  | ND_MODE_STATIC, Some _ => False
  | ND_MODE_IFACE, None => s_state s = ND_STATE_VALID ∨ s_state s = ND_STATE_INVALID
  | ND_MODE_IFACE, Some l => r_iface r = Some l
  | ND_MODE_AUTO, None => s_state s = ND_STATE_INVALID
  | ND_MODE_AUTO, Some _ => True
  | ND_MODE_UNKNOWN, _ => False
  end.

(** ... for all sessions but the one that is being built. *)
Definition states_ok (hole : option loc) (sessions : gmap loc nd_session) (rules : gmap loc nd_rule)
    : Prop :=
  ∀ l s r, sessions !! l = Some s → rules !! s_rule s = Some r → hole ≠ Some l → state_ok r s.

(** The invariant with a predicate [R] on the parts that interface operations
    do not change; [live hole] is that of the running daemon. *)
Definition parts w := (w_proxies w, w_rules w, w_sessions w, w_rt_io w).

Definition inv_with (R : gmap loc nd_proxy * gmap loc nd_rule * gmap loc nd_session * bool → Prop) ex w
    : Prop :=
  base_inv ex w ∧ R (parts w).

Definition live (hole : option loc)
    (p : gmap loc nd_proxy * gmap loc nd_rule * gmap loc nd_session * bool) : Prop :=
  let '(proxies, rules, sessions, rt_io) := p in
  running proxies rules rt_io ∧ states_ok hole sessions rules.

(** ** Interfaces *)

Lemma iface_inv_ext n n' ifaces first proxies :
  (∀ l, n l = n' l) → iface_inv n ifaces first proxies → iface_inv n' ifaces first proxies.
Proof.
  intros Hn [? ? Href Hlive ?]. constructor; try done.
  - intros l i Hi. rewrite <- Hn. by apply Href.
  - intros l. rewrite <- Hn. by apply Hlive.
Qed.

Section iface_ops.
Context n ifaces first proxies (Hinv : iface_inv n ifaces first proxies).

(** A change of one interface that keeps [i_proxy]. *)
Lemma iface_inv_update l i i' n' :
  ifaces !! l = Some i → i_proxy i' = i_proxy i →
  i_refcount i' = n' l → 1 ≤ n' l → (∀ k, k ≠ l → n' k = n k) →
  iface_inv n' (<[l := i']> ifaces) first proxies.
Proof.
  intros Hi Hp Hr H1 Hn. destruct Hinv as [Hnd Hdom Href Hlive Hpr]. constructor.
  - done.
  - intros k. rewrite Hdom. destruct (decide (k = l)) as [-> |Hne].
    + rewrite lookup_insert_eq, Hi. by split; eauto.
    + by rewrite lookup_insert_ne.
  - intros k ik Hk. destruct (decide (k = l)) as [-> |Hne].
    + rewrite lookup_insert_eq in Hk. by simplify_eq.
    + rewrite lookup_insert_ne in Hk by done. rewrite Hn by done. by apply Href.
  - intros k Hpos. destruct (decide (k = l)) as [-> |Hne].
    + rewrite lookup_insert_eq. eauto.
    + rewrite lookup_insert_ne by done. apply Hlive. by rewrite <- Hn.
  - intros k ik pl Hk Hpl. destruct (decide (k = l)) as [-> |Hne].
    + rewrite lookup_insert_eq in Hk. simplify_eq. rewrite Hp in Hpl. eauto.
    + rewrite lookup_insert_ne in Hk by done. eauto.
Qed.

Lemma iface_inv_new l i n' :
  ifaces !! l = None → i_proxy i = None → i_refcount i = 1 → n' l = n l + 1 →
  (∀ k, 0 ≤ n k) → (∀ k, k ≠ l → n' k = n k) →
  iface_inv n' (<[l := i]> ifaces) (l :: first) proxies.
Proof.
  intros Hl Hp Hr Hnl Hpos Hn. destruct Hinv as [Hnd Hdom Href Hlive Hpr].
  assert (n l = 0) as H0.
  { destruct (Z_le_gt_dec (n l) 0); [specialize (Hpos l); lia|].
    destruct (Hlive l) as [i' Hi']; [lia|]. congruence. }
  constructor.
  - constructor; [|done]. rewrite Hdom, Hl. by intros [].
  - intros k. rewrite elem_of_cons, Hdom. destruct (decide (k = l)) as [-> |Hne].
    + rewrite lookup_insert_eq. by split; [eauto|left].
    + rewrite lookup_insert_ne by done. naive_solver.
  - intros k ik Hk. destruct (decide (k = l)) as [-> |Hne].
    + rewrite lookup_insert_eq in Hk. simplify_eq. lia.
    + rewrite lookup_insert_ne in Hk by done. rewrite Hn by done. by apply Href.
  - intros k Hk. destruct (decide (k = l)) as [-> |Hne].
    + rewrite lookup_insert_eq. eauto.
    + rewrite lookup_insert_ne by done. apply Hlive. by rewrite <- Hn.
  - intros k ik pl Hk Hpl. destruct (decide (k = l)) as [-> |Hne].
    + rewrite lookup_insert_eq in Hk. by simplify_eq.
    + rewrite lookup_insert_ne in Hk by done. eauto.
Qed.

Lemma iface_inv_delete l n' :
  n' l ≤ 0 → (∀ k, k ≠ l → n' k = n k) →
  iface_inv n' (delete l ifaces) (ll_delete l first) proxies.
Proof.
  intros Hl Hn. destruct Hinv as [Hnd Hdom Href Hlive Hpr]. constructor.
  - by apply NoDup_ll_delete.
  - intros k. rewrite elem_of_ll_delete by done. rewrite Hdom.
    destruct (decide (k = l)) as [-> |Hne].
    + rewrite lookup_delete_eq. by split; [intros [_ ?]|intros []].
    + rewrite lookup_delete_ne by done. naive_solver.
  - intros k ik [Hne Hk]%lookup_delete_Some. rewrite Hn by done. by apply Href.
  - intros k Hk. destruct (decide (k = l)) as [-> |Hne]; [lia|].
    rewrite lookup_delete_ne by done. apply Hlive. by rewrite <- Hn.
  - intros k ik pl [Hne Hk]%lookup_delete_Some Hpl. eauto.
Qed.
End iface_ops.

(** ** Sessions *)

Section session_ops.
Context seed buckets buckets_r count sessions rules
  (Hinv : session_inv seed buckets buckets_r count sessions rules).

Lemma session_inv_update l s s' :
  sessions !! l = Some s →
  s_tgt s' = s_tgt s → s_tgt_r s' = s_tgt_r s → s_rule s' = s_rule s → session_ok rules s' →
  session_inv seed buckets buckets_r count (<[l := s']> sessions) rules.
Proof.
  intros Hl Ht Htr Hr Hok. destruct Hinv as [H1 H2 H3 H4 H5 H6]. constructor.
  - by eapply table_ok_update.
  - by eapply table_ok_update.
  - by rewrite map_size_insert_Some by eauto.
  - done.
  - intros k sk [[<- <-]|[Hne Hk]]%lookup_insert_Some; [done|by eapply H5].
  - assert (∀ k sk, <[l := s']> sessions !! k = Some sk →
      ∃ sk', sessions !! k = Some sk' ∧ s_tgt sk' = s_tgt sk ∧ s_rule sk' = s_rule sk) as Hold.
    { intros k sk [[<- <-]|[Hne Hk]]%lookup_insert_Some; eauto. }
    intros k k' sk sk' r r' (sk1 & Hk & Ek & Erk)%Hold (sk2 & Hk' & Ek' & Erk')%Hold Hr1 Hr2 Htgt Hp.
    apply (H6 k k' sk1 sk2 r r'); congruence.
Qed.

Lemma session_inv_new l s r :
  sessions !! l = None → count < ND_SESSION_MAX → session_ok rules s →
  rules !! s_rule s = Some r →
  (∀ k sk rk, sessions !! k = Some sk → rules !! s_rule sk = Some rk →
     s_tgt sk = s_tgt s → r_proxy rk ≠ r_proxy r) →
  session_inv seed (alter (cons l) (bucket_index seed (s_tgt s)) buckets)
    (alter (cons l) (bucket_index seed (s_tgt_r s)) buckets_r) (count + 1) (<[l := s]> sessions) rules.
Proof.
  intros Hl Hc Hok Hr Hnew. destruct Hinv as [H1 H2 H3 H4 H5 H6]. constructor.
  - by apply table_ok_new.
  - by apply table_ok_new.
  - rewrite map_size_insert_None by done. lia.
  - lia.
  - intros k sk [[<- <-]|[Hne Hk]]%lookup_insert_Some; [done|by eapply H5].
  - intros k k' sk sk' rk rk' [[<- <-]|[Hne Hk]]%lookup_insert_Some
      [[<- <-]|[Hne' Hk']]%lookup_insert_Some Hrk Hrk' Ht Hp; simplify_eq; [done| | |].
    + destruct (Hnew _ _ _ Hk' Hrk'); congruence.
    + destruct (Hnew _ _ _ Hk Hrk); congruence.
    + by eapply H6.
Qed.

Lemma session_inv_delete l s :
  sessions !! l = Some s →
  session_inv seed (alter (ll_delete l) (bucket_index seed (s_tgt s)) buckets)
    (alter (ll_delete l) (bucket_index seed (s_tgt_r s)) buckets_r) (count - 1) (delete l sessions) rules.
Proof.
  intros Hl. destruct Hinv as [H1 H2 H3 H4 H5 H6]. constructor.
  - by apply table_ok_delete.
  - by apply table_ok_delete.
  - rewrite map_size_delete_Some by eauto.
    assert (size sessions ≠ 0%nat); [|lia].
    intros H0%map_size_empty_inv. by rewrite H0, lookup_empty in Hl.
  - lia.
  - intros k sk [_ Hk]%lookup_delete_Some. by eapply H5.
  - intros k k' sk sk' r r' [_ Hk]%lookup_delete_Some [_ Hk']%lookup_delete_Some. by eapply H6.
Qed.
End session_ops.

Lemma states_ok_update hole sessions rules l s' :
  states_ok hole sessions rules →
  (∀ r, rules !! s_rule s' = Some r → hole ≠ Some l → state_ok r s') →
  states_ok hole (<[l := s']> sessions) rules.
Proof. intros H Hs k sk r [[<- <-]|[Hne Hk]]%lookup_insert_Some Hr Hh; eauto. Qed.

Lemma states_ok_delete hole sessions rules l :
  states_ok hole sessions rules → states_ok hole (delete l sessions) rules.
Proof. intros H k sk r [_ Hk]%lookup_delete_Some. by apply H. Qed.

(** ** Consequences for the pointers of the world *)

Section pointers.
Context ex hole w (Hinv : inv_with (live hole) ex w) (Hex : ∀ k, 0 ≤ ex k).

Lemma iface_refs_live l : 0 < iface_refs w l → is_Some (w_ifaces w !! l).
Proof.
  intros H. destruct Hinv as ([[] ? ? ?] & _). apply ii_live0. specialize (Hex l). lia.
Qed.

Lemma refs_parts l :
  0 ≤ refs_in p_iface (w_proxies w) l ∧ 0 ≤ refs_in r_iface (w_rules w) l ∧
  0 ≤ refs_in s_iface (w_sessions w) l.
Proof. auto using refs_in_nonneg. Qed.

Lemma proxy_iface_live pl p :
  w_proxies w !! pl = Some p → ∃ l i, p_iface p = Some l ∧ w_ifaces w !! l = Some i.
Proof.
  intros Hp. destruct Hinv as (Hb & Hr & _). pose proof (rn_proxy _ _ _ Hr pl p Hp) as Hn.
  destruct (p_iface p) as [l|] eqn:El; [|done].
  destruct (iface_refs_live l) as [i Hi]; [|by eauto].
  pose proof (refs_parts l). pose proof (refs_in_pos p_iface _ _ _ l Hp El).
  unfold iface_refs. lia.
Qed.

Lemma rule_iface_live rl r l :
  w_rules w !! rl = Some r → r_iface r = Some l → is_Some (w_ifaces w !! l).
Proof.
  intros Hr El. apply iface_refs_live. pose proof (refs_parts l).
  pose proof (refs_in_pos r_iface _ _ _ l Hr El). unfold iface_refs. lia.
Qed.

Lemma session_iface_live sl s l :
  w_sessions w !! sl = Some s → s_iface s = Some l → is_Some (w_ifaces w !! l).
Proof.
  intros Hs El. apply iface_refs_live. pose proof (refs_parts l).
  pose proof (refs_in_pos s_iface _ _ _ l Hs El). unfold iface_refs. lia.
Qed.

Lemma session_rule_live sl s :
  w_sessions w !! sl = Some s →
  ∃ r p, w_rules w !! s_rule s = Some r ∧ w_proxies w !! r_proxy r = Some p ∧
    s_tgt_r s = nd_addr_combine (r_rewrite_tgt r) (s_tgt s) (r_rewrite_pflen r) ∧ rule_ok r.
Proof.
  intros Hs. destruct Hinv as (Hb & Hrn & _).
  destruct (so_rule _ _ (si_ok _ _ _ _ _ _ (bi_session _ _ Hb) _ _ Hs)) as (r & Hr & Ht & _).
  destruct (gi_rule _ _ _ (bi_graph _ _ Hb) _ _ Hr) as [p Hp].
  pose proof (rn_rule _ _ _ Hrn _ _ Hr). eauto 10.
Qed.
End pointers.
End invariant.

(** The invariant inside a handler of the running daemon, and between handlers. *)
Abbreviation inv ex hole := (inv_with (live hole) ex).
Abbreviation world_inv := (inv none None).
