(* ===== verification/IfaceSafe.v ===== *)
(** * Interfaces keep the invariant

    Specifications of the interface and route operations: none of them faults
    when the invariant holds, [nd_iface_open] returns a reference its caller
    owns, and [nd_iface_close] gives one up. *)
From S2P Require Import Prelude Addr World Monad Packet Route Netlink Iface Session Counting.
From S2P Require Import Invariant.

Section safe.
Context {BO : ByteOrder} {R : gmap loc nd_proxy * gmap loc nd_rule * gmap loc nd_session * bool → Prop}.
Implicit Types (w : world) (l : loc) (ex : loc → Z).

(** ** Fields the invariant does not depend on *)

Ltac by_fields := intros ([] & ?); split; [by constructor|done].

Lemma inv_out ex w o : inv_with R ex w → inv_with R ex (w <| w_out := o |>).
Proof. by_fields. Qed.
Lemma inv_time ex w t : inv_with R ex w → inv_with R ex (w <| nd_current_time := t |>).
Proof. by_fields. Qed.
Lemma inv_routes ex w r : inv_with R ex w → inv_with R ex (w <| w_routes := r |>).
Proof. by_fields. Qed.
Lemma inv_addrs ex w r : inv_with R ex w → inv_with R ex (w <| w_addrs := r |>).
Proof. by_fields. Qed.
Lemma inv_no_restore_flags ex w b : inv_with R ex w → inv_with R ex (w <| w_no_restore_flags := b |>).
Proof. by_fields. Qed.

Lemma inv_dump_timeout ex w t : inv_with R ex w → inv_with R ex (w <| w_dump_timeout := t |>).
Proof. by_fields. Qed.

Lemma inv_ifaces ex ex' w ifs fl :
  inv_with R ex w →
  iface_inv (λ l, iface_refs w l + ex' l) ifs fl (w_proxies w) →
  inv_with R ex' (w <| w_ifaces := ifs |> <| w_first_iface := fl |>).
Proof. intros ([] & ?) ?. split; [by constructor|done]. Qed.

Lemma inv_ifaces_only ex ex' w ifs :
  inv_with R ex w →
  iface_inv (λ l, iface_refs w l + ex' l) ifs (w_first_iface w) (w_proxies w) →
  inv_with R ex' (w <| w_ifaces := ifs |>).
Proof. intros ([] & ?) ?. split; [by constructor|done]. Qed.

Lemma inv_ext ex ex' w : (∀ k, ex k = ex' k) → inv_with R ex w → inv_with R ex' w.
Proof.
  intros Hex ([Hi ? ? ?] & ?). split; [|done]. constructor; try done.
  eapply iface_inv_ext; [|done]. intros l. simpl. by rewrite Hex.
Qed.

(** ** Sockets and sending *)

Lemma wp_use_pkt_io ex w (Q : unit → world → Prop) :
  inv_with R ex w → Q () w → wp (use_io w_pkt_io) Q w.
Proof. intros ([] & _) HQ. unfold use_io. repeat wp_step. rewrite bi_pkt_io. by wp_step. Qed.

(** Operations that only send. *)
Definition sends (m : M unit) w : Prop :=
  wp m (λ _ w', ∃ out, w' = w <| w_out := out ++ w_out w |>) w.

Lemma wp_sends ex m w (Q : unit → world → Prop) :
  sends m w → inv_with R ex w →
  (∀ out, inv_with R ex (w <| w_out := out |>) → Q () (w <| w_out := out |>)) →
  wp m Q w.
Proof.
  intros Hs Hinv HQ. eapply wp_mono; [exact Hs|]. intros [] w' [out ->].
  apply HQ. by apply inv_out.
Qed.

Lemma sends_icmp6 ex w l frame :
  inv_with R ex w → is_Some (w_ifaces w !! l) → sends (ndL_send_icmp6 l frame) w.
Proof.
  intros Hinv [i Hi]. unfold sends, ndL_send_icmp6. wp_step. wp_step.
  destruct (i_up i); cbn [negb].
  - wp_step. eapply wp_use_pkt_io; [done|]. wp_step. by eexists [_].
  - wp_step. exists []. by destruct w.
Qed.

Lemma sends_na ex w l dst dst_ll tgt tgt_ll router :
  inv_with R ex w → is_Some (w_ifaces w !! l) →
  sends (nd_iface_send_na (Some l) dst dst_ll tgt tgt_ll router) w.
Proof. intros ? ?. unfold sends, nd_iface_send_na. repeat wp_step. by eapply sends_icmp6. Qed.

Lemma sends_ns ex w l tgt :
  inv_with R ex w → is_Some (w_ifaces w !! l) → sends (nd_iface_send_ns (Some l) tgt) w.
Proof. intros ? ?. unfold sends, nd_iface_send_ns. repeat wp_step. by eapply sends_icmp6. Qed.

(** ** Searching *)

(** A search with a pure predicate over live objects does not fault and finds
    the first match. *)
Lemma wp_ll_search (pure_pred : loc → bool) (ls : list loc) (pred : loc → M bool) w (Q : option loc → world → Prop) :
  (∀ x (Q : bool → world → Prop), x ∈ ls → Q (pure_pred x) w → wp (pred x) Q w) →
  Q (List.find pure_pred ls) w → wp (ll_search ls pred) Q w.
Proof.
  intros Hp HQ. induction ls as [|x ls IH]; simpl; [by wp_step|].
  wp_step. apply Hp; [left|]. simpl in HQ. destruct (pure_pred x); [by wp_step|].
  apply IH; [|done]. intros y Q' Hy. apply Hp. by right.
Qed.

(** The interface at [l], for search predicates. *)
Definition on_iface w (f : nd_iface → bool) l : bool :=
  match w_ifaces w !! l with Some i => f i | None => false end.

Lemma wp_search_iface ex w (f : nd_iface → bool) (Q : option loc → world → Prop) :
  inv_with R ex w → Q (List.find (on_iface w f) (w_first_iface w)) w →
  wp (ll_search (w_first_iface w) (λ l, i ← load w_ifaces l; mret (f i))) Q w.
Proof.
  intros ([[] ? ? ?] & _) HQ. eapply wp_ll_search; [|exact HQ].
  intros x Q' Hx HQ'. apply ii_dom in Hx as [i Hi]. unfold on_iface in HQ'. rewrite Hi in HQ'.
  by repeat wp_step.
Qed.

Lemma find_iface_Some w f l :
  List.find (on_iface w f) (w_first_iface w) = Some l → ∃ i, w_ifaces w !! l = Some i ∧ f i = true.
Proof.
  intros [_ H]%find_some. unfold on_iface in H. destruct (w_ifaces w !! l) as [i|]; [eauto|done].
Qed.

(** ** Opening *)

(** The worlds [nd_iface_open] and [nd_iface_close] can end in. *)
Definition membership (e : event) : Prop :=
  match e with EvAddMembership _ _ | EvDropMembership _ _ => True | _ => False end.

Definition only_ifaces w w' : Prop :=
  ∃ ifs fl evs,
    w' = w <| w_ifaces := ifs |> <| w_first_iface := fl |> <| w_out := evs ++ w_out w |> ∧
    Forall membership evs.

Lemma only_ifaces_refl w : only_ifaces w w.
Proof. exists (w_ifaces w), (w_first_iface w), []. split; [by destruct w|constructor]. Qed.

Lemma only_ifaces_set w f : only_ifaces w (set_field w_ifaces f w).
Proof. exists (f (w_ifaces w)), (w_first_iface w), []. split; [by destruct w|constructor]. Qed.

Definition opened ex w (r : option loc) w' : Prop :=
  only_ifaces w w' ∧
  match r with
  | Some l => inv_with R (λ k, ex k + one l k) w' ∧ is_Some (w_ifaces w' !! l)
  | None => inv_with R ex w'
  end.

Lemma wp_iface_ref ex w l i :
  inv_with R ex w → w_ifaces w !! l = Some i →
  wp (update w_ifaces l (λ i, i <| i_refcount := i_refcount i + 1 |>);; mret (Some l))
    (opened ex w) w.
Proof.
  intros Hinv Hi. repeat wp_step. split; [apply only_ifaces_set|].
  split; [|cbn; rewrite lookup_insert_eq; by eauto].
  eapply inv_ifaces_only; [done|]. destruct Hinv as ([Hii ? ? ?] & _).
  destruct (ii_ref _ _ _ _ Hii l i Hi) as [Href Hpos].
  eapply iface_inv_update; [exact Hii|exact Hi|done|..]; simpl in *; unfold one.
  - rewrite decide_True by done. lia.
  - rewrite decide_True by done. lia.
  - intros k Hk. rewrite decide_False by done. lia.
Qed.

Lemma iface_refs_nonneg w l : 0 ≤ iface_refs w l.
Proof.
  unfold iface_refs. pose proof (refs_in_nonneg p_iface (w_proxies w) l).
  pose proof (refs_in_nonneg r_iface (w_rules w) l).
  pose proof (refs_in_nonneg s_iface (w_sessions w) l). lia.
Qed.

(** A new interface object, with the reference of the caller. *)
Lemma opened_new ex w l i :
  inv_with R ex w → (∀ k, 0 ≤ ex k) → w_ifaces w !! l = None →
  i_proxy i = None → i_refcount i = 1 →
  inv_with R (λ k, ex k + one l k)
    (w <| w_ifaces := <[l := i]> (w_ifaces w) |> <| w_first_iface := l :: w_first_iface w |>).
Proof.
  intros Hinv Hex Hl Hp Hr. eapply inv_ifaces; [done|].
  destruct Hinv as ([Hii ? ? ?] & _).
  eapply iface_inv_new; [exact Hii|done..| | |]; simpl; unfold one.
  - rewrite decide_True by done. lia.
  - intros k. pose proof (iface_refs_nonneg w k). specialize (Hex k). lia.
  - intros k Hk. rewrite decide_False by done. lia.
Qed.

Section open.
Context (K : kernel) (ex : loc → Z) (Hex : ∀ k, 0 ≤ ex k).

Lemma wp_iface_open_resolved w name index promiscuous :
  inv_with R ex w → wp (iface_open_resolved K name index promiscuous) (opened ex w) w.
Proof.
  intros Hinv. unfold iface_open_resolved. wp_step. wp_step. wp_step.
  eapply wp_search_iface; [done|]. destruct (List.find _ _) as [l|] eqn:Hf.
  { apply find_iface_Some in Hf as (i & Hi & _). by eapply wp_iface_ref. }
  wp_step. eapply wp_search_iface; [done|]. clear Hf. destruct (List.find _ _) as [l|] eqn:Hf.
  { apply find_iface_Some in Hf as (i & Hi & _). by eapply wp_iface_ref. }
  wp_step. eapply wp_use_pkt_io; [done|].
  assert (opened ex w None w) as Hnone.
  { split; [apply only_ifaces_refl|done]. }
  destruct (k_hwaddr K name) as [lladdr|]; [|by wp_step].
  destruct (k_add_membership K index promiscuous); cbn [negb]; [|by wp_step].
  wp_step. wp_step. wp_step. apply wp_alloc. intros l Hl. wp_step. wp_step. wp_step.
  split; [by eexists _, _, [_]; split; [|repeat constructor]|]. split; [|cbn; rewrite lookup_insert_eq; by eauto].
  eapply (opened_new ex (w <| w_out := _ |>)); [by apply inv_out|done..].
Qed.

Lemma wp_iface_open_waiting w name promiscuous :
  inv_with R ex w → wp (iface_open_waiting name promiscuous) (opened ex w) w.
Proof.
  intros Hinv. unfold iface_open_waiting. wp_step. wp_step. wp_step.
  eapply wp_search_iface; [done|]. destruct (List.find _ _) as [l|] eqn:Hf.
  { apply find_iface_Some in Hf as (i & Hi & _). by eapply wp_iface_ref. }
  wp_step. apply wp_alloc. intros l Hl. wp_step. wp_step. wp_step.
  split; [|split; [by apply (opened_new ex w)|cbn; rewrite lookup_insert_eq; by eauto]].
  exists (<[l := mk_iface 1 name ll_zero 0 false false None promiscuous]> (w_ifaces w)),
    (l :: w_first_iface w), []. split; [by destruct w|constructor].
Qed.

Lemma wp_iface_open w name index promiscuous :
  inv_with R ex w → wp (nd_iface_open K name index promiscuous) (opened ex w) w.
Proof.
  intros Hinv. unfold nd_iface_open.
  assert (opened ex w None w) as Hnone.
  { split; [apply only_ifaces_refl|done]. }
  destruct name as [name|].
  - destruct (k_nametoindex K name) as [resolved errno]. destruct (resolved =? 0).
    + destruct (_ && _); [by apply wp_iface_open_waiting|by wp_step].
    + destruct (_ && _); [by wp_step|by apply wp_iface_open_resolved].
  - destruct (index =? 0); [by wp_step|].
    destruct (k_indextoname K index); [by apply wp_iface_open_resolved|by wp_step].
Qed.
End open.

(** ** Closing *)

Lemma iface_inv_drop n ifaces first proxies l i :
  iface_inv n ifaces first proxies → ifaces !! l = Some i → 1 < i_refcount i →
  iface_inv (λ k, n k - one l k) (<[l := i <| i_refcount := i_refcount i - 1 |>]> ifaces) first proxies.
Proof.
  intros Hii Hi Hgt. destruct (ii_ref _ _ _ _ Hii l i Hi) as [Href Hpos].
  eapply iface_inv_update; [exact Hii|exact Hi|done|..]; simpl; unfold one.
  - rewrite decide_True by done. lia.
  - rewrite decide_True by done. lia.
  - intros k Hk. rewrite decide_False by done. lia.
Qed.

Lemma iface_inv_drop_last n ifaces first proxies l i :
  iface_inv n ifaces first proxies → ifaces !! l = Some i → i_refcount i ≤ 1 →
  iface_inv (λ k, n k - one l k) (delete l ifaces) (ll_delete l first) proxies.
Proof.
  intros Hii Hi Hle. destruct (ii_ref _ _ _ _ Hii l i Hi) as [Href Hpos].
  eapply iface_inv_delete; [exact Hii|..]; unfold one.
  - rewrite decide_True by done. lia.
  - intros k Hk. rewrite decide_False by done. lia.
Qed.

Lemma update_then_delete w l i o fl :
  set_field w_ifaces (delete l)
    ((set_field w_ifaces (λ h, <[l := i]> h) w) <| w_out := o |> <| w_first_iface := fl |>) =
  w <| w_ifaces := delete l (w_ifaces w) |> <| w_first_iface := fl |> <| w_out := o |>.
Proof. destruct w. world_eq. apply delete_insert_eq. Qed.

Lemma wp_iface_close ex w l i :
  inv_with R ex w → w_ifaces w !! l = Some i →
  wp (nd_iface_close l)
    (λ _ w', only_ifaces w w' ∧ inv_with R (λ k, ex k - one l k) w') w.
Proof.
  intros Hinv Hi. unfold nd_iface_close. wp_step. wp_step. wp_step.
  eapply wp_load; [apply lookup_insert_eq|].
  pose proof Hinv as ([Hii _ _ Hpio] & _). cbn [i_refcount set_i_refcount set_field].
  destruct (Z.ltb_spec 0 (i_refcount i - 1)) as [Hgt|Hle].
  { wp_step. split; [apply only_ifaces_set|].
    eapply inv_ifaces_only; [done|]. eapply iface_inv_ext; [|by apply iface_inv_drop, Z.lt_0_sub].
    intros k. simpl. lia. }
  assert (∀ out, inv_with R (λ k, ex k - one l k)
    (w <| w_ifaces := delete l (w_ifaces w) |> <| w_first_iface := ll_delete l (w_first_iface w) |>
       <| w_out := out |>)) as Hpost.
  { intros out. apply inv_out. eapply inv_ifaces; [done|].
    eapply iface_inv_ext; [|eapply iface_inv_drop_last; [exact Hii|done|lia]]. intros k. simpl. lia. }
  wp_step. wp_step. wp_step. apply wp_when; intros _.
  - wp_step. unfold use_io. wp_step. wp_step. cbn [w_pkt_io set_w_ifaces set_field]. rewrite Hpio.
    wp_step. wp_step. wp_step. wp_step.
    eapply wp_free; [apply lookup_insert_eq|].
    rewrite update_then_delete. split; [by eexists _, _, [_]; split; [|repeat constructor]|apply Hpost].
  - wp_step. wp_step. eapply wp_free; [apply lookup_insert_eq|].
    pose proof (update_then_delete w l (i <| i_refcount := i_refcount i - 1 |>) (w_out w)
      (ll_delete l (w_first_iface w))) as Heq.
    split; [by eexists _, _, []; split; [exact Heq|]|]. specialize (Hpost (w_out w)). by rewrite <- Heq in Hpost.
Qed.

End safe.
