(* ===== verification/SessionSafe.v ===== *)
(** * Sessions keep the invariant

    No handler of session.c faults when the invariant holds, and each
    establishes it again. *)
From S2P Require Import Prelude Addr World Monad Packet Route Netlink Iface Session Counting.
From S2P Require Import Invariant IfaceSafe.

Section safe.
Context {BO : ByteOrder}.
Implicit Types (w : world) (l : loc) (s : nd_session) (ex : loc → Z) (hole : option loc).

(** ** Changes of one session *)

(** [s'] is [s] with other times, counts or state. *)
Definition quiet s s' : Prop :=
  s_rule s' = s_rule s ∧ s_tgt s' = s_tgt s ∧ s_tgt_r s' = s_tgt_r s ∧ s_iface s' = s_iface s ∧
  s_autowired s' = s_autowired s ∧ s_subs s' = s_subs s.

Lemma session_ok_quiet rules s s' : quiet s s' → session_ok rules s → session_ok rules s'.
Proof.
  intros (E1 & E2 & E3 & E4 & E5 & E6) [(r & Hr & Ht & Ha) ? ? ?].
  constructor; rewrite ?E1, ?E2, ?E3, ?E4, ?E5, ?E6; [|done..].
  by exists r.
Qed.

Lemma inv_session_ok ex hole w l s : inv ex hole w → w_sessions w !! l = Some s → session_ok (w_rules w) s.
Proof. intros ([? ? [] ?] & _). eauto. Qed.

Lemma inv_state_ok ex hole w l s r :
  inv ex hole w → w_sessions w !! l = Some s → w_rules w !! s_rule s = Some r → hole ≠ Some l →
  state_ok r s.
Proof. intros (_ & _ & Hst). apply Hst. Qed.

(** An update that keeps the interface. *)
Lemma inv_session_update ex hole w l s s' :
  inv ex hole w → w_sessions w !! l = Some s →
  s_rule s' = s_rule s → s_tgt s' = s_tgt s → s_tgt_r s' = s_tgt_r s → s_iface s' = s_iface s →
  session_ok (w_rules w) s' →
  (∀ r, w_rules w !! s_rule s = Some r → hole ≠ Some l → state_ok r s') →
  inv ex hole (set_field w_sessions (λ h, <[l := s']> h) w).
Proof.
  intros ([Hii Hg Hsi Hp] & Hrn & Hst) Hl E1 E2 E3 E4 Hok Hstate.
  split; [|split; [done|]].
  - constructor; [|done| |done].
    + eapply iface_inv_ext; [|exact Hii]. intros k. unfold iface_refs. cbn.
      by rewrite (refs_in_same s_iface _ l s s' k Hl E4).
    + by eapply session_inv_update.
  - apply states_ok_update; [done|]. intros r. rewrite E1. apply Hstate.
Qed.

Lemma wp_set_session_quiet ex hole w l s f (Q : unit → world → Prop) :
  inv ex hole w → w_sessions w !! l = Some s → quiet s (f s) →
  (∀ r, w_rules w !! s_rule s = Some r → hole ≠ Some l → state_ok r (f s)) →
  (inv ex hole (set_field w_sessions (λ h, <[l := f s]> h) w) →
     Q () (set_field w_sessions (λ h, <[l := f s]> h) w)) →
  wp (set_session l f) Q w.
Proof.
  intros Hinv Hl Hq Hst HQ. unfold set_session. wp_step. apply HQ.
  destruct Hq as (E1 & E2 & E3 & E4 & E5 & E6).
  eapply inv_session_update; try done.
  eapply session_ok_quiet; [|by eapply inv_session_ok]. by repeat split.
Qed.
(** ** Autowired routes *)

Lemma wp_use_rt_io ex hole w (Q : unit → world → Prop) :
  inv ex hole w → Q () w → wp (use_io w_rt_io) Q w.
Proof. intros (_ & [] & _) HQ. unfold use_io. repeat wp_step. rewrite rn_rt_io. by wp_step. Qed.

Lemma sends_add_route ex hole w dst pflen oif table :
  inv ex hole w → sends (nd_rt_add_route dst pflen oif table) w.
Proof.
  intros Hinv. unfold sends, nd_rt_add_route. wp_step. eapply wp_use_rt_io; [done|].
  wp_step. by eexists [_].
Qed.

Lemma sends_remove_route ex hole w dst pflen table :
  inv ex hole w → sends (nd_rt_remove_route dst pflen table) w.
Proof.
  intros Hinv. unfold sends, nd_rt_remove_route. wp_step. eapply wp_use_rt_io; [done|].
  wp_step. by eexists [_].
Qed.

(** The session [l] is still there, with the identity and the state of [s]. *)
Definition still l s w : Prop :=
  ∃ s', w_sessions w !! l = Some s' ∧ s_rule s' = s_rule s ∧ s_tgt s' = s_tgt s ∧
    s_tgt_r s' = s_tgt_r s ∧ s_iface s' = s_iface s ∧ s_state s' = s_state s.

(** The fields that no session handler changes. *)
Definition static w :=
  (w_rules w, w_proxies w, w_proxy_list w, w_conf w, nd_current_time w, w_hash_seed w,
   w_routes w, w_addrs w).

(** The fields of the invariant other than the session tables. *)
Definition rest w :=
  (w_ifaces w, w_first_iface w, w_pkt_io w, w_proxies w, w_proxy_list w, w_rules w, w_rt_io w,
   w_hash_seed w).

(** Nothing changes but the session [l], interfaces and what was sent. *)
Definition frame l w w' : Prop :=
  static w' = static w ∧ ∀ k, k ≠ l → w_sessions w' !! k = w_sessions w !! k.

Lemma frame_refl l w : frame l w w.
Proof. done. Qed.

Lemma frame_trans l w1 w2 w3 : frame l w1 w2 → frame l w2 w3 → frame l w1 w3.
Proof. intros [E1 H1] [E2 H2]. split; [congruence|]. intros k Hk. by rewrite H2, H1. Qed.

Lemma frame_set l w w' s :
  static w' = static w → w_sessions w' = <[l := s]> (w_sessions w) → frame l w w'.
Proof. intros E1 E2. split; [done|]. intros k Hk. by rewrite E2, lookup_insert_ne. Qed.

Lemma still_refl l s w : w_sessions w !! l = Some s → still l s w.
Proof. intros. by exists s. Qed.

Lemma inv_autowired ex hole w l s r b :
  inv ex hole w → w_sessions w !! l = Some s → w_rules w !! s_rule s = Some r →
  (b = true → r_autowire r = true ∧ s_iface s ≠ None) →
  inv ex hole (set_field w_sessions (λ h, <[l := s <| s_autowired := b |>]> h) w).
Proof.
  intros Hinv Hl Hr Hb. eapply inv_session_update; try done.
  - destruct (inv_session_ok _ _ _ _ _ Hinv Hl) as [(r' & Hr' & Ht & Ha) Hi Hsubs Hnd].
    simplify_eq. constructor; cbn; try done; [|intros ->; by apply Hb].
    exists r. split_and!; [done|done|]. intros ->. by apply Hb.
  - intros r' Hr' Hh. simplify_eq. by eapply inv_state_ok in Hl.
Qed.

Lemma wp_ndL_up ex hole w l s :
  inv ex hole w → (∀ k, 0 ≤ ex k) → w_sessions w !! l = Some s →
  wp (ndL_up l) (λ _ w', inv ex hole w' ∧ still l s w' ∧ frame l w w' ∧ rest w' = rest w) w.
Proof.
  intros Hinv Hex Hl. unfold ndL_up. wp_step. wp_step.
  pose proof (still_refl _ _ _ Hl). pose proof (frame_refl l w).
  destruct (s_iface s) as [iface|] eqn:Ei; [|by wp_step].
  destruct (session_iface_live _ _ _ Hinv Hex _ _ _ Hl Ei) as [i Hi]. wp_step. wp_step.
  destruct (i_up i); cbn [negb]; [|by wp_step].
  destruct (s_autowired s); [by wp_step|].
  destruct (session_rule_live _ _ _ Hinv _ _ Hl) as (r & p & Hr & _). wp_step. wp_step.
  destruct (r_autowire r) eqn:Ea; cbn [negb]; [|by wp_step].
  wp_step. eapply wp_sends; [by eapply sends_add_route|done|]. intros out Hinv'.
  unfold set_session. wp_step. split_and!; [|eexists|by eapply frame_set|reflexivity].
  - eapply inv_autowired; [done|exact Hl|exact Hr|]. by rewrite Ei.
  - cbn. by rewrite lookup_insert_eq.
Qed.

Lemma wp_ndL_down ex hole w l s :
  inv ex hole w → (∀ k, 0 ≤ ex k) → w_sessions w !! l = Some s →
  wp (ndL_down l) (λ _ w', inv ex hole w' ∧ still l s w' ∧ frame l w w' ∧ rest w' = rest w) w.
Proof.
  intros Hinv Hex Hl. unfold ndL_down. wp_step. wp_step.
  pose proof (still_refl _ _ _ Hl). pose proof (frame_refl l w).
  destruct (s_iface s) as [iface|] eqn:Ei; [|by wp_step].
  destruct (s_autowired s); cbn [negb]; [|by wp_step].
  destruct (session_rule_live _ _ _ Hinv _ _ Hl) as (r & p & Hr & _). wp_step. wp_step.
  wp_step. eapply wp_sends; [by eapply sends_remove_route|done|]. intros out Hinv'.
  unfold set_session. wp_step. split_and!; [|eexists|by eapply frame_set|reflexivity].
  - by eapply inv_autowired; [done|exact Hl|exact Hr|].
  - cbn. by rewrite lookup_insert_eq.
Qed.
(** The session takes over a reference to an interface. *)
Lemma inv_session_gain ex hole w l s iface :
  inv (λ k, ex k + one iface k) hole w → w_sessions w !! l = Some s → s_iface s = None →
  (∀ r, w_rules w !! s_rule s = Some r → hole ≠ Some l → state_ok r (s <| s_iface := Some iface |>)) →
  inv ex hole (set_field w_sessions (λ h, <[l := s <| s_iface := Some iface |>]> h) w).
Proof.
  intros Hinv Hl Ei Hstate. pose proof (inv_session_ok _ _ _ _ _ Hinv Hl) as Hok.
  destruct Hinv as ([Hii Hg Hsi Hp] & Hrn & Hst).
  split; [|split; [done|]].
  - constructor; [|done| |done].
    + eapply iface_inv_ext; [|exact Hii]. intros k. unfold iface_refs. cbn.
      rewrite (refs_in_update s_iface _ l s _ k Hl). rewrite (ref_ind_ne s_iface s) by by rewrite Ei.
      unfold ref_ind, one. cbn. destruct (decide (k = iface)) as [-> |Hne].
      * rewrite decide_True by done. lia.
      * rewrite decide_False by congruence. lia.
    + eapply session_inv_update; try done. destruct Hok as [Hrule ? ? ?]. constructor; done.
  - apply states_ok_update; done.
Qed.

Lemma set_iface_id s x : s_iface s = x → s <| s_iface := x |> = s.
Proof. intros <-. by destruct s. Qed.

(** ** Neighbor solicitations *)

Lemma sends_answer ex hole w l s src src_ll :
  inv ex hole w → (∀ k, 0 ≤ ex k) → w_sessions w !! l = Some s →
  sends (session_answer_ns s src src_ll) w.
Proof.
  intros Hinv Hex Hl. unfold sends, session_answer_ns.
  destruct (session_rule_live _ _ _ Hinv _ _ Hl) as (r & p & Hr & Hp & _).
  repeat wp_step. destruct (proxy_iface_live _ _ _ Hinv Hex _ _ Hp) as (pi & i & -> & Hi).
  destruct (if nd_addr_is_unspecified src then None else src_ll);
    (eapply sends_na; [exact Hinv|by eauto]).
Qed.

(** A session with an interface can be in any state. *)
Lemma state_ok_probing r s s' iface :
  state_ok r s → s_iface s = Some iface → s_iface s' = Some iface → state_ok r s'.
Proof. unfold state_ok. intros Hs E1 E2. rewrite E1 in Hs. rewrite E2. by destruct (r_mode r). Qed.

(** A change that keeps the state and the interface. *)
Lemma state_ok_same r s s' :
  state_ok r s → s_iface s' = s_iface s → s_state s' = s_state s → state_ok r s'.
Proof. unfold state_ok. intros Hs -> ->. done. Qed.

(** The end of a probe: the NS goes out on the interface of the session. *)
Lemma wp_probe w l s (Q : unit → world → Prop) iface tgt :
  world_inv w → w_sessions w !! l = Some s → s_iface s = Some iface →
  (∀ out, world_inv (w <| w_out := out |>) → Q () (w <| w_out := out |>)) →
  wp (nd_iface_send_ns (Some iface) tgt) Q w.
Proof.
  intros Hinv Hl Ei HQ. eapply wp_sends; [eapply sends_ns; [exact Hinv|]|exact Hinv|exact HQ].
  by eapply session_iface_live; [exact Hinv|exact none_nonneg|..].
Qed.

(** What every session handler ends with. *)
Definition kept l w w' : Prop :=
  world_inv w' ∧ is_Some (w_sessions w' !! l) ∧ frame l w w'.

Lemma kept_trans l w1 w2 w3 : kept l w1 w2 → kept l w2 w3 → kept l w1 w3.
Proof. intros (? & ? & ?) (? & ? & ?). split_and!; [done|done|by eapply frame_trans]. Qed.

Lemma kept_refl l s w : world_inv w → w_sessions w !! l = Some s → kept l w w.
Proof. intros ? ?. split_and!; eauto using frame_refl. Qed.

Lemma wp_kept_from l w w' (m : M unit) :
  frame l w w' → wp m (λ _, kept l w') w' → wp m (λ _, kept l w) w'.
Proof.
  intros Hf Hm. eapply wp_mono; [exact Hm|]. intros [] w2 (? & ? & ?).
  split_and!; [done|done|by eapply frame_trans].
Qed.

(** Sending a probe after an update of the session. *)
Lemma wp_update_probe w l s f iface tgt :
  world_inv w → w_sessions w !! l = Some s → quiet s (f s) → s_iface s = Some iface →
  wp (set_session l f;; nd_iface_send_ns (Some iface) tgt) (λ _, kept l w) w.
Proof.
  intros Hinv Hl Hq Ei. wp_step. eapply wp_set_session_quiet; [done..| |].
  { intros r Hr Hh. eapply state_ok_probing; [by eapply inv_state_ok|done|].
    destruct Hq as (_ & _ & _ & -> & _). done. }
  intros Hinv1. eapply wp_probe; [exact Hinv1|apply lookup_insert_eq| |].
  { destruct Hq as (_ & _ & _ & -> & _). exact Ei. }
  intros out Hinv2. split_and!; [exact Hinv2| |by eapply frame_set]. eexists. apply lookup_insert_eq.
Qed.

Lemma wp_recheck_route K w l s :
  world_inv w → w_sessions w !! l = Some s → wp (session_recheck_route K l) (λ _, kept l w) w.
Proof.
  intros Hinv Hl. unfold session_recheck_route. wp_step. wp_step.
  pose proof (kept_refl _ _ _ Hinv Hl) as Hskip.
  destruct (bool_decide_reflect (s_state s = ND_STATE_INVALID)) as [Est|]; cbn [negb andb]; [|by wp_step].
  destruct (bool_decide_reflect (s_iface s = None)) as [Ei|]; cbn [negb]; [|by wp_step].
  destruct (session_rule_live _ _ _ Hinv _ _ Hl) as (r & p & Hr & Hp & _ & Hrok).
  wp_step. wp_step.
  destruct (bool_decide_reflect (r_mode r = ND_MODE_AUTO)) as [Em|]; cbn [negb]; [|by wp_step].
  wp_step. wp_step. destruct (nd_rt_find_route _ _ _) as [route|]; [|by wp_step].
  wp_step. wp_step. destruct (proxy_iface_live _ _ _ Hinv none_nonneg _ _ Hp) as (pif & i & Epi & Hi).
  rewrite Epi. wp_step. wp_step. wp_step. wp_step. destruct (rt_oif route =? i_index i); [by wp_step|].
  wp_step. eapply wp_mono; [by eapply wp_iface_open; [exact none_nonneg|exact Hinv]|].
  intros iface w' [(ifs & fl & evs & -> & Hevs) Hopen].
  set (w0 := _ <| w_out := _ |>) in *.
  assert (w_sessions w0 !! l = Some s) as Hl0 by done.
  assert (w_rules w0 !! s_rule s = Some r) as Hr0 by done.
  assert (frame l w w0) as Hfr by done. clearbody w0.
  destruct iface as [iface|].
  - destruct Hopen as [Hinv' Hlive]. wp_step. unfold set_session at 1. wp_step.
    eapply inv_session_gain in Hinv'; [|exact Hl0|done|].
    2:{ intros r' Hr' _. simplify_eq. unfold state_ok. by rewrite Em. }
    eapply wp_kept_from; [eapply frame_trans; [exact Hfr|by eapply frame_set]|].
    wp_step. unfold set_state. wp_step. wp_step.
    eapply wp_set_session_quiet; [exact Hinv'|apply lookup_insert_eq|done| |].
    { intros r' Hr' _. cbn in Hr'. simplify_eq. unfold state_ok. by rewrite Em. }
    intros Hinv2. wp_step. wp_step. eapply wp_kept_from; [by eapply frame_set|].
    eapply wp_update_probe; [exact Hinv2|apply lookup_insert_eq|done|done].
  - wp_step. unfold set_session. wp_step. wp_step. split_and!; [|by eexists; apply lookup_insert_eq|].
    2:{ eapply frame_trans; [exact Hfr|by eapply frame_set]. }
    eapply inv_session_update; [exact Hopen|exact Hl0|done..| |].
    + by rewrite set_iface_id; [eapply inv_session_ok|].
    + intros r' Hr' Hh. rewrite set_iface_id by done. by eapply inv_state_ok.
Qed.
(** An update that keeps the state and the interface. *)
Lemma wp_update_quiet w l s f :
  world_inv w → w_sessions w !! l = Some s → quiet s (f s) → s_state (f s) = s_state s →
  wp (set_session l f) (λ _, kept l w) w.
Proof.
  intros Hinv Hl Hq Est. eapply wp_set_session_quiet; [done..| |].
  { intros r Hr Hh. eapply state_ok_same; [by eapply inv_state_ok|by apply Hq|done]. }
  intros Hinv1. split_and!; [exact Hinv1| |by eapply frame_set]. eexists. apply lookup_insert_eq.
Qed.

Lemma wp_set_state w l s st :
  world_inv w → w_sessions w !! l = Some s →
  (∀ r, w_rules w !! s_rule s = Some r → state_ok r s → state_ok r (s <| s_state := st |>)) →
  wp (set_state l st) (λ _ w', kept l w w') w.
Proof.
  intros Hinv Hl Hst. unfold set_state. wp_step. wp_step.
  eapply wp_set_session_quiet; [done..| |].
  { intros r Hr Hh. eapply state_ok_same; [apply (Hst r Hr); by eapply inv_state_ok|done..]. }
  intros Hinv1. split_and!; [exact Hinv1| |by eapply frame_set]. eexists. apply lookup_insert_eq.
Qed.

Lemma wp_kept_bind l w (m k : M unit) :
  wp m (λ _, kept l w) w →
  (∀ w' s, world_inv w' → w_sessions w' !! l = Some s → frame l w w' →
     wp k (λ _, kept l w') w') →
  wp (m;; k) (λ _, kept l w) w.
Proof.
  intros Hm Hk. wp_step. eapply wp_mono; [exact Hm|]. intros [] w' Hkept.
  pose proof Hkept as (Hinv & [s Hs] & Hst). eapply wp_mono; [by apply (Hk w' s)|].
  intros [] w'' Hkept'. by eapply kept_trans.
Qed.

Lemma wp_probe_stale w l s :
  world_inv w → w_sessions w !! l = Some s → wp (session_probe_stale l) (λ _, kept l w) w.
Proof.
  intros Hinv Hl. unfold session_probe_stale. do 6 wp_step.
  destruct (_ && _) eqn:Hb; [|by wp_step; eapply kept_refl].
  apply andb_true_iff in Hb as [[_ Hi]%andb_true_iff _].
  destruct (s_iface s) as [iface|] eqn:Ei; [|done]. by eapply wp_update_probe.
Qed.

Lemma subs_cons_ok w l s src ll :
  world_inv w → w_sessions w !! l = Some s →
  existsb (same_sub src ll) (s_subs s) = false →
  Z.of_nat (length (s_subs s)) < ND_SESSION_MAX_SUBS →
  session_ok (w_rules w) (s <| s_subs := mk_sub src ll :: s_subs s |>).
Proof.
  intros Hinv Hl Hnew Hlen. destruct (inv_session_ok _ _ _ _ _ Hinv Hl) as [? ? ? Hnd].
  constructor; [done|done| |]; cbn [s_subs set_field set_s_subs length]; [lia|].
  constructor; [|done]. intros Hin%list_elem_of_In.
  assert (existsb (same_sub src ll) (s_subs s) = true) as Ht; [|by rewrite Hnew in Ht].
  apply existsb_exists. eexists; split; [exact Hin|]. unfold same_sub. cbn.
  by rewrite nd_addr_eq_refl, (proj2 (nd_lladdr_eq_spec _ _)).
Qed.

Lemma wp_session_handle_ns K w l s src src_ll :
  world_inv w → w_sessions w !! l = Some s →
  wp (nd_session_handle_ns K l src src_ll) (λ _, kept l w) w.
Proof.
  intros Hinv Hl. unfold nd_session_handle_ns. wp_step. wp_step.
  apply wp_kept_bind; [by eapply wp_update_quiet|]. clear s Hinv Hl. intros w1 s Hinv Hl _.
  wp_step. wp_step. pose proof (kept_refl _ _ _ Hinv Hl) as Hskip.
  destruct (bool_decide (s_state s = ND_STATE_VALID)).
  { eapply wp_sends; [by eapply sends_answer; [exact Hinv|exact none_nonneg|]|exact Hinv|].
    intros out Hinv'. split_and!; [done|by exists s|done]. }
  destruct src_ll as [ll|]; [|by wp_step].
  destruct (existsb (same_sub src ll) (s_subs s)) eqn:Hsub; cbn [negb andb when].
  - apply wp_kept_bind; [by wp_step|]. clear s Hinv Hl Hskip Hsub. intros w2 s Hinv Hl _.
    apply wp_kept_bind; [by eapply wp_recheck_route|]. intros. by eapply wp_probe_stale.
  - destruct (Z.leb_spec ND_SESSION_MAX_SUBS (Z.of_nat (length (s_subs s)))); [by wp_step|].
    apply wp_kept_bind.
    { unfold set_session. wp_step. split_and!; [|by eexists; apply lookup_insert_eq|by eapply frame_set].
      eapply inv_session_update; [done..|by eapply subs_cons_ok|].
      intros r Hr Hh. eapply state_ok_same; [by eapply inv_state_ok|done..]. }
    clear s Hinv Hl Hskip Hsub H. intros w2 s Hinv Hl _.
    apply wp_kept_bind; [by eapply wp_recheck_route|]. intros. by eapply wp_probe_stale.
Qed.
(** ** Neighbor advertisements *)

Lemma wp_sends_all {A} (ls : list A) (body : A → M unit) ex hole w (Q : unit → world → Prop) :
  inv ex hole w →
  (∀ x out, inv ex hole (w <| w_out := out |>) → sends (body x) (w <| w_out := out |>)) →
  (∀ out, inv ex hole (w <| w_out := out |>) → Q () (w <| w_out := out |>)) →
  wp (for_each ls body) Q w.
Proof.
  intros Hinv Hb HQ.
  apply (wp_for_each (λ _ w', ∃ out, w' = w <| w_out := out |>)).
  - exists (w_out w). by destruct w.
  - intros x rest w' [out ->]. eapply wp_mono; [by apply Hb, inv_out|].
    intros [] w' [out' ->]. eexists. by world_eq.
  - intros w' [out ->]. by apply HQ, inv_out.
Qed.

Lemma session_ok_no_subs rules s : session_ok rules s → session_ok rules (s <| s_subs := [] |>).
Proof. intros [? ? ? ?]. constructor; cbn; [done|done|done|constructor]. Qed.

Lemma wp_session_handle_na w l s :
  world_inv w → w_sessions w !! l = Some s → s_iface s ≠ None →
  wp (nd_session_handle_na l) (λ _, kept l w) w.
Proof.
  intros Hinv Hl Hi. unfold nd_session_handle_na. do 4 wp_step.
  destruct (bool_decide (s_state s = ND_STATE_VALID)); [by eapply wp_update_quiet|].
  destruct (session_rule_live _ _ _ Hinv _ _ Hl) as (r & p & Hr & Hp & _). wp_step. wp_step.
  destruct (s_iface s) as [iface|] eqn:Ei; [|done].
  wp_step. eapply wp_sends_all; [exact Hinv| |].
  { intros sub out Hinv'. unfold sends. wp_step. eapply wp_load; [exact Hp|].
    destruct (proxy_iface_live _ _ _ Hinv' none_nonneg _ _ Hp) as (pi & i & -> & Hpi).
    eapply sends_na; [exact Hinv'|by eauto]. }
  intros out Hinv1. wp_step. unfold set_session at 1.
  eapply wp_update; [exact Hl|].
  assert (world_inv (set_field w_sessions (λ h, <[l := s <| s_subs := [] |>]> h)
    (w <| w_out := out |>))) as Hinv2.
  { eapply inv_session_update; [exact Hinv1|exact Hl|reflexivity..| |].
    - by apply session_ok_no_subs; eapply inv_session_ok.
    - intros r' Hr' Hh. eapply state_ok_same; [by eapply inv_state_ok|reflexivity..]. }
  eapply wp_kept_from; [by eapply frame_set|].
  wp_step. eapply wp_mono; [eapply wp_ndL_up; [exact Hinv2|exact none_nonneg|apply lookup_insert_eq]|].
  intros [] w' (Hinv3 & (s' & Hl' & Er & _ & _ & Ei' & _) & Hfr & _).
  eapply wp_kept_from; [exact Hfr|]. eapply wp_set_state; [exact Hinv3|exact Hl'|].
  intros r' _ Hok. eapply state_ok_probing; [exact Hok|exact (eq_trans Ei' Ei)..].
Qed.

(** ** The timer *)

(** What [nd_session_update] ends with: it may delete its session, and no other. *)
Definition updated l w w' : Prop := world_inv w' ∧ frame l w w'.

Lemma wp_quiet_bind w l s f (k : M unit) :
  world_inv w → w_sessions w !! l = Some s → quiet s (f s) →
  (∀ r, w_rules w !! s_rule s = Some r → state_ok r s → state_ok r (f s)) →
  (∀ w', world_inv w' → w_sessions w' !! l = Some (f s) → wp k (λ _, kept l w') w') →
  wp (set_session l f;; k) (λ _, kept l w) w.
Proof.
  intros Hinv Hl Hq Hst Hk. wp_step. eapply wp_set_session_quiet; [done..| |].
  { intros r Hr Hh. apply Hst; [done|]. by eapply inv_state_ok. }
  intros Hinv1. eapply wp_kept_from; [by eapply frame_set|].
  apply Hk; [exact Hinv1|apply lookup_insert_eq].
Qed.

(** A session that is probed has an interface. *)
Lemma probing_iface w l s :
  world_inv w → w_sessions w !! l = Some s →
  s_state s = ND_STATE_INCOMPLETE ∨ s_state s = ND_STATE_STALE → ∃ iface, s_iface s = Some iface.
Proof.
  intros Hinv Hl Hst. destruct (session_rule_live _ _ _ Hinv _ _ Hl) as (r & p & Hr & _).
  pose proof (inv_state_ok _ _ _ _ _ _ Hinv Hl Hr ltac:(done)) as Hok.
  unfold state_ok in Hok. destruct (s_iface s); [by eauto|].
  destruct Hst as [E|E]; rewrite E in Hok; destruct (r_mode r); try done; by destruct Hok.
Qed.

Lemma wp_set_state_iface w l s iface st :
  world_inv w → w_sessions w !! l = Some s → s_iface s = Some iface →
  wp (set_state l st) (λ _, kept l w) w.
Proof.
  intros Hinv Hl Ei. eapply wp_set_state; [done..|]. intros r _ Hok. by eapply state_ok_probing.
Qed.

Lemma wp_update_incomplete w l s :
  world_inv w → w_sessions w !! l = Some s → s_state s = ND_STATE_INCOMPLETE →
  wp (update_incomplete l s) (λ _, kept l w) w.
Proof.
  intros Hinv Hl Est. unfold update_incomplete. do 4 wp_step. wp_step.
  destruct (probing_iface _ _ _ Hinv Hl (or_introl Est)) as [iface Ei]. rewrite Ei.
  destruct (session_iface_live _ _ _ Hinv none_nonneg _ _ _ Hl Ei) as [i Hi]. do 3 wp_step.
  destruct (negb (i_up i)).
  - destruct (_ <? _); [by eapply wp_update_quiet|by eapply wp_set_state_iface].
  - destruct (_ <? _); [by wp_step; eapply kept_refl|].
    destruct (_ <? _); [|by eapply wp_update_probe].
    eapply wp_quiet_bind; [done..| |].
    + intros r _ Hok. by eapply state_ok_same.
    + intros w' Hinv' Hl'. by eapply wp_set_state_iface.
Qed.

Lemma wp_update_stale w l s :
  world_inv w → w_sessions w !! l = Some s → s_state s = ND_STATE_STALE →
  wp (update_stale l s) (λ _, kept l w) w.
Proof.
  intros Hinv Hl Est. unfold update_stale. do 4 wp_step.
  destruct (probing_iface _ _ _ Hinv Hl (or_intror Est)) as [iface Ei]. rewrite Ei.
  destruct (_ <=? _); [by eapply wp_set_state_iface|].
  destruct (_ && _); [by wp_step; eapply kept_refl|].
  destruct (_ <? _); [by wp_step; eapply kept_refl|]. by eapply wp_update_probe.
Qed.

Lemma wp_rule_iface_owns w rl r a (Q : bool → world → Prop) ex hole :
  inv ex hole w → (∀ k, 0 ≤ ex k) → w_rules w !! rl = Some r → (∀ b, Q b w) →
  wp (rule_iface_owns r a) Q w.
Proof.
  intros Hinv Hex Hr HQ. unfold rule_iface_owns.
  destruct (r_iface r) as [iface|] eqn:Ei; [|by wp_step].
  destruct (rule_iface_live _ _ _ Hinv Hex _ _ _ Hr Ei) as [i Hi]. repeat wp_step.
  destruct (i_up i); cbn [negb]; by repeat wp_step.
Qed.

Lemma wp_update_valid w l s :
  world_inv w → w_sessions w !! l = Some s → s_state s = ND_STATE_VALID →
  wp (update_valid l s) (λ _, kept l w) w.
Proof.
  intros Hinv Hl Est. unfold update_valid. do 4 wp_step.
  destruct (_ <? _); [by wp_step; eapply kept_refl|].
  destruct (session_rule_live _ _ _ Hinv _ _ Hl) as (r & p & Hr & _ & _ & Hrok).
  pose proof (inv_state_ok _ _ _ _ _ _ Hinv Hl Hr ltac:(done)) as Hok.
  destruct (s_iface s) as [iface|] eqn:Ei.
  - wp_step. unfold set_state. wp_step. wp_step.
    eapply wp_set_session_quiet; [done..| |].
    { intros r' Hr' _. simplify_eq. by eapply state_ok_probing. }
    intros Hinv1. eapply wp_kept_from; [by eapply frame_set|].
    eapply wp_quiet_bind; [exact Hinv1|apply lookup_insert_eq|done| |].
    { intros r' _ Hok'. by eapply state_ok_same. }
    intros w2 Hinv2 Hl2. destruct (_ || _).
    + eapply wp_update_probe; [exact Hinv2|exact Hl2|done|exact Ei].
    + eapply wp_update_quiet; [exact Hinv2|exact Hl2|done|done].
  - wp_step. wp_step. wp_step.
    assert (∀ b : bool, (b = false → r_mode r ≠ ND_MODE_STATIC) →
      wp (if b then set_session l (λ s, s <| s_state_time := nd_current_time w |>)
          else set_state l ND_STATE_INVALID) (λ _, kept l w) w) as Hend.
    { intros [|] Hm; [by eapply wp_update_quiet|]. eapply wp_set_state; [done..|].
      intros r' Hr' _. simplify_eq. specialize (Hm eq_refl). unfold state_ok in *. cbn.
      rewrite Ei in *. destruct (r_mode r); [done|done|by right|done]. }
    destruct (bool_decide_reflect (r_mode r = ND_MODE_STATIC)); [wp_step; by apply (Hend true)|].
    eapply wp_rule_iface_owns; [exact Hinv|exact none_nonneg|exact Hr|]. intros b. by apply (Hend b).
Qed.
(** The session is unlinked and freed; the negative count pays for its interface. *)
Lemma inv_session_delete ex hole w w' l s :
  inv (λ k, ex k - ref_ind s_iface s k) hole w → w_sessions w !! l = Some s →
  rest w' = rest w →
  w_buckets w' = alter (ll_delete l) (bucket_of (s_tgt s) w) (w_buckets w) →
  w_buckets_r w' = alter (ll_delete l) (bucket_of (s_tgt_r s) w) (w_buckets_r w) →
  w_session_count w' = w_session_count w - 1 →
  w_sessions w' = delete l (w_sessions w) →
  inv ex hole w'.
Proof.
  intros ([Hii Hg Hsi Hp] & Hrn & Hst) Hl [= E1 E2 E3 E4 E5 E6 E7 E8] F1 F2 F3 F4.
  split; [constructor|split]; rewrite ?E1, ?E2, ?E3, ?E4, ?E5, ?E6, ?E7, ?E8, ?F1, ?F2, ?F3, ?F4;
    try done.
  - eapply iface_inv_ext; [|exact Hii]. intros k. unfold iface_refs. cbn.
    rewrite E4, E6, F4, (refs_in_delete s_iface (w_sessions w) l s k Hl). lia.
  - by apply session_inv_delete.
  - by apply states_ok_delete.
Qed.

Lemma wp_update_invalid w l s :
  world_inv w → w_sessions w !! l = Some s → wp (update_invalid l s) (λ _, updated l w) w.
Proof.
  intros Hinv Hl. unfold update_invalid. do 4 wp_step.
  destruct (_ <? _); [by wp_step; split; [|apply frame_refl]|].
  wp_step. eapply wp_mono; [by eapply wp_ndL_down; [exact Hinv|exact none_nonneg|]|].
  intros [] w1 (Hinv1 & (s1 & Hl1 & Er & Et & Etr & Ei & _) & Hst1 & _).
  rewrite <- Et, <- Etr, <- Ei. wp_step.
  assert (wp match s_iface s1 with Some iface => nd_iface_close iface | None => mret () end
    (λ _ w2, only_ifaces w1 w2 ∧ inv (λ k, none k - ref_ind s_iface s1 k) None w2) w1) as Hclose.
  { destruct (s_iface s1) as [iface|] eqn:Ei1.
    - destruct (session_iface_live _ _ _ Hinv1 none_nonneg _ _ _ Hl1 Ei1) as [i Hi].
      eapply wp_mono; [by eapply wp_iface_close|]. intros [] w2 [Ho Hinv2]. split; [done|].
      eapply inv_ext; [|exact Hinv2]. intros k. unfold one, ref_ind. rewrite Ei1.
      destruct (decide (k = iface)) as [-> |Hne]; [by rewrite decide_True|].
      by rewrite decide_False by congruence.
    - wp_step. split; [apply only_ifaces_refl|].
      eapply inv_ext; [|exact Hinv1]. intros k. unfold ref_ind. by rewrite Ei1. }
  eapply wp_mono; [exact Hclose|]. intros [] w2 [(ifs & fl & evs & -> & Hevs) Hinv2].
  unfold upd_bucket. do 6 wp_step. eapply wp_free; [exact Hl1|]. split.
  { eapply inv_session_delete; [exact Hinv2|exact Hl1|reflexivity..]. }
  eapply frame_trans; [exact Hst1|]. split; [done|].
  intros k Hk. apply (lookup_delete_ne (w_sessions w1)). done.
Qed.

Lemma wp_session_update w l s :
  world_inv w → w_sessions w !! l = Some s → wp (nd_session_update l) (λ _, updated l w) w.
Proof.
  intros Hinv Hl. unfold nd_session_update. wp_step. wp_step.
  assert (∀ m : M unit, wp m (λ _, kept l w) w → wp m (λ _, updated l w) w) as Hk.
  { intros m Hm. eapply wp_mono; [exact Hm|]. by intros [] w' (? & _ & ?). }
  destruct (s_state s) eqn:Est.
  - by apply Hk, wp_update_incomplete.
  - by apply Hk, wp_update_valid.
  - by apply Hk, wp_update_stale.
  - by apply wp_update_invalid.
Qed.
(** ** Lookup *)

(** The session at [l], for search predicates. *)
Definition on_session w (f : nd_session → bool) l : bool :=
  match w_sessions w !! l with Some s => f s | None => false end.

Definition of_proxy w (proxy : loc) s : bool :=
  match w_rules w !! s_rule s with Some r => bool_decide (r_proxy r = proxy) | None => false end.

Lemma bucket_sessions ex hole w a l :
  inv ex hole w → l ∈ get_bucket w_buckets a w →
  ∃ s, w_sessions w !! l = Some s.
Proof.
  intros ([_ _ [Ht _ _ _ _ _] _] & _) Hin.
  apply (table_bucket_total _ _ _ _ Ht) in Hin as (s & Hs & _). eauto.
Qed.

Lemma wp_session_find ex hole w tgt proxy (Q : option loc → world → Prop) :
  inv ex hole w →
  Q (List.find (on_session w (λ s, of_proxy w proxy s && nd_addr_eq (s_tgt s) tgt))
       (get_bucket w_buckets tgt w)) w →
  wp (nd_session_find tgt proxy) Q w.
Proof.
  intros Hinv HQ. unfold nd_session_find. wp_step. wp_step. eapply wp_ll_search; [|exact HQ].
  intros l Q' Hin HQ'. destruct (bucket_sessions _ _ _ _ _ Hinv Hin) as [s Hs].
  destruct (session_rule_live _ _ _ Hinv _ _ Hs) as (r & p & Hr & _).
  repeat wp_step. unfold on_session, of_proxy in HQ'. by rewrite Hs, Hr in HQ'.
Qed.

Lemma wp_session_find_r ex hole w tgt iface (Q : option loc → world → Prop) :
  inv ex hole w →
  Q (List.find (on_session w (λ s, bool_decide (s_iface s = Some iface) && nd_addr_eq (s_tgt_r s) tgt))
       (get_bucket w_buckets_r tgt w)) w →
  wp (nd_session_find_r tgt iface) Q w.
Proof.
  intros Hinv HQ. unfold nd_session_find_r. wp_step. wp_step. eapply wp_ll_search; [|exact HQ].
  intros l Q' Hin HQ'. destruct Hinv as ([_ _ [_ Ht _ _ _ _] _] & _).
  apply (table_bucket_total _ _ _ _ Ht) in Hin as (s & Hs & _).
  repeat wp_step. unfold on_session in HQ'. by rewrite Hs in HQ'.
Qed.

Lemma find_session_Some w f ls l :
  List.find (on_session w f) ls = Some l → ∃ s, w_sessions w !! l = Some s ∧ f s = true.
Proof.
  intros [_ H]%find_some. unfold on_session in H. destruct (w_sessions w !! l); [eauto|done].
Qed.

(** A failed lookup means that there is no session for the target and proxy. *)
Lemma session_find_None ex hole w tgt proxy l s r :
  inv ex hole w →
  List.find (on_session w (λ s, of_proxy w proxy s && nd_addr_eq (s_tgt s) tgt))
    (get_bucket w_buckets tgt w) = None →
  w_sessions w !! l = Some s → w_rules w !! s_rule s = Some r → s_tgt s = tgt → r_proxy r ≠ proxy.
Proof.
  intros ([_ _ [Ht _ _ _ _ _] _] & _) Hf Hs Hr <- Hp.
  assert (In l (get_bucket w_buckets (s_tgt s) w)) as Hin.
  { apply list_elem_of_In, (table_bucket_total _ _ _ _ Ht). eauto. }
  pose proof (find_none _ _ Hf _ Hin) as Hn. unfold on_session, of_proxy in Hn.
  rewrite Hs, Hr, nd_addr_eq_refl, bool_decide_eq_true_2 in Hn by done. done.
Qed.
(** ** Creation *)

Lemma inv_session_new w w' l s r :
  world_inv w → w_sessions w !! l = None → w_session_count w < ND_SESSION_MAX →
  session_ok (w_rules w) s → s_iface s = None → w_rules w !! s_rule s = Some r →
  (∀ k sk rk, w_sessions w !! k = Some sk → w_rules w !! s_rule sk = Some rk →
     s_tgt sk = s_tgt s → r_proxy rk ≠ r_proxy r) →
  rest w' = rest w →
  w_buckets w' = alter (cons l) (bucket_of (s_tgt s) w) (w_buckets w) →
  w_buckets_r w' = alter (cons l) (bucket_of (s_tgt_r s) w) (w_buckets_r w) →
  w_session_count w' = w_session_count w + 1 →
  w_sessions w' = <[l := s]> (w_sessions w) →
  inv none (Some l) w'.
Proof.
  intros ([Hii Hg Hsi Hp] & Hrn & Hst) Hl Hc Hok Ei Hrule Hnew [= E1 E2 E3 E4 E5 E6 E7 E8] F1 F2 F3 F4.
  split; [constructor|split]; rewrite ?E1, ?E2, ?E3, ?E4, ?E5, ?E6, ?E7, ?E8, ?F1, ?F2, ?F3, ?F4;
    try done.
  - eapply iface_inv_ext; [|exact Hii]. intros k. unfold iface_refs. cbn.
    rewrite E4, E6, F4, (refs_in_new s_iface (w_sessions w) l s k Hl).
    rewrite (ref_ind_ne s_iface s k); [lia|]. by rewrite Ei.
  - by eapply session_inv_new.
  - intros k sk rk [[<- <-]|[Hne Hk]]%lookup_insert_Some Hrk Hh; [done|].
    by apply (Hst k sk rk).
Qed.

(** The session is complete. *)
Lemma inv_fill ex w l s r :
  inv ex (Some l) w → w_sessions w !! l = Some s → w_rules w !! s_rule s = Some r → state_ok r s →
  inv ex None w.
Proof.
  intros (Hb & Hrn & Hst) Hl Hr Hok. split; [done|]. split; [done|].
  intros k sk rk Hk Hrk _. destruct (decide (k = l)) as [-> |Hne]; [by simplify_eq|].
  apply (Hst k sk rk Hk Hrk). congruence.
Qed.

(** A session under construction: [s] is at [l] and belongs to the rule [r]. *)
Definition building l s (r : nd_rule) w : Prop :=
  inv none (Some l) w ∧ w_sessions w !! l = Some s ∧ w_rules w !! s_rule s = Some r.

Lemma building_kept l s s' r w :
  building l s r w → quiet s s' → state_ok r s' →
  kept l w (set_field w_sessions (λ h, <[l := s']> h) w).
Proof.
  intros (Hinv & Hl & Hr) Hq Hok. destruct Hq as (E1 & E2 & E3 & E4 & E5 & E6).
  split_and!; [|by eexists; apply lookup_insert_eq|by eapply frame_set].
  eapply inv_fill; [|apply lookup_insert_eq| |exact Hok]; [|by rewrite E1].
  eapply inv_session_update; try done.
  eapply session_ok_quiet; [|by eapply inv_session_ok]. by repeat split.
Qed.

Lemma wp_start_probe l s r w :
  building l s r w → rule_ok r →
  match r_mode r with ND_MODE_IFACE => s_iface s = r_iface r | ND_MODE_AUTO => s_iface s ≠ None
                    | _ => s_iface s = None end →
  wp (session_start_probe l r) (λ _, kept l w) w.
Proof.
  intros Hb Hrok Hi. pose proof Hb as (Hinv & Hl & Hr). unfold session_start_probe. wp_step. wp_step.
  unfold rule_ok in Hrok. destruct (s_iface s) as [iface|] eqn:Ei.
  - wp_step. wp_step. wp_step. unfold set_session. wp_step.
    set (s' := s <| s_state := _ |> <| s_ons_count := _ |> <| s_ons_time := _ |>).
    assert (kept l w (set_field w_sessions (λ h, <[l := s']> h) w)) as Hk.
    { eapply building_kept; [exact Hb|by repeat split|].
      unfold state_ok. cbn. rewrite Ei. by destruct (r_mode r). }
    eapply wp_kept_from; [apply Hk|].
    eapply wp_probe; [apply Hk|apply lookup_insert_eq|exact Ei|].
    intros out Hinv2. split_and!; [exact Hinv2| |done]. eexists. apply lookup_insert_eq.
  - destruct (bool_decide_reflect (r_mode r = ND_MODE_STATIC)) as [Em|Em]; cbn [when].
    + unfold set_session. wp_step. eapply building_kept; [exact Hb|by repeat split|].
      unfold state_ok. cbn. by rewrite Ei, Em.
    + destruct (r_mode r); [done|done| |done]. by rewrite <- Hi in Hrok.
Qed.
(** The fields the invariant depends on. *)
Definition core w := (rest w, w_sessions w, w_buckets w, w_buckets_r w, w_session_count w).

Lemma inv_core ex hole w w' : core w' = core w → inv ex hole w → inv ex hole w'.
Proof.
  intros [= E1 E2 E3 E4 E5 E6 E7 E8 F4 F1 F2 F3] ([Hii Hg Hsi Hp] & Hrn & Hst).
  split; [constructor|split]; rewrite ?E1, ?E2, ?E3, ?E4, ?E5, ?E6, ?E7, ?E8, ?F1, ?F2, ?F3, ?F4;
    try done.
  eapply iface_inv_ext; [|exact Hii]. intros k. unfold iface_refs. cbn. by rewrite E4, E6, F4.
Qed.

(** The session takes a new reference to an interface that is already open. *)
Lemma building_share l s r w iface i :
  building l s r w → s_iface s = None → w_ifaces w !! iface = Some i →
  building l (s <| s_iface := Some iface |>) r
    (set_field w_ifaces (λ h, <[iface := i <| i_refcount := i_refcount i + 1 |>]> h)
      (set_field w_sessions (λ h, <[l := s <| s_iface := Some iface |>]> h) w)).
Proof.
  intros (Hinv & Hl & Hr) Ei Hi. split_and!; [|apply lookup_insert_eq|exact Hr].
  assert (wp (update w_ifaces iface (λ i, i <| i_refcount := i_refcount i + 1 |>);; mret (Some iface))
    (opened (R := live (Some l)) none w) w) as Hopen by by eapply wp_iface_ref.
  unfold wp, mbind, M_bind, update in Hopen. rewrite Hi in Hopen. destruct Hopen as [_ [Hinv1 _]].
  eapply inv_core; [|eapply inv_session_gain; [exact Hinv1|exact Hl|exact Ei|done]]. reflexivity.
Qed.

Section init.
Context (K : kernel) (l : loc) (r : nd_rule) (Hrok : rule_ok r).

Lemma wp_auto_iface s w tgt :
  building l s r w → s_iface s = None →
  wp (session_auto_iface K l r tgt) (λ b w', ∃ s', building l s' r w' ∧ frame l w w' ∧
    (if b then s_iface s' ≠ None else s_iface s' = None)) w.
Proof.
  intros Hb Ei. pose proof Hb as (Hinv & Hl & Hr). unfold session_auto_iface. wp_step. wp_step.
  assert (∃ s', building l s' r w ∧ frame l w w ∧ s_iface s' = None) as Hnone
    by (exists s; by split_and!).
  destruct (nd_rt_find_route _ _ _) as [route|]; [|by wp_step].
  destruct (session_rule_live _ _ _ Hinv _ _ Hl) as (r' & p & Hr' & Hp & _). simplify_eq.
  wp_step. wp_step. destruct (proxy_iface_live _ _ _ Hinv none_nonneg _ _ Hp) as (pif & i & Epi & Hi).
  rewrite Epi. do 4 wp_step. destruct (rt_oif route =? i_index i); [by wp_step|].
  wp_step. eapply wp_mono; [by eapply wp_iface_open; [exact none_nonneg|exact Hinv]|].
  intros iface w' [(ifs & fl & evs & -> & Hevs) Hopen]. wp_step. unfold set_session. wp_step. wp_step.
  destruct iface as [iface|].
  - destruct Hopen as [Hinv' _]. exists (s <| s_iface := Some iface |>). split_and!; [|by eapply frame_set|done].
    split_and!; [|apply lookup_insert_eq|exact Hr].
    by eapply inv_session_gain; [exact Hinv'|exact Hl|exact Ei|].
  - exists s. rewrite set_iface_id by done. split_and!; [|by eapply frame_set|done].
    split_and!; [|apply lookup_insert_eq|exact Hr].
    eapply inv_session_update; [exact Hopen|exact Hl|done..|by eapply inv_session_ok|done].
Qed.

Lemma wp_session_init s w tgt tgt_r :
  building l s r w → s_iface s = None → wp (session_init K l r tgt tgt_r) (λ _, kept l w) w.
Proof.
  intros Hb Ei. pose proof Hb as (Hinv & Hl & Hr). unfold session_init.
  destruct (bool_decide_reflect (r_mode r = ND_MODE_AUTO)) as [Em|Em].
  { wp_step. eapply wp_mono; [by eapply wp_auto_iface|].
    intros [|] w' (s' & Hb' & Hfr & Hi'); (eapply wp_kept_from; [exact Hfr|]).
    - eapply wp_start_probe; [exact Hb'|done|by rewrite Em].
    - pose proof Hb' as (_ & Hl' & _). unfold set_session. wp_step.
      eapply building_kept; [exact Hb'|by repeat split|]. unfold state_ok. cbn. by rewrite Em, Hi'. }
  wp_step.
  assert (wp (if bool_decide (r_mode r = ND_MODE_IFACE) then rule_iface_owns r tgt_r else mret false)
    (λ b w', w' = w ∧ (b = true → r_mode r = ND_MODE_IFACE)) w) as Howns.
  { destruct (bool_decide_reflect (r_mode r = ND_MODE_IFACE)); [|by wp_step].
    by eapply wp_rule_iface_owns; [exact Hinv|exact none_nonneg|exact Hr|]. }
  eapply wp_mono; [exact Howns|]. intros [|] w' [-> Hm].
  { specialize (Hm eq_refl). unfold set_session. wp_step.
    eapply building_kept; [exact Hb|by repeat split|]. unfold state_ok. cbn. rewrite Hm, Ei. by left. }
  wp_step. unfold set_session. wp_step. wp_step. destruct (r_iface r) as [iface|] eqn:Eri.
  - destruct (rule_iface_live _ _ _ Hinv none_nonneg _ _ _ Hr Eri) as [i Hi].
    eapply wp_update; [exact Hi|].
    eapply wp_kept_from; [by eapply frame_set|].
    eapply wp_start_probe; [by apply building_share|done|].
    unfold rule_ok in Hrok. destruct (r_mode r); [done|by destruct Hrok; congruence|done|done].
  - wp_step. eapply wp_kept_from; [by eapply frame_set|].
    rewrite set_iface_id by done. eapply wp_start_probe; [|done|].
    + split_and!; [|apply lookup_insert_eq|exact Hr].
      eapply inv_session_update; [exact Hinv|exact Hl|done..|by eapply inv_session_ok|done].
    + unfold rule_ok in Hrok. destruct (r_mode r); congruence.
Qed.
End init.

Lemma wp_session_create K w rl r tgt :
  world_inv w → w_rules w !! rl = Some r →
  (∀ k sk rk, w_sessions w !! k = Some sk → w_rules w !! s_rule sk = Some rk →
     s_tgt sk = tgt → r_proxy rk ≠ r_proxy r) →
  wp (nd_session_create K rl tgt) (λ o w',
    match o with
    | Some l => kept l w w' ∧ w_sessions w !! l = None
    | None => w' = w ∧ ND_SESSION_MAX ≤ w_session_count w
    end) w.
Proof.
  intros Hinv Hr Hnew. unfold nd_session_create. wp_step. wp_step.
  destruct (Z.leb_spec ND_SESSION_MAX (w_session_count w)); [by wp_step|].
  do 5 wp_step. apply wp_alloc. intros l Hl.
  set (s0 := mk_session _ _ _ _ _ _ _ _ _ _ _). unfold upd_bucket. do 7 wp_step.
  eapply wp_mono; [eapply wp_session_init with (s := s0); [| |reflexivity]|].
  - pose proof Hinv as (_ & Hrn & _). by apply (rn_rule _ _ _ Hrn rl).
  - split_and!; [|apply lookup_insert_eq|exact Hr].
    eapply inv_session_new with (s := s0);
      [exact Hinv|exact Hl|done| |reflexivity|exact Hr|exact Hnew|reflexivity..].
    constructor; [|done|done|constructor]. by exists r.
  - intros [] w' (Hinv' & Hl' & Hfr). wp_step. split; [|done]. split_and!; [done|done|].
    eapply frame_trans; [|exact Hfr]. by eapply frame_set.
Qed.

(** ** The loops over all sessions *)

(** Buckets are preserved as sets of live sessions while they are visited. *)
Lemma wp_buckets w (body : loc → M unit) (P : world → Prop) :
  P w →
  (∀ w, P w → world_inv w) →
  (∀ w l, P w → is_Some (w_sessions w !! l) →
     wp (body l) (λ _ w', P w' ∧ ∀ k, k ≠ l → is_Some (w_sessions w !! k) → is_Some (w_sessions w' !! k)) w) →
  wp (for_each (seq 0 (Z.to_nat NDPPD_SESSION_BUCKETS)) (λ i,
        bucket ← gets (λ w, w_buckets w !!! i); for_each bucket body)) (λ _ w', P w') w.
Proof.
  intros HP Hinv Hbody. apply (wp_for_each (λ rest w, P w ∧ ∀ i, i ∈ rest → (i < Z.to_nat NDPPD_SESSION_BUCKETS)%nat)).
  - split; [done|]. intros i Hi%elem_of_seq. lia.
  - clear w HP. intros i rest w [HP Hrest]. wp_step. wp_step.
    destruct (Hinv w HP) as ([_ _ [[Hlen Ht] _ _ _ _ _] _] & _).
    destruct (lookup_lt_is_Some_2 (w_buckets w) i) as [bucket Hbucket].
    { rewrite Hlen. apply Hrest. by left. }
    rewrite (list_lookup_total_correct _ _ _ Hbucket).
    destruct (Ht _ _ Hbucket) as [Hnd Hin].
    apply (wp_for_each (λ ls w, NoDup ls ∧ P w ∧ ∀ k, k ∈ ls → is_Some (w_sessions w !! k))).
    + split_and!; [done|done|]. intros k (s & Hs & _)%Hin. by eauto.
    + intros l ls w' (Hnd' & HP' & Hlive). apply list.NoDup_cons in Hnd' as [Hnl Hnd'].
      eapply wp_mono; [apply Hbody; [done|by apply Hlive; left]|].
      intros [] w2 [HP2 Hlive2]. split_and!; [done|done|].
      intros k Hk. apply Hlive2; [by intros ->|]. apply Hlive. by right.
    + intros w' (_ & HP' & _). split; [done|]. intros j Hj. apply Hrest. by right.
  - intros w' [HP' _]. done.
Qed.

Lemma wp_update_all w :
  world_inv w → wp nd_session_update_all (λ _ w', world_inv w' ∧ static w' = static w) w.
Proof.
  intros Hinv. unfold nd_session_update_all. apply wp_buckets; [done|by intros w' [? _]|].
  intros w' l [Hinv' Hst] [s Hs]. eapply wp_mono; [by eapply wp_session_update|].
  intros [] w2 [Hinv2 [Hst2 Hother]]. split_and!; [done|congruence|].
  intros k Hk Hsome. by rewrite Hother.
Qed.

(** The probed address, the state and the timers of a session, and that no
    session's changed. *)
Definition timers s := (s_tgt_r s, s_state s, s_state_time s, s_iface s, s_ons_count s, s_ons_time s).

Definition timers_kept w w' : Prop :=
  ∀ k, timers <$> w_sessions w' !! k = timers <$> w_sessions w !! k.

Lemma timers_kept_same w w' : w_sessions w' = w_sessions w → timers_kept w w'.
Proof. by intros E k; rewrite E. Qed.

Lemma timers_kept_trans w1 w2 w3 : timers_kept w1 w2 → timers_kept w2 w3 → timers_kept w1 w3.
Proof. intros H1 H2 k. by rewrite H2, H1. Qed.

Lemma timers_kept_frame l s s' w w' :
  frame l w w' → w_sessions w !! l = Some s → w_sessions w' !! l = Some s' → timers s' = timers s →
  timers_kept w w'.
Proof.
  intros [_ Hother] Hl Hl' E k. destruct (decide (k = l)) as [-> |Hk]; [|by rewrite Hother].
  rewrite Hl, Hl'. cbn. by rewrite E.
Qed.

Lemma wp_up_timers ex hole w l s :
  inv ex hole w → (∀ k, 0 ≤ ex k) → w_sessions w !! l = Some s →
  wp (ndL_up l) (λ _ w', timers_kept w w') w.
Proof.
  intros Hinv Hex Hl. unfold ndL_up. wp_step. wp_step.
  assert (timers_kept w w) as Hskip by done.
  destruct (s_iface s) as [iface|] eqn:Ei; [|by wp_step].
  destruct (session_iface_live _ _ _ Hinv Hex _ _ _ Hl Ei) as [i Hi]. wp_step. wp_step.
  destruct (i_up i); cbn [negb]; [|by wp_step].
  destruct (s_autowired s); [by wp_step|].
  destruct (session_rule_live _ _ _ Hinv _ _ Hl) as (r & p & Hr & _). wp_step. wp_step.
  destruct (r_autowire r); cbn [negb]; [|by wp_step].
  wp_step. eapply wp_sends; [by eapply sends_add_route|done|]. intros out Hinv'.
  unfold set_session. wp_step.
  eapply (timers_kept_frame l s); [by eapply frame_set|done|apply lookup_insert_eq|done].
Qed.

Lemma wp_iface_changed w iface up :
  world_inv w →
  wp (nd_session_iface_changed iface up)
    (λ _ w', world_inv w' ∧ static w' = static w ∧ rest w' = rest w ∧ timers_kept w w') w.
Proof.
  intros Hinv. unfold nd_session_iface_changed. apply wp_buckets; [done|by intros w' [? _]|].
  intros w' l (Hinv' & Hst & Hrest & Htk) [s Hs]. wp_step. wp_step.
  assert (∀ w2, kept l w' w2 → rest w2 = rest w' → timers_kept w' w2 →
    (world_inv w2 ∧ static w2 = static w ∧ rest w2 = rest w ∧ timers_kept w w2) ∧
    ∀ k, k ≠ l → is_Some (w_sessions w' !! k) → is_Some (w_sessions w2 !! k)) as Hk.
  { intros w2 (? & _ & [Hst2 Hother]) Hr2 Ht2. split_and!; [done|congruence|congruence| |].
    - by eapply timers_kept_trans.
    - intros k Hk Hsome. by rewrite Hother. }
  destruct (bool_decide _); cbn [negb]; [|by wp_step].
  destruct up; cbn [negb].
  - apply wp_when; intros _; [|done].
    eapply wp_mono; [eapply wp_and; [by eapply wp_ndL_up; [exact Hinv'|exact none_nonneg|exact Hs]|
      by eapply wp_up_timers; [exact Hinv'|exact none_nonneg|exact Hs]]|].
    intros [] w2 [(Hinv2 & (s2 & Hs2 & _) & Hfr & Hrest2) Ht2]. apply Hk; [|done|done]. by split_and!.
  - unfold set_session. wp_step.
    assert (∀ w2, w_sessions w2 = <[l := s <| s_autowired := false |>]> (w_sessions w') →
      static w2 = static w' → timers_kept w' w2) as Ht2.
    { intros w2 E2 Es2. eapply (timers_kept_frame l s); [by eapply frame_set|done|by rewrite E2; apply lookup_insert_eq|done]. }
    apply Hk; [|reflexivity|by apply Ht2].
    split_and!; [|by eexists; apply lookup_insert_eq|by eapply frame_set].
    destruct (session_rule_live _ _ _ Hinv' _ _ Hs) as (r & p & Hr & _). by eapply inv_autowired.
Qed.
End safe.
