(* ===== verification/DaemonSafe.v ===== *)
(** * The daemon keeps the invariant

    Every handler and every iteration of the main loop, from any state that
    satisfies the invariant and on any input, returns without a fault and
    establishes the invariant again. *)
From S2P Require Import Prelude Addr World Monad Packet Route Netlink NetlinkSpec Iface Session Proxy Receive.
From S2P Require Import Daemon Counting Invariant IfaceSafe SessionSafe.

Section safe.
Context {BO : ByteOrder}.
Implicit Types (w : world) (l : loc).

(** ** Proxies *)

(** A solicitation is dropped or handed to one session, found or created. *)
Lemma wp_proxy_ns_session K w pl p src dst tgt src_ll (Q : world → Prop) :
  world_inv w → w_proxies w !! pl = Some p → Q w →
  (∀ l s w1, w1 = w ∨ frame l w w1 ∧ w_sessions w !! l = None →
     world_inv w1 → w_sessions w1 !! l = Some s →
     wp (nd_session_handle_ns K l src src_ll) (λ _, Q) w1) →
  wp (nd_proxy_handle_ns K pl src dst tgt src_ll) (λ _, Q) w.
Proof.
  intros Hinv Hp HQ Hns. unfold nd_proxy_handle_ns. wp_step. eapply wp_session_find; [exact Hinv|].
  destruct (List.find _ _) as [l|] eqn:Hf.
  { apply find_session_Some in Hf as (s & Hs & _). eapply Hns; [by left|done..]. }
  wp_step. wp_step. wp_step.
  eapply (wp_ll_search (λ rl, match w_rules w !! rl with
                        | Some r => nd_addr_match (r_addr r) tgt (r_prefix r) | None => false end)).
  { intros rl Q' Hrl HQ'. destruct Hinv as ([_ [_ _ _ Hg] _ _] & _).
    destruct (Hg _ _ _ Hp Hrl) as (r & Hr & _). repeat wp_step. by rewrite Hr in HQ'. }
  destruct (List.find _ (p_rules p)) as [rl|] eqn:Hfr; [|by wp_step].
  apply find_some in Hfr as [Hrl%list_elem_of_In _].
  pose proof Hinv as ([_ [_ _ _ Hg] _ _] & _). destruct (Hg _ _ _ Hp Hrl) as (r & Hr & Hrp).
  wp_step. eapply wp_mono; [eapply wp_session_create; [exact Hinv|exact Hr|]|].
  { intros k sk rk Hk' Hrk Ht. rewrite Hrp. by eapply session_find_None. }
  intros [l|] w' Hpost; [|wp_step; by destruct Hpost as [-> _]].
  destruct Hpost as [(Hinv' & [s Hs] & Hframe) Hnew]. eapply Hns; [by right|done..].
Qed.

Lemma wp_proxy_handle_ns K w pl p src dst tgt src_ll :
  world_inv w → w_proxies w !! pl = Some p →
  wp (nd_proxy_handle_ns K pl src dst tgt src_ll) (λ _ w', world_inv w' ∧ static w' = static w) w.
Proof.
  intros Hinv Hp. eapply (wp_proxy_ns_session _ _ _ _ _ _ _ _ (λ w', world_inv w' ∧ static w' = static w));
    [done..|].
  intros l s w1 Hw1 Hinv1 Hs. eapply wp_mono; [by eapply wp_session_handle_ns|].
  intros [] w' (? & _ & [Hst _]). split; [done|]. rewrite Hst. by destruct Hw1 as [-> |[[? _] _]].
Qed.

(** ** Frames *)

Lemma wp_handle_frame K w ifindex frame :
  world_inv w → Forall is_u8 frame →
  wp (ndL_handle_frame K ifindex frame) (λ _ w', world_inv w' ∧ static w' = static w) w.
Proof.
  intros Hinv Hu8. unfold ndL_handle_frame. wp_step. wp_step. wp_step.
  eapply wp_search_iface; [exact Hinv|]. destruct (List.find _ _) as [l|] eqn:Hf; [|by wp_step].
  apply find_iface_Some in Hf as (i & Hi & _).
  destruct (parse_frame_Some frame Hu8) as [r Hr]. wp_step.
  eapply wp_in_bounds; [exact Hr|]. unfold ndL_handle_rx.
  destruct r as [|src dst tgt src_ll|tgt| |]; [by wp_step| | |by wp_step..].
  - wp_step. wp_step. destruct (i_proxy i) as [pl|] eqn:Epl; [|by wp_step].
    pose proof Hinv as ([[_ _ _ _ Hpr] _ _ _] & _). destruct (Hpr _ _ _ Hi Epl) as (p & Hp & _).
    by eapply wp_proxy_handle_ns.
  - wp_step. eapply wp_session_find_r; [exact Hinv|].
    destruct (List.find _ _) as [sl|] eqn:Hf; [|by wp_step].
    apply find_session_Some in Hf as (s & Hs & [Hif _]%andb_true_iff).
    apply bool_decide_eq_true in Hif.
    eapply wp_mono; [eapply wp_session_handle_na; [exact Hinv|exact Hs|by rewrite Hif]|].
    by intros [] w' (? & _ & [? _]).
Qed.

(** ** Rebinding *)

(** The fields that reconciling with the kernel keeps. *)
Definition rebound w w' : Prop :=
  world_inv w' ∧ static w' = static w ∧ w_first_iface w' = w_first_iface w ∧ timers_kept w w'.

Lemma rebound_refl w : world_inv w → rebound w w.
Proof. done. Qed.

Lemma rebound_trans w1 w2 w3 : rebound w1 w2 → rebound w2 w3 → rebound w1 w3.
Proof.
  intros (? & ? & ? & ?) (? & ? & ? & ?). split_and!; [done|congruence..|by eapply timers_kept_trans].
Qed.

Lemma wp_rebound_bind w (m k : M unit) :
  wp m (λ _, rebound w) w → (∀ w', rebound w w' → wp k (λ _, rebound w') w') →
  wp (m;; k) (λ _, rebound w) w.
Proof.
  intros Hm Hk. wp_step. eapply wp_mono; [exact Hm|]. intros [] w' Hw'.
  eapply wp_mono; [by apply Hk|]. intros [] w2. by apply rebound_trans.
Qed.

Lemma wp_update_iface w l f :
  world_inv w → l ∈ w_first_iface w → (∀ i, i_proxy (f i) = i_proxy i) →
  (∀ i, i_refcount (f i) = i_refcount i) → wp (update w_ifaces l f) (λ _, rebound w) w.
Proof.
  intros Hinv Hl Hp Hr. pose proof Hinv as ([Hii _ _ _] & _).
  apply (ii_dom _ _ _ _ Hii) in Hl as [i Hi]. wp_step. split_and!; [|done|done|done].
  destruct (ii_ref _ _ _ _ Hii _ _ Hi) as [Href Hpos].
  eapply inv_ifaces_only; [exact Hinv|]. eapply iface_inv_update; [exact Hii|exact Hi|apply Hp|..]; try done.
  by rewrite Hr.
Qed.

Lemma wp_changed w l up :
  world_inv w → wp (nd_session_iface_changed l up) (λ _, rebound w) w.
Proof.
  intros Hinv. eapply wp_mono; [by apply wp_iface_changed|].
  intros [] w' (? & ? & [= _ ? _ _ _ _ _ _] & ?). by split_and!.
Qed.

Lemma wp_emit_rebound w e : world_inv w → wp (emit e) (λ _, rebound w) w.
Proof. intros Hinv. wp_step. split_and!; [by apply inv_out|done..]. Qed.

Lemma wp_when_rebound w b (m : M unit) :
  world_inv w → wp m (λ _, rebound w) w → wp (when b m) (λ _, rebound w) w.
Proof. intros Hinv Hm. apply wp_when; intros _; [done|by apply rebound_refl]. Qed.

(** The end of [rebind_present], once the link-layer address is refreshed. *)
Lemma wp_rebind_present_end K w l i cur admin_up :
  world_inv w → l ∈ w_first_iface w →
  wp (if (cur =? i_index i) && i_up i then
        when (negb (Bool.eqb admin_up (i_admin_up i))) (nd_session_iface_changed l admin_up);;
        update w_ifaces l (λ i, i <| i_admin_up := admin_up |>)
      else
      if negb (k_add_membership K cur (i_promiscuous i)) then mret () else
      emit (EvAddMembership cur (i_promiscuous i));;
      when (negb (i_index i =? 0) && negb (i_index i =? cur))
        (emit (EvDropMembership (i_index i) (i_promiscuous i)));;
      when (i_up i) (nd_session_iface_changed l false);;
      update w_ifaces l (λ i, i <| i_index := cur |> <| i_up := true |>);;
      when admin_up (nd_session_iface_changed l true);;
      update w_ifaces l (λ i, i <| i_admin_up := admin_up |>)) (λ _, rebound w) w.
Proof.
  intros Hinv Hl.
  assert (∀ w', rebound w w' → world_inv w' ∧ l ∈ w_first_iface w') as Hreb
    by (intros w' (? & _ & -> & _); done).
  destruct (_ && _).
  - apply wp_rebound_bind; [apply wp_when_rebound; [done|by apply wp_changed]|].
    intros w' [? ?]%Hreb. by apply wp_update_iface.
  - destruct (negb _); [wp_step; by apply rebound_refl|].
    apply wp_rebound_bind; [by apply wp_emit_rebound|]. intros w1 H1.
    apply wp_rebound_bind; [apply wp_when_rebound; [by apply H1|by apply wp_emit_rebound, H1]|].
    intros w2 H2%(rebound_trans _ _ _ H1).
    apply wp_rebound_bind; [apply wp_when_rebound; [by apply H2|by apply wp_changed, H2]|].
    intros w3 H3%(rebound_trans _ _ _ H2).
    apply wp_rebound_bind; [by apply wp_update_iface; [apply Hreb..| |]|].
    intros w4 H4%(rebound_trans _ _ _ H3).
    apply wp_rebound_bind; [apply wp_when_rebound; [by apply H4|by apply wp_changed, H4]|].
    intros w5 H5%(rebound_trans _ _ _ H4). by apply wp_update_iface; [apply Hreb..| |].
Qed.

Lemma wp_rebind_iface K w l :
  world_inv w → l ∈ w_first_iface w → wp (rebind_iface K l) (λ _, rebound w) w.
Proof.
  intros Hinv Hl. pose proof Hinv as ([Hii _ _ _] & _).
  pose proof Hl as [i Hi]%(ii_dom _ _ _ _ Hii). unfold rebind_iface. wp_step. wp_step.
  destruct (k_nametoindex K (i_name i)) as [cur errno].
  assert (∀ w', rebound w w' → world_inv w' ∧ l ∈ w_first_iface w') as Hreb
    by (intros w' (? & _ & -> & _); done).
  destruct (cur =? 0).
  - destruct (_ && _); [wp_step; by apply rebound_refl|]. unfold rebind_absent.
    apply wp_when_rebound; [done|]. apply wp_rebound_bind; [by apply wp_update_iface|].
    intros w' [? ?]%Hreb. by apply wp_changed.
  - unfold rebind_present. apply wp_rebound_bind.
    { eapply wp_use_pkt_io; [exact Hinv|]. by apply rebound_refl. }
    intros w1 Hw1. pose proof (Hreb w1 Hw1) as [Hinv1 Hl1]. apply wp_rebound_bind.
    { unfold rebind_lladdr. destruct (k_hwaddr K (i_name i)); [|wp_step; by apply rebound_refl].
      apply wp_when_rebound; [done|]. by apply wp_update_iface. }
    intros w2 Hw2. pose proof (Hreb w2 (rebound_trans _ _ _ Hw1 Hw2)) as [Hinv2 Hl2].
    by apply wp_rebind_present_end.
Qed.

Lemma wp_rebind_all K w : world_inv w → wp (nd_iface_rebind_all K) (λ _, rebound w) w.
Proof.
  intros Hinv. unfold nd_iface_rebind_all. wp_step. wp_step.
  destruct (w_pkt_io w); cbn [negb]; [|wp_step; by apply rebound_refl]. wp_step. wp_step.
  apply (wp_for_each (λ ls w', rebound w w' ∧ ∀ l, l ∈ ls → l ∈ w_first_iface w')).
  - split; [by apply rebound_refl|done].
  - intros l ls w' [Hw' Hls]. eapply wp_mono; [apply wp_rebind_iface; [apply Hw'|apply Hls; by left]|].
    intros [] w2 Hw2. split; [by eapply rebound_trans|]. pose proof Hw2 as (_ & _ & -> & _).
    intros k Hk. apply Hls. by right.
  - by intros w' [? _].
Qed.

(** ** Netlink datagrams *)

(** What an event handler keeps. *)
Definition configured w :=
  (w_rules w, w_proxies w, w_proxy_list w, w_conf w, nd_current_time w, w_hash_seed w).

(** The routing and address tables keep their invariant. *)
Definition tables_kept w w' : Prop :=
  tables_ok (w_routes w) (w_addrs w) → tables_ok (w_routes w') (w_addrs w').

(** Handled without a change of a session's timers. *)
Definition handled w w' : Prop :=
  world_inv w' ∧ configured w' = configured w ∧ tables_kept w w' ∧ timers_kept w w'.

Lemma handled_intro w w' :
  world_inv w' → configured w' = configured w → tables_kept w w' → timers_kept w w' → handled w w'.
Proof. intros ? ? ? ?. split; [done|by split]. Qed.

Lemma handled_refl w : world_inv w → handled w w.
Proof. intros ?. apply handled_intro; [done..| |done]. by intros ?. Qed.

Lemma handled_trans w1 w2 w3 : handled w1 w2 → handled w2 w3 → handled w1 w3.
Proof.
  intros (? & E12 & H12 & ?) (? & E23 & H23 & ?). apply handled_intro; [done|congruence| |].
  - intros ?. by apply H23, H12.
  - by eapply timers_kept_trans.
Qed.

Lemma static_configured w w' : static w' = static w → configured w' = configured w.
Proof. unfold static, configured. congruence. Qed.

Lemma static_tables w w' : static w' = static w → tables_kept w w'.
Proof. unfold static, tables_kept. intros [= _ _ _ _ _ _ -> ->]. done. Qed.

#[local] Hint Resolve static_configured static_tables : core.

Lemma wp_handle_nlmsg K w m : world_inv w → wp (ndL_handle_nlmsg K m) (λ _, handled w) w.
Proof.
  intros Hinv. destruct m; unfold ndL_handle_nlmsg.
  - wp_step. by apply handled_refl.
  - wp_step. apply handled_intro; [by apply inv_addrs|done| |done]. intros ?. by apply tables_ok_new_addr.
  - wp_step. apply handled_intro; [by apply inv_addrs|done| |done]. intros ?. by apply tables_ok_delete_addr.
  - wp_step. apply handled_intro; [by apply inv_routes|done| |done]. intros ?. by apply tables_ok_new_route.
  - wp_step. apply handled_intro; [by apply inv_routes|done| |done]. intros ?. by apply tables_ok_delete_route.
  - eapply wp_mono; [by apply wp_rebind_all|]. intros [] w' (? & ? & _ & ?). apply handled_intro; auto.
Qed.

Lemma wp_handle_datagram K w d :
  world_inv w → datagram_ok d → wp (ndL_handle_datagram K d) (λ _, handled w) w.
Proof.
  intros Hinv Hok. destruct (datagram_ok_parses d Hok) as [[ms done_] Hd]. unfold ndL_handle_datagram. wp_step.
  eapply wp_in_bounds; [exact Hd|]. wp_step.
  apply (wp_for_each (λ _, handled w)); [by apply handled_refl| |].
  - intros m rest w' Hw'. eapply wp_mono; [by apply wp_handle_nlmsg, Hw'|].
    intros [] w2 ?. by eapply handled_trans.
  - intros w' Hw'. apply wp_when; intros _; [|done]. destruct Hw' as (? & ? & ? & ?).
    wp_step. apply handled_intro; [by apply inv_dump_timeout|done..].
Qed.

(** ** The main loop *)

Definition input_ok (i : input) : Prop :=
  match i with
  | InFrame _ frame => Forall is_u8 frame
  | InDatagram d => datagram_ok d
  end.

Lemma wp_handle_input K w i :
  world_inv w → input_ok i →
  wp (handle_input K i) (λ _ w', world_inv w' ∧ configured w' = configured w ∧ tables_kept w w') w.
Proof.
  intros Hinv Hok. destruct i; simpl in *.
  - eapply wp_mono; [by apply wp_handle_frame|]. intros [] w' [? ?]. auto.
  - eapply wp_mono; [by apply wp_handle_datagram|]. by intros [] w' (? & ? & ? & _).
Qed.

Lemma wp_remove_owned w : world_inv w → wp nd_rt_remove_owned_routes (λ _, handled w) w.
Proof.
  intros Hinv. unfold nd_rt_remove_owned_routes. wp_step. wp_step.
  eapply wp_sends_all; [exact Hinv| |by intros out ?; apply handled_intro; [..|by intros ?|]].
  intros route out Hinv'. unfold sends. apply wp_when; intros _.
  - by eapply sends_remove_route.
  - exists []. by world_eq.
Qed.

Lemma wp_query_addresses w : world_inv w → wp nd_rt_query_addresses (λ _, handled w) w.
Proof.
  intros Hinv. unfold nd_rt_query_addresses. wp_step. wp_step.
  destruct (negb _); [wp_step; by apply handled_refl|]. do 4 wp_step.
  eapply inv_dump_timeout in Hinv as Hinv'.
  wp_step. eapply wp_use_rt_io; [exact Hinv'|]. repeat wp_step. apply handled_intro; [by apply inv_out|done|by intros ?|done].
Qed.

Lemma wp_loop_dump w v : world_inv w → wp (loop_dump v) (λ _, handled w) w.
Proof.
  intros Hinv. unfold loop_dump. do 5 wp_step.
  assert (∀ w1, handled w w1 → wp (timeout ← gets w_dump_timeout;
    if querying_routes v && (timeout =? 0) then
      nd_rt_remove_owned_routes;; _ ← nd_rt_query_addresses; mret false
    else mret (querying_routes v)) (λ _, handled w) w1) as Hend.
  { intros w1 H1. wp_step. wp_step. destruct (_ && _); [|by wp_step].
    wp_step. eapply wp_mono; [by apply wp_remove_owned, H1|]. intros [] w2 H2.
    wp_step. eapply wp_mono; [by apply wp_query_addresses, H2|]. intros b w3 H3.
    wp_step. eauto using handled_trans. }
  apply wp_when; intros _.
  - wp_step. apply Hend. apply handled_intro; [by apply inv_dump_timeout|done|by intros ?|done].
  - by apply Hend, handled_refl.
Qed.

Definition inputs_ok (inputs : list (kernel * input)) : Prop := Forall (λ ki, input_ok ki.2) inputs.

Lemma wp_loop_timers K v w :
  world_inv w → wp (loop_timers K v) (λ _ w', world_inv w' ∧ tables_kept w w') w.
Proof.
  intros Hinv. unfold loop_timers. wp_step.
  eapply wp_mono; [by apply wp_loop_dump|]. intros q w1 (Hinv1 & _ & Ht1 & _). wp_step. wp_step. wp_step.
  assert (∀ b (m : M unit) x y w, world_inv w →
    (∀ w, world_inv w → wp m (λ _ w', world_inv w' ∧ tables_kept w w') w) →
    wp (if (b : bool) then m;; mret x else mret y) (λ (_ : Z) w', world_inv w' ∧ tables_kept w w') w) as Hif.
  { intros [|] m x y w' Hw' Hm; [|wp_step; split; [done|by intros ?]]. wp_step. eapply wp_mono; [by apply Hm|].
    intros [] w2 ?. by wp_step. }
  eapply wp_mono; [apply Hif; [done|]|].
  { intros w' Hw'. eapply wp_mono; [by apply wp_update_all|]. intros [] ? []. auto. }
  intros u w2 [Hinv2 Ht2]. wp_step. eapply wp_mono; [apply Hif; [done|]|].
  { intros w' Hw'. eapply wp_mono; [by apply wp_rebind_all|]. intros [] ? (? & ? & _). auto. }
  intros c w3 [Hinv3 Ht3]. wp_step. split; [done|]. intros ?. by apply Ht3, Ht2, Ht1.
Qed.

(** Every input is handled in a world that satisfies the invariant. *)
Lemma wp_inputs inputs w :
  world_inv w → inputs_ok inputs →
  wp (for_each inputs (λ ki, handle_input (fst ki) (snd ki))) (λ _ w', world_inv w' ∧ tables_kept w w') w.
Proof.
  intros Hinv Hok. apply (wp_for_each (λ ls w', (world_inv w' ∧ tables_kept w w') ∧ inputs_ok ls)).
  - split; [split; [done|by intros ?]|done].
  - intros [K' i] rest w' [[Hw' Ht'] Hi]. inversion_clear Hi.
    eapply wp_mono; [by apply wp_handle_input|]. intros [] w4 (? & _ & Ht4).
    split; [split; [done|]|done]. intros ?. by apply Ht4, Ht'.
  - by intros w' [? _].
Qed.

Lemma wp_loop_iteration K inputs now' v w :
  world_inv w → inputs_ok inputs →
  wp (loop_iteration K inputs now' v) (λ _ w', world_inv w' ∧ tables_kept w w') w.
Proof.
  intros Hinv Hok. unfold loop_iteration. wp_step.
  eapply wp_mono; [by apply wp_loop_timers|]. intros v' w1 [Hinv1 Ht1]. wp_step.
  eapply wp_mono; [by apply wp_inputs|]. intros [] w2 [Hinv2 Ht2]. repeat wp_step.
  split; [by apply inv_time|]. intros ?. by apply Ht2, Ht1.
Qed.

(** The daemon after any number of iterations, for any admissible inputs. *)
Inductive reachable (w0 : world) : world → loop_vars → Prop :=
  | reach_start : reachable w0 w0 loop_start
  | reach_step w v K inputs now' w' v' :
      reachable w0 w v → inputs_ok inputs →
      loop_iteration K inputs now' v w = Ret v' w' →
      reachable w0 w' v'.

Lemma reachable_inv w0 w v : world_inv w0 → reachable w0 w v → world_inv w ∧ tables_kept w0 w.
Proof.
  intros Hinv0. induction 1 as [|w v K inputs now' w' v' _ IH Hok Hret]; [by split; [done|intros ?]|].
  destruct IH as [IH Ht]. pose proof (wp_loop_iteration K inputs now' v w IH Hok) as Hwp.
  unfold wp in Hwp. rewrite Hret in Hwp. destruct Hwp as [? Ht']. split; [done|]. intros ?. by apply Ht', Ht.
Qed.

End safe.
