(* ===== verification/StartSafe.v ===== *)
(** * Starting up establishes the invariant

    From a world that holds what a configuration without errors builds,
    [daemon_start] does not fault, and when it succeeds the invariant of the
    running daemon holds. *)
From S2P Require Import Prelude Addr World Monad Packet Route Netlink Iface Session Proxy Receive.
From S2P Require Import Daemon Counting Invariant IfaceSafe SessionSafe.

Section start.
Context {BO : ByteOrder}.
Implicit Types (w : world) (l : loc).

(** ** What the configuration builds *)

(** The checks of [ndL_parse_rule] and [ndL_parse_mode]. *)
Definition rule_conf_ok (r : nd_rule) : Prop :=
  match r_mode r with
  | ND_MODE_UNKNOWN => False
  | ND_MODE_STATIC | ND_MODE_AUTO => r_ifname r = "" ∧ r_autowire r = false
  | ND_MODE_IFACE => r_ifname r ≠ ""
  end.

Record conf_ok w : Prop := {
  co_ifaces : w_ifaces w = ∅ ∧ w_first_iface w = [];
  co_sessions : w_sessions w = ∅ ∧ w_session_count w = 0 ∧
    w_buckets w = replicate (Z.to_nat NDPPD_SESSION_BUCKETS) [] ∧
    w_buckets_r w = replicate (Z.to_nat NDPPD_SESSION_BUCKETS) [];
  co_tables : w_routes w = [] ∧ w_addrs w = [];
  co_graph : graph_inv (w_proxy_list w) (w_proxies w) (w_rules w);
  co_proxy pl p : w_proxies w !! pl = Some p → p_iface p = None ∧ NoDup (p_rules p);
  co_rule rl r : w_rules w !! rl = Some r → r_iface r = None ∧ rule_conf_ok r ∧
    ∃ p, w_proxies w !! r_proxy r = Some p ∧ rl ∈ p_rules p }.

(** ** What the exit needs *)

(** The list of interfaces is sound, and there is a socket to release their
    memberships on: this holds from the start, also when a startup fails. *)
Definition closable w : Prop :=
  NoDup (w_first_iface w) ∧ (∀ l, l ∈ w_first_iface w ↔ is_Some (w_ifaces w !! l)) ∧
  (w_first_iface w = [] ∨ w_pkt_io w = true).

Lemma inv_closable R ex w : inv_with R ex w → closable w.
Proof. intros [[[Hnd Hdom _ _ _] _ _ Hio] _]. by split_and!; [..|right]. Qed.

Lemma empty_closable w : w_ifaces w = ∅ → w_first_iface w = [] → closable w.
Proof.
  intros Ei Ef. unfold closable. rewrite Ei, Ef. split_and!; [constructor| |by left].
  intros l. rewrite lookup_empty, elem_of_nil. split; [done|by intros []].
Qed.

(** ** Loops with early exit *)

Lemma wp_all_of {A} (I : list A → world → Prop) (F : world → Prop) ls (body : A → M bool)
    (Q : bool → world → Prop) w :
  I ls w →
  (∀ x rest w, I (x :: rest) w → wp (body x) (λ b w', if b then I rest w' else F w') w) →
  (∀ w, I [] w → Q true w) → (∀ w, F w → Q false w) →
  wp (all_of ls body) Q w.
Proof.
  intros HI Hbody Ht Hf. revert w HI. induction ls as [|x ls IH]; intros w HI; simpl.
  - wp_step. by apply Ht.
  - wp_step. eapply wp_mono; [by apply Hbody|]. intros [|] w' Hw'; [by apply IH|].
    wp_step. by apply Hf.
Qed.

(** ** Pointers gained at startup *)

Lemma refs_gain {A} (f : A → option loc) (m : gmap loc A) k x y iface l :
  m !! k = Some x → f x = None → f y = Some iface →
  refs_in f (<[k := y]> m) l = refs_in f m l + one iface l.
Proof.
  intros Hk Hx Hy. rewrite (refs_in_update f m k x y l Hk), (ref_ind_ne f x) by by rewrite Hx.
  unfold ref_ind, one. rewrite Hy. destruct (decide (l = iface)) as [-> |Hne].
  - rewrite decide_True by done. lia.
  - rewrite decide_False by congruence. lia.
Qed.

Definition anything (p : gmap loc nd_proxy * gmap loc nd_rule * gmap loc nd_session * bool) : Prop :=
  True.

Abbreviation sinv ex := (inv_with anything ex).

Lemma sinv_proxy_gain w pl p iface :
  sinv (λ k, none k + one iface k) w → w_proxies w !! pl = Some p → p_iface p = None →
  sinv none (set_field w_proxies (λ h, <[pl := p <| p_iface := Some iface |>]> h) w).
Proof.
  intros [[[Hnd Hdom Href Hlive Hpr] [Hl Hd Hr Hrs] Hsi Hp] _] Hpl Ei. split; [|done]. constructor; [|  |done|done].
  - constructor; [done|done| | |].
    + intros l i Hi. unfold iface_refs. cbn. rewrite (refs_gain p_iface _ pl p _ iface l) by done.
      destruct (Href l i Hi) as [E ?]. unfold iface_refs, none in *. lia.
    + intros l. unfold iface_refs. cbn. rewrite (refs_gain p_iface _ pl p _ iface l) by done.
      intros ?. apply Hlive. unfold iface_refs, none in *. lia.
    + intros l i pl' Hi Hpl'. destruct (Hpr _ _ _ Hi Hpl') as (p' & Hp' & Ep').
      destruct (decide (pl' = pl)) as [-> |Hne]; [by simplify_eq|].
      exists p'. cbn. by rewrite lookup_insert_ne.
  - constructor; [done| | |]; cbn.
    + intros l. rewrite Hd. destruct (decide (l = pl)) as [-> |Hne].
      * rewrite lookup_insert_eq, Hpl. by split; eauto.
      * by rewrite lookup_insert_ne.
    + intros rl r Hrl. destruct (decide (r_proxy r = pl)) as [-> |Hne].
      * rewrite lookup_insert_eq. by eauto.
      * rewrite lookup_insert_ne by done. by eapply Hr.
    + intros pl' p' rl [[<- <-]|[Hne Hpl']]%lookup_insert_Some Hin; eauto.
Qed.

Lemma sinv_rule_gain w rl r iface :
  sinv (λ k, none k + one iface k) w → w_rules w !! rl = Some r → r_iface r = None →
  w_sessions w = ∅ →
  sinv none (set_field w_rules (λ h, <[rl := r <| r_iface := Some iface |>]> h) w).
Proof.
  intros [[[Hnd Hdom Href Hlive Hpr] [Hl Hd Hr Hrs] [T1 T2 T3 T4 T5 T6] Hp] _] Hrl Ei Hse.
  split; [|done]. constructor; [| | |done].
  - constructor; [done|done| | |done].
    + intros l i Hi. unfold iface_refs. cbn. rewrite (refs_gain r_iface _ rl r _ iface l) by done.
      destruct (Href l i Hi) as [E ?]. unfold iface_refs, none in *. lia.
    + intros l. unfold iface_refs. cbn. rewrite (refs_gain r_iface _ rl r _ iface l) by done.
      intros ?. apply Hlive. unfold iface_refs, none in *. lia.
  - constructor; [done|done| |]; cbn.
    + intros rl' r' [[<- <-]|[Hne Hrl']]%lookup_insert_Some; [by eapply Hr in Hrl|by eapply Hr].
    + intros pl p rl' Hpl Hin. destruct (Hrs _ _ _ Hpl Hin) as (r' & Hr' & Er').
      destruct (decide (rl' = rl)) as [-> |Hne].
      * rewrite lookup_insert_eq. simplify_eq. by eauto.
      * rewrite lookup_insert_ne by done. by eauto.
  - constructor; cbn; [done..| |]; rewrite Hse.
    + intros l s. by rewrite lookup_empty.
    + intros l l' s s' r1 r2. by rewrite lookup_empty.
Qed.

Lemma sinv_iface_proxy w l i pl p :
  sinv none w → w_ifaces w !! l = Some i → w_proxies w !! pl = Some p → p_iface p = Some l →
  sinv none (set_field w_ifaces (λ h, <[l := i <| i_proxy := Some pl |>]> h) w).
Proof.
  intros [[[Hnd Hdom Href Hlive Hpr] Hg Hs Hp] _] Hi Hpl Ei. split; [|done]. constructor; [|done..].
  constructor; cbn.
  - done.
  - intros k. rewrite Hdom. destruct (decide (k = l)) as [-> |Hne].
    + rewrite lookup_insert_eq, Hi. by split; eauto.
    + by rewrite lookup_insert_ne.
  - intros k ik [[<- <-]|[Hne Hk]]%lookup_insert_Some; [by apply (Href l i)|by apply Href].
  - intros k Hpos. destruct (decide (k = l)) as [-> |Hne].
    + rewrite lookup_insert_eq. eauto.
    + rewrite lookup_insert_ne by done. by apply Hlive.
  - intros k ik pl' [[<- <-]|[Hne Hk]]%lookup_insert_Some Hpl'; [|by eapply Hpr].
    cbn in Hpl'. simplify_eq. eauto.
Qed.
(** ** The loops of [nd_proxy_startup] *)

(** The proxies in [prest] and the rules in [rrest] are still to be started. *)
Record starting (prest rrest : list loc) w : Prop := {
  st_inv : sinv none w;
  st_empty : w_sessions w = ∅ ∧ w_routes w = [] ∧ w_addrs w = [];
  st_rt_io : w_rt_io w = false;
  st_live pl : pl ∈ prest → is_Some (w_proxies w !! pl);
  st_proxy pl p : w_proxies w !! pl = Some p → NoDup (p_rules p) ∧
    (pl ∈ prest → p_iface p = None) ∧ (pl ∉ prest → p_iface p ≠ None);
  st_rule rl r : w_rules w !! rl = Some r → rule_conf_ok r ∧
    (∃ p, w_proxies w !! r_proxy r = Some p ∧ rl ∈ p_rules p) ∧
    (r_proxy r ∈ prest ∨ rl ∈ rrest → r_iface r = None) ∧
    (r_proxy r ∉ prest → rl ∉ rrest → rule_ok r) }.

Lemma starting_ifaces prest rrest w ifs fl out :
  starting prest rrest w →
  sinv none (w <| w_ifaces := ifs |> <| w_first_iface := fl |> <| w_out := out |>) →
  starting prest rrest (w <| w_ifaces := ifs |> <| w_first_iface := fl |> <| w_out := out |>).
Proof. intros [] ?. by constructor. Qed.

Lemma rule_conf_ok_started r : rule_conf_ok r → r_ifname r ≠ "" → r_iface r ≠ None → rule_ok r.
Proof. unfold rule_conf_ok, rule_ok. destruct (r_mode r); naive_solver. Qed.

Lemma rule_conf_ok_no_iface r : rule_conf_ok r → r_ifname r = "" → r_iface r = None → rule_ok r.
Proof. unfold rule_conf_ok, rule_ok. destruct (r_mode r); naive_solver. Qed.

Lemma wp_startup_rule K prest rl rrest r w :
  starting prest (rl :: rrest) w → NoDup (rl :: rrest) → w_rules w !! rl = Some r → r_proxy r ∉ prest →
  wp (startup_rule K rl) (λ b w', if b then starting prest rrest w' ∧ ∀ k, k ≠ rl → w_rules w' !! k = w_rules w !! k
                                  else closable w') w.
Proof.
  intros Hst [Hnrl Hnd]%list.NoDup_cons Hr Hp. unfold startup_rule. wp_step. wp_step.
  pose proof Hst as [Hinv Hse Hrt Hlv Hpx Hrx]. destruct (Hrx _ _ Hr) as (Hc & Hin & Hn & _).
  assert (r_iface r = None) as Hrn by (apply Hn; right; by left).
  destruct (bool_decide_reflect (r_ifname r = "")) as [Ein|Ein].
  { wp_step. split; [|done]. constructor; [done..|]. intros rl' r' Hr'.
    destruct (Hrx _ _ Hr') as (Hc' & Hin' & Hn' & Ho'). split_and!; [done|done| |].
    - intros [?|?]; apply Hn'; [by left|by right; right].
    - intros Hp' Hrl'. destruct (decide (rl' = rl)) as [-> |Hne].
      + simplify_eq. by apply rule_conf_ok_no_iface.
      + apply Ho'; [done|]. by intros [?|?]%elem_of_cons. }
  wp_step. eapply wp_mono; [by eapply wp_iface_open; [exact none_nonneg|exact Hinv]|].
  intros iface w' [(ifs & fl & evs & -> & Hevs) Ho]. wp_step. eapply wp_update; [exact Hr|]. wp_step.
  destruct iface as [iface|]; [|by apply inv_closable in Ho]. destruct Ho as [Hinv' _].
  rewrite bool_decide_eq_true_2 by done.
  split; [|by intros k Hk; apply lookup_insert_ne].
  constructor; [by apply sinv_rule_gain, Hse|done|done|done|done|]. cbn.
  intros rl' r' [[<- <-]|[Hne Hr']]%lookup_insert_Some; cbn.
  - split_and!; [done|done| |].
    + intros [?|?]; done.
    + intros _ _. by apply rule_conf_ok_started.
  - destruct (Hrx _ _ Hr') as (Hc' & Hin' & Hn' & Ho'). split_and!; [done|done| |].
    + intros [?|?]; apply Hn'; [by left|by right; right].
    + intros Hp' Hrl'. apply Ho'; [done|]. by intros [?|?]%elem_of_cons.
Qed.

Lemma wp_startup_rules K prest rrest w :
  starting prest rrest w → NoDup rrest →
  (∀ rl, rl ∈ rrest → ∃ r, w_rules w !! rl = Some r ∧ r_proxy r ∉ prest) →
  wp (all_of rrest (startup_rule K)) (λ b w', if b then starting prest [] w' else closable w') w.
Proof.
  intros Hst Hnd Hlive.
  apply (wp_all_of (λ rrest w, starting prest rrest w ∧ NoDup rrest ∧
    ∀ rl, rl ∈ rrest → ∃ r, w_rules w !! rl = Some r ∧ r_proxy r ∉ prest) closable); [done| |by intros w' []|done].
  clear. intros rl rrest w (Hst & Hnd & Hlive).
  destruct (Hlive rl) as (r & Hr & Hp); [by left|].
  eapply wp_mono; [by eapply wp_startup_rule|]. intros [|] w' Hw'; [|done]. destruct Hw' as [Hst' Hsame].
  apply list.NoDup_cons in Hnd as [Hnrl Hnd]. split_and!; [done|done|].
  intros k Hk. rewrite Hsame by by intros ->. apply Hlive. by right.
Qed.

Lemma wp_startup_proxy K pl prest w :
  starting (pl :: prest) [] w → NoDup (pl :: prest) →
  wp (startup_proxy K pl) (λ b w', if b then starting prest [] w' else closable w') w.
Proof.
  intros Hst [Hnpl Hnd]%list.NoDup_cons. destruct (st_live _ _ _ Hst pl) as [p Hp]; [by left|].
  unfold startup_proxy. wp_step. wp_step.
  pose proof Hst as [Hinv Hse Hrt Hlv Hpx Hrx]. destruct (Hpx _ _ Hp) as (Hndr & Hpi & _).
  assert (p_iface p = None) as Hpn by (apply Hpi; by left).
  destruct (bool_decide (p_rules p = [])); [wp_step; by eapply inv_closable|].
  wp_step. eapply wp_mono; [by eapply wp_iface_open; [exact none_nonneg|exact Hinv]|].
  intros iface w' [(ifs & fl & evs & -> & Hevs) Ho]. wp_step. eapply wp_update; [exact Hp|].
  destruct iface as [iface|]; [|wp_step; by apply inv_closable in Ho]. destruct Ho as [Hinv' [i Hi]].
  apply (sinv_proxy_gain _ pl p iface) in Hinv'; [|done|done].
  wp_step. eapply wp_update; [exact Hi|].
  eapply sinv_iface_proxy in Hinv'; [|exact Hi|apply lookup_insert_eq|done].
  apply wp_startup_rules; [|done|].
  2:{ intros rl Hrl. destruct Hinv as [[_ [_ _ _ Hg] _ _] _]. destruct (Hg _ _ _ Hp Hrl) as (r & Hr & <-).
      by exists r. }
  constructor; [exact Hinv'|done|done| | |]; cbn.
  - intros pl' Hpl'. rewrite lookup_insert_ne by by intros ->. apply Hlv. by right.
  - intros pl' p' [[<- <-]|[Hne Hp']]%lookup_insert_Some; cbn.
    + split_and!; [done|by intros|done].
    + destruct (Hpx _ _ Hp') as (Hndr' & Hpi' & Hpn'). split_and!; [done| |].
      * intros ?. apply Hpi'. by right.
      * intros ?. apply Hpn'. by intros [->|?]%elem_of_cons.
  - intros rl r Hr. destruct (Hrx _ _ Hr) as (Hc & (p' & Hp' & Hin) & Hn & Hok). split_and!; [done| | |].
    + destruct (decide (r_proxy r = pl)) as [<- |Hne].
      * rewrite lookup_insert_eq. simplify_eq. by eauto.
      * rewrite lookup_insert_ne by done. by eauto.
    + intros Hor. apply Hn. left. destruct Hor as [?|Hrl]; [by right|].
      destruct Hinv as [[_ [_ _ _ Hg] _ _] _]. destruct (Hg _ _ _ Hp Hrl) as (r' & Hr' & <-).
      simplify_eq. by left.
    + intros Hnp Hnr. apply Hok; [|by intros ?%elem_of_nil]. intros [E|?]%elem_of_cons; [|done].
      rewrite E in Hp'. by simplify_eq.
Qed.

Lemma conf_starting w :
  conf_ok w → w_pkt_io w = true → w_rt_io w = false → starting (w_proxy_list w) [] w.
Proof.
  intros [[Ei Ef] (Es & Ec & Eb & Ebr) Et Hg Hp Hr] Hio Hrt. constructor; [|done|done|apply Hg| |].
  - split; [|done]. constructor; [|done| |done].
    + rewrite Ei, Ef. constructor.
      * constructor.
      * intros l. rewrite lookup_empty, elem_of_nil. split; [done|by intros []].
      * intros l i. by rewrite lookup_empty.
      * intros l. unfold iface_refs, none. rewrite Es, refs_in_empty.
        rewrite (refs_in_none p_iface), (refs_in_none r_iface); [done| |].
        -- intros k r Hk. by apply Hr in Hk as [-> _].
        -- intros k p Hk. by apply Hp in Hk as [-> _].
      * intros l i pl. by rewrite lookup_empty.
    + rewrite Es, Ec, Eb, Ebr. constructor; [apply table_ok_empty..|done|done| |].
      * intros l s. by rewrite lookup_empty.
      * intros l l' s s' r1 r2. by rewrite lookup_empty.
  - intros pl p Hpl. destruct (Hp _ _ Hpl) as [? ?]. split_and!; [done|done|].
    intros Hn. destruct Hn. apply (gi_dom _ _ _ Hg). eauto.
  - intros rl r Hrl. destruct (Hr _ _ Hrl) as (? & ? & Hin). split_and!; [done|done|done|].
    intros Hn. destruct Hn. apply (gi_dom _ _ _ Hg). destruct Hin as (p & ? & _). eauto.
Qed.

Lemma wp_proxy_startup K w :
  conf_ok w → w_pkt_io w = true → w_rt_io w = false →
  wp (nd_proxy_startup K) (λ b w', if b then starting [] [] w' else closable w') w.
Proof.
  intros Hc Hio Hrt. pose proof (conf_starting w Hc Hio Hrt) as Hst. unfold nd_proxy_startup. wp_step. wp_step.
  destruct (bool_decide _); [wp_step; apply empty_closable; apply (co_ifaces _ Hc)|].
  apply (wp_all_of (λ prest w, starting prest [] w ∧ NoDup prest) closable); [| |by intros w' []|done].
  - split; [done|apply (co_graph _ Hc)].
  - clear. intros pl prest w [Hst Hnd]. eapply wp_mono; [by apply wp_startup_proxy|].
    intros [|] w' Hw'; [|done]. by apply list.NoDup_cons in Hnd as [_ ?].
Qed.

Lemma starting_world_inv w : starting [] [] w → world_inv (w <| w_rt_io := true |>).
Proof.
  intros [[Hb _] [Hse _] _ _ Hpx Hrx]. split; [by destruct Hb; constructor|]. split.
  - constructor; cbn; [| |done].
    + intros pl p Hp. apply (Hpx _ _ Hp). by intros ?%elem_of_nil.
    + intros rl r Hr. apply (Hrx _ _ Hr); by intros ?%elem_of_nil.
  - intros l s r. cbn. rewrite Hse. by rewrite lookup_empty.
Qed.

Lemma wp_daemon_start K pkt_socket pkt_filter pkt_bind rt_socket rt_bind w :
  conf_ok w → w_rt_io w = false →
  wp (daemon_start K pkt_socket pkt_filter pkt_bind rt_socket rt_bind)
    (λ b w', b = true → world_inv w' ∧ w_routes w' = [] ∧ w_addrs w' = []) w.
Proof.
  intros Hc Hrt. unfold daemon_start. wp_step.
  assert (wp (nd_iface_startup pkt_socket pkt_filter pkt_bind)
    (λ b w', b = true → conf_ok w' ∧ w_pkt_io w' = true ∧ w_rt_io w' = false) w) as Hstart.
  { unfold nd_iface_startup. wp_step. wp_step.
    destruct pkt_socket, pkt_filter, pkt_bind; cbn [negb]; repeat wp_step; try done.
    intros _. split; [destruct Hc; by constructor|done]. }
  eapply wp_mono; [exact Hstart|]. intros [|] w1 H1; cbn [negb]; [|by wp_step].
  destruct (H1 eq_refl) as (Hc1 & Hio1 & Hrt1). wp_step.
  eapply wp_mono; [by apply wp_proxy_startup|]. intros [|] w2 Hst; cbn [negb]; [|by wp_step].
  pose proof (starting_world_inv _ Hst) as Hinv. destruct (st_empty _ _ _ Hst) as [_ Htab]. wp_step.
  assert (wp (nd_rt_open rt_socket rt_bind) (λ b w', b = true → world_inv w' ∧ w_routes w' = [] ∧ w_addrs w' = []) w2) as Hopen.
  { unfold nd_rt_open. wp_step. wp_step. destruct (w_rt_io w2) eqn:Ert.
    - wp_step. intros _. split; [|done]. assert (w2 <| w_rt_io := true |> = w2) as <-; [|done].
      destruct w2; cbn in *; by subst.
    - wp_step. wp_step. destruct rt_socket, rt_bind; cbn [negb]; by repeat wp_step. }
  eapply wp_mono; [exact Hopen|]. intros [|] w3 H3; cbn [negb]; [|by wp_step].
  destruct (H3 eq_refl) as [H3' Htab3]. clear H3. rename H3' into H3. wp_step. unfold nd_rt_query_routes. wp_step. wp_step.
  destruct (negb _); [by repeat wp_step|]. do 4 wp_step.
  eapply (inv_dump_timeout none) in H3. wp_step. eapply wp_use_rt_io; [exact H3|]. repeat wp_step.
  intros _. split; [by apply inv_out|exact Htab3].
Qed.
End start.
