(* ===== verification/ConfSafe.v ===== *)
(** * The parser is safe and builds what startup needs

    The invariant of a world that is being configured, and the proof that the
    parser keeps it, never follows a bad pointer and never runs out of fuel. *)
From S2P Require Import Prelude Addr World Monad Packet Route Netlink Iface Session Proxy Text Conf.
From S2P Require Import Receive Daemon Counting Invariant IfaceSafe SessionSafe StartSafe.

Section conf.
Context {BO : ByteOrder}.
Implicit Types (w : world) (l : loc) (st : ndL_state) (r : nd_rule).

(** ** The invariant *)

(** The settings are in the ranges of the table. *)
Definition conf_ranges (c : nd_conf) : Prop :=
  1000 ≤ nd_conf_invalid_ttl c ≤ 3600000 ∧ 10000 ≤ nd_conf_valid_ttl c ≤ 3600000 ∧
  nd_conf_stale_ttl c = 30000 ∧ 0 ≤ nd_conf_retrans_limit c ≤ 10 ∧ 0 ≤ nd_conf_retrans_time c ≤ 60000.

Definition rule_ranges r : Prop :=
  0 ≤ r_prefix r ≤ 128 ∧ 0 ≤ r_rewrite_pflen r ≤ 128 ∧ 0 ≤ r_table r ≤ 255.

(** A rule inside its block: it has an interface name exactly in [iface] mode. *)
Definition rule_partial r : Prop := r_ifname r ≠ "" ↔ r_mode r = ND_MODE_IFACE.

(** What only [main] and the handlers touch. *)
Definition blank w : Prop :=
  (w_ifaces w = ∅ ∧ w_first_iface w = []) ∧
  (w_sessions w = ∅ ∧ w_session_count w = 0 ∧
   w_buckets w = replicate (Z.to_nat NDPPD_SESSION_BUCKETS) [] ∧
   w_buckets_r w = replicate (Z.to_nat NDPPD_SESSION_BUCKETS) []) ∧
  (w_routes w = [] ∧ w_addrs w = []) ∧ w_rt_io w = false.

(** All rules but [cur], the one whose block is open, are complete. *)
Record configuring (cur : option loc) w : Prop := {
  cg_blank : blank w;
  cg_conf : conf_ranges (w_conf w);
  cg_graph : graph_inv (w_proxy_list w) (w_proxies w) (w_rules w);
  cg_proxy pl p : w_proxies w !! pl = Some p → p_iface p = None ∧ NoDup (p_rules p);
  cg_rule rl r : w_rules w !! rl = Some r →
    r_iface r = None ∧ rule_partial r ∧ rule_ranges r ∧ (Some rl ≠ cur → rule_conf_ok r) ∧
    ∃ p, w_proxies w !! r_proxy r = Some p ∧ rl ∈ p_rules p }.

(** Proxies and rules are only added. *)
Definition grows w w' : Prop :=
  (∀ l, is_Some (w_proxies w !! l) → is_Some (w_proxies w' !! l)) ∧
  (∀ l, is_Some (w_rules w !! l) → is_Some (w_rules w' !! l)).

Lemma grows_refl w : grows w w.
Proof. by split. Qed.

Lemma grows_trans w1 w2 w3 : grows w1 w2 → grows w2 w3 → grows w1 w3.
Proof. intros [] []. split; auto. Qed.

Lemma configuring_conf_ok w : configuring None w → conf_ok w.
Proof.
  intros [(? & ? & ? & _) _ Hg Hp Hr]. constructor; [done..|].
  intros rl r Hrl. destruct (Hr _ _ Hrl) as (? & _ & _ & Hok & ?). split_and!; [done| |done]. by apply Hok.
Qed.

Lemma configuring_rt_io cur w : configuring cur w → w_rt_io w = false.
Proof. intros [(_ & _ & _ & ?) _ _ _ _]. done. Qed.

(** ** Steps *)

Lemma configuring_conf cur w f :
  configuring cur w → conf_ranges (f (w_conf w)) → configuring cur (w <| w_conf := f (w_conf w) |>).
Proof. intros [] ?. by constructor. Qed.

(** A store into a proxy that keeps its interface and rules. *)
Lemma configuring_proxy cur w l p p' :
  configuring cur w → w_proxies w !! l = Some p → p_iface p' = p_iface p → p_rules p' = p_rules p →
  configuring cur (set_field w_proxies (λ h, <[l := p']> h) w) ∧
  grows w (set_field w_proxies (λ h, <[l := p']> h) w).
Proof.
  intros [Hb Hc [G1 G2 G3 G4] Hp Hr] Hl Ei Er.
  assert (∀ k, is_Some (<[l := p']> (w_proxies w) !! k) ↔ is_Some (w_proxies w !! k)) as Hdom.
  { intros k. destruct (decide (k = l)) as [-> |Hne].
    - rewrite lookup_insert_eq, Hl. by split; eauto.
    - by rewrite lookup_insert_ne. }
  assert (∀ k q', <[l := p']> (w_proxies w) !! k = Some q' →
    ∃ q, w_proxies w !! k = Some q ∧ p_iface q' = p_iface q ∧ p_rules q' = p_rules q) as Hback.
  { intros k q' [[<- <-]|[Hne Hk]]%lookup_insert_Some; eauto. }
  split; [|by split; [intros k; apply Hdom|]].
  constructor; [done|done| | |]; cbn.
  - constructor; [done| | |].
    + intros k. by rewrite Hdom.
    + intros rl r Hrl. rewrite Hdom. by eapply G3.
    + intros pl q' rl Hq Hin. destruct (Hback _ _ Hq) as (q & Hq' & _ & E). rewrite E in Hin. by eapply G4.
  - intros pl q' Hq. destruct (Hback _ _ Hq) as (q & Hq' & -> & ->). by eapply Hp.
  - intros rl r Hrl. destruct (Hr _ _ Hrl) as (? & ? & ? & ? & q & Hq & Hin). split_and!; [done..|].
    destruct (decide (r_proxy r = l)) as [E|Hne].
    + exists p'. rewrite E, lookup_insert_eq. split; [done|]. rewrite E in Hq. simplify_eq. by rewrite Er.
    + exists q. by rewrite lookup_insert_ne.
Qed.

(** A store into the rule whose block is open. *)
Lemma configuring_rule w l r r' :
  configuring (Some l) w → w_rules w !! l = Some r →
  r_iface r' = r_iface r → r_proxy r' = r_proxy r → rule_partial r' → rule_ranges r' →
  configuring (Some l) (set_field w_rules (λ h, <[l := r']> h) w) ∧
  grows w (set_field w_rules (λ h, <[l := r']> h) w).
Proof.
  intros [Hb Hc [G1 G2 G3 G4] Hp Hr] Hl Ei Ep Hpart Hran. destruct (Hr _ _ Hl) as (Hi & _ & _ & _ & Hin).
  split.
  - constructor; [done|done| |done|]; cbn.
    + constructor; [done|done| |].
      * intros rl q [[<- <-]|[Hne Hq]]%lookup_insert_Some; [rewrite Ep; by eapply G3|by eapply G3].
      * intros pl p rl Hpl Hrl. destruct (G4 _ _ _ Hpl Hrl) as (q & Hq & <-).
        destruct (decide (rl = l)) as [-> |Hne].
        -- rewrite lookup_insert_eq. simplify_eq. by eauto.
        -- rewrite lookup_insert_ne by done. by eauto.
    + intros rl q [[<- <-]|[Hne Hq]]%lookup_insert_Some.
      * rewrite Ei, Ep. by split_and!.
      * destruct (Hr _ _ Hq) as (? & ? & ? & Hok & ?). by split_and!.
  - split; [done|]. cbn. intros k Hk. destruct (decide (k = l)) as [-> |Hne].
    + rewrite lookup_insert_eq. eauto.
    + by rewrite lookup_insert_ne.
Qed.

(** The block of a rule is closed. *)
Lemma configuring_close w l r :
  configuring (Some l) w → w_rules w !! l = Some r → rule_conf_ok r → configuring None w.
Proof.
  intros [Hb Hc Hg Hp Hr] Hl Hok. constructor; [done..|]. intros rl q Hq.
  destruct (Hr _ _ Hq) as (? & ? & ? & Hok' & ?). split_and!; [done..| |done].
  intros _. destruct (decide (rl = l)) as [-> |Hne]; [by simplify_eq|]. apply Hok'. congruence.
Qed.

Lemma rule_partial_ok r :
  rule_partial r → r_mode r ≠ ND_MODE_UNKNOWN →
  r_autowire r && negb (bool_decide (r_mode r = ND_MODE_IFACE)) = false → rule_conf_ok r.
Proof.
  unfold rule_partial, rule_conf_ok. intros Hp Hm Ha.
  destruct (r_mode r) eqn:E; [done| | |]; cbn in Ha; rewrite ?andb_true_r, ?andb_false_r in Ha.
  - split; [|done]. destruct (decide (r_ifname r = "")); [done|]. by apply Hp in n.
  - by apply Hp.
  - split; [|done]. destruct (decide (r_ifname r = "")); [done|]. by apply Hp in n.
Qed.

(** ** Creation *)

Lemma wp_proxy_create w ifname :
  configuring None w →
  wp (nd_proxy_create ifname) (λ o w', configuring None w' ∧ grows w w' ∧
    match o with Some l => is_Some (w_proxies w' !! l) | None => True end) w.
Proof.
  intros Hcfg. unfold nd_proxy_create. wp_step. wp_step. wp_step.
  eapply (wp_ll_search (λ l, match w_proxies w !! l with
                             | Some p => bool_decide (p_ifname p = ifname) | None => false end)).
  { intros l Q Hl HQ. apply (gi_dom _ _ _ (cg_graph _ _ Hcfg)) in Hl as [p Hp].
    repeat wp_step. by rewrite Hp in HQ. }
  destruct (List.find _ _).
  { wp_step. split_and!; [done|apply grows_refl|done]. }
  wp_step. apply wp_alloc. intros l Hl. do 3 wp_step.
  destruct Hcfg as [Hb Hc [G1 G2 G3 G4] Hp Hr].
  assert (∀ k, is_Some (w_proxies w !! k) → is_Some (<[l := mk_proxy ifname ll_zero None [] false false]>
    (w_proxies w) !! k)) as Hmono.
  { intros k Hk. destruct (decide (k = l)) as [-> |Hne].
    - rewrite lookup_insert_eq. eauto.
    - by rewrite lookup_insert_ne. }
  split_and!; [|split; [exact Hmono|done]|cbn; rewrite lookup_insert_eq; eauto].
  constructor; [done|done| | |]; cbn.
  - constructor.
    + apply list.NoDup_cons. split; [|done]. rewrite G2, Hl. by intros [].
    + intros k. rewrite elem_of_cons, G2. destruct (decide (k = l)) as [-> |Hne].
      * rewrite lookup_insert_eq. split; eauto.
      * rewrite lookup_insert_ne by done. naive_solver.
    + intros rl r Hrl. by eapply Hmono, G3.
    + intros pl p rl [[<- <-]|[Hne Hpl]]%lookup_insert_Some Hin; [by apply elem_of_nil in Hin|by eapply G4].
  - intros pl p [[<- <-]|[Hne Hpl]]%lookup_insert_Some; [|by eapply Hp]. split; [done|constructor].
  - intros rl r Hrl. destruct (Hr _ _ Hrl) as (? & ? & ? & ? & p & Hpl & Hin). split_and!; [done..|].
    exists p. rewrite lookup_insert_ne; [done|]. intros E. rewrite <- E in Hpl. congruence.
Qed.

Lemma wp_rule_create w proxy p :
  configuring None w → w_proxies w !! proxy = Some p →
  wp (nd_rule_create proxy) (λ l w', configuring (Some l) w' ∧ grows w w' ∧ is_Some (w_rules w' !! l)) w.
Proof.
  intros [Hb Hc [G1 G2 G3 G4] Hp Hr] Hpl. unfold nd_rule_create. wp_step. wp_step. wp_step.
  apply wp_alloc. intros l Hl. wp_step. eapply wp_update; [exact Hpl|]. wp_step.
  set (r0 := mk_rule _ _ _ _ _ _ _ _ _ _ _). set (p' := p <| p_rules := _ |>).
  assert (l ∉ p_rules p) as Hnin.
  { intros Hin. destruct (G4 _ _ _ Hpl Hin) as (q & Hq & _). congruence. }
  split_and!; [|split|]; cbn.
  - constructor; [done|done| | |]; cbn.
    + constructor; [done| | |].
      * intros k. rewrite G2. destruct (decide (k = proxy)) as [-> |Hne].
        -- rewrite lookup_insert_eq, Hpl. by split; eauto.
        -- by rewrite lookup_insert_ne.
      * intros rl r Hrl. destruct (decide (r_proxy r = proxy)) as [-> |Hne];
          [by rewrite lookup_insert_eq; eauto|]. rewrite lookup_insert_ne by done.
        apply lookup_insert_Some in Hrl as [[<- <-]|[_ Hrl]]; [done|by eapply G3].
      * intros pl q rl [[<- <-]|[Hne Hq]]%lookup_insert_Some Hin.
        -- cbn in Hin. apply elem_of_cons in Hin as [-> |Hin]; [by rewrite lookup_insert_eq; eauto|].
           destruct (G4 _ _ _ Hpl Hin) as (q & Hq & ?). exists q. rewrite lookup_insert_ne; [done|congruence].
        -- destruct (G4 _ _ _ Hq Hin) as (r & Hrl & ?). exists r. rewrite lookup_insert_ne; [done|congruence].
    + intros pl q [[<- <-]|[Hne Hq]]%lookup_insert_Some; [|by eapply Hp]. cbn.
      destruct (Hp _ _ Hpl). split; [done|]. by apply list.NoDup_cons.
    + intros rl r [[<- <-]|[Hne Hrl]]%lookup_insert_Some.
      * split_and!; [done|done|by split_and!|done|]. exists p'. rewrite lookup_insert_eq. split; [done|]. by left.
      * destruct (Hr _ _ Hrl) as (? & ? & ? & Hok & q & Hq & Hin). split_and!; [done..| |].
        { intros _. by apply Hok. }
        destruct (decide (r_proxy r = proxy)) as [E|Hne'].
        -- exists p'. rewrite E, lookup_insert_eq. split; [done|]. rewrite E in Hq. simplify_eq. by right.
        -- exists q. by rewrite lookup_insert_ne.
  - intros k Hk. destruct (decide (k = proxy)) as [-> |Hne]; [rewrite lookup_insert_eq; eauto|].
    by rewrite lookup_insert_ne.
  - intros k Hk. destruct (decide (k = l)) as [-> |Hne]; [rewrite lookup_insert_eq; eauto|].
    by rewrite lookup_insert_ne.
  - rewrite lookup_insert_eq. eauto.
Qed.

(** ** Blocks *)

(** The invariant inside a block, with the pointer the block was opened with. *)
Definition scope_inv (scope : cf_scope) (ptr : cf_ptr) w : Prop :=
  match scope, ptr with
  | NDL_DEFAULT, _ => configuring None w
  | NDL_PROXY, PtrProxy l => configuring None w ∧ is_Some (w_proxies w !! l)
  | NDL_RULE, PtrRule l => configuring (Some l) w ∧ is_Some (w_rules w !! l)
  | _, _ => False
  end.

(** A parser that fails leaves the parts of [main] alone. *)
Lemma scope_inv_blank scope ptr w : scope_inv scope ptr w → blank w.
Proof. destruct scope, ptr; try done; [apply cg_blank..| |]; intros [? _]; by eapply cg_blank. Qed.

Ltac parse_fails :=
  wp_step; first [done | eapply cg_blank; eassumption | eapply scope_inv_blank; eassumption].

(** A parser that is given less than [n] bytes keeps the invariant. *)
Definition parsed_ok scope ptr w st (res : parsed) w' : Prop :=
  match res with
  | PFail => blank w'
  | POk st' => scope_inv scope ptr w' ∧ grows w w' ∧ (left_ st' ≤ left_ st)%nat
  | PFuel => False
  end.

Definition block_ok (n : nat) (parse : cf_scope → cf_ptr → ndL_state → M parsed) : Prop :=
  ∀ scope ptr st w, (left_ st < n)%nat → scope_inv scope ptr w →
    wp (parse scope ptr st) (parsed_ok scope ptr w st) w.

Lemma wp_set_conf w f (Q : unit → world → Prop) :
  configuring None w → conf_ranges (f (w_conf w)) →
  (∀ w', configuring None w' → grows w w' → Q () w') → wp (set_conf f) Q w.
Proof.
  intros Hc Hf HQ. unfold set_conf. wp_step. apply HQ; [by apply configuring_conf|by split].
Qed.

Lemma wp_set_proxy w l f (Q : unit → world → Prop) :
  scope_inv NDL_PROXY (PtrProxy l) w → (∀ p, p_iface (f p) = p_iface p ∧ p_rules (f p) = p_rules p) →
  (∀ w', scope_inv NDL_PROXY (PtrProxy l) w' → grows w w' → Q () w') → wp (set_proxy (PtrProxy l) f) Q w.
Proof.
  intros [Hc [p Hp]] Hf HQ. unfold set_proxy. wp_step. cbn [ptr_proxy]. wp_step. wp_step.
  destruct (Hf p). destruct (configuring_proxy _ _ _ _ (f p) Hc Hp) as [? [Hg ?]]; [done..|].
  apply HQ; [|by split]. split; [done|]. apply Hg. by rewrite Hp.
Qed.

Lemma wp_update_rule w l r f (Q : unit → world → Prop) :
  configuring (Some l) w → w_rules w !! l = Some r →
  r_iface (f r) = r_iface r → r_proxy (f r) = r_proxy r → rule_partial (f r) → rule_ranges (f r) →
  (∀ w', configuring (Some l) w' → w_rules w' !! l = Some (f r) → grows w w' → Q () w') →
  wp (update w_rules l f) Q w.
Proof.
  intros Hc Hr Hi Hp Hpart Hran HQ. wp_step.
  destruct (configuring_rule _ _ _ (f r) Hc Hr Hi Hp Hpart Hran). apply HQ; [done|apply lookup_insert_eq|done].
Qed.

Lemma wp_set_rule w l f (Q : unit → world → Prop) :
  scope_inv NDL_RULE (PtrRule l) w →
  (∀ r, r_iface (f r) = r_iface r ∧ r_proxy (f r) = r_proxy r ∧ (rule_partial r → rule_partial (f r)) ∧
        (rule_ranges r → rule_ranges (f r))) →
  (∀ w', scope_inv NDL_RULE (PtrRule l) w' → grows w w' → Q () w') → wp (set_rule (PtrRule l) f) Q w.
Proof.
  intros [Hc [r Hr]] Hf HQ. unfold set_rule. wp_step. cbn [ptr_rule]. wp_step.
  destruct (Hf r) as (? & ? & Hp & Hn). destruct (cg_rule _ _ Hc _ _ Hr) as (_ & ? & ? & _).
  eapply wp_update_rule; [done|done|done|done|by apply Hp|by apply Hn|].
  intros w' ? Hr' ?. apply HQ; [|done]. split; [done|]. by rewrite Hr'.
Qed.

Lemma find_cfinfo_Some scope key t :
  find_cfinfo scope key = Some t → In t ndL_cfinfo_table ∧ cf_scope_of t = scope.
Proof.
  intros Hf%find_some. destruct Hf as [Hin Hb]. apply andb_true_iff in Hb as [Hs _].
  by apply bool_decide_eq_true in Hs.
Qed.

(** The value of a setting is stored where its entry says. *)
Lemma wp_parse_value t scope ptr st w :
  In t ndL_cfinfo_table → cf_scope_of t = scope → scope_inv scope ptr w →
  wp (parse_value t ptr st) (λ o w', match o with
    | Some st' => scope_inv scope ptr w' ∧ grows w w' ∧ (left_ st' ≤ left_ st)%nat
    | None => blank w' end) w.
Proof.
  intros Hin <- Hinv. unfold parse_value. destruct (cf_type_of t) eqn:Hty.
  - wp_step. split_and!; [done|apply grows_refl|done].
  - destruct (ndL_accept_int st _ _) as [[v st']|] eqn:Ha; [|by parse_fails].
    apply accept_int_Some in Ha as [Hv Hl]. wp_step.
    assert (wp (store_int ptr (cf_offset t) v) (λ _ w', scope_inv (cf_scope_of t) ptr w' ∧ grows w w') w) as Hst;
      [|eapply wp_mono; [exact Hst|]; intros [] w' [? ?]; wp_step; split_and!; [done|done|lia]].
    repeat (destruct Hin as [<-|Hin]; [|]); try done; cbn [store_int cf_offset cf_scope_of scope_inv cf_min cf_max] in Hv, Hinv |- *;
      try (apply wp_set_conf; [done| |done]; destruct (cg_conf _ _ Hinv) as (? & ? & ? & ? & ?);
           refine (conj _ (conj _ (conj _ (conj _ _)))); assumption).
    destruct ptr as [| |l]; try done. apply wp_set_rule; [done| |done].
    intros r. split_and!; [done|done|done|]. intros (? & ? & ?). refine (conj _ (conj _ _)); assumption.
  - destruct (ndL_accept_bool st) as [[v st']|] eqn:Ha; [|by parse_fails].
    apply accept_bool_left in Ha. wp_step.
    assert (wp (store_bool ptr (cf_offset t) v) (λ _ w', scope_inv (cf_scope_of t) ptr w' ∧ grows w w') w) as Hst;
      [|eapply wp_mono; [exact Hst|]; intros [] w' [? ?]; wp_step; split_and!; [done|done|lia]].
    repeat (destruct Hin as [<-|Hin]; [|]); try done; cbn [store_bool cf_offset cf_scope_of scope_inv] in Hinv |- *;
      try (apply wp_set_conf; [done|by apply (cg_conf _ _ Hinv)|done]);
      destruct ptr as [|l|l]; try done;
      first [apply wp_set_proxy; [done|done|done]|apply wp_set_rule; [done|done|done]].
  - destruct (ndL_accept_lladdr st) as [[v st']|] eqn:Ha; [|by parse_fails].
    apply accept_lladdr_left in Ha. wp_step.
    assert (wp (store_lladdr ptr (cf_offset t) v) (λ _ w', scope_inv (cf_scope_of t) ptr w' ∧ grows w w') w) as Hst;
      [|eapply wp_mono; [exact Hst|]; intros [] w' [? ?]; wp_step; split_and!; [done|done|lia]].
    repeat (destruct Hin as [<-|Hin]; [|]); try done;
      cbn [store_lladdr cf_offset cf_scope_of scope_inv] in Hinv |- *; destruct ptr as [|l|l]; try done;
      first [apply wp_set_proxy; [done|done|done]|apply wp_set_rule; [done|done|done]].
Qed.

(** ** Callbacks *)

Lemma accept_prefix_Some st v st' :
  accept_prefix st = Some (v, st') → 0 ≤ v ≤ 128 ∧ (left_ st' ≤ left_ st)%nat.
Proof.
  unfold accept_prefix. destruct (ndL_accept st _) as [c st1] eqn:Ha. apply accept_left in Ha as [Hl _].
  destruct (negb _).
  - intros [? ?]%accept_int_Some. split; lia.
  - intros [= <- <-]. split; [lia|done].
Qed.

Lemma parsed_ok_weaken scope ptr w w1 st st1 res w' :
  grows w w1 → (left_ st1 ≤ left_ st)%nat →
  parsed_ok scope ptr w1 st1 res w' → parsed_ok scope ptr w st res w'.
Proof.
  intros Hg Hl. destruct res; [done| |done]. intros (? & ? & ?).
  split_and!; [done|by eapply grows_trans|lia].
Qed.

Lemma wp_parse_rewrite l st w :
  scope_inv NDL_RULE (PtrRule l) w →
  wp (ndL_parse_rewrite st l) (parsed_ok NDL_RULE (PtrRule l) w st) w.
Proof.
  intros [Hc [r Hr]]. unfold ndL_parse_rewrite.
  destruct (ndL_accept_addr st) as [[addr st1]|] eqn:Ha; [|by parse_fails]. apply accept_addr_left in Ha.
  destruct (cg_rule _ _ Hc _ _ Hr) as (_ & Hp & (H1 & H2 & H3) & _).
  wp_step. eapply wp_update_rule; [done|done|done|done|exact Hp|exact (conj H1 (conj H2 H3))|].
  intros w1 Hc1 Hr1 Hg1. destruct (accept_prefix st1) as [[v st2]|] eqn:Hpf; [|by parse_fails].
  apply accept_prefix_Some in Hpf as [Hv Hl]. wp_step.
  eapply wp_update_rule; [done|done|done|done|exact Hp|exact (conj H1 (conj Hv H3))|].
  intros w2 Hc2 Hr2 Hg2. wp_step. split_and!; [|by eapply grows_trans|lia].
  split; [done|]. by rewrite Hr2.
Qed.

Lemma wp_parse_mode key l st w :
  scope_inv NDL_RULE (PtrRule l) w →
  wp (ndL_parse_mode key st l) (parsed_ok NDL_RULE (PtrRule l) w st) w.
Proof.
  intros [Hc [r Hr]]. unfold ndL_parse_mode. wp_step. wp_step.
  destruct (cg_rule _ _ Hc _ _ Hr) as (_ & Hp & Hran & _).
  destruct (bool_decide_reflect (r_mode r = ND_MODE_UNKNOWN)) as [Hm|]; cbn [negb]; [|by parse_fails].
  assert (r_ifname r = "") as Hn.
  { destruct (decide (r_ifname r = "")) as [|Hne]; [done|]. apply Hp in Hne. congruence. }
  assert (∀ m, m ≠ ND_MODE_IFACE → wp (update w_rules l (λ r, r <| r_mode := m |>);; mret (POk st))
    (parsed_ok NDL_RULE (PtrRule l) w st) w) as Hset.
  { intros m Hne. wp_step. eapply wp_update_rule; [done|done|done|done| |exact Hran|].
    - split; cbn; congruence.
    - intros w1 Hc1 Hr1 Hg1. wp_step. split_and!; [|done|done]. split; [done|]. by rewrite Hr1. }
  destruct (bool_decide _); [by apply Hset|]. destruct (bool_decide _); [by apply Hset|].
  destruct (ndL_accept_name st _) as [[buf st1]|] eqn:Ha; [|by parse_fails].
  apply accept_name_Some in Ha as [Hl Hne]. wp_step. wp_step. wp_step.
  eapply wp_update; [apply lookup_insert_eq|]. wp_step.
  assert (set_field w_rules (λ h, <[l := r <| r_ifname := cstring buf |> <| r_mode := ND_MODE_IFACE |>]> h)
    (set_field w_rules (λ h, <[l := r <| r_ifname := cstring buf |>]> h) w) =
    set_field w_rules (λ h, <[l := r <| r_ifname := cstring buf |> <| r_mode := ND_MODE_IFACE |>]> h) w) as ->.
  { world_eq. apply insert_insert_eq. }
  destruct (configuring_rule w l r (r <| r_ifname := cstring buf |> <| r_mode := ND_MODE_IFACE |>))
    as [Hc' Hg']; [done..|]. split_and!; [|done|lia]. split; [done|]. cbn. rewrite lookup_insert_eq. eauto.
Qed.

Section blocks.
Context (n : nat) (block : cf_scope → cf_ptr → ndL_state → M parsed) (Hblock : block_ok n block).

Lemma wp_parse_rule l st w :
  (left_ st < n)%nat → scope_inv NDL_PROXY (PtrProxy l) w →
  wp (ndL_parse_rule block st l) (parsed_ok NDL_PROXY (PtrProxy l) w st) w.
Proof using Hblock.
  intros Hn [Hc [p Hp]]. unfold ndL_parse_rule. wp_step.
  eapply wp_mono; [by eapply wp_rule_create|]. intros rule w1 (Hc1 & Hg1 & [r Hr]).
  destruct (ndL_accept_addr st) as [[addr st1]|] eqn:Ha; [|by parse_fails]. apply accept_addr_left in Ha.
  destruct (cg_rule _ _ Hc1 _ _ Hr) as (_ & Hpart & (H1 & H2 & H3) & _).
  wp_step. eapply wp_update_rule; [done|done|done|done|exact Hpart|exact (conj H1 (conj H2 H3))|].
  intros w2 Hc2 Hr2 Hg2. destruct (accept_prefix st1) as [[v st2]|] eqn:Hpf; [|by parse_fails].
  apply accept_prefix_Some in Hpf as [Hv Hl]. wp_step.
  eapply wp_update_rule; [done|done|done|done|exact Hpart|exact (conj Hv (conj H2 H3))|].
  intros w3 Hc3 Hr3 Hg3. wp_step.
  eapply wp_update_rule; [done|done|done|done|exact Hpart|refine (conj Hv (conj H2 _)); by cbn|].
  intros w4 Hc4 Hr4 Hg4. wp_step. eapply wp_mono; [apply Hblock; [lia|]|].
  { split; [done|]. by rewrite Hr4. }
  intros [|st3|] w5 Hres; [by parse_fails| |done].
  destruct Hres as ([Hc5 [r5 Hr5]] & Hg5 & Hl5). wp_step. wp_step.
  destruct (bool_decide_reflect (r_mode r5 = ND_MODE_UNKNOWN)) as [|Hm]; [by parse_fails|].
  destruct (r_autowire r5 && _) eqn:Haw; [by parse_fails|]. wp_step.
  destruct (cg_rule _ _ Hc5 _ _ Hr5) as (_ & Hpart5 & _).
  assert (grows w w5) as Hg by eauto using grows_trans.
  split_and!; [|done|lia]. split; [by eapply configuring_close, rule_partial_ok|]. apply Hg. by rewrite Hp.
Qed.

Lemma wp_parse_proxy ptr st w :
  (left_ st < n)%nat → scope_inv NDL_DEFAULT ptr w →
  wp (ndL_parse_proxy block st) (parsed_ok NDL_DEFAULT ptr w st) w.
Proof using Hblock.
  intros Hn Hc. unfold ndL_parse_proxy. destruct (ndL_accept_name st _) as [[buf st1]|] eqn:Ha; [|by parse_fails].
  apply accept_name_Some in Ha as [Hl _]. wp_step. eapply wp_mono; [by apply wp_proxy_create|].
  intros [l|] w1 (Hc1 & Hg1 & Hlive); [|by parse_fails].
  eapply wp_mono; [apply Hblock; [lia|by split]|]. intros [|st2|] w2 Hres; [done| |done].
  destruct Hres as ([? _] & ? & ?). split_and!; [done|by eapply grows_trans|lia].
Qed.

Lemma wp_run_cb t cb scope ptr st w :
  In t ndL_cfinfo_table → cf_scope_of t = scope → cf_callback t = Some cb →
  (left_ st < n)%nat → scope_inv scope ptr w →
  wp (run_cb block t ptr st cb) (parsed_ok scope ptr w st) w.
Proof using Hblock.
  intros Hin <- Hcb Hn Hinv.
  assert (match cb with CbProxy => cf_scope_of t = NDL_DEFAULT | CbRule => cf_scope_of t = NDL_PROXY
          | CbRewrite | CbMode => cf_scope_of t = NDL_RULE end) as Hs.
  { repeat (destruct Hin as [<-|Hin]; [|]); try done; by injection Hcb as <-. }
  destruct cb; rewrite Hs in Hinv |- *; cbn [run_cb].
  - by apply wp_parse_proxy.
  - destruct ptr as [|l|]; [done| |done]. wp_step. cbn [ptr_proxy]. wp_step. by apply wp_parse_rule.
  - destruct ptr as [| |l]; [done|done|]. wp_step. cbn [ptr_rule]. wp_step. by apply wp_parse_rewrite.
  - destruct ptr as [| |l]; [done|done|]. wp_step. cbn [ptr_rule]. wp_step. by apply wp_parse_mode.
Qed.

Lemma enter_block_ok : block_ok n (enter_block block).
Proof using Hblock.
  intros scope ptr st w Hn Hinv. unfold enter_block. pose proof (skip_left st).
  destruct (bool_decide _).
  - eapply wp_mono; [apply Hblock; [lia|done]|]. intros res w'. apply parsed_ok_weaken; [apply grows_refl|lia].
  - destruct (ndL_accept _ _) as [c st1] eqn:Ha. apply accept_left in Ha as [Hl _].
    destruct (c =? 0); [by parse_fails|].
    eapply wp_mono; [apply Hblock; [lia|done]|]. intros res w'. apply parsed_ok_weaken; [apply grows_refl|lia].
Qed.
End blocks.

Lemma block_loop_ok fuel : block_ok fuel (block_loop fuel).
Proof.
  induction fuel as [|fuel IH]; intros scope ptr st w Hn Hinv; [lia|]. cbn [block_loop].
  pose proof (skip_left st). destruct (ndL_accept _ _) as [c st1] eqn:Ha.
  apply accept_left in Ha as [Hl Hl'].
  assert (∀ st' w', (left_ st' < left_ st)%nat → scope_inv scope ptr w' → grows w w' →
    wp (block_loop fuel scope ptr st') (parsed_ok scope ptr w st) w') as Hrec.
  { intros st' w' Hlt Hinv' Hg. eapply wp_mono; [apply IH; [lia|done]|].
    intros res w2. apply parsed_ok_weaken; [done|lia]. }
  destruct (c =? _); [wp_step; destruct (bool_decide _); [by eapply scope_inv_blank|]; split_and!; [done|apply grows_refl|lia]|].
  destruct (Z.eqb_spec c NEWLINE) as [-> |_].
  { apply Hrec; [|done|apply grows_refl]. specialize (Hl' ltac:(done)). lia. }
  destruct (ndL_eof st1); [wp_step; destruct (bool_decide _); [|by eapply scope_inv_blank]; split_and!; [done|apply grows_refl|lia]|].
  destruct (ndL_accept_name st1 32) as [[key st2]|] eqn:Hk; [|by parse_fails].
  apply accept_name_Some in Hk as [Hk _].
  destruct (find_cfinfo _ _) as [t|] eqn:Hf; [|by parse_fails]. apply find_cfinfo_Some in Hf as [Hin Hsc].
  wp_step. eapply wp_mono; [by eapply (wp_parse_value t scope)|]. intros [st3|] w3 H3; [|by parse_fails].
  destruct H3 as (Hinv3 & Hg3 & Hl3). pose proof (skip_left st2). pose proof (skip_left st3).
  wp_step. eapply wp_mono with (P := parsed_ok scope ptr w3 st3).
  { destruct (cf_callback t) as [cb|] eqn:Hcb.
    - eapply wp_mono; [eapply (wp_run_cb fuel); [by apply enter_block_ok|done|done|done|lia|done]|].
      intros res w'. apply parsed_ok_weaken; [apply grows_refl|lia].
    - wp_step. split_and!; [done|apply grows_refl|done]. }
  intros [|st4|] w4 H4; [by parse_fails| |done]. destruct H4 as (Hinv4 & Hg4 & Hl4).
  pose proof (skip_left st4). destruct (at_separator _); [|by parse_fails].
  apply Hrec; [lia|done|by eapply grows_trans].
Qed.

(** The world before the configuration is read. *)
Definition unconfigured w : Prop :=
  blank w ∧ w_conf w = conf_default ∧ w_proxies w = ∅ ∧ w_proxy_list w = [] ∧ w_rules w = ∅.

Lemma unconfigured_configuring w : unconfigured w → configuring None w.
Proof.
  intros (Hb & Hc & Hp & Hl & Hr). constructor; [done|by rewrite Hc| | |].
  - rewrite Hp, Hl, Hr. constructor; [constructor| | |].
    + intros l. rewrite elem_of_nil, lookup_empty. split; [done|by intros []].
    + intros rl r. by rewrite lookup_empty.
    + intros pl p rl. by rewrite lookup_empty.
  - intros pl p. by rewrite Hp, lookup_empty.
  - intros rl r. by rewrite Hr, lookup_empty.
Qed.

Lemma wp_conf_load w file :
  unconfigured w →
  wp (nd_conf_load file) (λ res w', res ≠ PFuel ∧ blank w' ∧ ∀ st, res = POk st → configuring None w') w.
Proof.
  intros Hu%unconfigured_configuring. pose proof (cg_blank _ _ Hu). unfold nd_conf_load.
  destruct file as [[|b data]|]; [by wp_step| |by wp_step].
  eapply wp_mono; [eapply (enter_block_ok (S (length (b :: data)))); [apply block_loop_ok| |exact Hu]|].
  { unfold left_. cbn. lia. }
  intros [|st|] w' Hres; [done| |done]. destruct Hres as (? & _ & _). split_and!; [done|by eapply cg_blank|done].
Qed.

(** ** A started daemon *)

(** The daemon after a successful start, with any configuration text. *)
Inductive started : world → Prop :=
  | Started wi file st w0 K b1 b2 b3 b4 b5 w1 :
      unconfigured wi → nd_conf_load file wi = Ret (POk st) w0 →
      daemon_start K b1 b2 b3 b4 b5 w0 = Ret true w1 → started w1.

Lemma started_ok w1 : started w1 → world_inv w1 ∧ tables_ok (w_routes w1) (w_addrs w1).
Proof.
  intros [wi file st w0 K b1 b2 b3 b4 b5 w Hu Hload Hstart].
  pose proof (wp_conf_load wi file Hu) as Hl. unfold wp in Hl. rewrite Hload in Hl.
  destruct Hl as (_ & _ & Hc). specialize (Hc _ eq_refl).
  pose proof (wp_daemon_start K b1 b2 b3 b4 b5 w0 (configuring_conf_ok _ Hc) (configuring_rt_io _ _ Hc)) as Hs.
  unfold wp in Hs. rewrite Hstart in Hs. destruct (Hs eq_refl) as (Hinv & -> & ->).
  split; [done|apply tables_ok_empty].
Qed.
End conf.
