(* ===== verification/ExitSafe.v ===== *)
(** * Leaving the daemon (src/ndppd.c, src/iface.c, src/rt.c)

    [nd_iface_cleanup] frees every interface and gives back the membership of
    those that are up, unless the process is the parent of the daemon. *)
From S2P Require Import Prelude Addr World Monad Packet Route Netlink Iface Session Proxy Receive.
From S2P Require Import Daemon Counting Invariant IfaceSafe SessionSafe StartSafe.

Section exit.
Implicit Types (w : world) (l : loc).

(** What is sent for the interface [l]. *)
Definition release w l : list event :=
  match w_ifaces w !! l with
  | Some i =>
      if i_up i && negb (w_no_restore_flags w) then [EvDropMembership (i_index i) (i_promiscuous i)] else []
  | None => []
  end.

Definition releases w (ls : list loc) : list event := ls ≫= release w.

(** [nd_iface_close] with the last reference. *)
Lemma wp_close_last w l i rest :
  w_first_iface w = l :: rest → w_ifaces w !! l = Some i → w_pkt_io w = true →
  wp (update w_ifaces l (λ i, i <| i_refcount := 1 |>);; nd_iface_close l) (λ _ w',
    w' = w <| w_ifaces := delete l (w_ifaces w) |> <| w_first_iface := rest |>
           <| w_out := release w l ++ w_out w |>) w.
Proof.
  intros Ef Hi Hio. unfold nd_iface_close, use_io. wp_step. wp_step. wp_step.
  eapply wp_update; [apply lookup_insert_eq|]. wp_step. eapply wp_load; [apply lookup_insert_eq|].
  change (0 <? _) with false. cbv iota. wp_step. wp_step.
  assert (ll_delete l (l :: rest) = rest) as Ed by (cbn; by rewrite decide_True).
  assert (∀ evs j j', set_field w_ifaces (delete l)
    (w <| w_ifaces := <[l := j']> (<[l := j]> (w_ifaces w)) |> <| w_out := evs |>
       <| w_first_iface := ll_delete l (w_first_iface w) |>) =
    w <| w_ifaces := delete l (w_ifaces w) |> <| w_first_iface := rest |> <| w_out := evs |>) as Hend.
  { intros evs j j'. rewrite Ef, Ed. world_eq. by rewrite insert_insert_eq, delete_insert_eq. }
  unfold release. rewrite Hi. cbn [i_up i_index i_promiscuous w_no_restore_flags set_field set_w_ifaces set_i_refcount].
  wp_step. apply wp_when; intros Hb; rewrite Hb; cbn [app].
  - do 3 wp_step. change (w_pkt_io _) with (w_pkt_io w). rewrite Hio. wp_step. wp_step. wp_step. wp_step.
    eapply wp_free; [apply lookup_insert_eq|]. by apply (Hend _).
  - wp_step. wp_step. eapply wp_free; [apply lookup_insert_eq|].
    rewrite <- (Hend (w_out w) (i <| i_refcount := 1 |>) (i <| i_refcount := 1 |> <| i_refcount := 0 |>)). by world_eq.
Qed.

Lemma foldl_delete {A} (ls : list loc) (m : gmap loc A) l :
  foldl (λ h l, delete l h) m ls !! l = if decide (l ∈ ls) then None else m !! l.
Proof.
  revert m. induction ls as [|x ls IH]; intros m; cbn [foldl]; [by rewrite decide_False by apply not_elem_of_nil|].
  rewrite IH. destruct (decide (l ∈ ls)) as [Hin|Hout]; [by rewrite decide_True by (by right)|].
  destruct (decide (l = x)) as [-> |Hne].
  - rewrite decide_True by (by left). by rewrite lookup_delete_eq.
  - rewrite decide_False by (by intros [?|?]%elem_of_cons). by rewrite lookup_delete_ne.
Qed.

Lemma wp_iface_cleanup w :
  closable w →
  wp nd_iface_cleanup (λ _ w',
    w' = w <| w_ifaces := ∅ |> <| w_first_iface := [] |> <| w_pkt_io := false |>
           <| w_out := rev (releases w (w_first_iface w)) ++ w_out w |>) w.
Proof.
  intros (Hnd & Hdom & Hio). unfold nd_iface_cleanup. wp_step. wp_step. wp_step.
  apply (wp_for_each (λ rest w', ∃ seen, w_first_iface w = seen ++ rest ∧
    w' = w <| w_ifaces := foldl (λ h l, delete l h) (w_ifaces w) seen |> <| w_first_iface := rest |>
           <| w_out := rev (releases w seen) ++ w_out w |>)).
  - exists []. split; [done|]. cbn. by destruct w.
  - intros l rest w' (seen & Ef & ->).
    assert (is_Some (w_ifaces w !! l)) as [i Hi] by (apply Hdom; rewrite Ef; set_solver).
    assert (l ∉ seen) as Hl.
    { rewrite Ef in Hnd. apply list.NoDup_app in Hnd as (_ & Hdisj & _). intros Hin. apply (Hdisj l Hin). set_solver. }
    assert (w_pkt_io w = true) as Hpkt by (destruct Hio as [E|?]; [rewrite E in Ef; by destruct seen|done]).
    assert (foldl (λ h l, delete l h) (w_ifaces w) seen !! l = Some i) as Hi' by (by rewrite foldl_delete, decide_False).
    eapply wp_mono; [by apply (wp_close_last _ l i rest)|]. intros [] w' ->. exists (seen ++ [l]).
    split; [by rewrite <- app_assoc|].
    assert (release (w <| w_ifaces := foldl (λ h l, delete l h) (w_ifaces w) seen |> <| w_first_iface := l :: rest |>
           <| w_out := rev (releases w seen) ++ w_out w |>) l = release w l) as Er.
    { unfold release. cbn [w_ifaces w_no_restore_flags set_field set_w_out set_w_first_iface set_w_ifaces].
      by rewrite Hi, Hi'. }
    rewrite Er. world_eq.
    + by rewrite foldl_app.
    + unfold releases. rewrite bind_app, rev_app_distr. cbn [mbind list_bind]. rewrite app_nil_r, <- app_assoc. f_equal.
      unfold release. destruct (w_ifaces w !! l) as [j|]; [|done]. by destruct (_ && _).
  - intros w' (seen & Ef & ->). rewrite app_nil_r in Ef. subst seen. do 2 wp_step.
    assert (foldl (λ h l, delete l h) (w_ifaces w) (w_first_iface w) = ∅) as ->.
    { apply map_eq. intros l. rewrite foldl_delete, lookup_empty. case_decide as Hin; [done|].
      apply eq_None_not_Some. by rewrite <- Hdom. }
    apply wp_when; intros E; [wp_step; by world_eq|]. change (w_pkt_io w = false) in E.
    destruct w. cbn in E |- *. by subst.
Qed.

(** The memberships of the interfaces that are up. *)
Definition membership_drop (i : nd_iface) : option event :=
  if i_up i then Some (EvDropMembership (i_index i) (i_promiscuous i)) else None.

Lemma releases_kept w ls : w_no_restore_flags w = true → releases w ls = [].
Proof.
  intros Hfl. unfold releases. induction ls as [|l ls IH]; [done|]. cbn. rewrite IH, app_nil_r.
  unfold release. destruct (w_ifaces w !! l); [|done]. by rewrite Hfl, andb_false_r.
Qed.

Lemma releases_drops w :
  closable w → w_no_restore_flags w = false →
  releases w (w_first_iface w) ≡ₚ omap membership_drop (map_to_list (w_ifaces w)).*2.
Proof.
  intros (Hnd & Hdom & _) Hfl. trans (releases w (map_to_list (w_ifaces w)).*1).
  - apply bind_Permutation, NoDup_Permutation; [done|apply NoDup_fst_map_to_list|].
    intros l. rewrite Hdom, list_elem_of_fmap. split.
    + intros [i Hi]. exists (l, i). split; [done|]. by apply elem_of_map_to_list.
    + intros ([k i] & -> & Hi%elem_of_map_to_list). eauto.
  - assert (∀ m, (∀ l i, (l, i) ∈ m → w_ifaces w !! l = Some i) →
      releases w m.*1 = omap membership_drop m.*2) as H.
    { induction m as [|[l i] m IH]; intros Hm; [done|]. unfold releases in *. cbn.
      rewrite IH by (intros k j Hk; apply Hm; by right). unfold release, membership_drop.
      rewrite (Hm l i) by (by left). rewrite Hfl, andb_true_r. by destruct (i_up i). }
    rewrite H; [done|]. intros l i Hi. by apply elem_of_map_to_list.
Qed.
End exit.
