(* ===== verification/IoSafe.v ===== *)
(** * The invariant of the event loop

    [io_inv be s l]: the pointers form the list [l] of exactly the allocated
    [nd_io_t]s, their descriptors are distinct and open, and what the back end
    waits for is what is on the list.  Every operation of io.c preserves it and
    returns. *)
From S2P Require Import Prelude World Monad LinkedList Io.

(** ** Descriptors *)

Lemma lowest_from_spec n fd open :
  let r := lowest_from n fd open in
  fd ≤ r ≤ fd + Z.of_nat n ∧ (∀ i, fd ≤ i < r → i ∈ open) ∧ (r < fd + Z.of_nat n → r ∉ open).
Proof.
  revert fd. induction n as [|n IH]; intros fd; cbn -[Z.of_nat]; [split_and!; intros; lia|].
  destruct (decide (fd ∈ open)) as [Hin|Hout].
  - destruct (IH (fd + 1)) as (Hr & Hall & Hfree). split_and!; [lia..| |].
    + intros i Hi. destruct (decide (i = fd)) as [-> |]; [done|]. apply Hall. lia.
    + intros Hlt. apply Hfree. lia.
  - split_and!; [lia..| |done]. intros i Hi. lia.
Qed.

Lemma lowest_free_nonneg open : 0 ≤ lowest_free open.
Proof. by destruct (lowest_from_spec (size open) 0 open) as [[? _] _]. Qed.

Lemma lowest_free_below open i : 0 ≤ i < lowest_free open → i ∈ open.
Proof. destruct (lowest_from_spec (size open) 0 open) as (_ & H & _). apply H. Qed.

Lemma lowest_free_fresh open : lowest_free open ∉ open.
Proof.
  destruct (lowest_from_spec (size open) 0 open) as ([Hlo Hhi] & Hall & Hfree).
  fold (lowest_free open) in *. intros Hin.
  assert (lowest_free open = Z.of_nat (size open)) as E.
  { destruct (decide (lowest_free open < 0 + Z.of_nat (size open))); [by destruct Hfree|lia]. }
  assert (size (list_to_set (seqZ 0 (lowest_free open + 1)) : gset Z) ≤ size open)%nat as Hs.
  { apply subseteq_size. intros i. rewrite elem_of_list_to_set, elem_of_seqZ. intros Hi.
    destruct (decide (i = lowest_free open)) as [-> |]; [done|]. apply lowest_free_below. lia. }
  rewrite size_list_to_set, length_seqZ in Hs by apply NoDup_seqZ. lia.
Qed.

(** Once a descriptor has been opened, 0 is one. *)
Lemma zero_open open : 0 ∈ {[lowest_free open]} ∪ open.
Proof.
  pose proof (lowest_free_nonneg open). destruct (decide (lowest_free open = 0)) as [-> |]; [set_solver|].
  apply elem_of_union_r, lowest_free_below. lia.
Qed.

(** ** The invariant *)

(** The objects without their pointers. *)
Definition io_vals (s : io_state) : gmap loc nd_io := n_val <$> io_heap s.

(** Descriptor [fd] belongs to an object of the list. *)
Definition io_of (s : io_state) (fd : Z) (x : loc) : Prop :=
  ∃ io, io_vals s !! x = Some io ∧ io_fd io = fd.

(** The interest list is the list of descriptors, and [data.ptr] its object. *)
Definition epoll_ok (inh : gset Z) (s : io_state) : Prop :=
  if decide (0 < ndL_epoll_fd s) then
    ndL_epoll_fd s ∉ inh ∧ (∀ x, ¬ io_of s (ndL_epoll_fd s) x) ∧
    (∀ fd x, k_epoll s !! fd = Some x ↔ io_of s fd x)
  else (∀ x, io_vals s !! x = None) ∧ k_epoll s = ∅.

(** The array that [poll] is called with holds the descriptors of the list. *)
Definition pollfds_ok (s : io_state) (l : list loc) : Prop :=
  ndL_pollfds_count s = Z.of_nat (length l) ∧
  ∀ i x, l !! i = Some x → ∃ p, ndL_pollfds s !! i = Some p ∧ io_of s (pf_fd p) x.

(** [inh] are the descriptors that are not io.c's. *)
Record io_inv (be : backend) (inh : gset Z) (s : io_state) (l : list loc) : Prop := {
  oi_list : ll_list (io_heap s) (ndL_first_io s) l;
  oi_dom : ∀ x, is_Some (io_vals s !! x) ↔ x ∈ l;
  oi_inj : ∀ fd x y, io_of s fd x → io_of s fd y → x = y;
  oi_inh : ∀ fd x, io_of s fd x → fd ∉ inh;
  oi_open : ∀ fd, fd ∈ k_open s ↔ fd ∈ inh ∨ (0 < ndL_epoll_fd s ∧ fd = ndL_epoll_fd s) ∨ ∃ x, io_of s fd x;
  oi_count : 0 ≤ ndL_pollfds_count s ≤ Z.of_nat (length (ndL_pollfds s));
  oi_backend : match be with
               | Epoll => epoll_ok inh s
               | Poll => ndL_epoll_fd s ≤ 0 ∧ (ndL_dirty s = false → pollfds_ok s l)
               end }.

Section inv.
Context (be : backend) (inh : gset Z).
Implicit Types (s : io_state) (l : list loc) (h : gmap loc (node nd_io)).

Lemma io_start_inv : io_inv be inh (io_start inh) [].
Proof.
  assert (∀ x, io_vals (io_start inh) !! x = None) as Hv.
  { intros x. unfold io_vals. cbn. by rewrite lookup_fmap, lookup_empty. }
  assert (∀ fd x, ¬ io_of (io_start inh) fd x) as Ho by (intros fd x (io & Hio & _); by rewrite Hv in Hio).
  split.
  - done.
  - intros x. rewrite Hv. split; [by intros [? ?]|by intros ?%not_elem_of_nil].
  - by intros fd x y ?%Ho.
  - by intros fd x ?%Ho.
  - intros fd. cbn. split; [by left|]. intros [?|[[? _]|[x ?%Ho]]]; [done|lia|done].
  - by vm_compute.
  - destruct be; [done|]. split; [done|]. intros _. split; [done|]. intros i x. by rewrite lookup_nil.
Qed.

Lemma vals_lookup s x io : io_vals s !! x = Some io → ∃ n, io_heap s !! x = Some n ∧ n_val n = io.
Proof. unfold io_vals. rewrite lookup_fmap. destruct (io_heap s !! x); naive_solver. Qed.

Lemma vals_get s l x : io_inv be inh s l → x ∈ l → ∃ n, io_heap s !! x = Some n.
Proof. intros Hinv [io Hio]%(oi_dom _ _ _ _ Hinv). apply vals_lookup in Hio as (n & Hn & _). eauto. Qed.

Lemma io_fuel_enough s l : ll_list (io_heap s) (ndL_first_io s) l → (length l < io_fuel s)%nat.
Proof. intros Hl. unfold io_fuel. apply ll_list_size in Hl. lia. Qed.

(** ** Unlinking *)

Lemma unlink_spec s l x io :
  ll_list (io_heap s) (ndL_first_io s) l → io_vals s !! x = Some io →
  ∃ h p, unlink_io x s = Done (s <| io_heap := h |> <| ndL_first_io := p |>) ∧
    ll_list h p (ll_delete x l) ∧ n_val <$> h = io_vals s ∧
    (ndL_first_io s = Some x → h = io_heap s).
Proof.
  intros Hl (n & Hn & En)%vals_lookup.
  destruct (delete_spec (io_fuel s) _ _ _ x n Hl Hn (io_fuel_enough _ _ Hl))
    as (h & p & E & Hl' & _ & _ & Hhead & _ & Hv).
  exists h, p. split_and!; [|done| |done].
  - unfold unlink_io. by rewrite E.
  - apply map_eq. intros y. unfold io_vals. by rewrite !lookup_fmap, Hv.
Qed.

Lemma free_spec s l x io :
  ll_list (io_heap s) (ndL_first_io s) l → io_vals s !! x = Some io → x ∉ l →
  free_io x s = Done (s <| io_heap := delete x (io_heap s) |>) ∧
  ll_list (delete x (io_heap s)) (ndL_first_io s) l.
Proof.
  intros Hl (n & Hn & _)%vals_lookup Hx. unfold free_io, get. rewrite Hn. split; [done|].
  eapply ll_seg_ext; [|done]. intros y Hy. rewrite lookup_delete_ne; [done|]. by intros ->.
Qed.

(** What is left of the state when [x] is unlinked and freed. *)
Definition without s l x s' : Prop :=
  ∃ h p, s' = s <| io_heap := h |> <| ndL_first_io := p |> ∧
    ll_list h p (ll_delete x l) ∧ n_val <$> h = delete x (io_vals s) ∧
    (ndL_first_io s = Some x → h = delete x (io_heap s)).

Lemma remove_spec s l x io :
  ll_list (io_heap s) (ndL_first_io s) l → io_vals s !! x = Some io →
  ∃ s', (s ← unlink_io x s; free_io x s) = Done s' ∧ without s l x s'.
Proof.
  intros Hl Hx. destruct (unlink_spec _ _ _ _ Hl Hx) as (h & p & E & Hl' & Hv & Hhead). rewrite E. cbn.
  pose proof (ll_list_NoDup _ _ _ Hl) as Hnd.
  destruct (free_spec (s <| io_heap := h |> <| ndL_first_io := p |>) (ll_delete x l) x io) as [E' Hl''].
  - done.
  - unfold io_vals. cbn. by rewrite Hv.
  - rewrite elem_of_ll_delete by done. tauto.
  - rewrite E'. eexists. split; [done|]. exists (delete x h), p. split_and!; [done|done| |].
    + by rewrite fmap_delete, Hv.
    + intros ?. by rewrite Hhead.
Qed.

(** ** Destruction *)

Lemma elem_of_dom_delete s l x s' y :
  ll_list (io_heap s) (ndL_first_io s) l → (∀ x, is_Some (io_vals s !! x) ↔ x ∈ l) →
  without s l x s' → is_Some (io_vals s' !! y) ↔ y ∈ ll_delete x l.
Proof.
  intros Hl Hdom (h & p & -> & _ & Hv & _). unfold io_vals at 1. cbn. rewrite Hv.
  rewrite elem_of_ll_delete by (by eapply ll_list_NoDup).
  destruct (decide (y = x)) as [-> |Hne].
  - rewrite lookup_delete_eq. split; [by intros [? ?]|tauto].
  - rewrite lookup_delete_ne by done. rewrite Hdom. tauto.
Qed.

Lemma io_of_delete s s' x io fd y :
  io_vals s !! x = Some io → io_vals s' = delete x (io_vals s) →
  (∀ fd x y, io_of s fd x → io_of s fd y → x = y) →
  io_of s' fd y ↔ io_of s fd y ∧ fd ≠ io_fd io.
Proof.
  intros Hx Ev Hinj. unfold io_of. rewrite Ev. split.
  - intros (a & [Hne Ha]%lookup_delete_Some & <-). split; [eauto|].
    intros E. apply Hne. symmetry. apply (Hinj (io_fd io)); unfold io_of; eauto.
  - intros [(a & Ha & <-) Hne]. exists a. split; [|done]. apply lookup_delete_Some. split; [|done].
    intros <-. congruence.
Qed.

(** [s'] is [s] without the object [x] and its descriptor. *)
Lemma inv_removed s s' l x io :
  io_inv be inh s l → io_vals s !! x = Some io →
  ll_list (io_heap s') (ndL_first_io s') (ll_delete x l) → io_vals s' = delete x (io_vals s) →
  k_open s' = k_open s ∖ {[io_fd io]} → ndL_epoll_fd s' = ndL_epoll_fd s →
  k_epoll s' = delete (io_fd io) (k_epoll s) →
  0 ≤ ndL_pollfds_count s' ≤ Z.of_nat (length (ndL_pollfds s')) → (be = Poll → ndL_dirty s' = true) →
  io_inv be inh s' (ll_delete x l).
Proof.
  intros Hinv Hx Hl Ev Eo Ee Ek Hc Hd.
  pose proof (λ fd y, io_of_delete s s' x io fd y Hx Ev (oi_inj _ _ _ _ Hinv)) as Hof.
  assert (io_of s (io_fd io) x) as Hio by (by exists io). pose proof (oi_backend _ _ _ _ Hinv) as Hb.
  assert (0 < ndL_epoll_fd s → io_fd io ≠ ndL_epoll_fd s) as Hne.
  { destruct be; [|lia]. intros Hpos. unfold epoll_ok in Hb. rewrite decide_True in Hb by done.
    destruct Hb as (_ & Hb & _). intros E. apply (Hb x). by rewrite <- E. }
  split; [done| | | | |done|].
  - intros y. rewrite Ev, elem_of_ll_delete by (eapply ll_list_NoDup, Hinv).
    rewrite <- (oi_dom _ _ _ _ Hinv y). unfold is_Some. setoid_rewrite lookup_delete_Some. naive_solver.
  - intros fd y z [Hy _]%Hof [Hz _]%Hof. by eapply (oi_inj _ _ _ _ Hinv).
  - intros fd y [Hy _]%Hof. by eapply (oi_inh _ _ _ _ Hinv).
  - intros fd. setoid_rewrite Hof. pose proof (oi_inh _ _ _ _ Hinv _ _ Hio) as Hninh.
    rewrite Eo, Ee, elem_of_difference, elem_of_singleton, (oi_open _ _ _ _ Hinv). naive_solver.
  - destruct be.
    2:{ rewrite Ee, Hd by done. naive_solver. }
    unfold epoll_ok in *. rewrite Ee, Ek. case_decide; [|by rewrite (proj1 Hb) in Hx].
    destruct Hb as (Hb1 & Hb2 & Hb3). split_and!; [done| |].
    + intros y [Hy _]%Hof. by apply (Hb2 y).
    + intros fd y. rewrite Hof, lookup_delete_Some, Hb3. naive_solver.
Qed.

Lemma close_inv s l x io :
  io_inv be inh s l → io_vals s !! x = Some io →
  ∃ s', nd_io_close be (Some x) s = Done s' ∧ io_inv be inh s' (ll_delete x l) ∧
    io_vals s' = delete x (io_vals s) ∧
    (ndL_first_io s = Some x → io_heap s' = delete x (io_heap s)).
Proof.
  intros Hinv Hx. destruct (vals_lookup _ _ _ Hx) as (n & Hn & En).
  unfold nd_io_close, get. rewrite Hn. cbn. rewrite En.
  set (s1 := match be with Epoll => _ | Poll => _ end).
  assert (io_heap s1 = io_heap s ∧ ndL_first_io s1 = ndL_first_io s ∧ k_open s1 = k_open s ∖ {[io_fd io]} ∧
    ndL_epoll_fd s1 = ndL_epoll_fd s ∧ k_epoll s1 = delete (io_fd io) (k_epoll s) ∧
    ndL_pollfds s1 = ndL_pollfds s ∧ ndL_pollfds_count s1 = ndL_pollfds_count s ∧
    (be = Poll → ndL_dirty s1 = true)) as (E1 & E2 & E3 & E4 & E5 & E6 & E7 & E8).
  { unfold s1. destruct be; by split_and!. }
  clearbody s1.
  assert (io_vals s1 = io_vals s) as Ev by (unfold io_vals; by rewrite E1).
  pose proof (oi_list _ _ _ _ Hinv) as Hl. rewrite <- E1, <- E2 in Hl. rewrite <- Ev in Hx.
  destruct (remove_spec _ _ _ _ Hl Hx) as (s' & E & (h & p & -> & Hl' & Hv & Hhead)). rewrite Ev in Hx, Hv.
  eexists. split; [exact E|]. rewrite E1, E2 in Hhead. split_and!; [|done|done].
  eapply inv_removed; [done|done|done|done|done|done|done| |done]. cbn. rewrite E6, E7. apply Hinv.
Qed.

(** ** Creation *)

Lemma open_fresh s l fd : io_inv be inh s l → fd ∉ k_open s →
  fd ∉ inh ∧ (∀ x, ¬ io_of s fd x) ∧ (0 < ndL_epoll_fd s → fd ≠ ndL_epoll_fd s).
Proof. intros Hinv Hfd. rewrite (oi_open _ _ _ _ Hinv) in Hfd. naive_solver. Qed.

(** The epoll instance is created with the first object. *)
Lemma inv_epoll_created s l efd :
  be = Epoll → io_inv be inh s l → ndL_epoll_fd s ≤ 0 → 0 < efd → efd ∉ k_open s →
  io_inv be inh (s <| k_open := {[efd]} ∪ k_open s |> <| ndL_epoll_fd := efd |> <| k_epoll := ∅ |>) l.
Proof.
  intros Ebe Hinv Hle Hpos Hefd. destruct (open_fresh _ _ _ Hinv Hefd) as (Hi & Ho & _).
  pose proof (oi_backend _ _ _ _ Hinv) as Hb. rewrite Ebe in Hb. unfold epoll_ok in Hb.
  rewrite decide_False in Hb by lia.
  destruct Hinv as [I1 I2 I3 I4 I5 I6 I7]. split; [done..| |done|].
  - intros fd. cbn [k_open ndL_epoll_fd set_field set_k_open set_epoll_fd set_k_epoll].
    rewrite elem_of_union, elem_of_singleton, I5. change (io_of _ fd) with (io_of s fd).
    naive_solver lia.
  - rewrite Ebe. unfold epoll_ok. rewrite decide_True by done. split_and!; [done|done|].
    intros fd x. cbn. rewrite lookup_empty. split; [done|]. intros (io & Hio & _). by rewrite (proj1 Hb) in Hio.
Qed.

Lemma io_of_insert s s' x io fd y :
  io_vals s !! x = None → io_vals s' = <[x := io]> (io_vals s) →
  io_of s' fd y ↔ io_of s fd y ∨ fd = io_fd io ∧ y = x.
Proof.
  intros Hx Ev. unfold io_of. rewrite Ev. setoid_rewrite lookup_insert_Some.
  split; [naive_solver|]. intros [(a & Ha & <-)|[-> ->]]; [|eauto]. exists a. split; [|done].
  right. split; [|done]. intros ->. congruence.
Qed.

(** [s'] is [s] with a new object [x] for the new descriptor [fd]. *)
Lemma inv_added s s' l x io :
  io_inv be inh s l → io_vals s !! x = None → (io_fd io ∉ k_open s) →
  ll_list (io_heap s') (ndL_first_io s') (x :: l) → io_vals s' = <[x := io]> (io_vals s) →
  k_open s' = {[io_fd io]} ∪ k_open s → ndL_epoll_fd s' = ndL_epoll_fd s →
  0 ≤ ndL_pollfds_count s' ≤ Z.of_nat (length (ndL_pollfds s')) →
  match be with
  | Epoll => 0 < ndL_epoll_fd s ∧ k_epoll s' = <[io_fd io := x]> (k_epoll s)
  | Poll => ndL_dirty s' = true
  end → io_inv be inh s' (x :: l).
Proof.
  intros Hinv Hx Hfd Hl Ev Eo Ee Hc Hbe. pose proof (λ fd y, io_of_insert s s' x io fd y Hx Ev) as Hof.
  destruct (open_fresh _ _ _ Hinv Hfd) as (Hi & Hno & Hne).
  pose proof (oi_backend _ _ _ _ Hinv) as Hb.
  split; [done| | | | |done|].
  - intros y. rewrite Ev, elem_of_cons, <- (oi_dom _ _ _ _ Hinv y). unfold is_Some.
    setoid_rewrite lookup_insert_Some. destruct (decide (x = y)); naive_solver.
  - intros fd y z. rewrite !Hof. intros [Hy|[-> ->]] [Hz|[? ->]]; subst; [|by destruct (Hno y)|by destruct (Hno z)|done].
    by eapply (oi_inj _ _ _ _ Hinv).
  - intros fd y. rewrite Hof. intros [Hy|[-> _]]; [by eapply (oi_inh _ _ _ _ Hinv)|done].
  - intros fd. setoid_rewrite Hof. rewrite Eo, Ee, elem_of_union, elem_of_singleton, (oi_open _ _ _ _ Hinv).
    naive_solver.
  - destruct be.
    + destruct Hbe as [Hpos Ek]. unfold epoll_ok in *. rewrite Ee, Ek. rewrite decide_True in * by done.
      destruct Hb as (Hb1 & Hb2 & Hb3). split_and!; [done| |].
      * intros y. rewrite Hof. intros [Hy|[E _]]; [by apply (Hb2 y)|naive_solver].
      * intros fd y. rewrite lookup_insert_Some, Hof, Hb3.
        split; [naive_solver|]. intros [Hy|[-> ->]]; [|by left]. right. split; [|done].
        intros <-. by destruct (Hno y).
    + rewrite Ee, Hbe. split; [apply Hb|done].
Qed.

(** The object is linked and not yet registered. *)
Definition linked s (fd : Z) (x : loc) : io_state :=
  s <| io_heap := <[x := mk_node (mk_io fd 0 None) (ndL_first_io s)]> (io_heap s) |> <| ndL_first_io := Some x |>.

Lemma linked_list s l fd x :
  io_inv be inh s l → io_heap s !! x = None → ll_list (io_heap (linked s fd x)) (Some x) (x :: l).
Proof.
  intros Hinv Hx. split; [done|]. eexists. split; [apply lookup_insert_eq|]. cbn.
  apply ll_seg_insert; [|apply (oi_list _ _ _ _ Hinv)].
  intros [io Hio]%(oi_dom _ _ _ _ Hinv). apply vals_lookup in Hio as (n & Hn & _). congruence.
Qed.

Lemma ll_list_head {A} (h h' : gmap loc (node A)) p p' l : ll_list h p l → ll_list h' p' l → p = p'.
Proof. destruct l; cbn; [intros -> ->; done|]. intros [-> _] [-> _]. done. Qed.

(** The label [fail] undoes the creation. *)
Lemma create_fail_spec s l fd x :
  io_inv be inh s l → io_heap s !! x = None → (fd ∉ k_open s) →
  create_fail x ((linked s fd x) <| k_open := {[fd]} ∪ k_open s |>) =
  Done (None, s <| k_epoll := delete fd (k_epoll s) |>).
Proof.
  intros Hinv Hx Hfd. pose proof (linked_list s l fd x Hinv Hx) as Hl.
  set (s1 := (linked s fd x) <| k_open := _ |>). unfold create_fail.
  destruct (unlink_spec s1 (x :: l) x (mk_io fd 0 None)) as (h & p & E & Hl' & _ & Hh); [done| |].
  { unfold io_vals. cbn. by rewrite lookup_fmap, lookup_insert_eq. }
  specialize (Hh eq_refl). cbn in Hl'. rewrite decide_True in Hl' by done.
  pose proof (ll_list_head _ _ _ _ _ Hl' (oi_list _ _ _ _ Hinv)) as ->. subst h.
  rewrite E. unfold free_io, get, s1. cbn. rewrite lookup_insert_eq. cbn.
  clear E. unfold mret, res_ret, close_fd, linked. destruct s as [h0 f0 o0 e0 ke0 pf0 c0 d0]. cbn in *.
  assert (({[fd]} ∪ o0) ∖ {[fd]} = o0) as -> by set_solver. by rewrite delete_insert_eq, delete_id.
Qed.

Lemma inv_unregister s l fd :
  io_inv be inh s l → (fd ∉ k_open s) → io_inv be inh (s <| k_epoll := delete fd (k_epoll s) |>) l.
Proof.
  intros Hinv Hfd. destruct (open_fresh _ _ _ Hinv Hfd) as (_ & Hno & _).
  destruct Hinv as [I1 I2 I3 I4 I5 I6 I7]. split; [done..|]. destruct be; [|done].
  unfold epoll_ok in *. cbn [ndL_epoll_fd k_epoll set_field set_k_epoll].
  case_decide; [|split; [apply I7|]; by rewrite (proj2 I7), delete_empty].
  destruct I7 as (Hb1 & Hb2 & Hb3). split_and!; [done|done|]. intros fd' x. rewrite lookup_delete_Some, Hb3. split; [naive_solver|]. intros Hx. split; [|done].
  intros ->. by destruct (Hno x).
Qed.

Lemma inv_epoll_failed s l :
  io_inv be inh s l → ndL_epoll_fd s ≤ 0 → io_inv be inh (s <| ndL_epoll_fd := -1 |>) l.
Proof.
  intros [I1 I2 I3 I4 I5 I6 I7] Hle. split; [done..| |done|].
  - intros fd. rewrite I5. cbn. change (io_of _ fd) with (io_of s fd). naive_solver lia.
  - destruct be; [|by split; [|apply I7]]. unfold epoll_ok in *. rewrite decide_False in * by lia.
    by rewrite decide_False.
Qed.

(** The outcome of a creation: a new object, or nothing. *)
Definition created s l (fd : Z) (o : option loc) s' : Prop :=
  match o with
  | Some x => (x ∉ l) ∧ io_inv be inh s' (x :: l) ∧ io_vals s' = <[x := mk_io fd 0 None]> (io_vals s)
  | None => io_inv be inh s' l ∧ io_vals s' = io_vals s
  end.

(** Every system call that matters succeeds. *)
Definition answers_ok (a : create_answers) s : bool :=
  a_getfl a && a_setfl a &&
  match be with
  | Epoll => ((0 <? ndL_epoll_fd s) || a_epoll_create a) && a_epoll_ctl a
  | Poll => true
  end.

Lemma close_new s fd : (fd ∉ k_open s) →
  close_fd fd (s <| k_open := {[fd]} ∪ k_open s |>) = s <| k_epoll := delete fd (k_epoll s) |>.
Proof.
  intros Hfd. destruct s as [h0 f0 o0 e0 ke0 pf0 c0 d0]. unfold close_fd. cbn in *.
  assert (({[fd]} ∪ o0) ∖ {[fd]} = o0) as -> by set_solver. done.
Qed.

(** Registration of a linked object with the epoll instance. *)
Lemma io_heap_vals s x : io_heap s !! x = None → io_vals s !! x = None.
Proof. intros Hx. unfold io_vals. by rewrite lookup_fmap, Hx. Qed.

(** The new object, once it is registered. *)
Lemma created_linked s s' l fd x :
  io_inv be inh s l → io_heap s !! x = None → (fd ∉ k_open s) →
  io_heap s' = io_heap (linked s fd x) → ndL_first_io s' = Some x → k_open s' = {[fd]} ∪ k_open s →
  ndL_epoll_fd s' = ndL_epoll_fd s →
  ndL_pollfds s' = ndL_pollfds s → ndL_pollfds_count s' = ndL_pollfds_count s →
  match be with
  | Epoll => 0 < ndL_epoll_fd s ∧ k_epoll s' = <[fd := x]> (k_epoll s)
  | Poll => ndL_dirty s' = true
  end → created s l fd (Some x) s'.
Proof.
  intros Hinv Hx Hfd Eh Ef Eo Ee Ep Ec Hbe.
  assert (io_vals s' = <[x := mk_io fd 0 None]> (io_vals s)) as Ev.
  { unfold io_vals. rewrite Eh. cbn. by rewrite fmap_insert. }
  split_and!; [|eapply (inv_added s _ l x (mk_io fd 0 None)); try done|done].
  - intros [io Hio]%(oi_dom _ _ _ _ Hinv). by rewrite io_heap_vals in Hio.
  - by apply io_heap_vals.
  - rewrite Eh, Ef. by apply linked_list.
  - rewrite Ep, Ec. apply Hinv.
Qed.

Lemma created_none s l fd : io_inv be inh s l → (fd ∉ k_open s) →
  created s l fd None (s <| k_epoll := delete fd (k_epoll s) |>).
Proof. intros. split; [by apply inv_unregister|done]. Qed.

(** [epoll_ctl] on a linked object. *)
Lemma register_add s l fd x (ok : bool) :
  be = Epoll → io_inv be inh s l → io_heap s !! x = None → (fd ∉ k_open s) → 0 < ndL_epoll_fd s →
  let s1 := (linked s fd x) <| k_open := {[fd]} ∪ k_open s |> in
  ∃ o s', (n ← get (io_heap s1) x;
      if negb ok then create_fail x s1
      else mret (Some x, s1 <| k_epoll := <[io_fd (n_val n) := x]> (k_epoll s1) |>)) = Done (o, s') ∧
    created s l fd o s' ∧ bool_decide (o = None) = negb ok.
Proof.
  intros Ebe Hinv Hx Hfd Hpos s1. unfold get.
  change (io_heap s1) with (<[x := mk_node (mk_io fd 0 None) (ndL_first_io s)]> (io_heap s)).
  rewrite lookup_insert_eq. cbn [mbind res_bind n_val io_fd]. destruct ok; cbn [negb].
  - eexists _, _. split; [done|]. split; [|done]. eapply created_linked; try done. by rewrite Ebe.
  - eexists _, _. split; [by eapply create_fail_spec|]. split; [|done]. by apply created_none.
Qed.

Lemma register_spec s l fd x a :
  be = Epoll → io_inv be inh s l → io_heap s !! x = None → (fd ∉ k_open s) → 0 ∈ {[fd]} ∪ k_open s →
  ∃ o s', register_io a x ((linked s fd x) <| k_open := {[fd]} ∪ k_open s |>) = Done (o, s') ∧
    created s l fd o s' ∧
    bool_decide (o = None) = negb (((0 <? ndL_epoll_fd s) || a_epoll_create a) && a_epoll_ctl a).
Proof.
  intros Ebe Hinv Hx Hfd H0.
  unfold register_io, epoll_instance. change (ndL_epoll_fd _) with (ndL_epoll_fd s).
  destruct (Z.leb_spec (ndL_epoll_fd s) 0) as [Hle|Hgt].
  - rewrite (proj2 (Z.ltb_ge _ _)) by done. cbn [orb]. destruct (a_epoll_create a); cbn [negb andb].
    + unfold new_fd. set (efd := lowest_free _).
      pose proof (lowest_free_fresh ({[fd]} ∪ k_open s) : efd ∉ {[fd]} ∪ k_open s) as Hefd.
      pose proof (lowest_free_nonneg ({[fd]} ∪ k_open s) : 0 ≤ efd).
      assert (efd ≠ 0) by (intros E; by rewrite E in Hefd).
      set (s0 := s <| k_open := {[efd]} ∪ k_open s |> <| ndL_epoll_fd := efd |> <| k_epoll := ∅ |>).
      assert (io_inv be inh s0 l) as Hinv0 by (apply inv_epoll_created; [done|done|done|lia|set_solver]).
      assert ({[efd]} ∪ ({[fd]} ∪ k_open s) = {[fd]} ∪ k_open s0) as Eo by (cbn; set_solver).
      destruct (register_add s0 l fd x (a_epoll_ctl a)) as (o & s' & E & Hc & Hb);
        [done|done|done|cbn; set_solver|cbn; lia|].
      exists o, s'. split_and!; [|done|done]. rewrite <- E. cbn. by rewrite Eo.
    + set (s0 := s <| ndL_epoll_fd := -1 |>).
      assert (io_inv be inh s0 l) as Hinv0 by (by apply inv_epoll_failed).
      pose proof (create_fail_spec s0 l fd x Hinv0 Hx Hfd) as E.
      eexists _, _. split; [exact E|]. split; [|done]. split; [by apply inv_unregister|done].
  - rewrite (proj2 (Z.ltb_lt _ _)) by done. cbn [orb andb negb]. by apply register_add.
Qed.

Lemma create_inv a s l :
  io_inv be inh s l → let fd := lowest_free (k_open s) in
  ∃ o s', ndL_create be a fd (s <| k_open := {[fd]} ∪ k_open s |>) = Done (o, s') ∧
    created s l fd o s' ∧ bool_decide (o = None) = negb (answers_ok a s).
Proof.
  intros Hinv fd. pose proof (lowest_free_fresh (k_open s) : fd ∉ k_open s) as Hfd. unfold ndL_create, answers_ok.
  destruct (a_getfl a); cbn [negb andb];
    [|rewrite close_new by done; eexists _, _; split_and!; [done|by apply created_none|done]].
  destruct (a_setfl a); cbn [negb andb];
    [|rewrite close_new by done; eexists _, _; split_and!; [done|by apply created_none|done]].
  set (x := fresh _). assert (io_heap s !! x = None) as Hx by (apply not_elem_of_dom, is_fresh).
  unfold nd_ll_prepend, set_next, get. cbn [io_heap set_io_heap set_field]. rewrite lookup_insert_eq.
  cbn [mbind res_bind mret res_ret n_val]. rewrite insert_insert_eq.
  change (set_field ndL_first_io _ _) with ((linked s fd x) <| k_open := {[fd]} ∪ k_open s |>).
  destruct be eqn:Ebe.
  - rewrite <- Ebe in Hinv. apply register_spec; [done..|apply zero_open].
  - eexists _, _. split; [done|]. split; [|done]. rewrite <- Ebe in Hinv.
    apply created_linked; try done. by rewrite Ebe.
Qed.

(** ** Handlers and the end *)

(** A change of an object that keeps its descriptor. *)
Lemma payload_inv s l x n io :
  io_inv be inh s l → io_heap s !! x = Some n → io_fd io = io_fd (n_val n) →
  let s' := s <| io_heap := <[x := mk_node io (n_next n)]> (io_heap s) |> in
  io_inv be inh s' l ∧ io_vals s !! x = Some (n_val n) ∧ io_vals s' = <[x := io]> (io_vals s).
Proof.
  intros Hinv Hn Efd s'.
  assert (∀ y, io_vals s' !! y = if decide (x = y) then Some io else io_vals s !! y) as Ev.
  { intros y. unfold io_vals. cbn. rewrite fmap_insert. case_decide as E; [by rewrite E, lookup_insert_eq|].
    by rewrite lookup_insert_ne. }
  assert (io_vals s !! x = Some (n_val n)) as Hxv by (unfold io_vals; by rewrite lookup_fmap, Hn).
  assert (∀ fd y, io_of s' fd y ↔ io_of s fd y) as Hof.
  { intros fd y. unfold io_of. rewrite Ev. case_decide as E; [|done]. subst y. rewrite Hxv. naive_solver. }
  split_and!; [|done|by unfold io_vals; cbn; rewrite fmap_insert].
  destruct Hinv as [I1 I2 I3 I4 I5 I6 I7]. split.
  - by apply ll_seg_payload.
  - intros y. rewrite <- I2, Ev. case_decide as E; [|done]. subst y. rewrite Hxv. split; intros _; eauto.
  - intros fd y z. rewrite !Hof. apply I3.
  - intros fd y. rewrite Hof. apply I4.
  - intros fd. setoid_rewrite Hof. apply I5.
  - done.
  - destruct be.
    + unfold epoll_ok in *. cbn [ndL_epoll_fd k_epoll set_field set_io_heap s'] in *. case_decide.
      * setoid_rewrite Hof. done.
      * by rewrite (proj1 I7) in Hxv.
    + split; [apply I7|]. intros Hd. destruct (proj2 I7 Hd) as [Hc Hp]. split; [done|].
      setoid_rewrite Hof. done.
Qed.

Lemma handler_inv s l x hd :
  io_inv be inh s l → x ∈ l →
  ∃ s' io, set_handler x hd s = Done s' ∧ io_inv be inh s' l ∧ io_vals s !! x = Some io ∧
    io_vals s' = <[x := mk_io (io_fd io) (io_data io) (Some hd)]> (io_vals s).
Proof.
  intros Hinv Hx. destruct (vals_get _ _ _ Hinv Hx) as [n Hn].
  destruct (payload_inv s l x n (mk_io (io_fd (n_val n)) (io_data (n_val n)) (Some hd)))
    as (Hinv' & Hv & Ev); [done..|].
  eexists _, (n_val n). split; [unfold set_handler, get; by rewrite Hn|]. done.
Qed.

(** Without objects, only the epoll instance is left to close. *)
Lemma inv_nil_heap s : io_inv be inh s [] → io_heap s = ∅ ∧ ∀ fd x, ¬ io_of s fd x.
Proof.
  intros Hinv. assert (∀ x, io_vals s !! x = None) as Hv.
  { intros x. apply eq_None_not_Some. rewrite (oi_dom _ _ _ _ Hinv). set_solver. }
  split.
  - apply map_eq. intros x. specialize (Hv x). unfold io_vals in Hv. rewrite lookup_fmap in Hv.
    rewrite lookup_empty. by destruct (io_heap s !! x).
  - intros fd x (io & Hio & _). congruence.
Qed.

Lemma close_instance s :
  be = Epoll → io_inv be inh s [] → 0 < ndL_epoll_fd s →
  let s' := (close_fd (ndL_epoll_fd s) s) <| ndL_epoll_fd := 0 |> <| k_epoll := ∅ |> in
  io_inv be inh s' [] ∧ k_open s' = inh ∧ io_heap s' = ∅.
Proof.
  intros Ebe Hinv Hpos s'. destruct (inv_nil_heap s Hinv) as [Hh Hno].
  pose proof (oi_backend _ _ _ _ Hinv) as Hb. rewrite Ebe in Hb. unfold epoll_ok in Hb.
  rewrite decide_True in Hb by done. destruct Hb as (Hb & _).
  assert (k_open s' = inh) as Eo.
  { apply set_eq. intros fd. cbn. rewrite elem_of_difference, elem_of_singleton, (oi_open _ _ _ _ Hinv).
    naive_solver. }
  split_and!; [|done|done]. destruct Hinv as [I1 I2 I3 I4 I5 I6 I7]. split; [done..| |done|].
  - intros fd. rewrite Eo. split; [by left|]. intros [?|[[? _]|[x Hx]]]; [done|cbn in *; lia|].
    by destruct (Hno fd x).
  - rewrite Ebe. unfold epoll_ok. cbn. split; [|done]. intros x. unfold io_vals. cbn.
    by rewrite Hh, lookup_fmap, lookup_empty.
Qed.

(** Everything io.c opened is closed. *)
Lemma cleanup_spec s l :
  io_inv be inh s l →
  ∃ s', nd_io_cleanup be s = Done s' ∧ io_inv be inh s' [] ∧ k_open s' = inh ∧ io_heap s' = ∅.
Proof.
  intros Hinv. unfold nd_io_cleanup.
  destruct (foreach_s_spec io_heap (λ io, nd_io_close be (Some io)) (λ rest s, io_inv be inh s rest))
    with (fuel := io_fuel s) (l := l) (el := ndL_first_io s) (s := s) as (s1 & E & _ & Hinv1).
  - intros x rest s1 Hinv1. assert (x ∈ x :: rest) as [io Hio]%(oi_dom _ _ _ _ Hinv1) by set_solver.
    destruct (close_inv _ _ _ _ Hinv1 Hio) as (s' & E & Hinv' & _ & Hh). cbn in Hinv'.
    rewrite decide_True in Hinv' by done. exists s'. split_and!; [done|done|].
    pose proof (oi_list _ _ _ _ Hinv1) as Hl. pose proof (ll_list_NoDup _ _ _ Hl) as Hnd.
    destruct Hl as [Ef _]. rewrite (Hh Ef). intros y Hy. apply lookup_delete_ne.
    intros ->. by apply list.NoDup_cons in Hnd as [? _].
  - by apply io_fuel_enough, (oi_list _ _ _ _ Hinv).
  - apply (oi_list _ _ _ _ Hinv).
  - done.
  - rewrite E. cbn [mbind res_bind]. clear E s Hinv.
    assert (ndL_epoll_fd s1 ≤ 0 → k_open s1 = inh) as Hle.
    { intros Hle. apply set_eq. intros fd. rewrite (oi_open _ _ _ _ Hinv1).
      pose proof (proj2 (inv_nil_heap _ Hinv1) fd). naive_solver lia. }
    assert (io_heap s1 = ∅) as Hh by apply inv_nil_heap, Hinv1.
    destruct be eqn:Ebe.
    + destruct (Z.ltb_spec 0 (ndL_epoll_fd s1)).
      * eexists. split; [done|]. rewrite <- Ebe in *. by apply close_instance.
      * exists s1. split_and!; [done|done|by apply Hle|done].
    + exists s1. split_and!; [done|done|apply Hle, (oi_backend _ _ _ _ Hinv1)|done].
Qed.

(** ** Descriptors of the rest of the program *)

Lemma inv_inherit_open s l fd :
  io_inv be inh s l → (fd ∉ k_open s) → io_inv be ({[fd]} ∪ inh) (s <| k_open := {[fd]} ∪ k_open s |>) l.
Proof.
  intros Hinv Hfd. destruct (open_fresh _ _ _ Hinv Hfd) as (Hi & Ho & He).
  destruct Hinv as [I1 I2 I3 I4 I5 I6 I7]. split; [done..| | |done|].
  - intros fd' x Hx. rewrite elem_of_union, elem_of_singleton. intros [-> |?]; [by destruct (Ho x)|by eapply I4].
  - intros fd'. cbn. rewrite !elem_of_union, I5. change (io_of _ fd') with (io_of s fd'). naive_solver.
  - destruct be; [|done]. unfold epoll_ok in *. cbn [ndL_epoll_fd k_epoll set_field set_k_open].
    case_decide; [|done]. destruct I7 as (Hb1 & Hb2 & Hb3). split_and!; [|done|done].
    rewrite elem_of_union, elem_of_singleton. naive_solver.
Qed.

Lemma inv_inherit_close s l fd :
  io_inv be inh s l → fd ∈ inh → io_inv be (inh ∖ {[fd]}) (close_fd fd s) l.
Proof.
  intros [I1 I2 I3 I4 I5 I6 I7] Hfd. assert (∀ x, ¬ io_of s fd x) as Ho by (intros x Hx; by apply (I4 fd x)).
  split; [done..| | |done|].
  - intros fd' x Hx. rewrite elem_of_difference. intros [? _]. by eapply I4.
  - intros fd'. cbn. rewrite !elem_of_difference, elem_of_singleton, I5. change (io_of _ fd') with (io_of s fd').
    assert (be = Epoll → 0 < ndL_epoll_fd s → fd ≠ ndL_epoll_fd s).
    { intros Eb Hp. rewrite Eb in I7. unfold epoll_ok in I7. rewrite decide_True in I7 by done. intros ->. by apply I7. }
    assert (be = Poll → ndL_epoll_fd s ≤ 0) by (intros Eb; rewrite Eb in I7; apply I7).
    destruct (decide (fd' = fd)) as [-> |]; [|naive_solver]. destruct be; naive_solver lia.
  - destruct be; [|done]. unfold epoll_ok in *. cbn [ndL_epoll_fd k_epoll set_field set_k_open set_k_epoll close_fd].
    case_decide; [|by split; [apply I7|rewrite (proj2 I7), delete_empty]].
    destruct I7 as (Hb1 & Hb2 & Hb3). split_and!; [set_solver|done|].
    intros fd' x. rewrite lookup_delete_Some, Hb3. change (io_of (close_fd fd s) fd' x) with (io_of s fd' x).
    split; [naive_solver|]. intros Hx. split; [|done]. intros ->. by destruct (Ho x).
Qed.
End inv.
