(* ===== verification/IoDispatch.v ===== *)
(** * Dispatching events to handlers

    [nd_io_poll] with either back end: the array of the poll back end is rebuilt
    within its bounds, no handler is called on an object that has been closed,
    and both back ends make the same calls. *)
From S2P Require Import Prelude World Monad LinkedList Io IoSafe.

(** ** Lists *)

Lemma omap_length_le {A B} (f : A → option B) l : (length (omap f l) ≤ length l)%nat.
Proof. induction l as [|x l IH]; [done|]. cbn. destruct (f x); cbn; lia. Qed.

Lemma omap_NoDup {A B} (f : A → option B) l :
  NoDup l → (∀ a b c, a ∈ l → b ∈ l → f a = Some c → f b = Some c → a = b) → NoDup (omap f l).
Proof.
  induction 1 as [|x l Hx Hnd IH]; intros Hinj; [constructor|]. cbn. destruct (f x) as [c|] eqn:Ec.
  - constructor; [|apply IH; set_solver]. rewrite list_elem_of_omap. intros (y & Hy & Ey).
    apply Hx. by rewrite (Hinj x y c) by set_solver.
  - apply IH. set_solver.
Qed.

(** An association list with distinct keys. *)
Lemma find_assoc (m : list (Z * Z)) k v :
  NoDup m.*1 → snd <$> find (λ r, fst r =? k) m = Some v ↔ (k, v) ∈ m.
Proof.
  induction m as [|[k' v'] m IH]; cbn; [set_solver|]. intros [Hk Hnd]%list.NoDup_cons.
  destruct (Z.eqb_spec k' k) as [-> |Hne]; cbn.
  - rewrite elem_of_cons. split; [intros [= ->]; by left|]. intros [[= ->]|Hin]; [done|].
    destruct Hk. apply list_elem_of_fmap. by exists (k, v).
  - rewrite IH, elem_of_cons by done. naive_solver.
Qed.

(** ** Rebuilding the array *)

Lemma store_pollfd_spec i x a :
  0 ≤ i < Z.of_nat (length a) → store_pollfd i x a = Done (<[Z.to_nat i := x]> a).
Proof.
  intros Hi. unfold store_pollfd. rewrite (proj2 (Z.leb_le _ _)), (proj2 (Z.ltb_lt _ _)) by lia. done.
Qed.

Lemma fill_pollfds_spec fuel h p l (i : nat) a :
  ll_list h p l → (length l < fuel)%nat → (i + length l ≤ length a)%nat →
  ∃ a', fill_pollfds fuel h p (Z.of_nat i) a = Done (Z.of_nat (i + length l), a') ∧ length a' = length a ∧
    (∀ j, (j < i)%nat → a' !! j = a !! j) ∧
    (∀ j x n, l !! j = Some x → h !! x = Some n → a' !! (i + j)%nat = Some (mk_pollfd (io_fd (n_val n)) 0)).
Proof.
  revert p l i a. induction fuel as [|fuel IH]; intros p l i a Hl Hf Ha; [lia|]. destruct l as [|x l].
  - unfold ll_list in Hl. cbn in Hl. subst p. exists a. cbn. rewrite Nat.add_0_r. by split_and!.
  - destruct Hl as (-> & n & Hn & Hl). cbn [length] in *. cbn [fill_pollfds]. unfold get. rewrite Hn.
    cbn [mbind res_bind]. rewrite store_pollfd_spec by lia. cbn [mbind res_bind]. rewrite Nat2Z.id.
    replace (Z.of_nat i + 1) with (Z.of_nat (S i)) by lia.
    destruct (IH (n_next n) l (S i) (<[i := mk_pollfd (io_fd (n_val n)) 0]> a)) as (a' & -> & Hlen & Hlo & Hhi);
      [done|lia|rewrite length_insert; lia|].
    rewrite length_insert in Hlen. exists a'. split_and!; [do 2 f_equal; lia|done| |].
    + intros j Hj. rewrite Hlo by lia. apply list_lookup_insert_ne. lia.
    + intros [|j] y m Hy Hm; cbn in Hy.
      * injection Hy as <-. rewrite Hn in Hm. injection Hm as <-. rewrite Nat.add_0_r, Hlo by lia.
        apply list_lookup_insert_eq. lia.
      * replace (i + S j)%nat with (S i + j)%nat by lia. by eapply Hhi.
Qed.

Section dispatch.
Context (inh : gset Z).
Implicit Types (s : io_state) (l : list loc).

(** The array always has room for the list: it grows to twice the count. *)
Lemma refresh_spec (be : backend) s l :
  io_inv be inh s l →
  ∃ a, ndL_refresh_pollfds s = Done (s <| ndL_pollfds := a |> <| ndL_pollfds_count := Z.of_nat (length l) |>) ∧
    (length l ≤ length a)%nat ∧
    ∀ i x, l !! i = Some x → ∃ p, a !! i = Some p ∧ io_of s (pf_fd p) x.
Proof.
  intros Hinv. pose proof (oi_list _ _ _ _ Hinv) as Hl. pose proof (io_fuel_enough _ _ Hl) as Hf.
  unfold ndL_refresh_pollfds. rewrite (count_spec _ _ _ l) by done. cbn [mbind res_bind].
  lazymatch goal with |- context [fill_pollfds _ _ _ _ ?x] => set (a := x) end.
  assert (length l ≤ length a)%nat as Ha.
  { unfold a, ndL_pollfds_size. destruct (Z.ltb_spec (Z.of_nat (length (ndL_pollfds s))) (0 + Z.of_nat (length l)));
      [rewrite length_replicate|]; lia. }
  destruct (fill_pollfds_spec (io_fuel s) _ _ l 0 a Hl Hf) as (a' & E & Hlen & _ & Hhi); [lia|].
  change (Z.of_nat 0) with 0 in E. rewrite E. cbn [mbind res_bind].
  exists a'. split_and!; [done|lia|]. intros i x Hx.
  assert (x ∈ l) as [n Hn]%(vals_get be inh s l x Hinv) by (by eapply list_elem_of_lookup_2).
  exists (mk_pollfd (io_fd (n_val n)) 0). split; [by eapply (Hhi i)|]. exists (n_val n). split; [|done].
  unfold io_vals. by rewrite lookup_fmap, Hn.
Qed.

Lemma inv_refreshed s l a :
  io_inv Poll inh s l → (length l ≤ length a)%nat →
  (∀ i x, l !! i = Some x → ∃ p, a !! i = Some p ∧ io_of s (pf_fd p) x) →
  io_inv Poll inh (s <| ndL_pollfds := a |> <| ndL_pollfds_count := Z.of_nat (length l) |>) l.
Proof.
  intros [I1 I2 I3 I4 I5 I6 I7] Ha Hp. split; [done..| |].
  - cbn. lia.
  - split; [apply I7|]. intros _. split; [done|]. exact Hp.
Qed.

(** [revents] and [ndL_dirty] do not matter to the list. *)
Lemma inv_dirty s l : io_inv Poll inh s l → pollfds_ok s l → io_inv Poll inh (s <| ndL_dirty := false |>) l.
Proof. intros [I1 I2 I3 I4 I5 I6 I7] Hp. split; [done..|]. split; [apply I7|]. by intros _. Qed.

(** ** The poll back end *)

Section poll.
Context {T : Type} (handler : io_handler → loc → Z → io_state * T → res (io_state * T)).

(** What the poll back end asks of a handler: it may close and open objects (the
    one it is called for too), and it keeps the invariant. *)
Definition handler_ok (be : backend) : Prop :=
  ∀ hd x ev s l t, io_inv be inh s l → x ∈ l →
    ∃ s' l' t', handler hd x ev (s, t) = Done (s', t') ∧ io_inv be inh s' l' ∧
      ndL_pollfds s' = ndL_pollfds s ∧ ndL_pollfds_count s' = ndL_pollfds_count s.

Lemma call_handler_ok be s l x ev t :
  handler_ok be → io_inv be inh s l → x ∈ l →
  ∃ s' l' t', call_handler handler x ev (s, t) = Done (s', t') ∧ io_inv be inh s' l' ∧
    ndL_pollfds s' = ndL_pollfds s ∧ ndL_pollfds_count s' = ndL_pollfds_count s.
Proof.
  intros Hok Hinv Hx. destruct (vals_get _ _ _ _ _ Hinv Hx) as [n Hn].
  unfold call_handler, get. cbn [fst]. rewrite Hn. cbn [mbind res_bind].
  destruct (io_run (n_val n)) as [hd|]; [by eapply Hok|]. by exists s, l, t.
Qed.

Lemma find_val_in h (f : nd_io → bool) l x : find_val h f l = Some x → x ∈ l.
Proof.
  induction l as [|y l IH]; cbn; [done|]. destruct (h !! y) as [n|]; [|set_solver].
  destruct (f (n_val n)); [|set_solver]. intros [= ->]. set_solver.
Qed.

Lemma poll_dispatch_ok fuel i s l t :
  handler_ok Poll → io_inv Poll inh s l → 0 ≤ i →
  (Z.to_nat (ndL_pollfds_count s - i) < fuel)%nat →
  ∃ s' l' t', poll_dispatch handler fuel i (s, t) = Done (s', t') ∧ io_inv Poll inh s' l'.
Proof.
  intros Hok. revert i s l t. induction fuel as [|fuel IH]; intros i s l t Hinv Hi Hf; [lia|].
  cbn [poll_dispatch fst snd]. destruct (Z.ltb_spec i (ndL_pollfds_count s)) as [Hlt|]; [|by exists s, l, t].
  pose proof (oi_count _ _ _ _ Hinv) as Hc.
  destruct (lookup_lt_is_Some_2 (ndL_pollfds s) (Z.to_nat i)) as [p Hp]; [lia|]. rewrite Hp.
  destruct (pf_revents p =? 0); [eapply IH; [done|lia|lia]|].
  rewrite (search_spec _ _ _ l) by (apply Hinv || eapply io_fuel_enough, Hinv). cbn [mbind res_bind].
  destruct (find_val _ _ l) as [x|] eqn:Ex.
  - destruct (call_handler_ok Poll s l x (pf_revents p) t Hok Hinv) as (s' & l' & t' & -> & Hinv' & Ep & Ec);
      [by eapply find_val_in|].
    cbn [mbind res_bind]. eapply IH; [done|lia|lia].
  - cbn [mbind res_bind mret res_ret]. eapply IH; [done|lia|lia].
Qed.

(** The state in which [poll] is called, and after it has filled in [revents]. *)
Lemma inv_polled s l ready :
  io_inv Poll inh s l → let n := Z.to_nat (ndL_pollfds_count s) in
  io_inv Poll inh (s <| ndL_pollfds := (set_revents ready <$> take n (ndL_pollfds s)) ++ drop n (ndL_pollfds s) |>) l.
Proof.
  intros [I1 I2 I3 I4 I5 I6 I7] n. split; [done..| |].
  - cbn. rewrite length_app, length_fmap, <- length_app, take_drop. exact I6.
  - split; [apply I7|]. intros Hd. destruct (proj2 I7 Hd) as [Hc Hp]. split; [done|].
    intros i x Hx. destruct (Hp i x Hx) as (p & Hi & Ho). exists (set_revents ready p). split; [|done]. cbn.
    pose proof (lookup_lt_Some _ _ _ Hx) as Hlt.
    rewrite lookup_app_l by (rewrite length_fmap, length_take; lia).
    rewrite list_lookup_fmap, lookup_take_lt by lia. by rewrite Hi.
Qed.

Lemma poll_ready s l :
  io_inv Poll inh s l →
  ∃ s', (if ndL_dirty s then s ← ndL_refresh_pollfds s; mret (s <| ndL_dirty := false |>) else mret s) = Done s' ∧
    io_inv Poll inh s' l ∧ ndL_dirty s' = false ∧ io_heap s' = io_heap s ∧ ndL_first_io s' = ndL_first_io s.
Proof.
  intros Hinv. destruct (ndL_dirty s) eqn:Hd; [|by exists s].
  destruct (refresh_spec _ _ _ Hinv) as (a & -> & Ha & Hp). cbn [mbind res_bind].
  eexists. split; [done|]. split_and!; [|done..]. apply inv_dirty; [by apply inv_refreshed|].
  by split.
Qed.

(** The poll back end never touches an object that is closed, whatever the
    handlers open and close. *)
Lemma poll_ok s l t a :
  handler_ok Poll → io_inv Poll inh s l →
  ∃ b s' l' t', nd_io_poll Poll handler a (s, t) = Done (b, (s', t')) ∧ io_inv Poll inh s' l' ∧
    (b = false ↔ retry a = None).
Proof.
  intros Hok Hinv. unfold nd_io_poll. cbn [fst snd].
  destruct (poll_ready s l Hinv) as (s1 & E & Hinv1 & _). rewrite E. cbn [mbind res_bind]. clear E.
  destruct (retry a) as [ready|]; [|by eexists false, s1, l, t].
  pose proof (inv_polled _ _ ready Hinv1) as Hinv2. cbn zeta in *.
  set (polled := _ <$> _) in *. set (s2 := s1 <| ndL_pollfds := _ |>) in *.
  destruct (poll_len polled =? 0); [by eexists true, s2, l, t|].
  destruct (poll_dispatch_ok (S (Z.to_nat (ndL_pollfds_count s1))) 0 s2 l t Hok Hinv2)
    as (s' & l' & t' & -> & Hinv'); [lia|change (ndL_pollfds_count s2) with (ndL_pollfds_count s1); lia|].
  by eexists true, s', l', t'.
Qed.

(** ** The epoll back end *)

(** Its events hold pointers, which a handler must therefore keep alive. *)
Definition handler_keeps : Prop :=
  ∀ hd x ev s l t, io_inv Epoll inh s l → x ∈ l →
    ∃ s' l' t', handler hd x ev (s, t) = Done (s', t') ∧ io_inv Epoll inh s' l' ∧ l ⊆ l'.

Lemma epoll_dispatch_ok events s l t :
  handler_keeps → io_inv Epoll inh s l → Forall (λ e, e.1 ∈ l) events →
  ∃ s' l' t', epoll_dispatch handler events (s, t) = Done (s', t') ∧ io_inv Epoll inh s' l' ∧ l ⊆ l'.
Proof.
  intros Hok. revert s l t. induction events as [|[x ev] events IH]; intros s l t Hinv Hev; [by exists s, l, t|].
  apply List.Forall_cons_iff in Hev as [Hx Hev]. cbn in Hx. cbn [epoll_dispatch].
  assert (∃ s' l' t', call_handler handler x ev (s, t) = Done (s', t') ∧ io_inv Epoll inh s' l' ∧ l ⊆ l')
    as (s1 & l1 & t1 & -> & Hinv1 & Hl1).
  { destruct (vals_get _ _ _ _ _ Hinv Hx) as [n Hn]. unfold call_handler, get. cbn [fst]. rewrite Hn. cbn [mbind res_bind].
    destruct (io_run (n_val n)) as [hd|]; [by eapply Hok|]. by exists s, l, t. }
  cbn [mbind res_bind]. destruct (IH s1 l1 t1 Hinv1) as (s' & l' & t' & E & Hinv' & Hl').
  { eapply list.Forall_impl; [done|]. cbn. set_solver. }
  exists s', l', t'. split_and!; [done|done|set_solver].
Qed.

Lemma epoll_events_live s l ready :
  io_inv Epoll inh s l → Forall (λ e, e.1 ∈ l) (epoll_events ready s).
Proof.
  intros Hinv. unfold epoll_events. apply Forall_take. apply list.Forall_forall. intros [x ev].
  rewrite list_elem_of_omap. intros ([fd ev'] & _ & Hx). cbn in *.
  destruct (k_epoll s !! fd) as [y|] eqn:Ey; [|done]. cbn in Hx. injection Hx as -> ->.
  pose proof (oi_backend _ _ _ _ Hinv) as Hb. unfold epoll_ok in Hb. case_decide.
  - destruct Hb as (_ & _ & Hb). apply Hb in Ey as (io & Hio & _). apply (oi_dom _ _ _ _ Hinv). eauto.
  - destruct Hb as [_ Hb]. by rewrite Hb, lookup_empty in Ey.
Qed.

Lemma epoll_safe s l t a :
  handler_keeps → io_inv Epoll inh s l →
  ∃ b s' l' t', nd_io_poll Epoll handler a (s, t) = Done (b, (s', t')) ∧ io_inv Epoll inh s' l' ∧ l ⊆ l' ∧
    (b = false ↔ retry a = None).
Proof.
  intros Hok Hinv. unfold nd_io_poll. cbn [fst snd].
  destruct (retry a) as [ready|]; [|by exists false, s, l, t].
  destruct (epoll_dispatch_ok _ s l t Hok Hinv (epoll_events_live s l ready Hinv)) as (s' & l' & t' & -> & ? & ?).
  by exists true, s', l', t'.
Qed.

(** ** Both back ends make the same calls *)

(** The handlers of the daemon do not open or close descriptors (Linux). *)
Definition handler_quiet : Prop :=
  ∀ hd x ev s t s' t', handler hd x ev (s, t) = Done (s', t') → s' = s.

(** The calls that the descriptors [ready] lead to, in the order of the list. *)
Definition poll_calls (ready : list (Z * Z)) s l : list (loc * Z) :=
  omap (λ x, io ← io_vals s !! x;
             let p := set_revents ready (mk_pollfd (io_fd io) 0) in
             if pf_revents p =? 0 then None else Some (x, pf_revents p)) l.

Lemma call_handler_quiet x ev s t s' t' :
  handler_quiet → call_handler handler x ev (s, t) = Done (s', t') → s' = s.
Proof.
  intros Hq. unfold call_handler, get. cbn [fst]. destruct (io_heap s !! x) as [n|]; [|done].
  cbn [mbind res_bind]. destruct (io_run (n_val n)); [by apply Hq|]. by intros [= ->].
Qed.

Lemma find_val_unique be s l fd x :
  io_inv be inh s l → io_of s fd x → find_val (io_heap s) (λ io, io_fd io =? fd) l = Some x.
Proof.
  intros Hinv Hx. assert (x ∈ l) as Hin by (apply (oi_dom _ _ _ _ Hinv); destruct Hx as (io & ? & _); eauto).
  assert (∀ y, y ∈ l → ∃ n, io_heap s !! y = Some n ∧ ((io_fd (n_val n) =? fd) = true → y = x)) as Hy.
  { intros y Hy. destruct (vals_get _ _ _ _ _ Hinv Hy) as [n Hn]. exists n. split; [done|].
    intros E%Z.eqb_eq. eapply (oi_inj _ _ _ _ Hinv); [|done]. exists (n_val n). split; [|done].
    unfold io_vals. by rewrite lookup_fmap, Hn. }
  clear Hinv. induction l as [|y l IH]; [set_solver|]. cbn.
  destruct (Hy y) as (n & Hn & Ey); [set_solver|]. rewrite Hn. destruct (io_fd (n_val n) =? fd) eqn:E.
  - by rewrite Ey.
  - apply IH; [|set_solver]. apply elem_of_cons in Hin as [-> |]; [|done].
    destruct Hx as (io & Hio & Efd). unfold io_vals in Hio. rewrite lookup_fmap, Hn in Hio. cbn in Hio.
    injection Hio as <-. lia.
Qed.

Lemma poll_dispatch_calls fuel ready s l l1 l2 t :
  handler_quiet → io_inv Poll inh s l → ndL_pollfds_count s = Z.of_nat (length l) → l = l1 ++ l2 →
  (∀ i x, l !! i = Some x → ∃ p, ndL_pollfds s !! i = Some (set_revents ready p) ∧ io_of s (pf_fd p) x) →
  (length l2 < fuel)%nat →
  poll_dispatch handler fuel (Z.of_nat (length l1)) (s, t) =
  epoll_dispatch handler (poll_calls ready s l2) (s, t).
Proof.
  intros Hq Hinv Hc. revert l1 l2 t. induction fuel as [|fuel IH]; intros l1 l2 t -> Hp Hf; [lia|].
  cbn [poll_dispatch fst snd]. rewrite Hc, length_app. destruct l2 as [|x l2].
  { rewrite (proj2 (Z.ltb_ge _ _)) by (cbn; lia). done. }
  rewrite (proj2 (Z.ltb_lt _ _)) by (cbn; lia). rewrite Nat2Z.id.
  assert ((l1 ++ x :: l2) !! length l1 = Some x) as Hx by (by rewrite list_lookup_middle).
  destruct (Hp _ _ Hx) as (p & -> & Hof). destruct Hof as (io & Hio & Efd) eqn:Eq. clear Eq.
  cbn [poll_calls omap list_omap]. rewrite Hio. cbn [mbind option_bind].
  replace (set_revents ready (mk_pollfd (io_fd io) 0)) with (set_revents ready p)
    by (unfold set_revents; cbn; by rewrite Efd).
  replace (Z.of_nat (length l1) + 1) with (Z.of_nat (length (l1 ++ [x]))) by (rewrite length_app; cbn; lia).
  assert (∀ t, poll_dispatch handler fuel (Z.of_nat (length (l1 ++ [x]))) (s, t) =
    epoll_dispatch handler (poll_calls ready s l2) (s, t)) as IH'.
  { intros t'. apply IH; [by rewrite <- app_assoc|done|cbn in Hf; lia]. }
  destruct (pf_revents _ =? 0); [by rewrite IH'|].
  rewrite (search_spec _ _ _ (l1 ++ x :: l2)) by (apply Hinv || eapply io_fuel_enough, Hinv).
  cbn [mbind res_bind pf_fd set_revents].
  rewrite (find_val_unique Poll s (l1 ++ x :: l2) (pf_fd p) x) by (done || by exists io).
  cbn [epoll_dispatch]. change (default 0 (snd <$> find (λ r, fst r =? pf_fd p) ready))
    with (pf_revents (set_revents ready p)).
  destruct (call_handler handler x _ (s, t)) as [[s' t']| |] eqn:Ecall; [|done..]. cbn [mbind res_bind].
  apply call_handler_quiet in Ecall as ->; [|done]. apply IH'.
Qed.

Lemma poll_calls_nil ready s l a :
  poll_len a = 0 →
  (∀ i x, l !! i = Some x → ∃ p, a !! i = Some (set_revents ready p) ∧ io_of s (pf_fd p) x) →
  poll_calls ready s l = [].
Proof.
  intros Hlen Hp. unfold poll_len in Hlen.
  assert (∀ x, x ∈ l → (io ← io_vals s !! x;
    let p := set_revents ready (mk_pollfd (io_fd io) 0) in
    if pf_revents p =? 0 then None else Some (x, pf_revents p)) = None) as Hnone.
  { intros x [i Hi]%list_elem_of_lookup. destruct (Hp i x Hi) as (p & Hpi & io & Hio & Efd). rewrite Hio. cbn [mbind option_bind].
    rewrite (proj2 (Z.eqb_eq _ _)); [done|]. unfold set_revents. cbn. rewrite Efd.
    destruct (decide (pf_revents (set_revents ready p) = 0)) as [E|Hne]; [exact E|]. exfalso.
    assert (set_revents ready p ∈ filter (λ p, pf_revents p ≠ 0) a) as Hin.
    { apply list_elem_of_filter. split; [done|]. by eapply list_elem_of_lookup_2. }
    destruct (filter _ a); [by apply not_elem_of_nil in Hin|cbn in Hlen; lia]. }
  unfold poll_calls. clear Hp. induction l as [|x l IH]; [done|]. cbn [omap list_omap].
  rewrite Hnone by set_solver. apply IH. intros y Hy. apply Hnone. set_solver.
Qed.

(** The whole of [nd_io_poll] with the poll back end. *)
Lemma poll_exact s l a ready :
  handler_quiet → io_inv Poll inh s l → retry a = Some ready →
  ∃ s', io_inv Poll inh s' l ∧ io_heap s' = io_heap s ∧
    ∀ t, nd_io_poll Poll handler a (s, t) =
    (st ← epoll_dispatch handler (poll_calls ready s l) (s', t); mret (true, st)).
Proof.
  intros Hq Hinv Ea. destruct (poll_ready s l Hinv) as (s1 & E & Hinv1 & Hd & Eh & Ef). pose proof (inv_polled _ _ ready Hinv1) as Hinv2. cbn zeta in *.
  destruct (proj2 (oi_backend _ _ _ _ Hinv1) Hd) as [Hc Hp].
  set (n := Z.to_nat (ndL_pollfds_count s1)) in *. set (polled := _ <$> _) in *.
  set (s2 := s1 <| ndL_pollfds := _ |>) in *. exists s2. split_and!; [done|done|]. intros t.
  unfold nd_io_poll. cbn [fst snd]. rewrite E. cbn [mbind res_bind]. rewrite Ea. fold n polled s2.
  replace (poll_calls ready s l) with (poll_calls ready s2 l)
    by (unfold poll_calls, io_vals; cbn; by rewrite Eh).
  assert (∀ i x, l !! i = Some x → ∃ p, polled !! i = Some (set_revents ready p) ∧ io_of s2 (pf_fd p) x) as Hpolled.
  { intros i x Hx. destruct (Hp i x Hx) as (p & Hi & Ho). exists p. split; [|done].
    pose proof (lookup_lt_Some _ _ _ Hx). unfold polled.
    rewrite list_lookup_fmap, lookup_take_lt by lia. by rewrite Hi. }
  destruct (Z.eqb_spec (poll_len polled) 0) as [Hlen|].
  { by rewrite (poll_calls_nil ready s2 l polled Hlen Hpolled). }
  rewrite <- (poll_dispatch_calls (S n) ready s2 l [] l t); [done|done|done|done|done| |lia].
  intros i x Hx. destruct (Hpolled i x Hx) as (p & Hi & Ho). exists p. split; [|done]. cbn.
  rewrite lookup_app_l; [done|]. by eapply lookup_lt_Some.
Qed.

(** ** The same calls *)

Lemma epoll_calls_in s l ready x ev :
  io_inv Epoll inh s l → (length ready ≤ 8)%nat →
  (x, ev) ∈ epoll_events ready s ↔ ∃ fd, (fd, ev) ∈ ready ∧ io_of s fd x.
Proof.
  intros Hinv Hlen. unfold epoll_events. rewrite take_ge.
  2:{ etrans; [apply omap_length_le|done]. }
  rewrite list_elem_of_omap. split.
  - intros ([fd ev'] & Hin & E). destruct (k_epoll s !! fd) as [y|] eqn:Ey; [|done]. cbn in E. injection E as -> ->.
    exists fd. split; [done|]. pose proof (oi_backend _ _ _ _ Hinv) as Hb. unfold epoll_ok in Hb. case_decide.
    + by apply Hb.
    + by rewrite (proj2 Hb), lookup_empty in Ey.
  - intros (fd & Hin & Ho). exists (fd, ev). split; [done|].
    pose proof (oi_backend _ _ _ _ Hinv) as Hb. unfold epoll_ok in Hb. case_decide.
    + destruct Hb as (_ & _ & Hb). apply Hb in Ho. by rewrite Ho.
    + destruct Ho as (io & Hio & _). by rewrite (proj1 Hb) in Hio.
Qed.

Lemma poll_calls_in be s l ready x ev :
  io_inv be inh s l → NoDup ready.*1 → Forall (λ r, r.2 ≠ 0) ready →
  (x, ev) ∈ poll_calls ready s l ↔ ∃ fd, (fd, ev) ∈ ready ∧ io_of s fd x.
Proof.
  intros Hinv Hnd Hnz. unfold poll_calls. rewrite list_elem_of_omap. unfold set_revents. cbn [pf_fd pf_revents].
  split.
  - intros (y & Hy & E). destruct (io_vals s !! y) as [io|] eqn:Hio; [|done]. cbn [mbind option_bind] in E.
    destruct (snd <$> find _ ready) as [v|] eqn:Ev; cbn in E; [|done].
    apply find_assoc in Ev; [|done]. exists (io_fd io).
    destruct (v =? 0); [done|]. injection E as -> ->. split; [done|]. by exists io.
  - intros (fd & Hin & io & Hio & Efd). exists x. split; [apply (oi_dom _ _ _ _ Hinv); eauto|].
    rewrite Hio. cbn [mbind option_bind]. apply (find_assoc ready fd ev Hnd) in Hin as Hf. rewrite Efd, Hf. cbn.
    rewrite list.Forall_forall in Hnz. specialize (Hnz _ Hin). cbn in Hnz.
    by rewrite (proj2 (Z.eqb_neq _ _)).
Qed.

Lemma io_of_fun s fd fd' x : io_of s fd x → io_of s fd' x → fd = fd'.
Proof. intros (a & Ha & <-) (b & Hb & <-). congruence. Qed.

Lemma epoll_calls_NoDup s l ready :
  io_inv Epoll inh s l → NoDup ready.*1 → (length ready ≤ 8)%nat → NoDup (epoll_events ready s).
Proof.
  intros Hinv Hnd Hlen. unfold epoll_events. rewrite take_ge by (etrans; [apply omap_length_le|done]).
  apply omap_NoDup; [by eapply NoDup_fmap_1|]. intros [fd ev] [fd' ev'] [x e] _ _ E E'.
  pose proof (oi_backend _ _ _ _ Hinv) as Hb. unfold epoll_ok in Hb.
  destruct (k_epoll s !! fd) as [y|] eqn:Ey; [|done]. destruct (k_epoll s !! fd') as [y'|] eqn:Ey'; [|done].
  cbn in E, E'. simplify_eq. case_decide; [|by rewrite (proj2 Hb), lookup_empty in Ey].
  destruct Hb as (_ & _ & Hb). apply Hb in Ey, Ey'. by rewrite (io_of_fun _ _ _ _ Ey Ey').
Qed.

Lemma poll_calls_NoDup be s l ready : io_inv be inh s l → NoDup (poll_calls ready s l).
Proof.
  intros Hinv. unfold poll_calls. apply omap_NoDup; [eapply ll_list_NoDup, Hinv|].
  intros x y [z e] _ _ E E'. destruct (io_vals s !! x); [|done]. destruct (io_vals s !! y); [|done].
  cbn [mbind option_bind] in *. destruct (_ =? 0), (_ =? 0); try done. congruence.
Qed.

End poll.
End dispatch.

(** The two back ends make the same calls, in some order. *)
Lemma same_calls inh inh' s s' l l' ready :
  io_inv Epoll inh s l → io_inv Poll inh' s' l' → io_vals s' = io_vals s →
  NoDup ready.*1 → Forall (λ r, r.2 ≠ 0) ready → (length ready ≤ 8)%nat →
  epoll_events ready s ≡ₚ poll_calls ready s' l'.
Proof.
  intros Hinv Hinv' Ev Hnd Hnz Hlen.
  apply NoDup_Permutation; [by eapply epoll_calls_NoDup|by eapply poll_calls_NoDup|].
  intros [x ev]. rewrite (epoll_calls_in inh s l), (poll_calls_in inh' Poll s' l') by done.
  unfold io_of. by rewrite Ev.
Qed.
