(* ===== verification/MainSafe.v ===== *)
(** * The program runs the daemon

    [main_turn] is one [loop_iteration] whose inputs are what the two sockets
    delivered; [main_start] establishes the invariants of the daemon and of the
    event loop; and [main_exit] releases what was taken. *)
From S2P Require Import Prelude Addr World Monad Packet Route Netlink NetlinkSpec Iface Session Proxy Receive.
From S2P Require Import Daemon Text Conf LinkedList Io User Privilege Main.
From S2P Require Import Counting Invariant IfaceSafe SessionSafe DaemonSafe StartSafe ConfSafe ExitSafe IoSafe IoDispatch.

(** ** Computations in a process *)

Section lift.
Context {A B : Type}.

Lemma lift_bind (m : M A) (k : A → M B) w :
  lift (m ≫= k) w = ('(a, w) ← lift m w; lift (k a) w).
Proof. unfold lift, mbind, M_bind, res_bind. by destruct (m w). Qed.

Lemma lift_ret (m : M A) w a w' : m w = Ret a w' → lift m w = Done (a, w').
Proof. unfold lift. by intros ->. Qed.

Lemma lift_done (m : M A) w a w' : lift m w = Done (a, w') → m w = Ret a w'.
Proof. unfold lift. destruct (m w); naive_solver. Qed.

Lemma lift_wp (m : M A) (Q : A → world → Prop) w :
  wp m Q w → ∃ a w', lift m w = Done (a, w') ∧ Q a w'.
Proof. intros (a & w' & E & HQ)%wp_returns. exists a, w'. split; [by apply lift_ret|done]. Qed.

Lemma on_world_wp (m : M A) (Q : A → world → Prop) p :
  wp m Q (pr_world p) → ∃ a w', on_world m p = Done (a, p <| pr_world := w' |>) ∧ Q a w' ∧ m (pr_world p) = Ret a w'.
Proof.
  intros (a & w' & E & HQ)%wp_returns. exists a, w'. unfold on_world. by rewrite (lift_ret _ _ _ _ E).
Qed.
End lift.

Lemma for_each_app {A} (l1 l2 : list A) (body : A → M unit) w :
  for_each (l1 ++ l2) body w = (for_each l1 body;; for_each l2 body) w.
Proof.
  revert w. induction l1 as [|x l1 IH]; intros w; [done|]. cbn. unfold mbind, M_bind.
  destruct (body x w); [|done]. rewrite IH. done.
Qed.

Section main.
Context {BO : ByteOrder} `{CK : CredKernel}.
Implicit Types (w : world) (s : io_state) (l : list loc) (t : turn).

(** ** What a socket delivers *)

Abbreviation handle_all := (λ inputs, for_each inputs (λ ki, handle_input (fst ki) (snd ki))).

(** The frames up to an error, an empty frame or the end of the queue. *)
Fixpoint pkt_inputs (script : list (received (kernel * Z))) : list (kernel * input) :=
  match script with
  | [] => []
  | RIntr :: script => pkt_inputs script
  | RErr :: _ => []
  | RData (K, ifindex) bytes :: script =>
      if Z.of_nat (length (take PKT_BUF bytes)) =? 0 then []
      else (K, InFrame ifindex (take PKT_BUF bytes)) :: pkt_inputs script
  end.

Fixpoint rt_inputs (script : list (received kernel)) : list (kernel * input) :=
  match script with
  | [] => []
  | RIntr :: script => rt_inputs script
  | RErr :: _ => []
  | RData K bytes :: script => (K, InDatagram (take RT_BUF bytes)) :: rt_inputs script
  end.

(** The handlers drain their socket: they end, and every message is handled in
    order. *)
Lemma pkt_handler_inputs fuel script w :
  (length script < fuel)%nat →
  pkt_io_handler fuel script w = ('(_, w) ← lift (handle_all (pkt_inputs script)) w; mret w).
Proof.
  revert fuel w. induction script as [|[| |[K ifindex] bytes] script IH]; intros [|fuel] w Hf; try (cbn in Hf; lia).
  - done.
  - cbn in Hf. exact (IH (S fuel) w ltac:(lia)).
  - done.
  - cbn [pkt_io_handler nd_io_recv pkt_inputs]. destruct (_ =? 0); [done|].
    cbn [for_each fst snd handle_input]. rewrite lift_bind.
    destruct (lift (ndL_handle_frame K ifindex _) w) as [[[] w']| |]; [|done..]. cbn [mbind res_bind].
    apply IH. cbn in Hf. lia.
Qed.

Lemma rt_handler_inputs fuel script w :
  (length script < fuel)%nat →
  rt_io_handler fuel script w = ('(_, w) ← lift (handle_all (rt_inputs script)) w; mret w).
Proof.
  revert fuel w. induction script as [|[| |K bytes] script IH]; intros [|fuel] w Hf; try (cbn in Hf; lia).
  - done.
  - cbn in Hf. exact (IH (S fuel) w ltac:(lia)).
  - done.
  - cbn [rt_io_handler nd_io_recv rt_inputs for_each fst snd handle_input]. rewrite lift_bind.
    destruct (lift (ndL_handle_datagram K _) w) as [[[] w']| |]; [|done..]. cbn [mbind res_bind].
    apply IH. cbn in Hf. lia.
Qed.

(** The inputs that a handler call leads to. *)
Definition call_inputs t s (call : loc * Z) : list (kernel * input) :=
  match io_vals s !! fst call with
  | Some io =>
      match io_run io with
      | Some PktHandler => pkt_inputs (t_pkt t)
      | Some RtHandler => rt_inputs (t_rt t)
      | None => []
      end
  | None => []
  end.

Definition turn_inputs t s (calls : list (loc * Z)) : list (kernel * input) := calls ≫= call_inputs t s.

Lemma daemon_handler_inputs t h x ev s w :
  daemon_handler t h x ev (s, w) =
  ('(_, w) ← lift (handle_all (match h with PktHandler => pkt_inputs (t_pkt t) | RtHandler => rt_inputs (t_rt t) end)) w;
   mret (s, w)).
Proof.
  unfold daemon_handler. cbn [fst snd]. destruct h.
  - rewrite pkt_handler_inputs by lia. by destruct (lift _ w) as [[[] w']| |].
  - rewrite rt_handler_inputs by lia. by destruct (lift _ w) as [[[] w']| |].
Qed.

Lemma call_handler_inputs be inh t x ev s l w :
  io_inv be inh s l → x ∈ l →
  call_handler (daemon_handler t) x ev (s, w) =
  ('(_, w) ← lift (handle_all (call_inputs t s (x, ev))) w; mret (s, w)).
Proof.
  intros Hinv Hx. destruct (vals_get _ _ _ _ _ Hinv Hx) as [n Hn]. unfold call_handler, get, call_inputs. cbn [fst].
  unfold io_vals. rewrite lookup_fmap, Hn. cbn [fmap option_fmap option_map mbind res_bind].
  destruct (io_run (n_val n)) as [[]|]; [by rewrite daemon_handler_inputs..|done].
Qed.

Lemma daemon_quiet t : handler_quiet (daemon_handler t).
Proof.
  intros h x ev s w s' w'. rewrite daemon_handler_inputs. destruct (lift _ w) as [[[] w2]| |]; [|done..].
  by intros [= -> ->].
Qed.

Lemma dispatch_inputs be inh t calls s l w :
  io_inv be inh s l → Forall (λ c, c.1 ∈ l) calls →
  epoll_dispatch (daemon_handler t) calls (s, w) =
  ('(_, w) ← lift (handle_all (turn_inputs t s calls)) w; mret (s, w)).
Proof.
  intros Hinv. revert w. induction calls as [|[x ev] calls IH]; intros w Hc; [done|].
  apply List.Forall_cons_iff in Hc as [Hx Hc]. cbn in Hx. cbn [epoll_dispatch].
  rewrite (call_handler_inputs be inh t x ev s l w Hinv Hx).
  unfold turn_inputs. cbn [mbind list_bind]. fold (turn_inputs t s calls).
  unfold lift at 2. rewrite for_each_app. fold (lift (for_each (call_inputs t s (x, ev)) (λ ki, handle_input (fst ki) (snd ki));;
    handle_all (turn_inputs t s calls)) w).
  rewrite lift_bind. destruct (lift _ w) as [[[] w']| |]; [|done..]. cbn [mbind res_bind mret res_ret].
  by apply IH.
Qed.

(** ** A turn of the loop *)

(** The calls of one [nd_io_poll]: each is for a descriptor that was ready. *)
Definition calls_for (ready : list (Z * Z)) s (calls : list (loc * Z)) : Prop :=
  ∀ x ev, (x, ev) ∈ calls → ∃ fd, io_of s fd x ∧ fd ∈ ready.*1.

Lemma calls_live be inh ready s l calls :
  io_inv be inh s l → calls_for ready s calls → Forall (λ c, c.1 ∈ l) calls.
Proof.
  intros Hinv Hc. apply list.Forall_forall. intros [x ev] Hin. destruct (Hc _ _ Hin) as (fd & (io & Hio & _) & _).
  apply (oi_dom _ _ _ _ Hinv). eauto.
Qed.

Lemma epoll_calls_for inh s l ready : io_inv Epoll inh s l → calls_for ready s (epoll_events ready s).
Proof.
  intros Hinv x ev Hin. unfold epoll_events in Hin. apply elem_of_take in Hin as (i & Hin & _).
  apply list_elem_of_lookup_2 in Hin. apply list_elem_of_omap in Hin as ([fd ev'] & Hr & E).
  destruct (k_epoll s !! fd) as [y|] eqn:Ey; [|done]. cbn in E. injection E as -> ->. exists fd. split.
  - pose proof (oi_backend _ _ _ _ Hinv) as Hb. unfold epoll_ok in Hb. case_decide; [by apply Hb|].
    by rewrite (proj2 Hb), lookup_empty in Ey.
  - apply list_elem_of_fmap. by exists (fd, ev).
Qed.

Lemma poll_calls_for s ready l : calls_for ready s (poll_calls ready s l).
Proof.
  intros x ev Hin. unfold poll_calls in Hin. apply list_elem_of_omap in Hin as (y & _ & E).
  destruct (io_vals s !! y) as [io|] eqn:Hio; [|done]. cbn [mbind option_bind] in E.
  destruct (_ =? 0) eqn:Ez; [done|]. injection E as -> _. exists (io_fd io). split; [by exists io|].
  unfold set_revents in Ez. cbn in Ez. destruct (find _ ready) as [[fd e]|] eqn:Ef; [|done].
  apply find_some in Ef as [Hr E%Z.eqb_eq]. apply list_elem_of_fmap. exists (fd, e). split; [done|].
  by apply list_elem_of_In.
Qed.

Lemma poll_daemon be inh t s l ready :
  io_inv be inh s l → retry (t_wait t) = Some ready →
  ∃ s' calls, io_inv be inh s' l ∧ io_heap s' = io_heap s ∧ calls_for ready s calls ∧
    ∀ w, nd_io_poll be (daemon_handler t) (t_wait t) (s, w) =
    ('(_, w) ← lift (handle_all (turn_inputs t s calls)) w; mret (true, (s', w))).
Proof.
  intros Hinv Hr. destruct be.
  - exists s, (epoll_events ready s). pose proof (epoll_calls_for inh s l ready Hinv) as Hc.
    pose proof (calls_live _ _ _ _ _ _ Hinv Hc). split_and!; [done|done|done|]. intros w.
    unfold nd_io_poll. rewrite Hr. cbn [fst]. rewrite (dispatch_inputs Epoll inh t _ s l w Hinv) by done.
    by destruct (lift _ w) as [[[] w']| |].
  - destruct (poll_exact inh (daemon_handler t) s l _ ready (daemon_quiet t) Hinv Hr) as (s' & Hinv' & Eh & E).
    pose proof (poll_calls_for s ready l) as Hc. pose proof (calls_live _ _ _ _ _ _ Hinv Hc).
    exists s', (poll_calls ready s l). split_and!; [done|done|done|]. intros w. rewrite E.
    assert (turn_inputs t s' (poll_calls ready s l) = turn_inputs t s (poll_calls ready s l)) as Et.
    { unfold turn_inputs, call_inputs, io_vals. by rewrite Eh. }
    rewrite (dispatch_inputs Poll inh t _ s' l w Hinv'), Et by done.
    by destruct (lift _ w) as [[[] w']| |].
Qed.

(** A turn is an iteration of the daemon on what the sockets delivered. *)
Lemma main_turn_iteration be inh t v p l ready :
  io_inv be inh (pr_io p) l → t_stop t = false → retry (t_wait t) = Some ready →
  ∃ s' calls, io_inv be inh s' l ∧ io_heap s' = io_heap (pr_io p) ∧ calls_for ready (pr_io p) calls ∧
    main_turn be t v p =
    ('(v, w) ← lift (loop_iteration (t_kernel t) (turn_inputs t (pr_io p) calls) (t_now t) v) (pr_world p);
     mret (TNext v (p <| pr_world := w |> <| pr_io := s' |>))).
Proof.
  intros Hinv Hstop Hr.
  destruct (poll_daemon be inh t (pr_io p) l ready Hinv Hr) as (s' & calls & Hinv' & Eh & Hc & Hpoll).
  exists s', calls. split_and!; [done..|]. unfold main_turn, loop_iteration, on_world. rewrite Hstop, lift_bind.
  destruct (lift (loop_timers _ v) (pr_world p)) as [[v' w1]| |]; [|done..]. cbn [mbind res_bind mret res_ret].
  cbn [pr_io pr_world set_field set_pr_world]. rewrite Hpoll, lift_bind.
  by destruct (lift _ w1) as [[[] w2]| |].
Qed.

(** ** The loop *)

(** What a socket may hold: frames are bytes, and the kernel's datagrams have
    the format of rtnetlink; those larger than the buffer arrive cut. *)
Definition pkt_ok (r : received (kernel * Z)) : Prop :=
  match r with RData _ bytes => Forall is_u8 bytes | _ => True end.
Definition rt_ok (r : received kernel) : Prop :=
  match r with RData _ bytes => datagram_ok bytes | _ => True end.
Definition turn_ok t : Prop := Forall pkt_ok (t_pkt t) ∧ Forall rt_ok (t_rt t).

Lemma pkt_inputs_ok script : Forall pkt_ok script → inputs_ok (pkt_inputs script).
Proof.
  induction 1 as [|[| |[K ifindex] bytes] script Hr _ IH]; cbn [pkt_inputs]; [apply List.Forall_nil|done|apply List.Forall_nil|].
  destruct (_ =? 0); [apply List.Forall_nil|]. apply List.Forall_cons; [|done]. by apply Forall_take.
Qed.

Lemma rt_inputs_ok script : Forall rt_ok script → inputs_ok (rt_inputs script).
Proof.
  induction 1 as [|[| |K bytes] script Hr _ IH]; cbn [rt_inputs]; [apply List.Forall_nil|done|apply List.Forall_nil|].
  apply List.Forall_cons; [|done]. by apply datagram_ok_take.
Qed.

Lemma turn_inputs_ok t s calls : turn_ok t → inputs_ok (turn_inputs t s calls).
Proof.
  intros [Hp Hr]. unfold turn_inputs. induction calls as [|c calls IH]; [apply List.Forall_nil|].
  cbn [mbind list_bind]. apply Forall_app. split; [|done]. unfold call_inputs.
  destruct (io_vals s !! fst c) as [io|]; [|apply List.Forall_nil].
  destruct (io_run io) as [[]|]; [by apply pkt_inputs_ok|by apply rt_inputs_ok|apply List.Forall_nil].
Qed.

(** How the loop ends: a signal is seen at the top of a turn, before the wait
    of that turn; a wait that fails ends it too. *)
Fixpoint verdict (turns : list turn) : option Z :=
  match turns with
  | [] => None
  | t :: turns =>
      if t_stop t then Some EXIT_SUCCESS else
      match retry (t_wait t) with
      | None => Some EXIT_FAILURE
      | Some _ => verdict turns
      end
  end.

(** The turns leave the credentials, the sockets and the list of objects. *)
Definition same_process (p p' : process) : Prop :=
  pr_creds p' = pr_creds p ∧ pr_pkt p' = pr_pkt p ∧ pr_rt p' = pr_rt p ∧ io_heap (pr_io p') = io_heap (pr_io p).

Definition loop_end (w0 : world) (turns : list turn) (p : process) (r : after_turn) : Prop :=
  match r with
  | TNext v p' => verdict turns = None ∧ reachable w0 (pr_world p') v
  | TBreak code p' => verdict turns = Some code ∧ world_inv (pr_world p')
  end.

Definition process_of (r : after_turn) : process :=
  match r with TNext _ p => p | TBreak _ p => p end.

Lemma main_turn_failed be inh t v p l :
  io_inv be inh (pr_io p) l → world_inv (pr_world p) → t_stop t = false → retry (t_wait t) = None →
  ∃ p', main_turn be t v p = Done (TBreak EXIT_FAILURE p') ∧ world_inv (pr_world p') ∧
    io_inv be inh (pr_io p') l ∧ same_process p p'.
Proof.
  intros Hinv Hw Hstop Hr. unfold main_turn. rewrite Hstop.
  destruct (on_world_wp _ _ _ (wp_loop_timers (t_kernel t) v (pr_world p) Hw)) as (v' & w' & -> & [Hw' _] & _).
  cbn [mbind res_bind pr_io pr_world set_field set_pr_world]. unfold nd_io_poll. rewrite Hr. destruct be.
  - eexists. split; [done|]. by split_and!.
  - cbn [fst snd]. destruct (poll_ready inh (pr_io p) l Hinv) as (s1 & -> & Hinv1 & _ & Eh & _).
    eexists. split; [done|]. by split_and!.
Qed.

Lemma main_loop_spec be inh w0 turns v p l :
  world_inv w0 → reachable w0 (pr_world p) v → io_inv be inh (pr_io p) l → Forall turn_ok turns →
  ∃ r, main_loop be turns v p = Done r ∧ loop_end w0 turns p r ∧
    io_inv be inh (pr_io (process_of r)) l ∧ same_process p (process_of r).
Proof.
  intros Hw0. revert v p. induction turns as [|t turns IH]; intros v p Hreach Hinv Hok.
  { eexists. split; [done|]. by split_and!. }
  apply List.Forall_cons_iff in Hok as [Ht Hok]. cbn [main_loop verdict].
  destruct (reachable_inv _ _ _ Hw0 Hreach) as [Hw _].
  destruct (t_stop t) eqn:Hstop.
  { unfold main_turn. rewrite Hstop. eexists. split; [done|]. cbn [loop_end verdict]. rewrite Hstop. by split_and!. }
  destruct (retry (t_wait t)) as [ready|] eqn:Hr.
  - destruct (main_turn_iteration be inh t v p l ready Hinv Hstop Hr) as (s' & calls & Hinv' & Eh & _ & E).
    rewrite E. clear E. set (inputs := turn_inputs t (pr_io p) calls).
    assert (inputs_ok inputs) as Hi by (by apply turn_inputs_ok).
    destruct (wp_returns _ _ _ (wp_loop_iteration (t_kernel t) inputs (t_now t) v (pr_world p) Hw Hi))
      as (v' & w' & E & _ & _).
    rewrite (lift_ret _ _ _ _ E). cbn [mbind res_bind mret res_ret].
    destruct (IH v' (p <| pr_world := w' |> <| pr_io := s' |>)) as (r & Er & He & Hir & Hs); [|done|done|].
    { by eapply reach_step. }
    exists r. split_and!; [done| |done|].
    + destruct r; cbn [loop_end verdict] in *; by rewrite Hstop, Hr.
    + destruct Hs as (? & ? & ? & Ehr). split_and!; [done..|]. rewrite Ehr. exact Eh.
  - destruct (main_turn_failed be inh t v p l Hinv Hw Hstop Hr) as (p' & -> & Hw' & Hinv' & Hs).
    eexists. split; [done|]. cbn [loop_end verdict]. rewrite Hstop, Hr. by split_and!.
Qed.

(** ** Sockets *)

(** The object [x] is open and events on it go to [h]. *)
Definition has_socket s (x : loc) (h : io_handler) : Prop :=
  ∃ io, io_vals s !! x = Some io ∧ io_run io = Some h.

(** A socket is created and then either gets its handler or is closed again. *)
Lemma socket_spec inh s l ok a h :
  io_inv Epoll inh s l →
  ∃ o s1, nd_io_socket Epoll ok a s = Done (o, s1) ∧
    match o with
    | None => io_inv Epoll inh s1 l ∧ io_vals s1 = io_vals s
    | Some x =>
        (x ∉ l) ∧
        (∃ s2, set_handler x h s1 = Done s2 ∧ io_inv Epoll inh s2 (x :: l) ∧ has_socket s2 x h ∧
           ∀ y, y ≠ x → io_vals s2 !! y = io_vals s !! y) ∧
        (∃ s2, nd_io_close Epoll (Some x) s1 = Done s2 ∧ io_inv Epoll inh s2 l ∧ io_vals s2 = io_vals s)
    end.
Proof.
  intros Hinv. unfold nd_io_socket. destruct ok; cbn [negb]; [|by exists None, s]. unfold new_fd.
  destruct (create_inv Epoll inh a s l Hinv) as (o & s1 & -> & Hc & _). exists o, s1. split; [done|].
  destruct o as [x|]; [|done]. destruct Hc as (Hx & Hinv1 & Ev).
  assert (x ∈ x :: l) as Hin by set_solver. split_and!; [done| |].
  - destruct (handler_inv Epoll inh s1 (x :: l) x h Hinv1 Hin) as (s2 & io & E & Hinv2 & Hio & Ev2).
    exists s2. split_and!; [done|done| |].
    + unfold has_socket. rewrite Ev2, lookup_insert_eq. by eexists.
    + intros y Hy. rewrite Ev2, Ev. by rewrite !lookup_insert_ne.
  - destruct (close_inv Epoll inh s1 (x :: l) x (mk_io (lowest_free (k_open s)) 0 None) Hinv1) as (s2 & E & Hinv2 & Ev2 & _).
    { by rewrite Ev, lookup_insert_eq. }
    cbn in Hinv2. rewrite decide_True in Hinv2 by done. exists s2. split_and!; [done|done|].
    rewrite Ev2, Ev, delete_insert_id; [done|]. apply eq_None_not_Some. by rewrite (oi_dom _ _ _ _ Hinv).
Qed.

(** What the start of a socket leaves: [ptr] is [ndL_io]. *)
Definition socket_started (inh : gset Z) l (h : io_handler) (p p' : process) (ok : bool) (ptr : option loc) : Prop :=
  pr_creds p' = pr_creds p ∧
  if ok then ∃ x, ptr = Some x ∧ (x ∉ l) ∧ io_inv Epoll inh (pr_io p') (x :: l) ∧ has_socket (pr_io p') x h ∧
         ∀ y, y ≠ x → io_vals (pr_io p') !! y = io_vals (pr_io p) !! y
  else ptr = None ∧ io_inv Epoll inh (pr_io p') l ∧ io_vals (pr_io p') = io_vals (pr_io p).

Lemma iface_startup_ret b f bd w :
  nd_iface_startup b f bd w = Ret (b && f && bd) (w <| w_pkt_io := b && f && bd |>).
Proof. by destruct b, f, bd, w. Qed.

Lemma rt_open_ret b bd w : w_rt_io w = false → nd_rt_open b bd w = Ret (b && bd) (w <| w_rt_io := b && bd |>).
Proof. intros E. unfold nd_rt_open, gets, mbind, M_bind. rewrite E. by destruct b, bd, w. Qed.

Lemma start_pkt_spec inh a p l :
  io_inv Epoll inh (pr_io p) l →
  ∃ ok p', start_pkt a p = Done (ok, p') ∧ socket_started inh l PktHandler p p' ok (pr_pkt p') ∧
    pr_rt p' = pr_rt p ∧
    ∃ b, nd_iface_startup b (so_filter a) (so_bind a) (pr_world p) = Ret ok (pr_world p').
Proof.
  intros Hinv. unfold start_pkt, on_world, lift.
  destruct (socket_spec inh (pr_io p) l (so_socket a) (so_create a) PktHandler Hinv) as (o & s1 & -> & Ho).
  cbn [mbind res_bind pr_world set_pr_io set_field]. rewrite iface_startup_ret. cbn [mbind res_bind mret res_ret].
  setoid_rewrite iface_startup_ret. destruct o as [x|].
  - destruct Ho as (Hx & (s2 & E2 & Hinv2 & Hs2 & Hv2) & (s3 & E3 & Hinv3 & Hv3)).
    rewrite bool_decide_eq_true_2 by eauto. cbn [andb pr_io set_pr_world set_pr_io set_field].
    destruct (so_filter a && so_bind a) eqn:Eb; rewrite ?E2, ?E3; cbn [mbind res_bind mret res_ret].
    + eexists _, _. split; [done|]. split_and!; [split; [done|by exists x]|done|exists true; cbn [andb]; by rewrite Eb].
    + eexists _, _. split; [done|]. split_and!; [by split|done|exists true; cbn [andb]; by rewrite Eb].
  - destruct Ho as [Hinv1 Hv1]. rewrite bool_decide_eq_false_2 by (by intros [? ?]).
    eexists _, _. split; [done|]. split_and!; [by split|done|by exists false].
Qed.

Lemma start_rt_spec inh a p l :
  io_inv Epoll inh (pr_io p) l → pr_rt p = None → w_rt_io (pr_world p) = false →
  ∃ ok p', start_rt a p = Done (ok, p') ∧ socket_started inh l RtHandler p p' ok (pr_rt p') ∧
    pr_pkt p' = pr_pkt p ∧
    ∃ b, nd_rt_open b (so_bind a) (pr_world p) = Ret ok (pr_world p').
Proof.
  intros Hinv Hnone Hrt. unfold start_rt, on_world, lift. rewrite Hnone, bool_decide_eq_false_2 by (by intros [? ?]).
  destruct (socket_spec inh (pr_io p) l (so_socket a) (so_create a) RtHandler Hinv) as (o & s1 & -> & Ho).
  cbn [mbind res_bind pr_world set_pr_io set_field]. rewrite rt_open_ret by done. cbn [mbind res_bind mret res_ret].
  assert (∀ b bd ok w', b && bd = ok → (pr_world p) <| w_rt_io := ok |> = w' → nd_rt_open b bd (pr_world p) = Ret ok w') as Hr.
  { intros b bd ok w' <- <-. by apply rt_open_ret. }
  destruct o as [x|].
  - destruct Ho as (Hx & (s2 & E2 & Hinv2 & Hs2 & Hv2) & (s3 & E3 & Hinv3 & Hv3)).
    rewrite bool_decide_eq_true_2 by eauto. cbn [andb pr_io set_pr_world set_pr_io set_field].
    destruct (so_bind a) eqn:Eb; rewrite ?E2, ?E3; cbn [mbind res_bind mret res_ret].
    + eexists _, _. split; [done|]. split_and!; [split; [done|by exists x]|done|by exists true; apply Hr].
    + eexists _, _. split; [done|]. split_and!; [by split|done|by exists true; apply Hr].
  - destruct Ho as [Hinv1 Hv1]. rewrite bool_decide_eq_false_2 by (by intros [? ?]).
    eexists _, _. split; [done|]. split_and!; [by split|done|by exists false; apply Hr].
Qed.

(** ** The exit *)

(** What [ndL_exit] needs: it can follow any failure of the startup. *)
Record exit_ready (be : backend) (inh : gset Z) (p : process) l : Prop := {
  er_closable : closable (pr_world p);
  er_io : io_inv be inh (pr_io p) l;
  er_pkt x : pr_pkt p = Some x → x ∈ l;
  er_rt y : pr_rt p = Some y → y ∈ l ∧ pr_pkt p ≠ Some y }.

(** The list without the two sockets. *)
Definition others (p : process) l : list loc :=
  let l := match pr_pkt p with Some x => ll_delete x l | None => l end in
  match pr_rt p with Some y => ll_delete y l | None => l end.

Lemma close_ptr be inh s l (ptr : option loc) :
  io_inv be inh s l → (∀ x, ptr = Some x → x ∈ l) →
  ∃ s', nd_io_close be ptr s = Done s' ∧
    io_inv be inh s' (match ptr with Some x => ll_delete x l | None => l end).
Proof.
  intros Hinv Hin. destruct ptr as [x|]; [|by exists s].
  specialize (Hin x eq_refl). apply (oi_dom _ _ _ _ Hinv) in Hin as [io Hio].
  destruct (close_inv _ _ _ _ _ _ Hinv Hio) as (s' & E & Hinv' & _). eauto.
Qed.

Lemma main_exit_spec be inh p l :
  exit_ready be inh p l →
  ∃ p', main_exit be p = Done p' ∧ io_inv be inh (pr_io p') (others p l) ∧
    w_ifaces (pr_world p') = ∅ ∧ w_first_iface (pr_world p') = [] ∧
    w_out (pr_world p') = rev (releases (pr_world p) (w_first_iface (pr_world p))) ++ w_out (pr_world p).
Proof.
  intros [Hc Hinv Hpkt Hrt]. unfold main_exit.
  destruct (on_world_wp _ _ _ (wp_iface_cleanup _ Hc)) as ([] & w1 & -> & Hw1 & _).
  cbn [mbind res_bind pr_pkt pr_io set_pr_world set_field].
  destruct (close_ptr be inh (pr_io p) l (pr_pkt p) Hinv Hpkt) as (s1 & -> & Hinv1). cbn [mbind res_bind].
  assert (∀ w, ∃ w', lift nd_rt_cleanup w = Done ((), w') ∧ w' = w <| w_rt_io := false |>) as Hclean.
  { intros w. unfold lift, nd_rt_cleanup, gets, mbind, M_bind, when. destruct (w_rt_io w) eqn:E; [by eauto|].
    eexists. split; [done|]. destruct w; cbn in *; by subst. }
  unfold on_world. cbn [pr_world set_pr_io set_pr_world set_field].
  destruct (Hclean w1) as (w2 & -> & Hw2). cbn [mbind res_bind mret res_ret pr_rt pr_io set_pr_io set_pr_world set_field].
  destruct (close_ptr be inh s1 _ (pr_rt p) Hinv1) as (s2 & -> & Hinv2).
  { intros y Hy. destruct (Hrt y Hy) as [Hin Hne]. destruct (pr_pkt p) as [x|]; [|done].
    rewrite elem_of_ll_delete by (eapply ll_list_NoDup, Hinv). naive_solver. }
  eexists. split; [done|]. split; [exact Hinv2|]. cbn [pr_world set_pr_io set_pr_world set_field]. subst w1 w2.
  by split_and!.
Qed.

(** ** Going into the background *)

Definition stdio : gset Z := {[0; 1; 2]}.

Lemma daemonize_spec inh path a p l d p' :
  stdio ⊆ inh → io_inv Epoll inh (pr_io p) l → ndL_daemonize path a p = (d, p') →
  (∃ inh', io_inv Epoll inh' (pr_io p') l) ∧ io_heap (pr_io p') = io_heap (pr_io p) ∧
  pr_creds p' = pr_creds p ∧ pr_pkt p' = pr_pkt p ∧ pr_rt p' = pr_rt p ∧
  pr_world p' = match d with DExit => (pr_world p) <| w_no_restore_flags := true |> | _ => pr_world p end.
Proof.
  intros Hstd Hinv. unfold ndL_daemonize, new_fd.
  destruct (_ || _); [intros [= <- <-]; by eauto 10|].
  set (fd := lowest_free _). pose proof (lowest_free_fresh (k_open (pr_io p)) : fd ∉ _) as Hfd.
  destruct (d_flock a); cbn [negb].
  2:{ intros [= <- <-]. cbn [pr_io pr_world pr_creds pr_pkt pr_rt set_pr_io set_field]. rewrite close_new by done.
      split_and!; [|done..]. exists inh. by apply inv_unregister. }
  pose proof (inv_inherit_open _ _ _ _ _ Hinv Hfd) as Hinv1. set (s1 := (pr_io p) <| k_open := _ |>) in *.
  assert (∃ inh', io_inv Epoll inh' s1 l) as Hs1 by eauto.
  destruct (d_fork a); [intros [= <- <-]; by split_and!..|].
  destruct (d_setsid a); cbn [negb]; [|intros [= <- <-]; by split_and!].
  destruct (d_chdir a); cbn [negb]; [|intros [= <- <-]; by split_and!].
  intros [= <- <-]. split_and!; [|done..]. cbn [pr_io set_pr_io set_field].
  assert (∀ i, i ∈ stdio → i ∈ {[fd]} ∪ inh) as Hin by set_solver. unfold stdio in Hin.
  exists ((({[fd]} ∪ inh) ∖ {[0]}) ∖ {[1]} ∖ {[2]}). do 3 (apply inv_inherit_close; [|set_solver]). exact Hinv1.
Qed.

(** Both sockets are open and registered, and nothing else is. *)
Definition sockets_open (be : backend) (inh : gset Z) (p : process) : Prop :=
  ∃ x y, pr_pkt p = Some x ∧ pr_rt p = Some y ∧ x ≠ y ∧ io_inv be inh (pr_io p) [y; x] ∧
    has_socket (pr_io p) x PktHandler ∧ has_socket (pr_io p) y RtHandler.

Lemma sockets_open_world be inh p w : sockets_open be inh p → sockets_open be inh (p <| pr_world := w |>).
Proof. by destruct p. Qed.

Lemma sockets_exit be inh p : closable (pr_world p) → sockets_open be inh p → ∃ l, exit_ready be inh p l.
Proof.
  intros Hc (x & y & Ex & Ey & Hne & Hinv & _). exists [y; x]. split; [done|done| |].
  - intros z Hz. set_solver.
  - intros z Hz. split; [set_solver|congruence].
Qed.

Lemma sockets_same be inh inh' p p' :
  sockets_open be inh p → io_heap (pr_io p') = io_heap (pr_io p) → pr_pkt p' = pr_pkt p → pr_rt p' = pr_rt p →
  (∀ l, io_inv be inh (pr_io p) l → io_inv be inh' (pr_io p') l) → sockets_open be inh' p'.
Proof.
  intros (x & y & Ex & Ey & Hne & Hinv & Hx & Hy) Eh Ep Er Hi. exists x, y. rewrite Ep, Er.
  unfold has_socket, io_vals in *. rewrite Eh. split_and!; [done|done|done|by apply Hi|done|done].
Qed.

(** ** The startup *)

(** The privileges are those that the options ask for. *)
Definition user_dropped (e : start_env) (o : options) (c c' : creds) : Prop :=
  match nd_opt_user o with
  | None => c' = c
  | Some spec => ndL_drop_privileges (se_passwd e) (se_group e) spec c = (true, c')
  end.

Definition start_outcome (e : start_env) (o : options) (c : creds) (looping : world → Prop) (r : outcome_of_start)
    : Prop :=
  match r with
  | SReturn code p => code = EXIT_FAILURE ∧ ∃ inh l, exit_ready Epoll inh p l
  | SParent p => w_no_restore_flags (pr_world p) = true ∧ ∃ inh l, exit_ready Epoll inh p l
  | SLoop p => looping (pr_world p) ∧ (∃ inh, sockets_open Epoll inh p) ∧ user_dropped e o c (pr_creds p)
  end.

Lemma main_background_spec inh e o p :
  stdio ⊆ inh → world_inv (pr_world p) → sockets_open Epoll inh p →
  ∃ r, main_background e o p = Done r ∧
    start_outcome e o (pr_creds p) (λ w', ∃ b, nd_rt_query_routes (pr_world p) = Ret b w') r.
Proof.
  intros Hstd Hw Hs. pose proof (inv_closable _ _ _ Hw) as Hc. unfold main_background.
  set (pd := match nd_opt_user o with None => _ | Some _ => _ end).
  assert (∃ ok c, pd = (ok, p <| pr_creds := c |>) ∧ (ok = true → user_dropped e o (pr_creds p) c))
    as (ok & c & -> & Hdrop).
  { unfold pd, user_dropped. destruct (nd_opt_user o) as [spec|].
    - destruct (ndL_drop_privileges _ _ spec (pr_creds p)) as [ok c]. exists ok, c. by split; [|intros ->].
    - exists true, (pr_creds p). split; [by destruct p|done]. }
  set (p1 := p <| pr_creds := c |>). assert (sockets_open Epoll inh p1) as Hs1 by done.
  destruct ok; cbn [negb].
  2:{ eexists. split; [done|]. split; [done|]. exists inh. by apply sockets_exit. }
  specialize (Hdrop eq_refl).
  destruct (if nd_opt_daemonize o then _ else _) as [d p2] eqn:Ed.
  assert (∃ inh2, sockets_open Epoll inh2 p2 ∧ pr_creds p2 = c ∧
    pr_world p2 = match d with DExit => (pr_world p) <| w_no_restore_flags := true |> | _ => pr_world p end)
    as (inh2 & Hs2 & Ec2 & Ew2).
  { destruct (nd_opt_daemonize o); [|injection Ed as <- <-; by exists inh].
    pose proof Hs1 as (x & y & ? & ? & ? & Hinv & _).
    destruct (daemonize_spec inh _ _ p1 _ d p2 Hstd Hinv Ed) as ([inh' Hinv'] & Eh & Ec & Ep & Er & Ew).
    exists inh'. split_and!; [|done|done]. destruct Hs1 as (x' & y' & Ex & Ey & Hne & Hinv1 & Hx & Hy).
    exists x', y'. rewrite Ep, Er. unfold has_socket, io_vals in *. rewrite Eh.
    split_and!; try done. by simplify_eq. }
  destruct d.
  - eexists. split; [done|]. split; [done|]. exists inh2. apply sockets_exit; [by rewrite Ew2|done].
  - assert (wp nd_rt_query_routes (λ _ _, True) (pr_world p2)) as Hq.
    { rewrite Ew2. unfold nd_rt_query_routes. wp_step. wp_step. destruct (negb _); [by wp_step|]. do 5 wp_step.
      eapply wp_use_rt_io; [by apply inv_dump_timeout|]. by repeat wp_step. }
    destruct (on_world_wp _ _ _ Hq) as (b & w' & E & _ & Eb). rewrite E. cbn [mbind res_bind].
    eexists. split; [done|]. cbn [start_outcome pr_world pr_creds set_pr_world set_field]. split_and!.
    + exists b. by rewrite <- Ew2.
    + exists inh2. by eapply sockets_same.
    + by rewrite Ec2.
  - eexists. split; [done|]. split; [by rewrite Ew2|]. exists inh2. apply sockets_exit; [|done].
    rewrite Ew2. exact Hc.
Qed.

(** The parts of [main] that make up [daemon_start]. *)
Lemma daemon_start_parts K b1 b2 b3 b4 b5 q w0 wa wb wc w1 :
  nd_iface_startup b1 b2 b3 w0 = Ret true wa → nd_proxy_startup K wa = Ret true wb →
  nd_rt_open b4 b5 wb = Ret true wc → nd_rt_query_routes wc = Ret q w1 →
  daemon_start K b1 b2 b3 b4 b5 w0 = Ret true w1.
Proof.
  intros Ea Eb Ec Eq. unfold daemon_start, mbind, M_bind. rewrite Ea. cbn [negb]. rewrite Eb. cbn [negb].
  rewrite Ec. cbn [negb]. by rewrite Eq.
Qed.

Lemma start_outcome_mono e o c (P Q : world → Prop) r :
  (∀ w, P w → Q w) → start_outcome e o c P r → start_outcome e o c Q r.
Proof. intros HPQ. destruct r; [done|done|]. intros (? & ? & ?). split_and!; auto. Qed.

Lemma main_sockets_spec inh e o p :
  stdio ⊆ inh → conf_ok (pr_world p) → w_rt_io (pr_world p) = false →
  io_inv Epoll inh (pr_io p) [] → pr_pkt p = None → pr_rt p = None →
  ∃ r, main_sockets e o p = Done r ∧
    start_outcome e o (pr_creds p) (λ w1, ∃ K b1 b2 b3 b4 b5, daemon_start K b1 b2 b3 b4 b5 (pr_world p) = Ret true w1) r.
Proof.
  intros Hstd Hc Hrt Hinv Hpkt Hrtp. unfold main_sockets.
  destruct (start_pkt_spec inh (se_pkt e) p [] Hinv) as (ok & p1 & -> & [Ec1 Hs1] & Er1 & b1 & Ew1).
  cbn [mbind res_bind]. destruct ok; cbn [negb].
  2:{ destruct Hs1 as (En & Hinv1 & _). eexists. split; [done|]. split; [done|]. exists inh, [].
      split; [|done|by rewrite En|by rewrite Er1, Hrtp].
      rewrite iface_startup_ret in Ew1. injection Ew1 as _ <-. apply empty_closable; apply (co_ifaces _ Hc). }
  destruct Hs1 as (x & Ex & _ & Hinv1 & Hx & _).
  assert (conf_ok (pr_world p1) ∧ w_pkt_io (pr_world p1) = true ∧ w_rt_io (pr_world p1) = false) as (Hc1 & Hio1 & Hrt1).
  { rewrite iface_startup_ret in Ew1. injection Ew1 as -> <-. split_and!; [destruct Hc; by constructor|done|done]. }
  destruct (on_world_wp _ _ _ (wp_proxy_startup (se_kernel e) (pr_world p1) Hc1 Hio1 Hrt1)) as (ok & wb & -> & Hwb & Eb).
  cbn [mbind res_bind]. destruct ok; cbn [negb].
  2:{ eexists. split; [done|]. split; [done|]. exists inh, [x]. split; [done|done| |].
      - intros z Hz. cbn [pr_pkt set_pr_world set_field] in Hz. rewrite Ex in Hz. simplify_eq. set_solver.
      - intros z Hz. cbn [pr_rt set_pr_world set_field] in Hz. congruence. }
  set (p2 := p1 <| pr_world := wb |>).
  destruct (start_rt_spec inh (se_rt e) p2 [x]) as (ok & p3 & -> & [Ec3 Hs3] & Ep3 & b4 & Ew3);
    [done|by unfold p2; cbn; rewrite Er1|exact (st_rt_io _ _ _ Hwb)|].
  cbn [mbind res_bind]. destruct ok; cbn [negb].
  2:{ destruct Hs3 as (En & Hinv3 & _). eexists. split; [done|]. split; [done|]. exists inh, [x]. split.
      - rewrite rt_open_ret in Ew3 by exact (st_rt_io _ _ _ Hwb). injection Ew3 as _ <-.
        exact (inv_closable _ _ _ (st_inv _ _ _ Hwb)).
      - done.
      - intros z. rewrite Ep3. unfold p2. cbn. rewrite Ex. intros [= ->]. set_solver.
      - by rewrite En. }
  destruct Hs3 as (y & Ey & Hy & Hinv3 & Hys & Hvals). apply not_elem_of_cons in Hy as [Hyx _].
  assert (world_inv (pr_world p3)) as Hw3.
  { rewrite rt_open_ret in Ew3 by exact (st_rt_io _ _ _ Hwb). injection Ew3 as -> <-. by apply starting_world_inv. }
  destruct (main_background_spec inh e o p3 Hstd Hw3) as (r & Er & Hout).
  { exists x, y. split_and!; [by rewrite Ep3|done|done|done| |done]. unfold has_socket. by rewrite Hvals. }
  exists r. split; [done|]. rewrite Ec3 in Hout. replace (pr_creds p2) with (pr_creds p) in Hout by (by unfold p2; cbn).
  eapply start_outcome_mono; [|done]. cbn beta. intros w1 [q Eq]. eexists _, _, _, _, _, _. by eapply daemon_start_parts.
Qed.

(** The state in which the process starts. *)
Record process_start (inh : gset Z) (p : process) : Prop := {
  ps_world : unconfigured (pr_world p);
  ps_io : pr_io p = io_start inh;
  ps_stdio : stdio ⊆ inh;
  ps_sockets : pr_pkt p = None ∧ pr_rt p = None }.

Lemma start_exit_ready inh p :
  blank (pr_world p) → pr_io p = io_start inh → pr_pkt p = None → pr_rt p = None → exit_ready Epoll inh p [].
Proof.
  intros ((Ei & Ef) & _) Eio Ep Er. split; [by apply empty_closable| |by rewrite Ep|by rewrite Er].
  rewrite Eio. apply io_start_inv.
Qed.

Lemma main_start_spec inh e opts p :
  process_start inh p →
  ∃ r, main_start e opts p = Done r ∧
    match main_options opts options_start with
    | None => r = SReturn EXIT_FAILURE p
    | Some o => start_outcome e o (pr_creds p) started r
    end.
Proof.
  intros [Hu Hio Hstd [Hpkt Hrt]]. unfold main_start.
  destruct (main_options opts options_start) as [o|]; [|by eexists].
  set (p1 := p <| pr_world := _ |>).
  assert (unconfigured (pr_world p1)) as Hu1 by exact Hu.
  destruct (bool_decide _ && _).
  { eexists. split; [done|]. split; [done|]. exists inh, []. apply start_exit_ready; [apply Hu1|done..]. }
  destruct (on_world_wp _ _ _ (wp_conf_load (pr_world p1) (se_config e) Hu1)) as (r & w' & -> & (Hf & Hb & Hc) & Eload).
  cbn [mbind res_bind]. set (p2 := p1 <| pr_world := w' |>).
  assert (exit_ready Epoll inh p2 []) as Hexit by (by apply start_exit_ready).
  destruct r as [|st|]; [eexists; split; [done|]; split; [done|]; by exists inh, []| |done].
  destruct (bool_decide _ && _); [eexists; split; [done|]; split; [done|]; by exists inh, []|].
  specialize (Hc st eq_refl).
  destruct (main_sockets_spec inh e o p2) as (r & Er & Hout);
    [done|by apply configuring_conf_ok|by eapply configuring_rt_io|apply (er_io _ _ _ _ Hexit)|done|done|].
  exists r. split; [done|]. eapply start_outcome_mono; [|done]. intros w1 (K & b1 & b2 & b3 & b4 & b5 & E).
  by eapply Started.
Qed.
End main.
