(* ===== verification/BsdSafe.v ===== *)
(** * The invariant of the BSD back end

    Every handle of an interface is live, knows its interface and is no one
    else's, and there are no other handles than these and the routing socket:
    no operation of BsdIface.v uses a closed handle or forgets an open one. *)
From S2P Require Import Prelude Addr World Monad Packet Route Netlink NetlinkSpec Iface LinkedList Io IoSafe Main Bpf RtSocket BsdIface.

(** ** Handles *)

(** A handle without an interface yet, or none, was added to [s]. *)
Definition opened (inh : gset Z) (s : io_state) (l : list loc) (o : option loc) (s' : io_state) : Prop :=
  match o with
  | Some x => x ∉ l ∧ io_inv Poll inh s' (x :: l) ∧
      ∃ fd, io_vals s' = <[x := mk_io fd 0 (Some PktHandler)]> (io_vals s)
  | None => io_inv Poll inh s' l ∧ io_vals s' = io_vals s
  end.

(** Every call on a new device succeeds, up to the filter. *)
Definition device_ok (a : bpf_answers) : bool :=
  ba_open a && (a_getfl (ba_create a) && a_setfl (ba_create a)) &&
  (ba_blen a && ba_setif a && ba_promisc a && ba_immediate a).

Section handles.
Context (inh : gset Z) (K : bsd_kernel).
Implicit Types (s : io_state) (l : list loc).

Lemma fresh_vals s l x : io_inv Poll inh s l → x ∉ l → io_vals s !! x = None.
Proof. intros Hinv Hx. apply eq_None_not_Some. by rewrite (oi_dom _ _ _ _ Hinv). Qed.

(** Closing a new handle undoes its creation. *)
Lemma close_opened s l x s' :
  io_inv Poll inh s l → opened inh s l (Some x) s' →
  ∃ s2, nd_io_close Poll (Some x) s' = Done s2 ∧ opened inh s l None s2.
Proof.
  intros Hs (Hx & Hinv & fd & Ev).
  destruct (close_inv Poll inh s' (x :: l) x (mk_io fd 0 (Some PktHandler))) as (s2 & E & Hinv2 & Ev2 & _);
    [done|by rewrite Ev, lookup_insert_eq|].
  exists s2. split; [done|]. cbn [ll_delete] in Hinv2. rewrite decide_True in Hinv2 by done.
  split; [done|]. rewrite Ev2, Ev, delete_insert_id; [done|]. by apply (fresh_vals s l).
Qed.

Lemma bpf_open_spec name s l :
  io_inv Poll inh s l →
  ∃ o s', bpf_open K name s = Done (o, s') ∧ opened inh s l o s' ∧
    bool_decide (o = None) = negb (device_ok (bk_bpf K name)).
Proof.
  intros Hs. unfold bpf_open, nd_io_open, device_ok. set (a := bk_bpf K name).
  destruct (ba_open a); cbn [negb andb].
  2:{ eexists None, s. by split_and!. }
  unfold new_fd. destruct (create_inv Poll inh (ba_create a) s l Hs) as (o & s1 & E & Hc & Ho).
  rewrite E. cbn [mbind res_bind]. unfold answers_ok in Ho. rewrite andb_true_r in Ho.
  destruct o as [x|].
  2:{ eexists None, s1. split; [done|]. split; [done|]. symmetry in Ho. apply negb_true_iff in Ho. by rewrite Ho. }
  destruct Hc as (Hx & Hinv1 & Ev1). symmetry in Ho. apply negb_false_iff in Ho. rewrite Ho. cbn [andb].
  destruct (handler_inv Poll inh s1 (x :: l) x PktHandler Hinv1) as (s2 & io & E2 & Hinv2 & Hio & Ev2); [set_solver|].
  rewrite E2. cbn [mbind res_bind].
  rewrite Ev1, lookup_insert_eq in Hio. injection Hio as <-. rewrite Ev1, insert_insert_eq in Ev2.
  assert (opened inh s l (Some x) s2) as Hop by (split_and!; eauto).
  destruct (_ && ba_immediate a); cbn [negb].
  - eexists (Some x), s2. by split_and!.
  - destruct (close_opened _ _ _ _ Hs Hop) as (s3 & E3 & Hop3). rewrite E3. cbn [mbind res_bind].
    eexists None, s3. by split_and!.
Qed.

Lemma bpf_filter_spec name x s l s1 :
  io_inv Poll inh s l → opened inh s l (Some x) s1 →
  ∃ o s', bpf_filter K name x s1 = Done (o, s') ∧ opened inh s l o s' ∧
    o = (if ba_filter (bk_bpf K name) then Some x else None).
Proof.
  intros Hs Hop. unfold bpf_filter. destruct (ba_filter _); [by eexists _, _|].
  destruct (close_opened _ _ _ _ Hs Hop) as (s3 & E3 & Hop3). rewrite E3. by eexists _, _.
Qed.

(** [io->data = iface] *)
Lemma set_data_spec s l x d io :
  io_inv Poll inh s l → io_vals s !! x = Some io →
  ∃ s', set_data x d s = Done s' ∧ io_inv Poll inh s' l ∧
    io_vals s' = <[x := mk_io (io_fd io) d (io_run io)]> (io_vals s).
Proof.
  intros Hinv Hx. destruct (vals_lookup _ _ _ Hx) as (n & Hn & <-).
  destruct (payload_inv Poll inh s l x n (mk_io (io_fd (n_val n)) d (io_run (n_val n))) Hinv Hn eq_refl)
    as (Hinv' & _ & Ev).
  eexists. split; [unfold set_data, get; by rewrite Hn|]. done.
Qed.
End handles.

(** ** The reply of NET_RT_IFLIST *)

Class IfLayoutOk (IL : IfLayout) : Prop := {
  ifm_size_nonneg : 0 ≤ ifm_size;
  (** the longest name and an address fit into the buffer *)
  ifm_size_fits : ifm_size + SDL_DATA + 255 + ETHER_ADDR_LEN ≤ SYSCTL_BUF }.

Definition bsd_kernel_ok (K : bsd_kernel) : Prop :=
  Z.of_nat (length (bk_stack K)) = SYSCTL_BUF ∧ Forall is_u8 (bk_stack K) ∧
  ∀ index reply, bk_iflist K index = Some reply →
    Z.of_nat (length reply) ≤ SYSCTL_BUF ∧ Forall is_u8 reply.

Section safe.
Context {BO : ByteOrder} {IL : IfLayout} {ILok : IfLayoutOk IL} {RL : RtLayout}.

(** The address is read inside the buffer, whatever the reply. *)
Lemma iflist_in_buffer K index reply :
  bsd_kernel_ok K → bk_iflist K index = Some reply →
  ∃ r, iflist_lladdr (bk_stack K) reply = Some r.
Proof.
  intros (Hst & Hs8 & Hrep) Hr. destruct (Hrep index reply Hr) as [Hlen Hr8].
  pose proof ifm_size_nonneg. pose proof ifm_size_fits.
  unfold iflist_lladdr. destruct (Z.ltb_spec (Z.of_nat (length reply)) (ifm_size + SDL_DATA + ETHER_ADDR_LEN)) as [|Hge];
    [eauto|]. set (buf := _ ++ _).
  assert (Z.of_nat (length buf) = SYSCTL_BUF) as Hbuf.
  { unfold buf. rewrite length_app, length_drop. lia. }
  assert (Forall is_u8 buf) as Hb8 by (apply Forall_app; split; [done|by apply Forall_drop]).
  unfold SDL_DATA, SDL_NLEN, ETHER_ADDR_LEN, SYSCTL_BUF in *.
  destruct (rd8_Some buf (ifm_size + 5)) as [nlen Hn]; [lia|]. rewrite Hn.
  pose proof (rd8_u8 _ _ _ Hb8 Hn) as [Hn0 Hn1]. unfold u8_max in Hn1.
  cbn [mbind option_bind]. destruct (rd_ll_Some buf (ifm_size + 8 + nlen)) as [ll ->]; [lia..|].
  cbn [mbind option_bind]. eauto.
Qed.

(** ** The invariant *)

Record bsd_inv (inh : gset Z) (b : bsd) (l : list loc) : Prop := {
  bi_io : io_inv Poll inh (b_io b) l;
  (** the handle of an interface is its own *)
  bi_bpf : ∀ iface io, b_bpf b !! iface = Some io →
    is_Some (w_ifaces (b_world b) !! iface) ∧
    ∃ fd, io_vals (b_io b) !! io = Some (mk_io fd (Z.of_nat iface) (Some PktHandler));
  bi_rt : ∀ io, b_rt b = Some io → ∃ fd, io_vals (b_io b) !! io = Some (mk_io fd 0 (Some RtHandler));
  (** no handle is forgotten *)
  bi_owned : ∀ io, io ∈ l → b_rt b = Some io ∨ ∃ iface, b_bpf b !! iface = Some io;
  bi_nodup : NoDup (w_first_iface (b_world b));
  bi_ifaces : ∀ x, x ∈ w_first_iface (b_world b) ↔ is_Some (w_ifaces (b_world b) !! x) }.

Section inv.
Context (inh : gset Z).

(** The interface of a handle is determined by it. *)
Lemma bpf_inj b l i1 i2 io :
  bsd_inv inh b l → b_bpf b !! i1 = Some io → b_bpf b !! i2 = Some io → i1 = i2.
Proof.
  intros Hinv H1 H2. destruct (bi_bpf _ _ _ Hinv _ _ H1) as (_ & fd1 & E1).
  destruct (bi_bpf _ _ _ Hinv _ _ H2) as (_ & fd2 & E2). rewrite E1 in E2. injection E2. lia.
Qed.

Lemma on_w_ret {A} (m : M A) a w b : m (b_world b) = Ret a w → on_w m b = Done (a, b <| b_world := w |>).
Proof. intros E. unfold on_w, lift. by rewrite E. Qed.

Lemma on_w_load b l i : w_ifaces (b_world b) !! l = Some i → on_w (load w_ifaces l) b = Done (i, b).
Proof. intros Hi. unfold on_w, lift, load. rewrite Hi. by destruct b. Qed.

(** Changing the fields of an interface. *)
Lemma inv_world b l w :
  bsd_inv inh b l → w_first_iface w = w_first_iface (b_world b) →
  (∀ x, is_Some (w_ifaces w !! x) ↔ is_Some (w_ifaces (b_world b) !! x)) →
  bsd_inv inh (b <| b_world := w |>) l.
Proof.
  intros [I1 I2 I3 I4 I5 I6] Ef Ei. split; cbn [b_io b_bpf b_rt b_world set_field set_b_world]; [done| |done|done|by rewrite Ef|].
  - intros iface io Hio. rewrite Ei. by apply I2.
  - intros x. by rewrite Ef, I6, Ei.
Qed.

Lemma on_w_update b l x i f :
  bsd_inv inh b l → w_ifaces (b_world b) !! x = Some i →
  ∃ b', on_w (update w_ifaces x f) b = Done ((), b') ∧ bsd_inv inh b' l ∧
    w_ifaces (b_world b') = <[x := f i]> (w_ifaces (b_world b)) ∧
    b_bpf b' = b_bpf b ∧ b_io b' = b_io b ∧ w_first_iface (b_world b') = w_first_iface (b_world b).
Proof.
  intros Hinv Hx. unfold on_w, lift, update. rewrite Hx. eexists. split; [done|].
  split; [|done]. apply inv_world; [done|done|]. intros y. cbn.
  destruct (decide (x = y)) as [<- |]; [rewrite lookup_insert_eq, Hx|by rewrite lookup_insert_ne]. split; eauto.
Qed.

(** ** Handles of interfaces *)

Lemma handle_listed b l iface io : bsd_inv inh b l → b_bpf b !! iface = Some io → io ∈ l.
Proof.
  intros Hinv Hio. destruct (bi_bpf _ _ _ Hinv _ _ Hio) as (_ & fd & E).
  apply (oi_dom _ _ _ _ (bi_io _ _ _ Hinv)). eauto.
Qed.

Lemma inv_close_handle b l iface :
  bsd_inv inh b l →
  ∃ s l', nd_io_close Poll (b_bpf b !! iface) (b_io b) = Done s ∧
    bsd_inv inh (b <| b_io := s |> <| b_bpf := delete iface (b_bpf b) |>) l'.
Proof.
  intros Hinv. destruct (b_bpf b !! iface) as [io|] eqn:Hio.
  2:{ exists (b_io b), l. split; [done|]. rewrite delete_id by done. by destruct b. }
  destruct (bi_bpf _ _ _ Hinv _ _ Hio) as (_ & fd & Ev).
  destruct (close_inv Poll inh _ l io _ (bi_io _ _ _ Hinv) Ev) as (s & E & Hs & Es & _).
  exists s, (ll_delete io l). split; [done|].
  pose proof (λ i2, bpf_inj b l iface i2 io Hinv Hio) as Hinj.
  pose proof (ll_list_NoDup _ _ _ (oi_list _ _ _ _ (bi_io _ _ _ Hinv))) as Hnd.
  destruct Hinv as [I1 I2 I3 I4 I5 I6].
  split; cbn [b_io b_bpf b_rt b_world set_field set_b_io set_b_bpf]; [done| | | |done|done].
  - intros x io' [Hne Hx]%lookup_delete_Some. destruct (I2 x io' Hx) as [? [fd' E']]. split; [done|].
    exists fd'. rewrite Es, lookup_delete_ne; [done|]. intros <-. by apply Hne, Hinj.
  - intros io' Hrt. destruct (I3 io' Hrt) as [fd' E']. exists fd'. rewrite Es, lookup_delete_ne; [done|].
    intros <-. rewrite Ev in E'. discriminate E'.
  - intros io' [Hl Hne]%(elem_of_ll_delete _ _ _ Hnd). destruct (I4 io' Hl) as [?|[x Hx]]; [by left|right].
    exists x. apply lookup_delete_Some. split; [|done]. intros <-. congruence.
Qed.

Lemma inv_add_handle b l iface x s :
  bsd_inv inh b l → b_bpf b !! iface = None → is_Some (w_ifaces (b_world b) !! iface) →
  opened inh (b_io b) l (Some x) s →
  ∃ s', set_data x (Z.of_nat iface) s = Done s' ∧
    bsd_inv inh (b <| b_io := s' |> <| b_bpf := <[iface := x]> (b_bpf b) |>) (x :: l).
Proof.
  intros Hinv Hno Hif (Hx & Hs & fd & Ev).
  destruct (set_data_spec inh s (x :: l) x (Z.of_nat iface) (mk_io fd 0 (Some PktHandler)))
    as (s' & E & Hs' & Ev'); [done|by rewrite Ev, lookup_insert_eq|].
  exists s'. split; [done|]. cbn [io_fd io_run] in Ev'. rewrite Ev, insert_insert_eq in Ev'.
  assert (∀ io v, io_vals (b_io b) !! io = Some v → io_vals s' !! io = Some v) as Hold.
  { intros io v Hv. rewrite Ev', lookup_insert_ne; [done|]. intros <-.
    rewrite (fresh_vals inh (b_io b) l x (bi_io _ _ _ Hinv) Hx) in Hv. done. }
  destruct Hinv as [I1 I2 I3 I4 I5 I6].
  split; cbn [b_io b_bpf b_rt b_world set_field set_b_io set_b_bpf]; [done| | | |done|done].
  - intros y io [[<- <-]|[Hne Hy]]%lookup_insert_Some; [split; [done|]; exists fd; by rewrite Ev', lookup_insert_eq|].
    destruct (I2 y io Hy) as [? [fd' E']]. split; [done|]. eauto.
  - intros io Hrt. destruct (I3 io Hrt) as [fd' E']. eauto.
  - intros io [-> |Hl]%elem_of_cons; [right; exists iface; apply lookup_insert_eq|].
    destruct (I4 io Hl) as [?|[y Hy]]; [by left|right]. exists y. rewrite lookup_insert_ne; [done|]. congruence.
Qed.

Lemma inv_no_handle b l s :
  bsd_inv inh b l → opened inh (b_io b) l None s → bsd_inv inh (b <| b_io := s |>) l.
Proof.
  intros [I1 I2 I3 I4 I5 I6] [Hs Ev].
  split; cbn [b_io b_bpf b_rt b_world set_field set_b_io]; rewrite ?Ev; done.
Qed.

(** ** Reopening *)

Section kernel.
Context (K : bsd_kernel) (HK : bsd_kernel_ok K).

(** A handle for the interface can be opened. *)
Definition reopens (name : string) : bool := device_ok (bk_bpf K name) && ba_filter (bk_bpf K name).

(** The rest of the state is as it was. *)
Definition others_kept (x : loc) (b b' : bsd) : Prop :=
  w_first_iface (b_world b') = w_first_iface (b_world b) ∧
  ∀ y, y ≠ x → b_bpf b' !! y = b_bpf b !! y ∧ w_ifaces (b_world b') !! y = w_ifaces (b_world b) !! y.

Lemma bpf_reopen_spec b l x i name cur lladdr :
  bsd_inv inh b l → w_ifaces (b_world b) !! x = Some i →
  ∃ b' l', bpf_reopen K x name cur lladdr b = Done b' ∧ bsd_inv inh b' l' ∧ others_kept x b b' ∧
    if reopens name
    then is_Some (b_bpf b' !! x) ∧
      w_ifaces (b_world b') !! x = Some (i <| i_index := cur |> <| i_lladdr := lladdr |>)
    else b_bpf b' !! x = None ∧ w_ifaces (b_world b') !! x = Some i.
Proof.
  intros Hinv Hi. unfold bpf_reopen.
  destruct (inv_close_handle b l x Hinv) as (s0 & l0 & E0 & Hinv0). rewrite E0. cbn [mbind res_bind]. clear E0 Hinv l.
  set (b0 := b <| b_io := s0 |> <| b_bpf := delete x (b_bpf b) |>) in *.
  assert (b_bpf b0 !! x = None) as Hno by apply lookup_delete_eq.
  assert (∀ y, y ≠ x → b_bpf b0 !! y = b_bpf b !! y) as Hy by (intros y ?; by apply lookup_delete_ne).
  assert (b_world b0 = b_world b) as Hw by done. clearbody b0. rewrite <- Hw in Hi. unfold others_kept. rewrite <- Hw.
  destruct (bpf_open_spec inh K name (b_io b0) l0 (bi_io _ _ _ Hinv0)) as (o & s1 & E1 & Hop1 & Ho1).
  rewrite E1. cbn [mbind res_bind]. unfold reopens. destruct o as [io|].
  2:{ symmetry in Ho1. apply negb_true_iff in Ho1. rewrite Ho1. eexists _, l0.
      split; [done|]. split; [by apply inv_no_handle|]. split; [|done]. split; [done|]. auto. }
  symmetry in Ho1. apply negb_false_iff in Ho1. rewrite Ho1. cbn [andb].
  destruct (bpf_filter_spec inh K name io (b_io b0) l0 s1 (bi_io _ _ _ Hinv0) Hop1) as (o2 & s2 & E2 & Hop2 & ->).
  change (b_io (b0 <| b_io := s1 |>)) with s1. rewrite E2. cbn [mbind res_bind].
  destruct (ba_filter _).
  2:{ eexists _, l0. split; [done|]. split; [by apply (inv_no_handle b0 l0 s2)|]. split; [|done]. split; [done|]. auto. }
  destruct (inv_add_handle b0 l0 x io s2 Hinv0 Hno ltac:(eauto) Hop2) as (s3 & E3 & Hinv3).
  change (b_io (b0 <| b_io := s1 |> <| b_io := s2 |>)) with s2. rewrite E3. cbn [mbind res_bind].
  set (b3 := b0 <| b_io := s3 |> <| b_bpf := <[x := io]> (b_bpf b0) |>) in *.
  destruct (on_w_update b3 _ x i (λ i, i <| i_index := cur |> <| i_lladdr := lladdr |>) Hinv3 Hi)
    as (b4 & E4 & Hinv4 & Ei & Eb & _ & Ef).
  change (_ <| b_bpf := _ |>) with b3. rewrite E4. cbn [mbind res_bind mret res_ret].
  eexists b4, _. split; [done|]. split; [exact Hinv4|]. rewrite Eb, Ei, Ef. split.
  - split; [done|]. intros y Hne. rewrite lookup_insert_ne by done. split; [|done].
    cbn. rewrite lookup_insert_ne by done. by apply Hy.
  - rewrite lookup_insert_eq. split; [|done]. cbn. rewrite lookup_insert_eq. eauto.
Qed.

(** ** Rebinding *)

(** The index and the address the kernel reports for an interface. *)
Definition link_state (name : string) : option (Z * nd_lladdr) :=
  let cur := bk_nametoindex K name in
  if cur =? 0 then None else
  match bk_iflist K cur with
  | None => None
  | Some reply =>
      match iflist_lladdr (bk_stack K) reply with
      | Some (Some lladdr) => Some (cur, lladdr)
      | _ => None
      end
  end.

(** What a rebind makes of interface [i] with handle [old]. *)
Definition rebound (i : nd_iface) (old new : option loc) (i' : option nd_iface) : Prop :=
  match link_state (i_name i) with
  | None => new = old ∧ i' = Some i
  | Some (cur, lladdr) =>
      if reopens (i_name i)
      then is_Some new ∧ i' = Some (i <| i_index := cur |> <| i_lladdr := lladdr |>)
      else i' = Some i ∧
        if nd_lladdr_eq (i_lladdr i) lladdr && (cur =? i_index i) then new = old else new = None
  end.

Lemma rebind_iface_spec b l x i :
  bsd_inv inh b l → w_ifaces (b_world b) !! x = Some i →
  ∃ b' l', bsd_rebind_iface K x b = Done b' ∧ bsd_inv inh b' l' ∧ others_kept x b b' ∧
    rebound i (b_bpf b !! x) (b_bpf b' !! x) (w_ifaces (b_world b') !! x).
Proof using HK ILok.
  intros Hinv Hi. unfold bsd_rebind_iface, rebound, link_state. rewrite (on_w_load _ _ _ Hi). cbn [mbind res_bind].
  assert (others_kept x b b) as Hrefl by done.
  destruct (bk_nametoindex K (i_name i) =? 0); [by eexists b, l|].
  destruct (bk_iflist K _) as [reply|] eqn:Hrep; [|by eexists b, l].
  destruct (iflist_in_buffer K _ reply HK Hrep) as [r Hr]. rewrite Hr. cbn [checked mbind res_bind].
  destruct r as [lladdr|]; [|by eexists b, l]. rewrite !negb_involutive.
  destruct (nd_lladdr_eq (i_lladdr i) lladdr && (_ =? i_index i)) eqn:Hsame; cbn [andb].
  - destruct (b_bpf b !! x) as [io|] eqn:Hio; cbn [bool_decide decide_rel].
    + eexists b, l. split; [done|]. split_and!; [done|done|]. rewrite Hio.
      apply andb_true_iff in Hsame as [Hll%nd_lladdr_eq_spec Hix%Z.eqb_eq].
      destruct (reopens _); [split; [eauto|]|done]. rewrite Hi, Hix, <- Hll. by destruct i.
    + destruct (bpf_reopen_spec b l x i (i_name i) (bk_nametoindex K (i_name i)) lladdr Hinv Hi)
        as (b' & l' & E & Hinv' & Hk & Hres). exists b', l'. split_and!; [done|done|done|].
      destruct (reopens _); [done|]. naive_solver.
  - destruct (bpf_reopen_spec b l x i (i_name i) (bk_nametoindex K (i_name i)) lladdr Hinv Hi)
      as (b' & l' & E & Hinv' & Hk & Hres). exists b', l'. split_and!; [done|done|done|].
    destruct (reopens _); [done|]. naive_solver.
Qed.

Lemma rebind_list_spec xs b l :
  NoDup xs → (∀ x, x ∈ xs → is_Some (w_ifaces (b_world b) !! x)) → bsd_inv inh b l →
  ∃ b' l', run_all (bsd_rebind_iface K) xs b = Done b' ∧ bsd_inv inh b' l' ∧
    w_first_iface (b_world b') = w_first_iface (b_world b) ∧
    (∀ y, y ∉ xs → b_bpf b' !! y = b_bpf b !! y ∧ w_ifaces (b_world b') !! y = w_ifaces (b_world b) !! y) ∧
    (∀ x i, x ∈ xs → w_ifaces (b_world b) !! x = Some i →
       rebound i (b_bpf b !! x) (b_bpf b' !! x) (w_ifaces (b_world b') !! x)).
Proof using HK ILok.
  intros Hnd. revert b l. induction xs as [|x xs IH]; intros b l Hlive Hinv.
  { exists b, l. split_and!; try done. intros ? ? ?%elem_of_nil. done. }
  apply list.NoDup_cons in Hnd as [Hx Hnd]. cbn [run_all].
  destruct (Hlive x ltac:(set_solver)) as [i Hi].
  destruct (rebind_iface_spec b l x i Hinv Hi) as (b1 & l1 & E1 & Hinv1 & [Hf1 Hk1] & Hr1).
  rewrite E1. cbn [mbind res_bind].
  assert (∀ y, y ∈ xs → b_bpf b1 !! y = b_bpf b !! y ∧ w_ifaces (b_world b1) !! y = w_ifaces (b_world b) !! y) as Hxs.
  { intros y Hy. apply Hk1. by intros ->. }
  destruct (IH Hnd b1 l1) as (b2 & l2 & E2 & Hinv2 & Hf2 & Hout & Hin); [|done|].
  { intros y Hy. rewrite (proj2 (Hxs y Hy)). apply Hlive. set_solver. }
  exists b2, l2. split_and!; [done|done|by rewrite Hf2| |].
  - intros y [Hne Hy]%not_elem_of_cons. destruct (Hout y Hy) as [-> ->]. by apply Hk1.
  - intros y j [-> |Hy]%elem_of_cons Hj.
    + destruct (Hout x Hx) as [-> ->]. rewrite Hi in Hj. by injection Hj as <-.
    + destruct (Hxs y Hy) as [Eb Ei]. rewrite <- Eb. apply Hin; [done|]. by rewrite Ei.
Qed.

Lemma rebind_all_spec b l :
  bsd_inv inh b l →
  ∃ b' l', bsd_rebind_all K b = Done b' ∧ bsd_inv inh b' l' ∧
    w_first_iface (b_world b') = w_first_iface (b_world b) ∧
    ∀ x i, w_ifaces (b_world b) !! x = Some i →
      rebound i (b_bpf b !! x) (b_bpf b' !! x) (w_ifaces (b_world b') !! x).
Proof using HK ILok.
  intros Hinv. destruct (rebind_list_spec (w_first_iface (b_world b)) b l) as (b' & l' & E & Hinv' & Hf & _ & Hin).
  - apply Hinv.
  - intros x. apply Hinv.
  - done.
  - exists b', l'. split_and!; [done..|]. intros x i Hi. apply Hin; [|done]. apply Hinv. eauto.
Qed.

(** ** Messages of the routing socket *)

Lemma apply_spec m b l :
  bsd_inv inh b l → ∃ b' l', bsd_apply K m b = Done b' ∧ bsd_inv inh b' l'.
Proof using HK ILok.
  intros Hinv. destruct m; cbn [bsd_apply]; try (eexists _, l; split; [done|]; by apply inv_world).
  - by eexists b, l.
  - destruct (rebind_all_spec b l Hinv) as (b' & l' & E & Hinv' & _). eauto.
Qed.

Lemma apply_all_spec ms b l :
  bsd_inv inh b l → ∃ b' l', bsd_apply_all K ms b = Done b' ∧ bsd_inv inh b' l'.
Proof using HK ILok.
  revert b l. induction ms as [|m ms IH]; intros b l Hinv; cbn [bsd_apply_all]; [by eexists b, l|].
  destruct (apply_spec m b l Hinv) as (b1 & l1 & -> & Hinv1). cbn [mbind res_bind]. by eapply IH.
Qed.

(** ** Opening *)

Lemma bpf_device_spec name index s l :
  io_inv Poll inh s l →
  ∃ r s', bpf_device K name index s = Done (r, s') ∧
    match r with
    | Some (x, lladdr) => opened inh s l (Some x) s' ∧
        ∃ reply, bk_iflist K index = Some reply ∧ iflist_lladdr (bk_stack K) reply = Some (Some lladdr)
    | None => opened inh s l None s'
    end.
Proof using HK ILok.
  intros Hs. unfold bpf_device.
  destruct (bpf_open_spec inh K name s l Hs) as (o & s1 & -> & Hop1 & _). cbn [mbind res_bind].
  destruct o as [x|]; [|by eexists None, s1]. unfold open_lladdr.
  assert (∃ r, match bk_iflist K index with
               | Some reply => checked (iflist_lladdr (bk_stack K) reply) | None => mret None end = Done r ∧
    ∀ lladdr, r = Some lladdr →
      ∃ reply, bk_iflist K index = Some reply ∧ iflist_lladdr (bk_stack K) reply = Some (Some lladdr))
    as (r & -> & Hr).
  { destruct (bk_iflist K index) as [reply|] eqn:Hrep; [|by exists None].
    destruct (iflist_in_buffer K index reply HK Hrep) as [r Hr]. rewrite Hr. exists r. split; [done|].
    intros lladdr ->. eauto. }
  cbn [mbind res_bind]. destruct r as [lladdr|]; cbn [mbind res_bind mret res_ret].
  2:{ destruct (close_opened inh s l x s1 Hs Hop1) as (s2 & -> & Hop2). cbn [mbind res_bind mret res_ret]. by eexists None, s2. }
  destruct (bpf_filter_spec inh K name x s l s1 Hs Hop1) as (o2 & s2 & -> & Hop2 & ->). cbn [mbind res_bind].
  destruct (ba_filter _); eexists _, s2; split; [done| |done|done]. split; [done|]. by apply Hr.
Qed.

Lemma add_iface_spec name index promiscuous x lladdr b l s :
  bsd_inv inh b l → opened inh (b_io b) l (Some x) s →
  ∃ iface b', add_iface name index promiscuous x lladdr (b <| b_io := s |>) = Done (iface, b') ∧
    bsd_inv inh b' (x :: l) ∧ w_ifaces (b_world b) !! iface = None ∧
    w_ifaces (b_world b') = <[iface := mk_iface 1 name lladdr index true false None promiscuous]> (w_ifaces (b_world b)) ∧
    b_bpf b' = <[iface := x]> (b_bpf b).
Proof.
  intros Hinv Hop. unfold add_iface. set (iface := fresh (dom (w_ifaces (b_world b)))).
  assert (w_ifaces (b_world b) !! iface = None) as Hno by apply not_elem_of_dom, is_fresh.
  set (i := mk_iface 1 name lladdr index true false None promiscuous).
  set (w := (b_world b) <| w_ifaces := <[iface := i]> (w_ifaces (b_world b)) |>
              <| w_first_iface := iface :: w_first_iface (b_world b) |>).
  rewrite (on_w_ret _ iface w) by done. cbn [mbind res_bind].
  assert (b_bpf b !! iface = None) as Hnb.
  { destruct (b_bpf b !! iface) as [io|] eqn:E; [|done]. destruct (bi_bpf _ _ _ Hinv _ _ E) as [[? Hc] _]. congruence. }
  assert (bsd_inv inh (b <| b_world := w |>) l) as Hw.
  { destruct Hinv as [I1 I2 I3 I4 I5 I6]. split; cbn [b_io b_bpf b_rt b_world set_field set_b_world]; [done| |done|done| |].
    - intros y io Hy. destruct (I2 y io Hy) as [[j Hj] ?]. split; [|done]. exists j. cbn.
      rewrite lookup_insert_ne; [done|]. congruence.
    - cbn. apply list.NoDup_cons. split; [|done]. rewrite I6, Hno. by intros [? ?].
    - intros y. cbn. rewrite elem_of_cons, I6. destruct (decide (y = iface)) as [-> |Hne].
      + rewrite lookup_insert_eq. split; eauto.
      + rewrite lookup_insert_ne by done. naive_solver. }
  destruct (inv_add_handle (b <| b_world := w |>) l iface x s Hw Hnb) as (s' & E & Hinv');
    [cbn; rewrite lookup_insert_eq; eauto|done|].
  change (b_io (_ <| b_world := w |>)) with s. rewrite E. cbn [mbind res_bind mret res_ret].
  eexists iface, _. split; [done|]. by split_and!.
Qed.

(** The search of [nd_iface_open] for an interface that is open already. *)
Lemma open_search_spec index b l :
  bsd_inv inh b l →
  ∃ found, on_w (ifaces ← gets w_first_iface;
      ll_search ifaces (λ l, i ← load w_ifaces l; mret ((i_index i =? index) && i_up i))) b = Done (found, b) ∧
    ∀ x, found = Some x → ∃ i, w_ifaces (b_world b) !! x = Some i ∧ i_index i = index ∧ i_up i = true.
Proof.
  intros Hinv. pose proof (λ x, proj1 (bi_ifaces _ _ _ Hinv x)) as Hlive. revert Hlive.
  assert (∀ xs, (∀ x, x ∈ xs → is_Some (w_ifaces (b_world b) !! x)) →
    ∃ found, ll_search xs (λ l, i ← load w_ifaces l; mret ((i_index i =? index) && i_up i)) (b_world b) =
      Ret found (b_world b) ∧
      ∀ x, found = Some x → ∃ i, w_ifaces (b_world b) !! x = Some i ∧ i_index i = index ∧ i_up i = true) as Hs.
  { induction xs as [|y xs IH]; intros Hlive; [by exists None|].
    destruct (Hlive y ltac:(set_solver)) as [i Hi]. cbn [ll_search].
    unfold mbind, M_bind, load. rewrite Hi. unfold mret, M_ret.
    destruct ((i_index i =? index) && i_up i) eqn:E.
    - exists (Some y). split; [done|]. intros x [= <-]. apply andb_true_iff in E as [E1%Z.eqb_eq E2]. eauto.
    - apply IH. set_solver. }
  intros Hlive. destruct (Hs _ Hlive) as (found & E & Hf). exists found. split; [|done].
  unfold on_w, lift. cbn [mbind M_bind gets]. unfold mbind, M_bind, gets in *. rewrite E. by destruct b.
Qed.

Lemma bsd_iface_open_spec name index promiscuous b l :
  bsd_inv inh b l →
  ∃ o b' l', bsd_iface_open K name index promiscuous b = Done (o, b') ∧ bsd_inv inh b' l' ∧
    ∀ x, o = Some x → ∃ i, w_ifaces (b_world b') !! x = Some i ∧
      (index = 0 ∨ i_index i = index) ∧ i_up i = true.
Proof using HK ILok.
  intros Hinv. unfold bsd_iface_open.
  assert (∀ nm ix, ∃ o b' l', bsd_open_resolved K nm ix promiscuous b = Done (o, b') ∧ bsd_inv inh b' l' ∧
    ∀ x, o = Some x → ∃ i, w_ifaces (b_world b') !! x = Some i ∧ i_index i = ix ∧ i_up i = true) as Hres.
  { intros nm ix. unfold bsd_open_resolved.
    destruct (open_search_spec ix b l Hinv) as (found & -> & Hf). cbn [mbind res_bind]. destruct found as [x|].
    - destruct (Hf x eq_refl) as (i & Hi & Hix & Hup).
      destruct (on_w_update b l x i (λ i, i <| i_refcount := i_refcount i + 1 |>) Hinv Hi)
        as (b' & -> & Hinv' & Ei & _). cbn [mbind res_bind mret res_ret].
      eexists _, b', l. split; [done|]. split; [done|]. intros y [= <-]. rewrite Ei, lookup_insert_eq. eauto.
    - destruct (bpf_device_spec nm ix (b_io b) l (bi_io _ _ _ Hinv)) as (r & s & -> & Hr). cbn [mbind res_bind].
      destruct r as [[io lladdr]|].
      + destruct (add_iface_spec nm ix promiscuous io lladdr b l s Hinv (proj1 Hr))
          as (iface & b' & -> & Hinv' & _ & Ei & _). cbn [mbind res_bind mret res_ret].
        eexists _, b', _. split; [done|]. split; [done|]. intros y [= <-]. rewrite Ei, lookup_insert_eq. eauto.
      + eexists None, _, l. split; [done|]. split; [by apply inv_no_handle|done]. }
  destruct name as [nm|].
  - destruct (_ =? 0) eqn:H0; [by eexists None, b, l|]. destruct (_ && _) eqn:Hc; [by eexists None, b, l|].
    destruct (Hres nm (bk_nametoindex K nm)) as (o & b' & l' & -> & Hinv' & Ho).
    eexists o, b', l'. split; [done|]. split; [done|]. intros x Hx. destruct (Ho x Hx) as (i & Hi & Hix & Hup).
    exists i. split_and!; [done| |done]. apply andb_false_iff in Hc as [Hc|Hc];
      apply negb_false_iff, Z.eqb_eq in Hc; [by left|right; congruence].
  - destruct (index =? 0); [by eexists None, b, l|]. destruct (bk_indextoname K index) as [nm|]; [|by eexists None, b, l].
    destruct (Hres nm index) as (o & b' & l' & -> & Hinv' & Ho).
    eexists o, b', l'. split; [done|]. split; [done|]. intros x Hx. destruct (Ho x Hx) as (i & Hi & Hix & Hup). eauto.
Qed.
End kernel.

(** ** Closing *)

(** The interface [x], which has no handle any more, is unlinked and freed. *)
Lemma inv_drop_iface b l x :
  bsd_inv inh b l → b_bpf b !! x = None →
  bsd_inv inh (b <| b_world := (b_world b) <| w_first_iface := ll_delete x (w_first_iface (b_world b)) |>
                                 <| w_ifaces := delete x (w_ifaces (b_world b)) |> |>) l.
Proof.
  intros [I1 I2 I3 I4 I5 I6] Hx. split; cbn [b_io b_bpf b_rt b_world set_field set_b_world]; [done| |done|done| |].
  - intros y io Hy. destruct (I2 y io Hy) as [[i Hi] ?]. split; [|done]. exists i. cbn.
    rewrite lookup_delete_ne; [done|]. congruence.
  - by apply NoDup_ll_delete.
  - intros y. cbn. rewrite elem_of_ll_delete by done. rewrite I6. unfold is_Some.
    setoid_rewrite lookup_delete_Some. naive_solver.
Qed.

Lemma unlink_free w x i :
  w_ifaces w !! x = Some i →
  (modify (λ w, w <| w_first_iface := ll_delete x (w_first_iface w) |>);; free w_ifaces x) w =
  Ret () (w <| w_first_iface := ll_delete x (w_first_iface w) |> <| w_ifaces := delete x (w_ifaces w) |>).
Proof. intros Hi. unfold mbind, M_bind, modify, free. cbn. by rewrite Hi. Qed.

(** One reference less, or the interface and its handle are gone. *)
Lemma bsd_iface_close_spec b l x i :
  bsd_inv inh b l → w_ifaces (b_world b) !! x = Some i →
  ∃ b' l', bsd_iface_close x b = Done b' ∧ bsd_inv inh b' l' ∧ b_rt b' = b_rt b ∧
    if 0 <? i_refcount i - 1
    then w_ifaces (b_world b') = <[x := i <| i_refcount := i_refcount i - 1 |>]> (w_ifaces (b_world b)) ∧
      w_first_iface (b_world b') = w_first_iface (b_world b) ∧ b_bpf b' = b_bpf b
    else w_ifaces (b_world b') = delete x (w_ifaces (b_world b)) ∧
      w_first_iface (b_world b') = ll_delete x (w_first_iface (b_world b)) ∧
      b_bpf b' = delete x (b_bpf b).
Proof.
  intros Hinv Hi. unfold bsd_iface_close. set (i1 := i <| i_refcount := i_refcount i - 1 |>).
  set (w1 := (b_world b) <| w_ifaces := <[x := i1]> (w_ifaces (b_world b)) |>).
  rewrite (on_w_ret _ () w1) by (unfold update; by rewrite Hi). cbn [mbind res_bind].
  set (b1 := b <| b_world := w1 |>).
  assert (bsd_inv inh b1 l) as Hinv1.
  { apply inv_world; [done|done|]. intros y. cbn.
    destruct (decide (x = y)) as [<- |]; [rewrite lookup_insert_eq, Hi|by rewrite lookup_insert_ne]. split; eauto. }
  assert (w_ifaces (b_world b1) !! x = Some i1) as Hi1 by apply lookup_insert_eq.
  rewrite (on_w_load b1 x i1 Hi1). cbn [mbind res_bind].
  change (i_refcount i1) with (i_refcount i - 1). destruct (0 <? i_refcount i - 1).
  { exists b1, l. by split_and!. }
  destruct (inv_close_handle b1 l x Hinv1) as (s & l' & E & Hinv2). rewrite E. cbn [mbind res_bind].
  set (w2 := w1 <| w_first_iface := ll_delete x (w_first_iface w1) |> <| w_ifaces := delete x (w_ifaces w1) |>).
  rewrite (on_w_ret _ () w2) by (exact (unlink_free w1 x i1 Hi1)).
  cbn [mbind res_bind mret res_ret].
  eexists _, l'. split; [done|].
  split; [exact (inv_drop_iface _ l' x Hinv2 (lookup_delete_eq _ _))|].
  split; [done|]. split; [|done]. cbn. apply delete_insert_eq.
Qed.

(** Every interface and its handle is closed: what is left is the routing socket. *)
Lemma bsd_iface_cleanup_spec b l :
  bsd_inv inh b l →
  ∃ b' l', bsd_iface_cleanup b = Done b' ∧ bsd_inv inh b' l' ∧ w_ifaces (b_world b') = ∅ ∧ b_bpf b' = ∅ ∧
    b_rt b' = b_rt b ∧ ∀ io, io ∈ l' → b_rt b = Some io.
Proof.
  intros Hinv. unfold bsd_iface_cleanup.
  assert (∀ xs b l, bsd_inv inh b l → w_first_iface (b_world b) = xs →
    ∃ b' l', run_all (λ l b, '(_, b) ← on_w (update w_ifaces l (λ i, i <| i_refcount := 1 |>)) b; bsd_iface_close l b)
        xs b = Done b' ∧ bsd_inv inh b' l' ∧ w_first_iface (b_world b') = [] ∧ b_rt b' = b_rt b) as Hrun.
  { clear b l Hinv. induction xs as [|x xs IH]; intros b l Hinv Hxs; cbn [run_all]; [by eexists b, l|].
    assert (x ∈ w_first_iface (b_world b)) as [i Hi]%(bi_ifaces _ _ _ Hinv) by (rewrite Hxs; set_solver).
    destruct (on_w_update b l x i (λ i, i <| i_refcount := 1 |>) Hinv Hi) as (b1 & E1 & Hinv1 & Ei1 & _ & _ & Ef1).
    assert (b_rt b1 = b_rt b) as Ert.
    { revert E1. unfold on_w, lift, update. rewrite Hi. by intros [= <-]. }
    rewrite E1. cbn [mbind res_bind].
    destruct (bsd_iface_close_spec b1 l x (i <| i_refcount := 1 |>) Hinv1) as (b2 & l2 & E2 & Hinv2 & Ert2 & _ & Ef2 & _);
      [by rewrite Ei1, lookup_insert_eq|].
    rewrite E2. cbn [mbind res_bind]. destruct (IH b2 l2 Hinv2) as (b3 & l3 & E3 & Hinv3 & Hnil & Ert3).
    { rewrite Ef2, Ef1, Hxs. cbn. by rewrite decide_True. }
    exists b3, l3. split_and!; [done..|]. congruence. }
  destruct (Hrun _ b l Hinv eq_refl) as (b' & l' & E & Hinv' & Hnil & Ert).
  assert (w_ifaces (b_world b') = ∅) as Hif.
  { apply map_eq. intros x. rewrite lookup_empty. apply eq_None_not_Some. rewrite <- (bi_ifaces _ _ _ Hinv'), Hnil. set_solver. }
  assert (b_bpf b' = ∅) as Hb.
  { apply map_eq. intros x. rewrite lookup_empty. destruct (b_bpf b' !! x) as [io|] eqn:Hio; [|done].
    destruct (bi_bpf _ _ _ Hinv' _ _ Hio) as [[i Hi] _]. by rewrite Hif, lookup_empty in Hi. }
  exists b', l'. split_and!; [done..|]. intros io Hio. rewrite <- Ert.
  destruct (bi_owned _ _ _ Hinv' _ Hio) as [?|[x Hx]]; [done|]. by rewrite Hb, lookup_empty in Hx.
Qed.

(** ** The routing socket *)

Lemma bsd_rt_open_spec socket a b l :
  bsd_inv inh b l →
  ∃ r b' l', bsd_rt_open socket a b = Done (r, b') ∧ bsd_inv inh b' l' ∧ r = bool_decide (is_Some (b_rt b')) ∧
    b_bpf b' = b_bpf b ∧ b_world b' = b_world b.
Proof.
  intros Hinv. unfold bsd_rt_open. destruct (b_rt b) as [io|] eqn:Hrt.
  { eexists true, b, l. split_and!; [done..|by rewrite Hrt|done|done]. }
  unfold nd_io_socket. destruct socket; cbn [negb mbind res_bind mret res_ret].
  2:{ eexists false, _, l. split; [done|]. split_and!; [|done..]. destruct Hinv as [I1 I2 I3 I4 I5 I6].
      split; cbn [b_io b_bpf b_rt b_world set_field set_b_io set_b_rt]; try done. intros io Hio.
      destruct (I4 io Hio) as [?|?]; [congruence|by right]. }
  unfold new_fd. destruct (create_inv Poll inh a (b_io b) l (bi_io _ _ _ Hinv)) as (o & s1 & -> & Hc & _).
  cbn [mbind res_bind]. destruct o as [io|].
  2:{ destruct Hc as [Hs Ev]. eexists false, _, l. split; [done|]. split_and!; [|done..].
      destruct Hinv as [I1 I2 I3 I4 I5 I6].
      split; cbn [b_io b_bpf b_rt b_world set_field set_b_io set_b_rt]; rewrite ?Ev; try done.
      intros io Hio. destruct (I4 io Hio) as [?|?]; [congruence|by right]. }
  destruct Hc as (Hx & Hs & Ev). cbn [b_io set_field set_b_rt set_b_io].
  destruct (handler_inv Poll inh s1 (io :: l) io RtHandler Hs) as (s2 & v & E2 & Hs2 & Hv & Ev2); [set_solver|].
  rewrite E2. cbn [mbind res_bind mret res_ret]. rewrite Ev, lookup_insert_eq in Hv. injection Hv as <-.
  rewrite Ev, insert_insert_eq in Ev2. cbn [io_fd io_data] in Ev2.
  eexists true, _, (io :: l). split; [done|]. split_and!; [|done..].
  assert (∀ y v, io_vals (b_io b) !! y = Some v → io_vals s2 !! y = Some v) as Hold.
  { intros y v Hy. rewrite Ev2, lookup_insert_ne; [done|]. intros <-.
    by rewrite (fresh_vals inh (b_io b) l io (bi_io _ _ _ Hinv) Hx) in Hy. }
  destruct Hinv as [I1 I2 I3 I4 I5 I6].
  split; cbn [b_io b_bpf b_rt b_world set_field set_b_io set_b_rt]; [done| | | |done|done].
  - intros y x Hy. destruct (I2 y x Hy) as [? [fd' E']]. split; [done|]. eauto.
  - intros x [= <-]. eexists. by rewrite Ev2, lookup_insert_eq.
  - intros x [-> |Hl]%elem_of_cons; [by left|]. destruct (I4 x Hl) as [?|?]; [congruence|by right].
Qed.
End inv.
End safe.
