(* ===== verification/SessionSpec.v ===== *)
(** * What the session handlers do

    Exact results of the handlers of session.c on every branch: the new state of
    the session, the frames and route requests that go out, and that nothing
    else changes. *)
From S2P Require Import Prelude Addr World Monad Packet Route Netlink Iface Session Proxy Receive.
From S2P Require Import Daemon Counting Invariant IfaceSafe SessionSafe.

Section spec.
Context {BO : ByteOrder}.
Implicit Types (w : world) (l : loc) (s : nd_session).

(** ** Output *)

(** What [ndL_send_icmp6] puts on the wire: nothing on a waiting interface. *)
Definition sent w (iface : option loc) (frame : nd_lladdr → list Z) : list event :=
  match iface with
  | None => []
  | Some l =>
      match w_ifaces w !! l with
      | Some i => if i_up i then [EvFrame (i_index i) (frame (i_lladdr i))] else []
      | None => []
      end
  end.

(** The probe of a session, and the answer to a host. *)
Definition probe w s : list event := sent w (s_iface s) (λ ll, ns_frame ll (s_tgt_r s)).

Definition answer w (r : nd_rule) (p : nd_proxy) s (dst : nd_addr) (dst_ll : nd_lladdr) : list event :=
  sent w (p_iface p) (λ ll, na_frame ll dst dst_ll (s_tgt s) (rule_tgt_ll r) (p_router p)).

Lemma world_out_id w : w <| w_out := w_out w |> = w.
Proof. by destruct w. Qed.

Lemma wp_icmp6_exact w l i frame (Q : unit → world → Prop) :
  w_pkt_io w = true → w_ifaces w !! l = Some i →
  Q () (w <| w_out := sent w (Some l) frame ++ w_out w |>) → wp (ndL_send_icmp6 l frame) Q w.
Proof.
  intros Hio Hi HQ. unfold ndL_send_icmp6, sent, use_io in *. wp_step. wp_step. rewrite Hi in HQ.
  destruct (i_up i); cbn [negb app] in *.
  - wp_step. wp_step. wp_step. rewrite Hio. wp_step. by wp_step.
  - wp_step. by rewrite world_out_id in HQ.
Qed.

Lemma wp_ns_exact w iface i tgt (Q : unit → world → Prop) :
  w_pkt_io w = true → w_ifaces w !! iface = Some i →
  Q () (w <| w_out := sent w (Some iface) (λ ll, ns_frame ll tgt) ++ w_out w |>) →
  wp (nd_iface_send_ns (Some iface) tgt) Q w.
Proof. intros. unfold nd_iface_send_ns. wp_step. wp_step. by eapply wp_icmp6_exact. Qed.

Lemma wp_na_exact w iface i dst dst_ll tgt tgt_ll router (Q : unit → world → Prop) :
  w_pkt_io w = true → w_ifaces w !! iface = Some i →
  Q () (w <| w_out :=
    sent w (Some iface) (λ ll, na_frame ll dst dst_ll tgt tgt_ll router) ++ w_out w |>) →
  wp (nd_iface_send_na (Some iface) dst dst_ll tgt tgt_ll router) Q w.
Proof. intros. unfold nd_iface_send_na. wp_step. wp_step. by eapply wp_icmp6_exact. Qed.

Lemma inv_pkt_io ex hole w : inv ex hole w → w_pkt_io w = true.
Proof. by intros [[] _]. Qed.

(** ** Results *)

(** [w'] is [w] with the session [l] replaced by [s'] and [evs] sent. *)
Definition becomes l w (s' : nd_session) (evs : list event) w' : Prop :=
  w' = w <| w_sessions := <[l := s']> (w_sessions w) |> <| w_out := evs ++ w_out w |>.

Lemma becomes_same l w s evs : w_sessions w !! l = Some s → becomes l w s evs (w <| w_out := evs ++ w_out w |>).
Proof. intros Hl. unfold becomes. rewrite insert_id by done. by destruct w. Qed.

Lemma becomes_skip l w s : w_sessions w !! l = Some s → becomes l w s [] w.
Proof. intros Hl. unfold becomes. rewrite insert_id by done. by destruct w. Qed.

(** ** The timer *)

(** The session after [nd_session_update] in a state other than INVALID and
    whether it probes; [up] is whether its interface is, [keep] whether a session
    without interface is still to be answered. *)
Definition tick (conf : nd_conf) (now : Z) (up keep : bool) s : nd_session * bool :=
  match s_state s with
  | ND_STATE_INCOMPLETE =>
      if up then
        if now - s_ons_time s <? nd_conf_retrans_time conf then (s, false)
        else if nd_conf_retrans_limit conf <=? s_ons_count s
        then (s <| s_ons_count := s_ons_count s + 1 |> <| s_state := ND_STATE_INVALID |> <| s_state_time := now |>, false)
        else (s <| s_ons_count := s_ons_count s + 1 |>, true)
      else if now - s_state_time s <? nd_conf_invalid_ttl conf
      then (s <| s_ons_time := now |>, false)
      else (s <| s_state := ND_STATE_INVALID |> <| s_state_time := now |>, false)
  | ND_STATE_VALID =>
      if now - s_state_time s <? nd_conf_valid_ttl conf then (s, false)
      else if bool_decide (s_iface s = None) then
        (if keep then s <| s_state_time := now |>
         else s <| s_state := ND_STATE_INVALID |> <| s_state_time := now |>, false)
      else
        let active := nd_conf_keepalive conf || (now - s_ins_time s <? nd_conf_valid_ttl conf) in
        (s <| s_state := ND_STATE_STALE |> <| s_state_time := now |> <| s_ons_time := now |>
           <| s_ons_count := if active then 1 else 0 |>, active)
  | ND_STATE_STALE =>
      if nd_conf_stale_ttl conf <=? now - s_state_time s
      then (s <| s_state := ND_STATE_INVALID |> <| s_state_time := now |>, false)
      else if negb (nd_conf_keepalive conf) && (nd_conf_valid_ttl conf <? now - s_ins_time s) then (s, false)
      else if now - s_ons_time s <? stale_backoff conf (s_ons_count s) then (s, false)
      else (s <| s_ons_count := s_ons_count s + 1 |> <| s_ons_time := now |>, true)
  | ND_STATE_INVALID => (s, false)
  end.

(** The two parameters of [tick], read from the world. *)
Definition iface_is_up w (iface : option loc) : bool :=
  match iface with
  | None => false
  | Some l => match w_ifaces w !! l with Some i => i_up i | None => false end
  end.

Definition rule_owns w (r : nd_rule) (a : nd_addr) : bool :=
  match r_iface r with
  | None => false
  | Some l =>
      match w_ifaces w !! l with
      | Some i => i_up i && nd_rt_is_local_addr (i_index i) a (w_addrs w)
      | None => false
      end
  end.

Definition still_answered w (r : nd_rule) s : bool :=
  bool_decide (r_mode r = ND_MODE_STATIC) || rule_owns w r (s_tgt_r s).

Lemma wp_owns_exact w rl r a (Q : bool → world → Prop) :
  world_inv w → w_rules w !! rl = Some r → Q (rule_owns w r a) w → wp (rule_iface_owns r a) Q w.
Proof.
  intros Hinv Hr HQ. unfold rule_iface_owns, rule_owns in *.
  destruct (r_iface r) as [iface|] eqn:Ei; [|by wp_step].
  destruct (rule_iface_live _ _ _ Hinv none_nonneg _ _ _ Hr Ei) as [i Hi]. rewrite Hi in HQ.
  repeat wp_step. destruct (i_up i); cbn [negb]; by wp_step.
Qed.
(** A probe after an update of the session. *)
Lemma wp_update_probe_exact w l s f iface :
  world_inv w → w_sessions w !! l = Some s → s_iface s = Some iface →
  wp (set_session l f;; nd_iface_send_ns (s_iface s) (s_tgt_r s))
    (λ _ w', becomes l w (f s) (probe w s) w') w.
Proof.
  intros Hinv Hl Ei. unfold probe. rewrite Ei. wp_step. unfold set_session. wp_step.
  destruct (session_iface_live _ _ _ Hinv none_nonneg _ _ _ Hl Ei) as [i Hi].
  eapply wp_ns_exact; [exact (inv_pkt_io _ _ _ Hinv)|exact Hi|]. unfold becomes. by world_eq.
Qed.

Lemma wp_set_exact w l s f :
  w_sessions w !! l = Some s → wp (set_session l f) (λ _ w', becomes l w (f s) [] w') w.
Proof. intros Hl. unfold set_session. wp_step. unfold becomes. by world_eq. Qed.

Lemma wp_set_state_exact w l s st :
  w_sessions w !! l = Some s →
  wp (set_state l st)
    (λ _ w', becomes l w (s <| s_state := st |> <| s_state_time := nd_current_time w |>) [] w') w.
Proof.
  intros Hl. unfold set_state. wp_step. wp_step.
  by apply (wp_set_exact w l s (λ s, s <| s_state := st |> <| s_state_time := _ |>)).
Qed.

Lemma becomes_twice l w s1 s2 e1 e2 w1 w2 :
  becomes l w s1 e1 w1 → becomes l w1 s2 e2 w2 → becomes l w s2 (e2 ++ e1) w2.
Proof.
  unfold becomes. intros -> ->. world_eq.
  - apply insert_insert_eq.
  - by rewrite app_assoc.
Qed.

Lemma becomes_lookup l w s evs w' : becomes l w s evs w' → w_sessions w' !! l = Some s.
Proof. intros ->. apply lookup_insert_eq. Qed.

Lemma wp_becomes_bind l w s1 (m k : M unit) s2 e1 e2 :
  wp m (λ _ w', becomes l w s1 e1 w') w →
  (∀ w1, becomes l w s1 e1 w1 → wp k (λ _ w', becomes l w1 s2 e2 w') w1) →
  wp (m;; k) (λ _ w', becomes l w s2 (e2 ++ e1) w') w.
Proof.
  intros Hm Hk. wp_step. eapply wp_mono; [exact Hm|]. intros [] w1 H1.
  eapply wp_mono; [by apply Hk|]. intros [] w2 H2. by eapply becomes_twice.
Qed.

Lemma ltb_succ a b : (a <? b + 1) = (a <=? b).
Proof. apply Bool.eq_iff_eq_true. rewrite Z.ltb_lt, Z.leb_le. lia. Qed.

Definition update_tick w l s (m : M unit) (up keep : bool) : Prop :=
  wp m (λ _ w', becomes l w (tick (w_conf w) (nd_current_time w) up keep s).1
     (if (tick (w_conf w) (nd_current_time w) up keep s).2 then probe w s else []) w') w.

Lemma incomplete_tick w l s keep :
  world_inv w → w_sessions w !! l = Some s → s_state s = ND_STATE_INCOMPLETE →
  update_tick w l s (update_incomplete l s) (iface_is_up w (s_iface s)) keep.
Proof.
  intros Hinv Hl Est. unfold update_tick, tick, update_incomplete. rewrite Est.
  destruct (probing_iface _ _ _ Hinv Hl (or_introl Est)) as [iface Ei].
  destruct (session_iface_live _ _ _ Hinv none_nonneg _ _ _ Hl Ei) as [i Hi].
  do 4 wp_step. wp_step. unfold iface_is_up. rewrite Ei, Hi. do 3 wp_step. rewrite <- Ei.
  destruct (i_up i); cbn [negb].
  - destruct (_ <? _); [wp_step; by apply becomes_skip|].
    rewrite ltb_succ.
    destruct (_ <=? _); cbn [fst snd].
    + apply (wp_becomes_bind l w (s <| s_ons_count := s_ons_count s + 1 |>) _ _ _ [] []).
      * by apply (wp_set_exact w l s (λ s, s <| s_ons_count := s_ons_count s + 1 |>)).
      * intros w1 Hw1. pose proof (becomes_lookup _ _ _ _ _ Hw1) as Hl1.
        eapply wp_set_state_exact in Hl1. unfold becomes in Hw1. by subst w1.
    + by eapply (wp_update_probe_exact w l s (λ s, s <| s_ons_count := s_ons_count s + 1 |>)).
  - destruct (_ <? _); cbn [fst snd].
    + by apply (wp_set_exact w l s (λ s, s <| s_ons_time := _ |>)).
    + by apply wp_set_state_exact.
Qed.

Lemma valid_tick w l s r :
  world_inv w → w_sessions w !! l = Some s → w_rules w !! s_rule s = Some r →
  s_state s = ND_STATE_VALID →
  update_tick w l s (update_valid l s) (iface_is_up w (s_iface s)) (still_answered w r s).
Proof.
  intros Hinv Hl Hr Est. unfold update_tick, tick, update_valid. rewrite Est. do 4 wp_step.
  destruct (_ <? _) eqn:Ettl; [wp_step; by apply becomes_skip|].
  destruct (s_iface s) as [iface|] eqn:Ei.
  - rewrite bool_decide_eq_false_2 by done. rewrite <- Ei. cbv zeta. cbn [fst snd].
    set (now := nd_current_time w). set (conf := w_conf w).
    set (s1 := s <| s_state := ND_STATE_STALE |> <| s_state_time := now |>).
    set (s2 := s1 <| s_ons_time := now |>).
    assert (∀ evs (k : M unit) (s3 : nd_session),
      (∀ w2, becomes l w s2 [] w2 → wp k (λ _ w', becomes l w2 s3 evs w') w2) →
      wp (set_state l ND_STATE_STALE;; set_session l (λ s, s <| s_ons_time := now |>);; k)
        (λ _ w', becomes l w s3 evs w') w) as Hseq.
    { intros evs k s3 Hk. rewrite <- (app_nil_r evs).
      eapply wp_becomes_bind; [by apply wp_set_state_exact|]. intros w1 Hw1.
      rewrite <- (app_nil_r evs). eapply wp_becomes_bind.
      - eapply (wp_set_exact w1 l s1 (λ s, s <| s_ons_time := now |>)). by eapply becomes_lookup.
      - intros w2 Hw2. apply Hk. eapply (becomes_twice l w s1 s2 [] []); done. }
    destruct (nd_conf_keepalive conf || (now - s_ins_time s <? nd_conf_valid_ttl conf)).
    + apply Hseq. intros w2 Hw2. pose proof (becomes_lookup _ _ _ _ _ Hw2) as Hl2.
      wp_step. unfold set_session. wp_step. rewrite Ei.
      destruct (session_iface_live _ _ _ Hinv none_nonneg _ _ _ Hl Ei) as [i Hi].
      unfold becomes in Hw2. subst w2. eapply wp_ns_exact; [exact (inv_pkt_io _ _ _ Hinv)|exact Hi|].
      unfold becomes, probe. rewrite Ei. by world_eq.
    + apply Hseq. intros w2 Hw2. pose proof (becomes_lookup _ _ _ _ _ Hw2) as Hl2.
      by apply (wp_set_exact w2 l s2 (λ s, s <| s_ons_count := 0 |>)).
  - rewrite bool_decide_eq_true_2 by done. cbn [fst snd]. unfold still_answered. wp_step. wp_step. wp_step.
    destruct (bool_decide_reflect (r_mode r = ND_MODE_STATIC)) as [Em|Em]; cbn [orb].
    + wp_step. by apply (wp_set_exact w l s (λ s, s <| s_state_time := _ |>)).
    + eapply wp_owns_exact; [exact Hinv|exact Hr|]. destruct (rule_owns w r (s_tgt_r s)).
      * by apply (wp_set_exact w l s (λ s, s <| s_state_time := _ |>)).
      * by apply wp_set_state_exact.
Qed.

Lemma stale_tick w l s keep :
  world_inv w → w_sessions w !! l = Some s → s_state s = ND_STATE_STALE →
  update_tick w l s (update_stale l s) (iface_is_up w (s_iface s)) keep.
Proof.
  intros Hinv Hl Est. unfold update_tick, tick, update_stale. rewrite Est. do 4 wp_step.
  destruct (probing_iface _ _ _ Hinv Hl (or_intror Est)) as [iface Ei].
  destruct (_ <=? _); [by apply wp_set_state_exact|].
  destruct (_ && _); [wp_step; by apply becomes_skip|].
  destruct (_ <? _); [wp_step; by apply becomes_skip|]. cbn [fst snd].
  by eapply (wp_update_probe_exact w l s
    (λ s, s <| s_ons_count := s_ons_count s + 1 |> <| s_ons_time := nd_current_time w |>)).
Qed.

Lemma session_update_tick w l s r :
  world_inv w → w_sessions w !! l = Some s → w_rules w !! s_rule s = Some r →
  s_state s ≠ ND_STATE_INVALID →
  update_tick w l s (nd_session_update l) (iface_is_up w (s_iface s)) (still_answered w r s).
Proof.
  intros Hinv Hl Hr Hst. unfold nd_session_update, update_tick. wp_step. wp_step.
  destruct (s_state s) eqn:Est; [by apply incomplete_tick|by apply valid_tick|by apply stale_tick|done].
Qed.
(** The route requests of [ndL_up] and [ndL_down]. *)
Definition wires w (r : nd_rule) s : bool :=
  iface_is_up w (s_iface s) && negb (s_autowired s) && r_autowire r.

Definition iface_index w (iface : option loc) : Z :=
  match iface with
  | Some l => match w_ifaces w !! l with Some i => i_index i | None => 0 end
  | None => 0
  end.

Definition wire_request w (r : nd_rule) s : list event :=
  if wires w r s
  then [EvNetlink (add_route_request (s_tgt s) 128 (iface_index w (s_iface s)) (r_table r))] else [].

Definition unwires s : bool := negb (bool_decide (s_iface s = None)) && s_autowired s.

Definition unwire_request (r : nd_rule) s : list event :=
  if unwires s then [EvNetlink (remove_route_request (s_tgt s) 128 (r_table r))] else [].

Lemma set_autowired_id s : s <| s_autowired := s_autowired s |> = s.
Proof. by destruct s. Qed.

Section wiring.
Context w l s r (Hio : w_rt_io w = true) (Hl : w_sessions w !! l = Some s)
  (Hr : w_rules w !! s_rule s = Some r).

Lemma wp_up_exact :
  (∀ iface, s_iface s = Some iface → is_Some (w_ifaces w !! iface)) →
  wp (ndL_up l) (λ _ w', becomes l w (s <| s_autowired := s_autowired s || wires w r s |>)
                           (wire_request w r s) w') w.
Proof.
  intros Hlive. unfold ndL_up, wire_request, wires, iface_is_up, iface_index. wp_step. wp_step.
  destruct (s_iface s) as [iface|] eqn:Ei.
  2:{ wp_step. cbn [andb]. rewrite orb_false_r, set_autowired_id. by apply becomes_skip. }
  destruct (Hlive iface eq_refl) as [i Hi]. rewrite Hi. wp_step. wp_step.
  destruct (i_up i); cbn [negb andb].
  2:{ wp_step. rewrite orb_false_r, set_autowired_id. by apply becomes_skip. }
  destruct (s_autowired s) eqn:Ea; cbn [negb andb orb].
  { wp_step. rewrite <- Ea, set_autowired_id. by apply becomes_skip. }
  wp_step. wp_step. destruct (r_autowire r); cbn [negb].
  2:{ wp_step. rewrite <- Ea, set_autowired_id. by apply becomes_skip. }
  unfold nd_rt_add_route, use_io, set_session. wp_step. wp_step. wp_step. wp_step. rewrite Hio.
  wp_step. wp_step. wp_step. unfold becomes. by world_eq.
Qed.

Lemma wp_down_exact :
  wp (ndL_down l) (λ _ w', becomes l w (s <| s_autowired := s_autowired s && negb (unwires s) |>)
                             (unwire_request r s) w') w.
Proof.
  unfold ndL_down, unwire_request, unwires. wp_step. wp_step.
  destruct (s_iface s) as [iface|] eqn:Ei.
  2:{ wp_step. rewrite bool_decide_eq_true_2 by done. cbn [andb negb].
      rewrite andb_true_r, set_autowired_id. by apply becomes_skip. }
  rewrite bool_decide_eq_false_2 by done. cbn [andb negb].
  destruct (s_autowired s) eqn:Ea; cbn [negb andb].
  2:{ wp_step. rewrite <- Ea, set_autowired_id. by apply becomes_skip. }
  unfold nd_rt_remove_route, use_io, set_session. do 6 wp_step. rewrite Hio.
  wp_step. wp_step. wp_step. unfold becomes. by world_eq.
Qed.
End wiring.

(** An INVALID session waits, then its host route is removed, and it is
    unlinked and freed. *)
Lemma wp_invalid_exact w l s r :
  world_inv w → w_sessions w !! l = Some s → w_rules w !! s_rule s = Some r →
  s_state s = ND_STATE_INVALID →
  wp (nd_session_update l) (λ _ w',
    if nd_current_time w - s_state_time s <? nd_conf_invalid_ttl (w_conf w) then w' = w
    else w_sessions w' = delete l (w_sessions w) ∧ w_session_count w' = w_session_count w - 1) w.
Proof.
  intros Hinv Hl Hr Est. unfold nd_session_update. wp_step. wp_step. rewrite Est. unfold update_invalid.
  do 4 wp_step. destruct (_ <? _); [by wp_step|].
  pose proof Hinv as (_ & [_ _ Hrt] & _).
  wp_step. eapply wp_mono; [eapply wp_and; [by eapply wp_ndL_down; [exact Hinv|exact none_nonneg|]|
    by eapply wp_down_exact]|].
  intros [] w1 [(Hinv1 & (s1 & Hl1 & _ & _ & _ & Ei & _) & _) Hb]. wp_step.
  assert (wp match s_iface s with Some iface => nd_iface_close iface | None => mret () end
    (λ _ w2, only_ifaces w1 w2) w1) as Hclose.
  { destruct (s_iface s) as [iface|] eqn:Ei1.
    - destruct (session_iface_live _ _ _ Hinv1 none_nonneg _ _ _ Hl1 Ei) as [i Hi].
      eapply wp_mono; [by eapply wp_iface_close|]. by intros [] w2 [? _].
    - wp_step. apply only_ifaces_refl. }
  eapply wp_mono; [exact Hclose|]. intros [] w2 (ifs & fl & evs & -> & Hevs).
  unfold upd_bucket. do 6 wp_step. eapply wp_free; [exact Hl1|].
  unfold becomes in Hb. subst w1. split; [|done]. apply delete_insert_eq.
Qed.

(** ** Neighbor advertisements *)

(** The answers to the hosts that wait, latest first. *)
Fixpoint answers w (r : nd_rule) (p : nd_proxy) s (subs : list nd_sub) : list event :=
  match subs with
  | [] => []
  | sub :: subs => answers w r p s subs ++ answer w r p s (sub_addr sub) (sub_lladdr sub)
  end.

Lemma wp_answers w r p pl s iface i subs :
  w_pkt_io w = true → w_proxies w !! pl = Some p → p_iface p = Some iface →
  w_ifaces w !! iface = Some i →
  ∀ out w1, w1 = w <| w_out := out |> → wp (for_each subs (λ sub,
    proxy ← load w_proxies pl;
    nd_iface_send_na (p_iface proxy) (sub_addr sub) (sub_lladdr sub) (s_tgt s)
      (rule_tgt_ll r) (p_router proxy)))
    (λ _ w', w' = w <| w_out := answers w r p s subs ++ out |>) w1.
Proof.
  intros Hio Hp Ei Hi. induction subs as [|sub subs IH]; intros out w1 ->; cbn [for_each answers].
  - by wp_step.
  - wp_step. wp_step. eapply wp_load; [exact Hp|]. rewrite Ei.
    eapply wp_na_exact; [exact Hio|exact Hi|].
    eapply wp_mono; [apply (IH (answer w r p s (sub_addr sub) (sub_lladdr sub) ++ out))|].
    + unfold answer. rewrite Ei. by world_eq.
    + intros [] w' ->. by rewrite <- app_assoc.
Qed.

(** [nd_session_handle_na] on a session that waits for confirmation. *)
Lemma wp_handle_na_exact w l s r p :
  world_inv w → w_sessions w !! l = Some s → w_rules w !! s_rule s = Some r →
  w_proxies w !! r_proxy r = Some p → s_state s ≠ ND_STATE_VALID →
  wp (nd_session_handle_na l) (λ _ w',
    becomes l w (s <| s_subs := [] |> <| s_autowired := s_autowired s || wires w r s |>
                   <| s_state := ND_STATE_VALID |> <| s_state_time := nd_current_time w |>)
      (wire_request w r s ++ answers w r p s (s_subs s)) w') w.
Proof.
  intros Hinv Hl Hr Hp Hst. unfold nd_session_handle_na. do 4 wp_step.
  rewrite bool_decide_eq_false_2 by done. wp_step. wp_step.
  destruct (proxy_iface_live _ _ _ Hinv none_nonneg _ _ Hp) as (pi & i & Ei & Hi).
  pose proof Hinv as (_ & [_ _ Hrt] & _).
  wp_step. eapply wp_mono.
  { eapply wp_answers; [exact (inv_pkt_io _ _ _ Hinv)|exact Hp|exact Ei|exact Hi|].
    symmetry. apply world_out_id. }
  intros [] w1 Hw1. wp_step. unfold set_session at 1. eapply wp_update; [by subst w1|].
  set (s1 := s <| s_subs := [] |>). wp_step. eapply wp_mono.
  { eapply (wp_up_exact _ l s1 r); [by subst w1|apply lookup_insert_eq|by subst w1|].
    intros iface Eif. subst w1.
    exact (session_iface_live _ _ _ Hinv none_nonneg _ _ _ Hl Eif). }
  intros [] w2 Hw2. eapply wp_mono; [eapply wp_set_state_exact; by eapply becomes_lookup|].
  intros [] w3 Hw3. unfold becomes in *. subst w1 w2 w3. unfold wire_request, wires, s1.
  world_eq; [by rewrite !insert_insert_eq|]. by rewrite <- app_assoc.
Qed.
(** ** Neighbor solicitations *)

(** Only probes for [tgt_r] went out (and memberships of interfaces changed). *)
Definition probe_event (tgt_r : nd_addr) (e : event) : Prop :=
  membership e ∨ ∃ ifindex ll, e = EvFrame ifindex (ns_frame ll tgt_r).

Definition probes_only (tgt_r : nd_addr) w w' : Prop :=
  ∃ evs, w_out w' = evs ++ w_out w ∧ Forall (probe_event tgt_r) evs.

Lemma probes_only_refl t w : probes_only t w w.
Proof. by exists []. Qed.

Lemma probes_only_trans t w1 w2 w3 : probes_only t w1 w2 → probes_only t w2 w3 → probes_only t w1 w3.
Proof.
  intros (e1 & E1 & F1) (e2 & E2 & F2). exists (e2 ++ e1). split; [by rewrite E2, E1, app_assoc|].
  by apply Forall_app.
Qed.

Lemma sent_probe t w iface : Forall (probe_event t) (sent w iface (λ ll, ns_frame ll t)).
Proof.
  unfold sent. destruct iface as [l|]; [|constructor].
  destruct (w_ifaces w !! l) as [i|]; [|constructor]. destruct (i_up i); [|constructor].
  constructor; [|constructor]. right. by eauto.
Qed.

(** The session is as [s] but for its times and counts, or it left the state
    INVALID because a route to its target has appeared. *)
Definition unanswered l s w w' : Prop :=
  probes_only (s_tgt_r s) w w' ∧
  ∃ s', w_sessions w' !! l = Some s' ∧ s_subs s' = s_subs s ∧ s_tgt_r s' = s_tgt_r s ∧
    (s_state s' = s_state s ∧ s_iface s' = s_iface s ∨
     s_state s = ND_STATE_INVALID ∧ s_iface s = None ∧ s_state s' = ND_STATE_INCOMPLETE ∧ s_iface s' ≠ None).

Lemma recheck_unanswered K w l s :
  world_inv w → w_sessions w !! l = Some s →
  wp (session_recheck_route K l) (λ _, unanswered l s w) w.
Proof.
  intros Hinv Hl. unfold session_recheck_route. wp_step. wp_step.
  assert (unanswered l s w w) as Hskip.
  { split; [apply probes_only_refl|]. exists s. by split_and!; [..|left]. }
  destruct (bool_decide_reflect (s_state s = ND_STATE_INVALID)) as [Est|]; cbn [negb andb]; [|by wp_step].
  destruct (bool_decide_reflect (s_iface s = None)) as [Ei|]; cbn [negb]; [|by wp_step].
  destruct (session_rule_live _ _ _ Hinv _ _ Hl) as (r & p & Hr & Hp & _).
  wp_step. wp_step. destruct (bool_decide _); cbn [negb]; [|by wp_step].
  wp_step. wp_step. destruct (nd_rt_find_route _ _ _) as [route|]; [|by wp_step].
  wp_step. wp_step. destruct (proxy_iface_live _ _ _ Hinv none_nonneg _ _ Hp) as (pif & i & Epi & Hi).
  rewrite Epi. do 4 wp_step. destruct (rt_oif route =? i_index i); [by wp_step|].
  wp_step. eapply wp_mono; [by eapply wp_iface_open; [exact none_nonneg|exact Hinv]|].
  intros iface w' [(ifs & fl & evs & -> & Hevs) Hopen].
  assert (Forall (probe_event (s_tgt_r s)) evs) as Hpe.
  { eapply list.Forall_impl; [exact Hevs|]. intros e He. by left. }
  destruct iface as [iface|].
  - destruct Hopen as [Hinv' [j Hj]]. unfold set_state, set_session. wp_step. wp_step. wp_step.
    wp_step. wp_step. eapply wp_update; [apply lookup_insert_eq|]. do 3 wp_step.
    eapply wp_update; [apply lookup_insert_eq|].
    eapply wp_ns_exact; [exact (inv_pkt_io _ _ _ Hinv')|exact Hj|]. split.
    + eexists (sent _ (Some iface) _ ++ evs). split; [by rewrite <- app_assoc|].
      apply Forall_app. split; [apply sent_probe|done].
    + eexists. split; [apply lookup_insert_eq|]. by split_and!; [..|right].
  - unfold set_session. wp_step. wp_step. wp_step. split; [by exists evs|].
    eexists. split; [apply lookup_insert_eq|]. split_and!; [done|done|]. by left.
Qed.

Lemma probe_stale_unanswered w l s :
  world_inv w → w_sessions w !! l = Some s →
  wp (session_probe_stale l) (λ _, unanswered l s w) w.
Proof.
  intros Hinv Hl. unfold session_probe_stale. do 6 wp_step.
  destruct (_ && _) eqn:Hb.
  2:{ wp_step. split; [apply probes_only_refl|]. exists s. by split_and!; [..|left]. }
  apply andb_true_iff in Hb as [[_ Hi]%andb_true_iff _].
  destruct (s_iface s) as [iface|] eqn:Ei; [|done]. rewrite <- Ei.
  eapply wp_mono; [by eapply wp_update_probe_exact|]. intros [] w' ->. split.
  - exists (probe w s). split; [done|]. apply sent_probe.
  - eexists. split; [apply lookup_insert_eq|]. split_and!; [done|done|]. by left.
Qed.

Lemma unanswered_trans l s s1 w w1 w2 :
  unanswered l s w w1 → w_sessions w1 !! l = Some s1 → unanswered l s1 w1 w2 → unanswered l s w w2.
Proof.
  intros [Hp1 (s1' & Hl1 & Es1 & Et1 & Hst1)] Hl1' [Hp2 (s2 & Hl2 & Es2 & Et2 & Hst2)]. simplify_eq.
  split; [rewrite Et1 in Hp2; by eapply probes_only_trans|].
  exists s2. split_and!; [done|congruence|congruence|].
  destruct Hst1 as [[E1 E2]|(E1 & E2 & E3 & E4)], Hst2 as [[F1 F2]|(F1 & F2 & F3 & F4)];
    [left|right|right|congruence]; split_and!; congruence.
Qed.

(** The subscribers after a solicitation from ([src], [ll]). *)
Definition subscribed (src : nd_addr) (ll : nd_lladdr) (subs : list nd_sub) : list nd_sub :=
  if existsb (same_sub src ll) subs then subs
  else if ND_SESSION_MAX_SUBS <=? Z.of_nat (length subs) then subs
  else mk_sub src ll :: subs.
Lemma tail_unanswered K w l s :
  world_inv w → w_sessions w !! l = Some s →
  wp (session_recheck_route K l;; session_probe_stale l) (λ _, unanswered l s w) w.
Proof.
  intros Hinv Hl. wp_step.
  eapply wp_mono; [eapply wp_and; [by eapply wp_recheck_route|by eapply recheck_unanswered]|].
  intros [] w1 [(Hinv1 & [s1 Hl1] & _) Hu]. eapply wp_mono; [by apply probe_stale_unanswered|].
  intros [] w2 Hu2. by eapply unanswered_trans.
Qed.

(** [nd_session_handle_ns] before the target is confirmed. *)
Lemma wp_handle_ns_unconfirmed K w l s src src_ll :
  world_inv w → w_sessions w !! l = Some s → s_state s ≠ ND_STATE_VALID →
  wp (nd_session_handle_ns K l src src_ll) (λ _ w',
    probes_only (s_tgt_r s) w w' ∧
    ∃ s', w_sessions w' !! l = Some s' ∧
      s_subs s' = match src_ll with Some ll => subscribed src ll (s_subs s) | None => s_subs s end ∧
      (s_state s' = s_state s ∨
       s_state s = ND_STATE_INVALID ∧ s_iface s = None ∧ s_state s' = ND_STATE_INCOMPLETE)) w.
Proof.
  intros Hinv Hl Hst. unfold nd_session_handle_ns. do 3 wp_step.
  set (s1 := s <| s_ins_time := nd_current_time w |>).
  eapply wp_mono; [eapply wp_and; [by eapply wp_update_quiet|by apply wp_set_exact]|].
  intros [] w1 [(Hinv1 & _) Hw1]. pose proof (becomes_lookup _ _ _ _ _ Hw1) as Hl1. fold s1 in Hl1.
  wp_step. wp_step. rewrite bool_decide_eq_false_2 by done.
  assert (probes_only (s_tgt_r s) w w1) as Hp1 by (exists []; split; [by rewrite Hw1|constructor]).
  destruct src_ll as [ll|].
  2:{ wp_step. split; [done|]. exists s1. split_and!; [done..|by left]. }
  unfold subscribed. change (s_subs s) with (s_subs s1).
  destruct (existsb (same_sub src ll) (s_subs s1)) eqn:Hsub; cbn [negb andb].
  - cbn [when]. wp_step. wp_step. eapply wp_mono; [by eapply tail_unanswered|].
    intros [] w2 [Hp2 (s2 & Hl2 & Es2 & _ & Hst2)]. split; [by eapply probes_only_trans|].
    exists s2. split_and!; [done..|]. destruct Hst2 as [[? _]|(? & ? & ? & _)]; [by left|by right].
  - destruct (Z.leb_spec ND_SESSION_MAX_SUBS (Z.of_nat (length (s_subs s1)))).
    { wp_step. split; [done|]. exists s1. split_and!; [done..|by left]. }
    cbn [when]. wp_step. unfold set_session. wp_step.
    set (s2 := s1 <| s_subs := _ |>).
    assert (world_inv (set_field w_sessions (λ h, <[l := s2]> h) w1)) as Hinv2.
    { eapply inv_session_update; [exact Hinv1|exact Hl1|reflexivity..|by eapply subs_cons_ok|].
      intros r Hr Hh. eapply state_ok_same; [by eapply inv_state_ok|reflexivity..]. }
    eapply wp_mono; [by eapply (tail_unanswered K _ l s2); [|apply lookup_insert_eq]|].
    intros [] w3 [Hp3 (s3 & Hl3 & Es3 & _ & Hst3)]. split; [by eapply probes_only_trans|].
    exists s3. split_and!; [done..|]. destruct Hst3 as [[? _]|(? & ? & ? & _)]; [by left|by right].
Qed.

(** The cases in which nothing is sent: the solicitor gave no link-layer address,
    or the session is INVALID and has an interface. *)
Lemma wp_handle_ns_silent K w l s src src_ll :
  w_sessions w !! l = Some s →
  s_state s ≠ ND_STATE_VALID ∧ src_ll = None ∨ s_state s = ND_STATE_INVALID ∧ s_iface s ≠ None →
  wp (nd_session_handle_ns K l src src_ll) (λ _ w', w_out w' = w_out w) w.
Proof.
  intros Hl Hc. unfold nd_session_handle_ns. do 3 wp_step. eapply wp_mono; [by apply wp_set_exact|].
  intros [] w1 Hw1. pose proof (becomes_lookup _ _ _ _ _ Hw1) as Hl1.
  assert (w_out w1 = w_out w) as Eo by (by rewrite Hw1). wp_step. wp_step.
  set (s1 := s <| s_ins_time := _ |>) in *. rewrite bool_decide_eq_false_2 by (cbn; destruct Hc as [[? _]|[-> _]]; done).
  destruct src_ll as [ll|]; [|by wp_step]. destruct Hc as [[_ ?]|[Hst Hi]]; [done|].
  assert (∀ w2 s2, w_sessions w2 !! l = Some s2 → s_state s2 = ND_STATE_INVALID → s_iface s2 ≠ None →
    wp (session_recheck_route K l;; session_probe_stale l) (λ _ w', w_out w' = w_out w2) w2) as Htail.
  { intros w2 s2 Hl2 E1 E2. unfold session_recheck_route, session_probe_stale. wp_step. wp_step. wp_step.
    rewrite E1, (bool_decide_eq_false_2 (s_iface s2 = None)) by done. rewrite andb_false_r. cbn [negb].
    do 6 wp_step. rewrite E1, bool_decide_eq_false_2 by done. cbn [andb]. by wp_step. }
  destruct (negb _ && _); [by wp_step|]. wp_step. apply wp_when; intros _.
  - unfold set_session. wp_step. eapply wp_mono; [by eapply Htail; [apply lookup_insert_eq|..]|].
    intros [] w' ->. done.
  - eapply wp_mono; [by eapply Htail|]. intros [] w' ->. done.
Qed.

(** ... and when it is. *)
Lemma wp_handle_ns_valid K w l s r p src src_ll :
  world_inv w → w_sessions w !! l = Some s → w_rules w !! s_rule s = Some r →
  w_proxies w !! r_proxy r = Some p → s_state s = ND_STATE_VALID →
  wp (nd_session_handle_ns K l src src_ll) (λ _ w',
    becomes l w (s <| s_ins_time := nd_current_time w |>)
      (match src_ll with
       | Some ll => if nd_addr_is_unspecified src then answer w r p s allnodes allnodes_ll
                    else answer w r p s src ll
       | None => answer w r p s allnodes allnodes_ll
       end) w') w.
Proof.
  intros Hinv Hl Hr Hp Hst. unfold nd_session_handle_ns. do 3 wp_step. unfold set_session. wp_step.
  wp_step. eapply wp_load; [apply lookup_insert_eq|].
  destruct (proxy_iface_live _ _ _ Hinv none_nonneg _ _ Hp) as (pi & i & Ei & Hi).
  rewrite bool_decide_eq_true_2 by done. unfold session_answer_ns.
  wp_step. eapply wp_load; [exact Hr|]. wp_step. eapply wp_load; [exact Hp|].
  pose proof (inv_pkt_io _ _ _ Hinv) as Hio. rewrite Ei.
  destruct (nd_addr_is_unspecified src), src_ll as [ll|];
    (eapply wp_na_exact; [exact Hio|exact Hi|]); unfold becomes, answer; rewrite Ei; by world_eq.
Qed.
(** A solicitation for an INCOMPLETE session only queues the solicitor. *)
Lemma wp_handle_ns_incomplete K w l s src ll :
  w_sessions w !! l = Some s → s_state s = ND_STATE_INCOMPLETE →
  wp (nd_session_handle_ns K l src (Some ll)) (λ _ w',
    becomes l w (s <| s_ins_time := nd_current_time w |> <| s_subs := subscribed src ll (s_subs s) |>) [] w') w.
Proof.
  intros Hl Hst. unfold nd_session_handle_ns, set_session. do 3 wp_step. wp_step.
  wp_step. eapply wp_load; [apply lookup_insert_eq|].
  set (s1 := s <| s_ins_time := _ |>). set (w1 := set_field w_sessions _ w).
  assert (w_sessions w1 = <[l := s1]> (w_sessions w)) as E1 by done.
  assert (becomes l w s1 [] w1) as Hb1 by (unfold becomes, w1; by world_eq).
  rewrite bool_decide_eq_false_2 by (change (s_state s1) with (s_state s); by rewrite Hst).
  assert (∀ s2 w2, w_sessions w2 !! l = Some s2 → s_state s2 = ND_STATE_INCOMPLETE →
    wp (session_recheck_route K l;; session_probe_stale l) (λ _ w', w' = w2) w2) as Htail.
  { intros s2 w2 Hl2 Hst2. unfold session_recheck_route, session_probe_stale. do 3 wp_step.
    rewrite Hst2, (bool_decide_eq_false_2 (ND_STATE_INCOMPLETE = _)) by done. cbn [andb negb]. wp_step.
    do 6 wp_step. rewrite Hst2, (bool_decide_eq_false_2 (ND_STATE_INCOMPLETE = _)) by done.
    cbn [andb]. by wp_step. }
  unfold subscribed. change (s_subs s) with (s_subs s1).
  destruct (existsb (same_sub src ll) (s_subs s1)) eqn:Hsub; cbn [negb andb].
  - cbn [when]. wp_step. wp_step. eapply wp_mono; [apply (Htail s1); [by rewrite E1, lookup_insert_eq|exact Hst]|].
    intros [] w' ->. replace (s1 <| s_subs := s_subs s1 |>) with s1 by (by destruct s1). exact Hb1.
  - destruct (ND_SESSION_MAX_SUBS <=? _).
    { wp_step. replace (s1 <| s_subs := s_subs s1 |>) with s1 by (by destruct s1). exact Hb1. }
    cbn [when]. wp_step. eapply wp_update; [by rewrite E1; apply lookup_insert_eq|].
    eapply wp_mono; [eapply Htail; [apply lookup_insert_eq|exact Hst]|].
    intros [] w' ->. unfold becomes, w1. world_eq. apply insert_insert_eq.
Qed.

(** ** Creation *)

(** The new session of an [iface] rule whose target this host does not own: it is
    INCOMPLETE and probed once. *)
Lemma wp_create_iface_exact K w rl r tgt d i :
  world_inv w → w_session_count w < ND_SESSION_MAX → w_rules w !! rl = Some r →
  r_mode r = ND_MODE_IFACE → r_iface r = Some d → w_ifaces w !! d = Some i →
  let tgt_r := nd_addr_combine (r_rewrite_tgt r) tgt (r_rewrite_pflen r) in
  rule_owns w r tgt_r = false →
  wp (nd_session_create K rl tgt) (λ o w', ∃ l, o = Some l ∧ w_sessions w !! l = None ∧
    w_sessions w' = <[l := mk_session rl tgt tgt_r 1 (nd_current_time w) 0 (nd_current_time w)
                             ND_STATE_INCOMPLETE (Some d) [] false]> (w_sessions w) ∧
    w_out w' = sent w (Some d) (λ ll, ns_frame ll tgt_r) ++ w_out w ∧
    nd_current_time w' = nd_current_time w) w.
Proof.
  intros Hinv Hc Hr Hm Hd Hi tgt_r Howns. unfold nd_session_create. wp_step. wp_step.
  destruct (Z.leb_spec ND_SESSION_MAX (w_session_count w)); [lia|]. do 4 wp_step. wp_step. apply wp_alloc.
  intros l Hl. unfold upd_bucket. do 7 wp_step.
  pose (s0 := mk_session rl tgt tgt_r 0 0 0 (nd_current_time w) ND_STATE_INCOMPLETE None [] false).
  lazymatch goal with |- wp _ _ ?x => set (w1 := x) end.
  assert (w_sessions w1 = <[l := s0]> (w_sessions w)) as Es by done.
  assert (w_ifaces w1 = w_ifaces w) as Eif by done.
  assert (w_out w1 = w_out w ∧ w_addrs w1 = w_addrs w ∧ nd_current_time w1 = nd_current_time w)
    as (Eo & Ea & Et) by done.
  assert (w_pkt_io w1 = true) as Hio by exact (inv_pkt_io _ _ _ Hinv). clearbody w1.
  unfold session_init. rewrite Hm, bool_decide_eq_false_2, bool_decide_eq_true_2 by done. wp_step.
  assert (wp (rule_iface_owns r tgt_r) (λ b w', b = false ∧ w' = w1) w1) as Hown.
  { unfold rule_iface_owns, rule_owns in *. rewrite Hd in *. rewrite Hi in Howns. wp_step.
    eapply wp_load; [by rewrite Eif|]. destruct (i_up i); cbn [negb andb] in *; wp_step; [|done].
    by rewrite Ea. }
  eapply wp_mono; [exact Hown|]. intros b w' [-> ->]. rewrite Hd. unfold set_session. wp_step.
  eapply wp_update; [rewrite Es; apply lookup_insert_eq|]. wp_step.
  eapply wp_update; [by cbn; rewrite Eif|]. unfold session_start_probe, set_session. wp_step.
  eapply wp_load; [apply lookup_insert_eq|]. cbn [s_iface set_s_iface set_field]. do 3 wp_step.
  eapply wp_update; [apply lookup_insert_eq|].
  eapply wp_ns_exact; [exact Hio|apply lookup_insert_eq|]. wp_step.
  exists l. split_and!; [done|done| | |exact Et].
  - cbn. rewrite Es, !insert_insert_eq. by rewrite Et.
  - cbn. rewrite Eo. unfold sent. cbn. by rewrite lookup_insert_eq, Hi.
Qed.
End spec.
