(* ===== verification/SessionLive.v ===== *)
(** * Sessions that nobody confirms expire

    One round of [nd_session_update_all] visits every session exactly once, and a
    session whose target never answers is removed after a bounded time, whatever
    happens to its interface and however often hosts ask for it. *)
From S2P Require Import Prelude Addr World Monad Packet Route Netlink Iface Session Proxy Receive.
From S2P Require Import Daemon Counting Invariant IfaceSafe SessionSafe DaemonSafe SessionSpec.

Section live.
Context {BO : ByteOrder}.
Implicit Types (w : world) (l : loc) (s : nd_session).

(** ** One round *)

(** What one visit of [nd_session_update] makes of [s]; [None] when it is freed. *)
Definition visited (conf : nd_conf) (now : Z) s (o : option nd_session) : Prop :=
  match s_state s with
  | ND_STATE_INVALID =>
      o = if now - s_state_time s <? nd_conf_invalid_ttl conf then Some s else None
  | _ => ∃ up keep, o = Some (tick conf now up keep s).1
  end.

Lemma tick_tgt conf now up keep s : s_tgt (tick conf now up keep s).1 = s_tgt s.
Proof. unfold tick. by repeat case_match. Qed.

Lemma tick_kept conf now up keep s :
  s_iface (tick conf now up keep s).1 = s_iface s ∧ s_tgt_r (tick conf now up keep s).1 = s_tgt_r s.
Proof. unfold tick. by repeat case_match. Qed.

Lemma visited_kept conf now s s' :
  visited conf now s (Some s') → s_iface s' = s_iface s ∧ s_tgt_r s' = s_tgt_r s.
Proof.
  unfold visited. intros H. destruct (s_state s);
    [destruct H as (up & keep & [= ->]); apply tick_kept..|]. by destruct (_ <? _); simplify_eq.
Qed.

Lemma visited_tgt conf now s s' : visited conf now s (Some s') → s_tgt s' = s_tgt s.
Proof.
  unfold visited. intros H. destruct (s_state s);
    [destruct H as (up & keep & [= ->]); apply tick_tgt..|]. by destruct (_ <? _); simplify_eq.
Qed.

Lemma wp_update_visited w l s :
  world_inv w → w_sessions w !! l = Some s →
  wp (nd_session_update l) (λ _ w', visited (w_conf w) (nd_current_time w) s (w_sessions w' !! l)) w.
Proof.
  intros Hinv Hl. destruct (session_rule_live _ _ _ Hinv _ _ Hl) as (r & p & Hr & _).
  destruct (decide (s_state s = ND_STATE_INVALID)) as [Est|Est].
  - eapply wp_mono; [by eapply wp_invalid_exact|]. intros [] w' H. unfold visited. rewrite Est.
    destruct (_ <? _); [by subst w'|]. destruct H as [-> _]. apply lookup_delete_eq.
  - eapply wp_mono; [by eapply session_update_tick|]. intros [] w' ->. cbn [w_sessions set_field].
    unfold visited. destruct (s_state s); [eexists _, _; apply lookup_insert_eq..|done].
Qed.

Section round.
Context w0 l s (Hl : w_sessions w0 !! l = Some s).

(** Before ([pending]) and after the visit of [l]. *)
Definition phase (pending : Prop) w : Prop :=
  world_inv w ∧ static w = static w0 ∧ (pending → w_sessions w !! l = Some s) ∧
  (¬ pending → visited (w_conf w0) (nd_current_time w0) s (w_sessions w !! l)).

Lemma phase_iff (P P' : Prop) w : (P ↔ P') → phase P w → phase P' w.
Proof. intros HP (? & ? & ? & ?). split_and!; [done|done|tauto|tauto]. Qed.

Lemma static_clock w : static w = static w0 → w_conf w = w_conf w0 ∧ nd_current_time w = nd_current_time w0.
Proof. by intros [= ]. Qed.

Lemma wp_visit_one w k (P : Prop) `{!Decision P} :
  is_Some (w_sessions w !! k) → (k = l → ¬ P) → phase (k = l ∨ P) w →
  wp (nd_session_update k) (λ _ w', phase P w' ∧
    ∀ j, j ≠ k → w_sessions w' !! j = w_sessions w !! j) w.
Proof.
  intros [sk Hk] Hne (Hinv & Hst & Hp & Hv). destruct (static_clock _ Hst) as [Ec Et].
  eapply wp_mono; [eapply wp_and; [by eapply wp_session_update|by eapply wp_update_visited]|].
  intros [] w' [[Hinv' [Hst' Hother]] Hvis]. split; [|done]. rewrite Ec, Et in Hvis.
  rewrite Hst in Hst'.
  destruct (decide (k = l)) as [-> |Hkl].
  - rewrite (Hp (or_introl eq_refl)) in Hk. injection Hk as <-.
    split_and!; [done|done|by intros ?%Hne|done].
  - split_and!; [done|done| |].
    + intros HP. rewrite Hother by done. apply Hp. by right.
    + intros HP. rewrite Hother by done. apply Hv. tauto.
Qed.

(** The bucket of [l], also after its visit. *)
Lemma phase_bucket w P `{!Decision P} s' :
  phase P w → w_sessions w !! l = Some s' → s_tgt s' = s_tgt s.
Proof.
  intros (_ & _ & Hp & Hv) Hs. destruct (decide P) as [HP|HP].
  - rewrite Hp in Hs by done. by simplify_eq.
  - specialize (Hv HP). rewrite Hs in Hv. by apply visited_tgt in Hv.
Qed.

Lemma wp_visit_bucket w i (P : Prop) `{!Decision P} :
  let b := bucket_index (w_hash_seed w0) (s_tgt s) in
  (i < Z.to_nat NDPPD_SESSION_BUCKETS)%nat → (i = b → ¬ P) → phase (i = b ∨ P) w →
  wp (bucket ← gets (λ w, w_buckets w !!! i); for_each bucket nd_session_update) (λ _, phase P) w.
Proof.
  intros b Hi Hib Hph. wp_step. wp_step. pose proof Hph as (Hinv & Hst & Hp & Hv).
  pose proof Hinv as ([_ _ [[Hlen Ht] _ _ _ _ _] _] & _).
  assert (w_hash_seed w = w_hash_seed w0) as Eseed by (by injection Hst).
  destruct (lookup_lt_is_Some_2 (w_buckets w) i) as [bucket Hb]; [by rewrite Hlen|].
  rewrite (list_lookup_total_correct _ _ _ Hb). destruct (Ht _ _ Hb) as [Hnd Hin].
  assert (i = b ↔ l ∈ bucket) as Hbl.
  { rewrite Hin, Eseed. split.
    - intros ->. exists s. split; [|done]. apply Hp. by left.
    - intros (s' & Hs' & Ei). by rewrite (phase_bucket w (i = b ∨ P) s' Hph Hs') in Ei. }
  apply (wp_for_each (λ ls w', NoDup ls ∧ (l ∈ ls → ¬ P) ∧ phase (l ∈ ls ∨ P) w' ∧
    ∀ k, k ∈ ls → is_Some (w_sessions w' !! k))).
  - split_and!; [done|by rewrite <- Hbl|by eapply phase_iff; [|exact Hph]; rewrite Hbl|].
    intros k (sk & Hk & _)%Hin. eauto.
  - intros k ls w' (Hnd' & HlP & Hph' & Hlive). apply list.NoDup_cons in Hnd' as [Hk Hnd'].
    eapply wp_mono; [eapply (wp_visit_one w' k (l ∈ ls ∨ P))|].
    + apply Hlive. by left.
    + intros -> [?|?]; [done|]. by apply HlP; [left|].
    + eapply phase_iff; [|exact Hph']. rewrite elem_of_cons. naive_solver.
    + intros [] w2 [Hph2 Hother]. split_and!; [done| |done|].
      * intros Hls. apply HlP. by right.
      * intros j Hj. rewrite Hother by (by intros ->). apply Hlive. by right.
  - intros w' (_ & _ & Hph' & _). eapply phase_iff; [|exact Hph']. rewrite elem_of_nil. tauto.
Qed.

Lemma wp_round :
  world_inv w0 →
  wp nd_session_update_all (λ _ w', world_inv w' ∧ static w' = static w0 ∧
    visited (w_conf w0) (nd_current_time w0) s (w_sessions w' !! l)) w0.
Proof.
  intros Hinv. unfold nd_session_update_all. set (b := bucket_index (w_hash_seed w0) (s_tgt s)).
  apply (wp_for_each (λ rest w, NoDup rest ∧ phase (b ∈ rest) w ∧
    ∀ i, i ∈ rest → (i < Z.to_nat NDPPD_SESSION_BUCKETS)%nat)).
  - split_and!; [apply NoDup_seq| |intros i Hi%elem_of_seq; lia].
    split_and!; [done|done|done|]. intros []. apply elem_of_seq.
    pose proof (bucket_index_lt (w_hash_seed w0) (s_tgt s)). unfold b. lia.
  - intros i rest w (Hnd & Hph & Hlt). apply list.NoDup_cons in Hnd as [Hi Hnd].
    eapply wp_mono; [apply (wp_visit_bucket w i (b ∈ rest))|].
    + apply Hlt. by left.
    + fold b. by intros ->.
    + eapply phase_iff; [|exact Hph]. rewrite elem_of_cons. naive_solver.
    + intros [] w' Hph'. split_and!; [done|done|]. intros j Hj. apply Hlt. by right.
  - intros w (_ & (? & ? & _ & Hv) & _). split_and!; [done|done|]. apply Hv, not_elem_of_nil.
Qed.
End round.

(** ** The deadline

    [T] bounds the time of the next round and [delta] the time between two
    rounds: a round that [s] survives is not later than its [expiry]. *)
Definition expiry (conf : nd_conf) (delta T : Z) s : Z :=
  let since := s_state_time s in
  let invalid := nd_conf_invalid_ttl conf in
  match s_state s with
  | ND_STATE_INVALID => since + invalid
  | ND_STATE_STALE => Z.max T (since + nd_conf_stale_ttl conf + delta) + invalid
  | ND_STATE_VALID =>
      Z.max T (since + nd_conf_valid_ttl conf + delta) + nd_conf_stale_ttl conf + delta + invalid
  | ND_STATE_INCOMPLETE =>
      Z.max T (Z.max (s_ons_time s) (since + invalid) + nd_conf_retrans_time conf + delta) +
      delta * Z.max 0 (nd_conf_retrans_limit conf - s_ons_count s) + invalid
  end.

Record timers_ok (conf : nd_conf) : Prop := {
  to_invalid : 0 ≤ nd_conf_invalid_ttl conf;
  to_stale : 0 ≤ nd_conf_stale_ttl conf;
  to_valid : 0 ≤ nd_conf_valid_ttl conf;
  to_retrans : 0 ≤ nd_conf_retrans_time conf }.

(** A round at time [t] that [s] survives does not move its deadline. *)
Lemma expiry_round conf delta T t s s' :
  timers_ok conf → 0 ≤ delta → t ≤ T → s_iface s ≠ None → visited conf t s (Some s') →
  expiry conf delta (t + delta) s' ≤ expiry conf delta T s ∧ t ≤ expiry conf delta (t + delta) s'.
Proof.
  intros [] Hd Ht Hi Hv. unfold visited in Hv. destruct (s_state s) eqn:Est.
  - destruct Hv as (up & keep & [= ->]). unfold tick, expiry. rewrite Est. destruct up.
    + destruct (Z.ltb_spec (t - s_ons_time s) (nd_conf_retrans_time conf)); [cbn; rewrite Est; nia|].
      destruct (Z.leb_spec (nd_conf_retrans_limit conf) (s_ons_count s)); cbn; [nia|rewrite Est; nia].
    + destruct (Z.ltb_spec (t - s_state_time s) (nd_conf_invalid_ttl conf)); cbn; rewrite ?Est; nia.
  - destruct Hv as (up & keep & [= ->]). unfold tick, expiry. rewrite Est.
    destruct (Z.ltb_spec (t - s_state_time s) (nd_conf_valid_ttl conf)); [cbn; rewrite Est; lia|].
    rewrite bool_decide_eq_false_2 by done. cbn. lia.
  - destruct Hv as (up & keep & [= ->]). unfold tick, expiry. rewrite Est.
    destruct (Z.leb_spec (nd_conf_stale_ttl conf) (t - s_state_time s)); [cbn; lia|].
    destruct (_ && _); [cbn; rewrite Est; lia|].
    destruct (_ <? stale_backoff _ _); cbn; rewrite Est; lia.
  - destruct (Z.ltb_spec (t - s_state_time s) (nd_conf_invalid_ttl conf)); [|done].
    injection Hv as ->. unfold expiry. rewrite Est. lia.
Qed.

(** ** Between two rounds *)

(** Nothing that the deadline depends on changed. *)
Definition undisturbed s s' : Prop :=
  s_tgt_r s' = s_tgt_r s ∧ s_state s' = s_state s ∧ s_state_time s' = s_state_time s ∧
  s_iface s' = s_iface s ∧
  (s_state s = ND_STATE_INCOMPLETE → s_ons_count s' = s_ons_count s ∧ s_ons_time s' = s_ons_time s).

Definition left_alone l s w' : Prop := ∃ s', w_sessions w' !! l = Some s' ∧ undisturbed s s'.

Lemma undisturbed_trans s1 s2 s3 : undisturbed s1 s2 → undisturbed s2 s3 → undisturbed s1 s3.
Proof.
  intros (? & E & ? & ? & Ho) (? & ? & ? & ? & Ho'). split_and!; try congruence.
  intros Hs. destruct Ho as [? ?]; [done|]. destruct Ho' as [? ?]; [congruence|]. split; congruence.
Qed.

Lemma undisturbed_expiry conf delta T s s' : undisturbed s s' → expiry conf delta T s' = expiry conf delta T s.
Proof.
  intros (_ & Es & Et & _ & Ho). unfold expiry. rewrite Es, Et.
  destruct (s_state s); [|done..]. by destruct Ho as [-> ->].
Qed.

Lemma same_undisturbed s s' : timers s' = timers s → undisturbed s s'.
Proof. unfold timers, undisturbed. intros [= -> -> -> -> -> ->]. done. Qed.

Lemma timers_left_alone w w' l s : timers_kept w w' → w_sessions w !! l = Some s → left_alone l s w'.
Proof.
  intros Hk Hl. specialize (Hk l). rewrite Hl in Hk. unfold left_alone.
  destruct (w_sessions w' !! l) as [s'|]; [|done]. exists s'. split; [done|].
  apply same_undisturbed. cbn in Hk. congruence.
Qed.

Lemma frame_left_alone k l s w w' : frame k w w' → k ≠ l → w_sessions w !! l = Some s → left_alone l s w'.
Proof. intros [_ Hother] Hk Hl. exists s. by rewrite Hother. Qed.

(** A solicitation does not disturb its session when that has an interface. *)
Lemma wp_handle_ns_alone K w l s src src_ll :
  world_inv w → w_sessions w !! l = Some s → s_iface s ≠ None →
  wp (nd_session_handle_ns K l src src_ll) (λ _, left_alone l s) w.
Proof.
  intros Hinv Hl Hi. destruct (session_rule_live _ _ _ Hinv _ _ Hl) as (r & p & Hr & Hp & _).
  destruct (decide (s_state s = ND_STATE_VALID)) as [Est|Est].
  { eapply wp_mono; [by eapply wp_handle_ns_valid|]. intros [] w' ->.
    eexists. split; [apply lookup_insert_eq|done]. }
  unfold nd_session_handle_ns. do 3 wp_step.
  eapply wp_mono; [eapply wp_and; [by eapply wp_update_quiet|by apply wp_set_exact]|].
  intros [] w1 [(Hinv1 & _) Hw1]. pose proof (becomes_lookup _ _ _ _ _ Hw1) as Hl1.
  set (s1 := s <| s_ins_time := _ |>) in *. wp_step. wp_step. rewrite bool_decide_eq_false_2 by done.
  assert (left_alone l s w1) as Hskip by (by exists s1).
  assert (∀ w2 s2, w_sessions w2 !! l = Some s2 → undisturbed s s2 → world_inv w2 →
    wp (session_recheck_route K l;; session_probe_stale l) (λ _, left_alone l s) w2) as Htail.
  { intros w2 s2 Hl2 Hu Hinv2. pose proof Hu as (_ & Es2 & _ & Ei2 & _). unfold session_recheck_route.
    wp_step. wp_step. wp_step. rewrite andb_comm, bool_decide_eq_false_2 by congruence. cbn [andb negb].
    wp_step. unfold session_probe_stale. do 6 wp_step. destruct (_ && _) eqn:Hb; [|wp_step; by exists s2].
    apply andb_true_iff in Hb as [[Hst%bool_decide_eq_true _]%andb_true_iff _].
    destruct (s_iface s2) as [iface|] eqn:E2; [|congruence]. rewrite <- E2.
    eapply wp_mono; [by eapply wp_update_probe_exact|]. intros [] w3 ->. eexists.
    split; [apply lookup_insert_eq|]. eapply undisturbed_trans; [exact Hu|]. split_and!; try done. cbn. congruence. }
  destruct src_ll as [ll|]; [|by wp_step].
  destruct (existsb (same_sub src ll) (s_subs s1)) eqn:Hsub; cbn [negb andb].
  - cbn [when]. wp_step. wp_step. by apply (Htail w1 s1).
  - destruct (Z.leb_spec ND_SESSION_MAX_SUBS (Z.of_nat (length (s_subs s1)))); [by wp_step|].
    cbn [when]. wp_step. unfold set_session. wp_step. eapply Htail; [apply lookup_insert_eq|done|].
    eapply inv_session_update; [exact Hinv1|exact Hl1|reflexivity..|by eapply subs_cons_ok|].
    intros r' Hr' Hh. eapply state_ok_same; [by eapply inv_state_ok|reflexivity..].
Qed.

Lemma wp_proxy_ns_alone K w pl p src dst tgt src_ll l s :
  world_inv w → w_proxies w !! pl = Some p → w_sessions w !! l = Some s → s_iface s ≠ None →
  wp (nd_proxy_handle_ns K pl src dst tgt src_ll) (λ _, left_alone l s) w.
Proof.
  intros Hinv Hp Hl Hi. eapply wp_proxy_ns_session; [done|done|by exists s|].
  intros k sk w1 Hw1 Hinv1 Hsk. destruct (decide (k = l)) as [-> |Hk].
  - destruct Hw1 as [-> |[_ Hnew]]; [|congruence]. by apply wp_handle_ns_alone.
  - assert (frame k w w1) as Hfr1 by (destruct Hw1 as [-> |[? _]]; done).
    eapply wp_mono; [by eapply wp_session_handle_ns|]. intros [] w' (_ & _ & Hfr2).
    eapply frame_left_alone; [eapply frame_trans; [exact Hfr1|exact Hfr2]|exact Hk|exact Hl].
Qed.

(** The advertisement that confirms a session that probes [tgt]. *)
Definition confirms (tgt : nd_addr) (i : input) : Prop :=
  match i with
  | InFrame _ frame => parse_frame frame = Some (RxNA tgt)
  | InDatagram _ => False
  end.

Lemma wp_frame_alone K w ifindex frame l s :
  world_inv w → Forall is_u8 frame → w_sessions w !! l = Some s → s_iface s ≠ None →
  ¬ confirms (s_tgt_r s) (InFrame ifindex frame) →
  wp (ndL_handle_frame K ifindex frame) (λ _, left_alone l s) w.
Proof.
  intros Hinv Hu8 Hl Hi Hna. unfold ndL_handle_frame. wp_step. wp_step. wp_step.
  assert (left_alone l s w) as Hskip by (by exists s).
  eapply wp_search_iface; [exact Hinv|]. destruct (List.find _ _) as [il|] eqn:Hf; [|by wp_step].
  apply find_iface_Some in Hf as (i & Hif & _).
  destruct (parse_frame_Some frame Hu8) as [r Hr]. wp_step.
  eapply wp_in_bounds; [exact Hr|]. unfold ndL_handle_rx.
  destruct r as [|src dst tgt src_ll|tgt| |]; [by wp_step| | |by wp_step..].
  - wp_step. wp_step. destruct (i_proxy i) as [pl|] eqn:Epl; [|by wp_step].
    pose proof Hinv as ([[_ _ _ _ Hpr] _ _ _] & _). destruct (Hpr _ _ _ Hif Epl) as (p & Hp & _).
    by eapply wp_proxy_ns_alone.
  - wp_step. eapply wp_session_find_r; [exact Hinv|].
    destruct (List.find _ _) as [sl|] eqn:Hf; [|by wp_step].
    apply find_session_Some in Hf as (sk & Hsk & [Hik Htk]%andb_true_iff).
    apply bool_decide_eq_true in Hik. apply nd_addr_eq_spec in Htk. subst tgt.
    eapply wp_mono; [eapply wp_session_handle_na; [exact Hinv|exact Hsk|by rewrite Hik]|].
    intros [] w' (_ & _ & Hfr). eapply frame_left_alone; [exact Hfr| |exact Hl].
    by intros ->; simplify_eq.
Qed.

(** The handlers of one turn. *)
Definition bystander (tgt : nd_addr) (ki : kernel * input) : Prop := input_ok ki.2 ∧ ¬ confirms tgt ki.2.

Definition alone_inv l s w w' : Prop :=
  world_inv w' ∧ configured w' = configured w ∧ left_alone l s w'.

Lemma alone_handled l s w w' :
  handled w w' → w_sessions w !! l = Some s → alone_inv l s w w'.
Proof. intros (? & ? & _ & Ht) Hl. split_and!; [done|done|]. by eapply timers_left_alone. Qed.

Lemma alone_trans l s w w1 w2 s1 :
  alone_inv l s w w1 → w_sessions w1 !! l = Some s1 → alone_inv l s1 w1 w2 → alone_inv l s w w2.
Proof.
  intros (_ & E1 & (s1' & Hs1 & Hu1)) Hs1' (? & E2 & (s2 & Hs2 & Hu2)).
  rewrite Hs1 in Hs1'. injection Hs1' as ->. split_and!; [done|by rewrite E2|]. exists s2. split; [done|]. by eapply undisturbed_trans.
Qed.

Lemma wp_input_alone K i w l s :
  world_inv w → input_ok i → ¬ confirms (s_tgt_r s) i → w_sessions w !! l = Some s → s_iface s ≠ None →
  wp (handle_input K i) (λ _, alone_inv l s w) w.
Proof.
  intros Hinv Hok Hc Hl Hi. destruct i as [ifindex frame|d]; cbn [handle_input].
  - eapply wp_mono; [eapply wp_and; [by eapply wp_handle_frame|by eapply wp_frame_alone]|].
    intros [] w' [[? ?] ?]. split_and!; [done|by apply static_configured|done].
  - eapply wp_mono; [by apply wp_handle_datagram|]. intros [] w' ?. by apply alone_handled.
Qed.

Lemma wp_inputs_alone inputs w l s :
  world_inv w → Forall (bystander (s_tgt_r s)) inputs → w_sessions w !! l = Some s → s_iface s ≠ None →
  wp (for_each inputs (λ ki, handle_input (fst ki) (snd ki))) (λ _, alone_inv l s w) w.
Proof.
  intros Hinv Hin Hl Hi.
  apply (wp_for_each (λ ls w', alone_inv l s w w' ∧ Forall (bystander (s_tgt_r s)) ls)); [| |by intros w' [? _]].
  - split; [|done]. by apply alone_handled; [apply handled_refl|].
  - intros [K i] ls w' [Hw' [[Hok Hc] Hls]%list.Forall_cons].
    pose proof Hw' as (Hinv' & _ & (s' & Hs' & Hu)). pose proof Hu as (Et & _ & _ & Ei & _).
    eapply wp_mono; [eapply wp_input_alone; [done|exact Hok|by rewrite Et|exact Hs'|by rewrite Ei]|].
    intros [] w2 Hw2. split; [|done]. by eapply alone_trans.
Qed.

(** ** The timers of one turn *)

Definition now_conf w := (nd_current_time w, w_conf w).

Lemma configured_now w w' : configured w' = configured w → now_conf w' = now_conf w.
Proof. unfold configured, now_conf. congruence. Qed.

(** The session after the timers: visited when a round was due. *)
Definition after_timers v w l s v' w' : Prop :=
  world_inv w' ∧ now_conf w' = now_conf w ∧
  if 100 <? nd_current_time w - last_session_update v then
    last_session_update v' = nd_current_time w ∧
    ∀ s', w_sessions w' !! l = Some s' → ∃ s1 s2,
      undisturbed s s1 ∧ visited (w_conf w) (nd_current_time w) s1 (Some s2) ∧ undisturbed s2 s'
  else last_session_update v' = last_session_update v ∧ left_alone l s w'.

Lemma wp_timers_session K v w l s :
  world_inv w → w_sessions w !! l = Some s →
  wp (loop_timers K v) (after_timers v w l s) w.
Proof.
  intros Hinv Hl. unfold loop_timers. wp_step.
  eapply wp_mono; [by apply wp_loop_dump|]. intros q w1 H1. wp_step. wp_step. wp_step.
  pose proof H1 as (Hinv1 & Hc1%configured_now & _ & Ht1).
  destruct (timers_left_alone _ _ _ _ Ht1 Hl) as (s1 & Hs1 & Hu1).
  pose proof Hc1 as Hc1'. injection Hc1' as Et1 Ec1. rewrite Et1.
  assert (∀ w2 (u : Z) q,
    world_inv w2 → now_conf w2 = now_conf w →
    (∀ w3 v3, world_inv w3 → now_conf w3 = now_conf w → timers_kept w2 w3 →
       last_session_update v3 = u → after_timers v w l s v3 w3) →
    wp (check ← (if 5000 <? nd_current_time w - last_iface_check v
           then nd_iface_rebind_all K;; mret (nd_current_time w) else mret (last_iface_check v));
        mret (mk_loop q u check)) (after_timers v w l s) w2) as Hend.
  { intros w2 u q' Hinv2 Hc2 Hk. wp_step. destruct (5000 <? _); [|repeat wp_step; by apply (Hk w2)].
    wp_step. eapply wp_mono; [by apply wp_rebind_all|]. intros [] w3 (? & Hst & _ & ?). do 2 wp_step.
    apply (Hk w3); [done| |done|done]. rewrite <- Hc2. by apply configured_now, static_configured. }
  destruct (100 <? _) eqn:Edue.
  - wp_step. eapply wp_mono; [by apply (wp_round w1 l s1)|].
    intros [] w2 (Hinv2 & Hst2 & Hvis). wp_step.
    assert (now_conf w2 = now_conf w) as Hc2
      by (rewrite <- Hc1; by apply configured_now, static_configured).
    apply Hend; [done|done|]. intros w3 v3 Hinv3 Hc3 Ht3 E3. split_and!; [done|done|]. rewrite Edue.
    split; [done|]. intros s3 Hs3. specialize (Ht3 l). rewrite Hs3 in Ht3.
    destruct (w_sessions w2 !! l) as [s2|]; [|done]. injection Ht3 as Ht3. exists s1, s2.
    rewrite Ec1, Et1 in Hvis. split_and!; [done|done|].
    apply same_undisturbed. unfold timers. congruence.
  - wp_step. apply Hend; [done|done|]. intros w3 v3 Hinv3 Hc3 Ht3 E3. split_and!; [done|done|]. rewrite Edue.
    split; [done|]. destruct (timers_left_alone _ _ _ _ Ht3 Hs1) as (s3 & Hs3 & Hu3).
    exists s3. split; [done|]. by eapply undisturbed_trans.
Qed.

(** ** The life of a session *)

(** The session [l], which probes [tgt], survives the turns from [w0] to [w]:
    nobody advertises [tgt], and the clock advances by at most [gap] per turn. *)
Inductive survives l (tgt : nd_addr) (gap : Z) w0 v0 : world → loop_vars → Prop :=
  | sv_start : survives l tgt gap w0 v0 w0 v0
  | sv_turn K w v v' w1 inputs w2 now' :
      survives l tgt gap w0 v0 w v →
      loop_timers K v w = Ret v' w1 → is_Some (w_sessions w1 !! l) →
      Forall (bystander tgt) inputs →
      for_each inputs (λ ki, handle_input (fst ki) (snd ki)) w1 = Ret () w2 →
      nd_current_time w2 ≤ now' ≤ nd_current_time w2 + gap →
      survives l tgt gap w0 v0 (w2 <| nd_current_time := now' |>) v'.

(** The last moment of a session, for turns at most [gap] apart. *)
Definition deadline (gap : Z) w v s : Z :=
  let delta := 100 + gap in
  Z.max (nd_current_time w)
    (expiry (w_conf w) delta (Z.max (nd_current_time w) (last_session_update v + delta)) s) + delta.

(** What holds at the start of every turn that [s0] lives to see. *)
Record aging l gap w0 v0 s0 w v s : Prop := {
  ag_inv : world_inv w;
  ag_conf : w_conf w = w_conf w0;
  ag_session : w_sessions w !! l = Some s;
  ag_iface : s_iface s ≠ None;
  ag_tgt : s_tgt_r s = s_tgt_r s0;
  ag_now : nd_current_time w ≤ deadline gap w0 v0 s0;
  ag_last : last_session_update v + (100 + gap) ≤ deadline gap w0 v0 s0;
  ag_expiry :
    expiry (w_conf w0) (100 + gap) (Z.max (nd_current_time w) (last_session_update v + (100 + gap))) s +
    (100 + gap) ≤ deadline gap w0 v0 s0 }.

Lemma aging_start l gap w0 v0 s0 :
  world_inv w0 → w_sessions w0 !! l = Some s0 → s_iface s0 ≠ None → 0 ≤ gap →
  last_session_update v0 ≤ nd_current_time w0 → aging l gap w0 v0 s0 w0 v0 s0.
Proof. intros. constructor; try done; unfold deadline; lia. Qed.

(** The session right after the timers of a turn it survives. *)
Lemma aging_timers l gap w0 v0 s0 w v s v' w1 s1 :
  timers_ok (w_conf w0) → 0 ≤ gap → aging l gap w0 v0 s0 w v s →
  after_timers v w l s v' w1 → w_sessions w1 !! l = Some s1 →
  s_iface s1 ≠ None ∧ s_tgt_r s1 = s_tgt_r s0 ∧
  nd_current_time w + gap ≤ last_session_update v' + (100 + gap) ≤ deadline gap w0 v0 s0 ∧
  expiry (w_conf w0) (100 + gap) (last_session_update v' + (100 + gap)) s1 + (100 + gap) ≤
    deadline gap w0 v0 s0.
Proof.
  intros Htm Hgap [] (_ & _ & H) Hs1. rewrite ag_conf0 in H.
  destruct (Z.ltb_spec 100 (nd_current_time w - last_session_update v)) as [Hdue|Hdue].
  - destruct H as [-> H]. destruct (H _ Hs1) as (sa & sb & Hua & Hvis & Hub).
    destruct (visited_kept _ _ _ _ Hvis) as [Eib Etb]. pose proof Hua as (Eta & _ & _ & Eia & _).
    pose proof Hub as (Et & _ & _ & Ei & _).
    destruct (expiry_round (w_conf w0) (100 + gap)
      (Z.max (nd_current_time w) (last_session_update v + (100 + gap))) (nd_current_time w) sa sb Htm ltac:(lia) ltac:(lia)
      ltac:(congruence) Hvis) as [Hexp Hle].
    rewrite (undisturbed_expiry _ _ _ _ _ Hua) in Hexp. rewrite (undisturbed_expiry _ _ _ _ _ Hub).
    split_and!; [congruence|congruence|lia..].
  - destruct H as [-> (s1' & Hs1' & Hu)]. simplify_eq. pose proof Hu as (Et & _ & _ & Ei & _).
    rewrite (undisturbed_expiry _ _ _ _ _ Hu).
    rewrite Z.max_r in ag_expiry0 by lia. split_and!; [congruence|congruence|lia..].
Qed.

Lemma survives_aging l gap w0 v0 s0 w v :
  timers_ok (w_conf w0) → 0 ≤ gap → world_inv w0 → w_sessions w0 !! l = Some s0 → s_iface s0 ≠ None →
  last_session_update v0 ≤ nd_current_time w0 →
  survives l (s_tgt_r s0) gap w0 v0 w v → ∃ s, aging l gap w0 v0 s0 w v s.
Proof.
  intros Htm Hgap Hinv Hl Hi Hlast.
  induction 1 as [|K w v v' w1 inputs w2 now' _ [s Hag] Hret [s1 Hs1] Hin Hret2 Hnow];
    [eexists; by apply aging_start|].
  pose proof (wp_timers_session K v w l s (ag_inv _ _ _ _ _ _ _ _ Hag) (ag_session _ _ _ _ _ _ _ _ Hag)) as Haft.
  unfold wp in Haft. rewrite Hret in Haft.
  destruct (aging_timers _ _ _ _ _ _ _ _ _ _ _ Htm Hgap Hag Haft Hs1) as (Hi1 & Et1 & Hlast' & Hexp).
  destruct Haft as (Hinv1 & [= Et Ec] & _). rewrite <- Et1 in Hin.
  pose proof (wp_inputs_alone inputs w1 l s1 Hinv1 Hin Hs1 Hi1) as Halone.
  unfold wp in Halone. rewrite Hret2 in Halone.
  destruct Halone as (Hinv2 & Hc2%configured_now & (s2 & Hs2 & Hu)). injection Hc2 as Et2 Ec2.
  pose proof Hu as (Eu1 & _ & _ & Eu2 & _). exists s2. constructor; cbn.
  - by apply inv_time.
  - rewrite Ec2, Ec. apply Hag.
  - done.
  - congruence.
  - congruence.
  - lia.
  - lia.
  - rewrite (undisturbed_expiry _ _ _ _ _ Hu), Z.max_r; [done|]. lia.
Qed.
End live.
