(* ===== verification/Demo.v ===== *)
(** * A concrete configuration

    A daemon on a little-endian host with one proxy on [eth0] and three rules,
    one per mode; the theorems about the running daemon are instantiated on it. *)
From S2P Require Import Prelude Addr World Monad Packet Route Netlink Iface Session Proxy Receive.
From S2P Require Import Daemon Counting Invariant IfaceSafe SessionSafe DaemonSafe StartSafe.
From S2P Require Import Text Conf ConfSafe.

#[local] Existing Instance x86_host.

(** The address with the given 16 bytes. *)
Definition addr16 (bytes : list Z) : nd_addr := addr_of_u8 (λ i, nth (Z.to_nat i) bytes 0).

(** 2001:db8:[net]::[host] *)
Definition demo_addr (net host : Z) : nd_addr :=
  addr16 [0x20; 0x01; 0x0d; 0xb8; 0; net; 0; 0; 0; 0; 0; 0; 0; 0; 0; host].

Definition ll_up : nd_lladdr := mk_ll 2 0 0 0 0 1.
Definition ll_down : nd_lladdr := mk_ll 2 0 0 0 0 2.
Definition ll_host : nd_lladdr := mk_ll 2 0 0 0 0 9.

Definition demo_proxy : nd_proxy := mk_proxy "eth0" ll_zero None [2; 1; 0]%nat false false.

(** [rule 2001:db8:1::/48 { iface br0; autowire }] *)
Definition rule_iface : nd_rule :=
  mk_rule 0 "br0" ll_zero (demo_addr 1 0) 48 addr_zero 0 None true 254 ND_MODE_IFACE.
(** [rule 2001:db8:2::/48 { static }] *)
Definition rule_static : nd_rule :=
  mk_rule 0 "" ll_zero (demo_addr 2 0) 48 addr_zero 0 None false 254 ND_MODE_STATIC.
(** [rule 2001:db8:3::/48 { auto }] *)
Definition rule_auto : nd_rule :=
  mk_rule 0 "" ll_zero (demo_addr 3 0) 48 addr_zero 0 None false 254 ND_MODE_AUTO.

(** [rule 2001:db8:1::/48 { iface br0; rewrite 2001:db8:4::1 }]: one rewritten
    target for all targets *)
Definition rule_rewrite : nd_rule :=
  mk_rule 0 "br0" ll_zero (demo_addr 1 0) 48 (demo_addr 4 1) 128 None false 254 ND_MODE_IFACE.

Definition demo_conf_of (first_rule : nd_rule) : world :=
  mk_world 1000000 conf_default 0x12345 ∅ [] false false
    {[ 0%nat := demo_proxy ]} [0%nat]
    (<[0%nat := first_rule]> (<[1%nat := rule_static]> {[ 2%nat := rule_auto ]}))
    ∅ (replicate 64 []) (replicate 64 []) 0 [] [] 0 false [].

Definition demo_conf : world := demo_conf_of rule_iface.

(** The process before it reads its configuration. *)
Definition demo_initial : world :=
  mk_world 1000000 conf_default 0x12345 ∅ [] false false ∅ [] ∅
    ∅ (replicate 64 []) (replicate 64 []) 0 [] [] 0 false [].

(** The text of the configuration. *)
Definition demo_text : list Z :=
  concat (map (λ line, bytes_of_string line ++ [NEWLINE])
    ["# demonstration"; "proxy eth0 {"; "  rule 2001:db8:1::/48 {"; "    iface br0"; "    autowire yes"; "  }";
     "  rule 2001:db8:2::/48 { static }"; "  rule 2001:db8:3::/48 { auto }"; "}"]).

Definition demo_end : ndL_state := mk_state [] 10 1.

(** [eth0] is interface 2 and [br0] interface 3. *)
Definition demo_kernel : kernel :=
  mk_kernel
    (λ name, if bool_decide (name = "eth0") then (2, 0)
             else if bool_decide (name = "br0") then (3, 0) else (0, ENODEV))
    (λ i, if i =? 2 then Some "eth0" else if i =? 3 then Some "br0" else None)
    (λ name, if bool_decide (name = "eth0") then Some ll_up
             else if bool_decide (name = "br0") then Some ll_down else None)
    (λ _, Some IFF_UP)
    (λ _ _, true).

Ltac demo_lookup H :=
  repeat match type of H with
  | <[_ := _]> _ !! _ = Some _ => apply lookup_insert_Some in H as [[<- <-]|[_ H]]
  | {[ _ := _ ]} !! _ = Some _ => apply lookup_singleton_Some in H as [<- <-]
  end.

Lemma demo_conf_of_ok r :
  r_iface r = None → rule_conf_ok r → r_proxy r = 0%nat → conf_ok (demo_conf_of r).
Proof.
  intros Hi Hc Hp. constructor; cbn.
  - done.
  - done.
  - done.
  - constructor; cbn.
    + apply NoDup_singleton.
    + intros l. rewrite list_elem_of_singleton. split; [intros ->; by eauto|].
      intros [p H]. demo_lookup H. done.
    + intros rl r' H. demo_lookup H; [rewrite Hp|..]; by eauto.
    + intros pl p rl H Hrl. demo_lookup H. cbn in Hrl.
      repeat (apply elem_of_cons in Hrl as [-> |Hrl]; [by eexists; split; [reflexivity|]|]).
      by apply elem_of_nil in Hrl.
  - intros pl p H. demo_lookup H. split; [done|]. by apply (bool_decide_unpack _).
  - intros rl r' H. demo_lookup H; [rewrite Hp|..]; cbn; (split; [done|]; split; [by cbn|]);
      (eexists; split; [reflexivity|]); cbn; by apply (bool_decide_unpack _).
Qed.

Lemma demo_conf_ok : conf_ok demo_conf.
Proof. by apply demo_conf_of_ok. Qed.

Definition run {A} (d : world) (m : M A) (w : world) : world :=
  match m w with Ret _ w' => w' | Fault _ => d end.

Lemma demo_initial_unconfigured : unconfigured demo_initial.
Proof. by repeat split. Qed.

Lemma demo_loaded : nd_conf_load (Some demo_text) demo_initial = Ret (POk demo_end) demo_conf.
Proof. vm_compute. reflexivity. Qed.

(** The daemon after startup. *)
Definition demo_world : world :=
  run demo_conf (daemon_start demo_kernel true true true true true) demo_conf.

Lemma demo_started :
  daemon_start demo_kernel true true true true true demo_conf = Ret true demo_world.
Proof. vm_compute. reflexivity. Qed.

Lemma demo_world_inv : world_inv demo_world.
Proof.
  pose proof (wp_daemon_start demo_kernel true true true true true demo_conf demo_conf_ok eq_refl) as H.
  unfold wp in H. rewrite demo_started in H. by apply H.
Qed.

(** A host on the upstream link, and targets of the three rules. *)
Definition demo_src : nd_addr := demo_addr 0 9.
Definition tgt_iface : nd_addr := demo_addr 1 7.
Definition tgt_static : nd_addr := demo_addr 2 7.
Definition tgt_auto : nd_addr := demo_addr 3 7.

Lemma run_inv {A} (m : M A) d w : wp m (λ _ w', world_inv w') w → world_inv (run d m w).
Proof. unfold wp, run. by destruct (m w). Qed.

Definition demo_session (w : world) (l : loc) : nd_session :=
  default (mk_session 0 addr_zero addr_zero 0 0 0 0 ND_STATE_INVALID None [] false) (w_sessions w !! l).

(** [demo_src] asks for a target behind [br0]: session 0 is INCOMPLETE. *)
Definition demo_incomplete : world :=
  run demo_world (nd_proxy_handle_ns demo_kernel 0 demo_src addr_zero tgt_iface (Some ll_host)) demo_world.

Lemma demo_incomplete_inv : world_inv demo_incomplete.
Proof.
  apply run_inv. eapply wp_mono; [eapply (wp_proxy_handle_ns _ _ _ (demo_proxy <| p_iface := Some 0%nat |>))|].
  - apply demo_world_inv.
  - vm_compute. reflexivity.
  - by intros [] w' [? _].
Qed.

(** The target answers: the session is VALID. *)
Definition demo_valid : world := run demo_world (nd_session_handle_na 0) demo_incomplete.

Lemma demo_valid_inv : world_inv demo_valid.
Proof.
  apply run_inv. eapply wp_mono; [eapply (wp_session_handle_na _ _ (demo_session demo_incomplete 0))|].
  - apply demo_incomplete_inv.
  - vm_compute. reflexivity.
  - vm_compute. done.
  - by intros [] w' [? _].
Qed.

(** Ten seconds later, without an answer, the timer has given up: INVALID. *)
Definition demo_late : world := demo_incomplete <| nd_current_time := 1010000 |>.

Definition demo_invalid : world :=
  run demo_world (nd_session_update_all;; nd_session_update_all;; nd_session_update_all) demo_late.

Lemma demo_invalid_inv : world_inv demo_invalid.
Proof.
  apply run_inv. wp_step. eapply wp_mono; [by apply wp_update_all, inv_time, demo_incomplete_inv|].
  intros [] w1 [H1 _]. wp_step. eapply wp_mono; [by apply wp_update_all|].
  intros [] w2 [H2 _]. eapply wp_mono; [by apply wp_update_all|]. by intros [] w3 [? _].
Qed.

(** A target of the static rule. *)
Definition demo_static : world :=
  run demo_world (nd_proxy_handle_ns demo_kernel 0 demo_src addr_zero tgt_static (Some ll_host)) demo_world.

Lemma demo_static_inv : world_inv demo_static.
Proof.
  apply run_inv. eapply wp_mono; [eapply (wp_proxy_handle_ns _ _ _ (demo_proxy <| p_iface := Some 0%nat |>))|].
  - apply demo_world_inv.
  - vm_compute. reflexivity.
  - by intros [] w' [? _].
Qed.

Lemma demo_states :
  s_state (demo_session demo_incomplete 0) = ND_STATE_INCOMPLETE ∧
  s_state (demo_session demo_valid 0) = ND_STATE_VALID ∧
  s_state (demo_session demo_invalid 0) = ND_STATE_INVALID ∧
  s_state (demo_session demo_static 0) = ND_STATE_VALID.
Proof. vm_compute. done. Qed.

(** Two targets of a rewriting rule: sessions 0 and 1 wait for the same address. *)
Definition demo_rewrite_conf : world := demo_conf_of rule_rewrite.

Definition demo_rewrite : world :=
  run demo_rewrite_conf (daemon_start demo_kernel true true true true true) demo_rewrite_conf.

Definition demo_two : world :=
  run demo_rewrite
    (nd_proxy_handle_ns demo_kernel 0 demo_src addr_zero (demo_addr 1 7) (Some ll_host);;
     nd_proxy_handle_ns demo_kernel 0 demo_src addr_zero (demo_addr 1 8) (Some ll_host)) demo_rewrite.

Lemma demo_rewrite_inv : world_inv demo_rewrite.
Proof.
  pose proof (wp_daemon_start demo_kernel true true true true true demo_rewrite_conf
    (demo_conf_of_ok rule_rewrite eq_refl ltac:(done) eq_refl) eq_refl) as H.
  assert (daemon_start demo_kernel true true true true true demo_rewrite_conf = Ret true demo_rewrite) as E
    by (vm_compute; reflexivity).
  unfold wp in H. rewrite E in H. by apply H.
Qed.

Lemma demo_two_inv : world_inv demo_two.
Proof.
  apply run_inv. wp_step.
  eapply wp_mono; [eapply (wp_proxy_handle_ns _ _ _ (demo_proxy <| p_iface := Some 0%nat |>))|].
  - apply demo_rewrite_inv.
  - vm_compute. reflexivity.
  - intros [] w' [Hinv [= _ Hp _ _ _ _ _ _]].
    eapply wp_mono; [eapply (wp_proxy_handle_ns _ _ _ (demo_proxy <| p_iface := Some 0%nat |>)); [done|]|].
    + rewrite Hp. vm_compute. reflexivity.
    + by intros [] w2 [? _].
Qed.
