(* ===== verification/UserSpec.v ===== *)
(** * What the --user option accepts

    /etc/passwd and /etc/group as the lists of entries they stand for, and the
    lookups and the option on them. *)
From Stdlib Require Import Ascii.
From S2P Require Import Prelude World Text User.

(** ** Decimal numbers *)

(** The digits of [n], before [acc]. *)
Fixpoint decimal_of (fuel : nat) (n : Z) (acc : list Z) : list Z :=
  match fuel with
  | O => acc
  | S fuel =>
      let acc := (chr "0" + n mod 10) :: acc in
      if n <? 10 then acc else decimal_of fuel (n / 10) acc
  end.

Definition decimal (n : Z) : list Z := decimal_of 20 n [].
#[global] Arguments decimal n : simpl never.

Lemma isdigit_spec c : isdigit c = true ↔ chr "0" ≤ c ≤ chr "9".
Proof. unfold isdigit, in_range. rewrite andb_true_iff, !Z.leb_le. done. Qed.

Lemma digit_isdigit n : isdigit (chr "0" + n mod 10) = true.
Proof.
  apply isdigit_spec. pose proof (Z.mod_pos_bound n 10 ltac:(lia)).
  change (chr "0") with 48. change (chr "9") with 57. lia.
Qed.

Lemma decimal_of_digits fuel n acc :
  forallb isdigit acc = true → forallb isdigit (decimal_of fuel n acc) = true.
Proof.
  revert n acc. induction fuel as [|fuel IH]; intros n acc Hacc; [done|]. cbn [decimal_of].
  assert (forallb isdigit ((chr "0" + n mod 10) :: acc) = true)
    by (cbn [forallb]; by rewrite digit_isdigit).
  destruct (_ <? _); [done|]. by apply IH.
Qed.

Lemma decimal_of_length fuel n acc : (length acc ≤ length (decimal_of fuel n acc) ≤ length acc + fuel)%nat.
Proof.
  revert n acc. induction fuel as [|fuel IH]; intros n acc; cbn [decimal_of]; [lia|].
  destruct (_ <? _); cbn [length]; [lia|]. specialize (IH (n / 10) ((chr "0" + n mod 10) :: acc)).
  cbn [length] in IH. lia.
Qed.

Lemma decimal_of_nonempty fuel n acc : (1 ≤ length (decimal_of (S fuel) n acc))%nat.
Proof.
  cbn [decimal_of]. destruct (_ <? _); [cbn [length]; lia|].
  pose proof (decimal_of_length fuel (n / 10) ((chr "0" + n mod 10) :: acc)) as H. cbn [length] in H. lia.
Qed.

Lemma decimal_of_value fuel n acc :
  0 ≤ n < 10 ^ Z.of_nat fuel → digits 0 (decimal_of fuel n acc) = digits n acc.
Proof.
  revert n acc. induction fuel as [|fuel IH]; intros n acc Hn; cbn [decimal_of].
  { change (10 ^ Z.of_nat 0) with 1 in Hn. by replace n with 0 by lia. }
  destruct (Z.ltb_spec n 10).
  - cbn [digits]. rewrite digit_isdigit, Z.mod_small by lia. f_equal. lia.
  - rewrite IH.
    + cbn [digits]. rewrite digit_isdigit. f_equal. pose proof (Z.div_mod n 10). lia.
    + rewrite Nat2Z.inj_succ, Z.pow_succ_r in Hn by lia.
      split; [apply Z.div_pos; lia|apply Z.div_lt_upper_bound; lia].
Qed.

Section decimal.
Context n (Hn : 0 ≤ n < 2 ^ 32).

Lemma decimal_value : digits 0 (decimal n) = (n, []).
Proof. unfold decimal. rewrite decimal_of_value; [done|]. split; [lia|]. etrans; [apply Hn|done]. Qed.

Lemma decimal_length : (1 ≤ length (decimal n) ≤ 20)%nat.
Proof.
  split; [exact (decimal_of_nonempty 19 n [])|exact (proj2 (decimal_of_length 20 n []))].
Qed.

Lemma decimal_all_digits : ndL_all_digits (decimal n) = true.
Proof.
  pose proof decimal_length. pose proof (decimal_of_digits 20 n [] eq_refl) as H'. fold (decimal n) in H'.
  unfold ndL_all_digits. destruct (decimal n); [cbn in *; lia|done].
Qed.

Lemma decimal_strtoul : strtoul (decimal n) = (n, [], false).
Proof.
  unfold strtoul. rewrite decimal_value. unfold ULONG_MAX. rewrite Z.min_l by lia.
  f_equal. apply Z.ltb_ge. lia.
Qed.

Lemma decimal_id : id_of (decimal n) = n.
Proof. unfold id_of. rewrite decimal_strtoul. by apply wrap32_small. Qed.

Lemma decimal_notin c : isdigit c = false → c ∉ decimal n.
Proof.
  intros Hc Hin. pose proof (decimal_of_digits 20 n [] eq_refl) as H. fold (decimal n) in H.
  rewrite forallb_forall in H. specialize (H c). rewrite <- list_elem_of_In in H.
  specialize (H Hin). congruence.
Qed.
End decimal.

(** ** Fields *)

Lemma until_app c s rest : c ∉ s → until c (s ++ c :: rest) = s.
Proof.
  induction s as [|x s IH]; cbn [until app]; [by rewrite Z.eqb_refl|].
  intros [Hx Hs]%not_elem_of_cons. destruct (Z.eqb_spec x c); [congruence|]. by rewrite IH.
Qed.

Lemma until_id c s : c ∉ s → until c s = s.
Proof.
  induction s as [|x s IH]; cbn [until]; [done|].
  intros [Hx Hs]%not_elem_of_cons. destruct (Z.eqb_spec x c); [congruence|]. by rewrite IH.
Qed.

Lemma strchr_app c s rest : c ∉ s → strchr_at c (s ++ c :: rest) = Some (c :: rest).
Proof.
  induction s as [|x s IH]; cbn [strchr_at app]; [by rewrite Z.eqb_refl|].
  intros [Hx Hs]%not_elem_of_cons. destruct (Z.eqb_spec x c); [congruence|]. by rewrite IH.
Qed.

Lemma strchr_none c s : c ∉ s → strchr_at c s = None.
Proof.
  induction s as [|x s IH]; cbn [strchr_at]; [done|].
  intros [Hx Hs]%not_elem_of_cons. destruct (Z.eqb_spec x c); [congruence|]. by apply IH.
Qed.

Lemma skip_fields_S n s rest : COLON ∉ s → skip_fields (S n) (s ++ COLON :: rest) = skip_fields n rest.
Proof. intros Hs. cbn [skip_fields]. by rewrite strchr_app. Qed.

Lemma trim_eol_id s : Forall (λ c, is_eol c = false) s → trim_eol s = s.
Proof.
  induction 1 as [|c s Hc _ IH]; [done|]. cbn [trim_eol]. rewrite IH. destruct s; [by rewrite Hc|done].
Qed.

Lemma trim_eol_newline s : Forall (λ c, is_eol c = false) s → trim_eol (s ++ [10]) = s.
Proof.
  induction 1 as [|c s Hc _ IH]; [done|]. cbn [trim_eol app]. rewrite IH. destruct s; [by rewrite Hc|done].
Qed.

(** What may stand in a field: anything but a colon, NUL and line ends. *)
Definition field_byte (c : Z) : Prop := c ≠ COLON ∧ c ≠ 0 ∧ is_eol c = false.
Definition field (s : list Z) : Prop := Forall field_byte s.

Lemma field_colon s : field s → COLON ∉ s.
Proof. intros Hs Hin. unfold field in Hs. rewrite list.Forall_forall in Hs. by destruct (Hs _ Hin) as [? _]. Qed.

Lemma field_eol s : field s → Forall (λ c, is_eol c = false) s.
Proof. intros Hs. eapply list.Forall_impl; [exact Hs|]. by intros c (_ & _ & ?). Qed.

(** A field that another one follows. *)
Lemma split_field_first s rest size :
  field s → Z.of_nat (length s) < size → ndL_split_field (s ++ COLON :: rest) 0 size = Some s.
Proof.
  intros Hs Hlen. unfold ndL_split_field. cbn [skip_fields].
  rewrite until_app by (by apply field_colon). rewrite trim_eol_id by (by apply field_eol).
  destruct (Z.leb_spec size (Z.of_nat (length s))); [lia|done].
Qed.

Lemma split_field_next s rest n size :
  field s → ndL_split_field (s ++ COLON :: rest) (S n) size = ndL_split_field rest n size.
Proof. intros Hs. unfold ndL_split_field. by rewrite skip_fields_S by (by apply field_colon). Qed.

(** ** Files of entries *)

Record passwd_entry := mk_passwd {
  pw_name : list Z;
  pw_passwd : list Z;
  pw_uid : Z;
  pw_gid : Z;
  (** the comment, the home directory and the shell *)
  pw_rest : list Z }.

Definition passwd_line (e : passwd_entry) : list Z :=
  pw_name e ++ COLON :: pw_passwd e ++ COLON :: decimal (pw_uid e) ++ COLON :: decimal (pw_gid e) ++
  COLON :: pw_rest e.

Record group_entry := mk_group {
  gr_name : list Z;
  gr_passwd : list Z;
  gr_gid : Z;
  gr_mem : list Z }.

Definition group_line (e : group_entry) : list Z :=
  gr_name e ++ COLON :: gr_passwd e ++ COLON :: decimal (gr_gid e) ++ COLON :: gr_mem e.

(** A line that [fgets] reads in one call: no NUL, and it fits the buffer. *)
Definition line_ok (line : list Z) : Prop :=
  Forall (λ c, c ≠ 0 ∧ c ≠ 10) line ∧ (length line + 1 < LINE_SIZE)%nat.

Definition id_ok (n : Z) : Prop := 0 ≤ n < 2 ^ 32.

Record passwd_ok (e : passwd_entry) : Prop := {
  po_name : field (pw_name e);
  po_length : Z.of_nat (length (pw_name e)) < 128;
  po_passwd : field (pw_passwd e);
  po_uid : id_ok (pw_uid e);
  po_gid : id_ok (pw_gid e);
  po_line : line_ok (passwd_line e) }.

Record group_ok (e : group_entry) : Prop := {
  go_name : field (gr_name e);
  go_length : Z.of_nat (length (gr_name e)) < 128;
  go_passwd : field (gr_passwd e);
  go_gid : id_ok (gr_gid e);
  go_line : line_ok (group_line e) }.

(** The bytes of a file. *)
Definition file_of (lines : list (list Z)) : list Z := lines ≫= λ line, line ++ [10].

Lemma fgets_line n line rest :
  10 ∉ line → (length line < n)%nat → fgets n (line ++ 10 :: rest) = (line ++ [10], rest).
Proof.
  revert n. induction line as [|c line IH]; intros n Hl Hn; destruct n as [|n]; cbn [length] in Hn; [lia| |lia|].
  - done.
  - apply not_elem_of_cons in Hl as [Hc Hl]. cbn [fgets app]. destruct (Z.eqb_spec c 10); [congruence|].
    rewrite IH by (done || lia). done.
Qed.

Lemma fgets_lines_of fuel n lines :
  (∀ line, line ∈ lines → 10 ∉ line ∧ (length line < n)%nat) → (length lines ≤ fuel)%nat →
  fgets_lines fuel n (file_of lines) = (λ line, line ++ [10]) <$> lines.
Proof.
  revert fuel. induction lines as [|line lines IH]; intros fuel Hl Hf; destruct fuel as [|fuel]; cbn [length] in Hf; try lia.
  - done.
  - done.
  - destruct (Hl line) as [H1 H2]; [by left|].
    assert (file_of (line :: lines) = line ++ 10 :: file_of lines) as ->
      by (unfold file_of; cbn; by rewrite <- app_assoc).
    destruct (line ++ 10 :: file_of lines) as [|c f] eqn:E; [by destruct line|].
    cbn [fgets_lines]. rewrite <- E, fgets_line by done.
    rewrite IH; [done| |lia]. intros line' Hin. apply Hl. by right.
Qed.

Lemma file_lines_of lines :
  Forall line_ok lines → file_lines (file_of lines) = (λ line, line ++ [10]) <$> lines.
Proof.
  intros Hok. unfold file_lines. rewrite fgets_lines_of.
  - rewrite <- list_fmap_compose. apply list_fmap_ext. intros i line Hi. cbn. apply until_id.
    rewrite list.Forall_forall in Hok. destruct (Hok line) as [Hb _]; [by eapply list_elem_of_lookup_2|].
    rewrite list.Forall_forall in Hb. rewrite elem_of_app, list_elem_of_singleton.
    intros [H0|?]; [|lia]. by destruct (Hb 0 H0).
  - intros line Hin. rewrite list.Forall_forall in Hok. destruct (Hok line Hin) as [Hb Hlen].
    rewrite list.Forall_forall in Hb. split; [|lia]. intros H. by destruct (Hb 10 H).
  - clear. induction lines as [|line lines IH]; [done|]. unfold file_of in *. cbn.
    rewrite !length_app. cbn. lia.
Qed.

Section lookup.
Context (name : list Z).

Lemma decimal_field n : id_ok n → field (decimal n).
Proof.
  intros Hn. apply list.Forall_forall. intros c Hc. split_and!.
  - intros ->. by apply (decimal_notin n COLON).
  - intros ->. by apply (decimal_notin n 0).
  - destruct (is_eol c) eqn:E; [|done]. unfold is_eol in E.
    destruct (isdigit c) eqn:Ed; [|by apply decimal_notin in Hc].
    apply isdigit_spec in Ed. change (chr "0") with 48 in Ed.
    apply orb_true_iff in E as [?%Z.eqb_eq|?%Z.eqb_eq]; lia.
Qed.

Lemma decimal_short n : id_ok n → Z.of_nat (length (decimal n)) < 32.
Proof. intros Hn. pose proof (decimal_length n). lia. Qed.

Lemma passwd_fields e :
  passwd_ok e → let line := passwd_line e ++ [10] in
  ndL_split_field line 0 128 = Some (pw_name e) ∧ ndL_split_field line 2 32 = Some (decimal (pw_uid e)) ∧
  ndL_split_field line 3 32 = Some (decimal (pw_gid e)).
Proof.
  intros [Hname Hlen Hpw Hu Hg _] line. unfold line, passwd_line. repeat (rewrite <- app_assoc; cbn [app]).
  pose proof (decimal_field _ Hu). pose proof (decimal_field _ Hg).
  rewrite !split_field_next by done. rewrite !split_field_first by auto using decimal_short. done.
Qed.

Lemma group_fields e :
  group_ok e → let line := group_line e ++ [10] in
  ndL_split_field line 0 128 = Some (gr_name e) ∧ ndL_split_field line 2 32 = Some (decimal (gr_gid e)).
Proof.
  intros [Hname Hlen Hpw Hg _] line. unfold line, group_line. repeat (rewrite <- app_assoc; cbn [app]).
  pose proof (decimal_field _ Hg).
  rewrite !split_field_next by done. rewrite !split_field_first by auto using decimal_short. done.
Qed.

(** The first entry with the name decides. *)
Lemma lookup_user_lines entries :
  Forall passwd_ok entries →
  lookup_user_loop name ((λ line, line ++ [10]) <$> (passwd_line <$> entries)) =
  (λ e, (pw_uid e, pw_gid e)) <$> find (λ e, bool_decide (pw_name e = name)) entries.
Proof.
  induction 1 as [|e entries He _ IH]; [done|]. cbn [fmap list_fmap lookup_user_loop find].
  destruct (passwd_fields e He) as (-> & -> & ->). destruct He.
  destruct (bool_decide_reflect (pw_name e = name)); cbn [negb fmap option_fmap option_map]; [|exact IH].
  by rewrite !decimal_all_digits, !decimal_id.
Qed.

Lemma lookup_group_lines entries :
  Forall group_ok entries →
  lookup_group_loop name ((λ line, line ++ [10]) <$> (group_line <$> entries)) =
  gr_gid <$> find (λ e, bool_decide (gr_name e = name)) entries.
Proof.
  induction 1 as [|e entries He _ IH]; [done|]. cbn [fmap list_fmap lookup_group_loop find].
  destruct (group_fields e He) as (-> & ->). destruct He.
  destruct (bool_decide_reflect (gr_name e = name)); cbn [negb fmap option_fmap option_map]; [|exact IH].
  by rewrite decimal_all_digits, decimal_id.
Qed.

Lemma lookup_user_entries entries :
  Forall passwd_ok entries →
  ndL_lookup_user (Some (file_of (passwd_line <$> entries))) name =
  (λ e, (pw_uid e, pw_gid e)) <$> find (λ e, bool_decide (pw_name e = name)) entries.
Proof.
  intros Hok. unfold ndL_lookup_user. cbn [mbind option_bind]. rewrite file_lines_of; [by apply lookup_user_lines|].
  apply list.Forall_fmap. eapply list.Forall_impl; [exact Hok|]. by intros e [].
Qed.

Lemma lookup_group_entries entries :
  Forall group_ok entries →
  ndL_lookup_group (Some (file_of (group_line <$> entries))) name =
  gr_gid <$> find (λ e, bool_decide (gr_name e = name)) entries.
Proof.
  intros Hok. unfold ndL_lookup_group. cbn [mbind option_bind]. rewrite file_lines_of; [by apply lookup_group_lines|].
  apply list.Forall_fmap. eapply list.Forall_impl; [exact Hok|]. by intros e [].
Qed.
End lookup.

(** ** The option *)

(** A part of the option: a number, or a name. *)
Inductive id_spec :=
  | IdNumber (n : Z)
  | IdName (name : list Z).

(** A name is not empty, has no colon and is not a number. *)
Definition name_spec (name : list Z) : Prop :=
  name ≠ [] ∧ COLON ∉ name ∧ ndL_all_digits name = false ∧ Z.of_nat (length name) < USER_PART_SIZE.

Definition id_text (i : id_spec) : list Z :=
  match i with IdNumber n => decimal n | IdName name => name end.

Definition id_spec_ok (i : id_spec) : Prop :=
  match i with IdNumber n => 0 ≤ n ≤ id_max | IdName name => name_spec name end.

(** "user" and "user:group" *)
Definition spec_text (user : id_spec) (group : option id_spec) : list Z :=
  match group with
  | None => id_text user
  | Some g => id_text user ++ COLON :: id_text g
  end.

(** What the two stand for. *)
Definition user_meaning (entries : list passwd_entry) (user : id_spec) : option (Z * Z) :=
  match user with
  | IdNumber n => Some (n, n)
  | IdName name => (λ e, (pw_uid e, pw_gid e)) <$> find (λ e, bool_decide (pw_name e = name)) entries
  end.

Definition group_meaning (entries : list group_entry) (group : id_spec) : option Z :=
  match group with
  | IdNumber n => Some n
  | IdName name => gr_gid <$> find (λ e, bool_decide (gr_name e = name)) entries
  end.

Lemma id_text_ok i :
  id_spec_ok i → id_text i ≠ [] ∧ COLON ∉ id_text i ∧ Z.of_nat (length (id_text i)) < USER_PART_SIZE.
Proof.
  destruct i as [n|name]; cbn; [|by intros (? & ? & _ & ?)]. intros Hn.
  assert (0 ≤ n < 2 ^ 32) as Hn' by (unfold id_max in Hn; lia). pose proof (decimal_length n) as Hl.
  split_and!; [by intros E; rewrite E in Hl; cbn in Hl; lia|by apply decimal_notin|unfold USER_PART_SIZE; lia].
Qed.

Lemma parse_ulong_decimal n : 0 ≤ n ≤ id_max → ndL_parse_ulong (decimal n) id_max = Some n.
Proof.
  intros Hn. unfold ndL_parse_ulong. rewrite decimal_strtoul by (unfold id_max in Hn; lia).
  rewrite andb_false_r, bool_decide_eq_true_2 by done. cbn [negb orb].
  destruct (Z.ltb_spec id_max n); [lia|done].
Qed.

(** [user] alone, or with a group. *)
Definition userspec_form (spec user : list Z) (group : option (list Z)) : Prop :=
  user ≠ [] ∧ COLON ∉ user ∧ Z.of_nat (length user) < USER_PART_SIZE ∧
  match group with
  | None => spec = user
  | Some g => spec = user ++ COLON :: g ∧ g ≠ [] ∧ COLON ∉ g
  end.

Lemma split_form spec user group :
  userspec_form spec user group → split_userspec spec = Some (user, group).
Proof.
  intros (Hne & Hc & Hlen & Hg). unfold split_userspec. destruct group as [g|].
  - destruct Hg as (-> & Hgne & Hgc).
    destruct (user ++ COLON :: g) as [|c s] eqn:E; [by destruct user|].
    rewrite <- E, strchr_app by done. cbn [drop].
    rewrite strchr_none, bool_decide_eq_false_2 by (done || by intros [? ?]). rewrite length_app.
    replace (_ - _) with (Z.of_nat (length user)) by (cbn [length]; lia).
    destruct (Z.eqb_spec (Z.of_nat (length user)) 0); [by destruct user|].
    destruct (Z.leb_spec USER_PART_SIZE (Z.of_nat (length user))); [lia|].
    rewrite Nat2Z.id, take_app_length. by destruct g.
  - subst spec. rewrite strchr_none by done. destruct user as [|c s]; [done|].
    destruct (Z.leb_spec USER_PART_SIZE (Z.of_nat (length (c :: s)))); [lia|done].
Qed.

Lemma spec_form user group :
  id_spec_ok user → (∀ g, group = Some g → id_spec_ok g) →
  userspec_form (spec_text user group) (id_text user) (id_text <$> group).
Proof.
  intros (? & ? & ?)%id_text_ok Hg. split_and!; [done..|]. destruct group as [g|]; [|done].
  by destruct (id_text_ok g (Hg g eq_refl)) as (? & ? & _).
Qed.

Section meaning.
Context passwd group (Hp : Forall passwd_ok passwd) (Hg : Forall group_ok group).

Lemma resolve_user_meaning i :
  id_spec_ok i →
  resolve_user (Some (file_of (passwd_line <$> passwd))) (id_text i) = user_meaning passwd i.
Proof.
  unfold resolve_user. destruct i as [n|name]; cbn.
  - intros Hn. rewrite decimal_all_digits by (unfold id_max in Hn; lia). rewrite parse_ulong_decimal by done.
    cbn. by rewrite wrap32_small by (unfold id_max in Hn; split; [lia|unfold u32_max; lia]).
  - intros (_ & _ & -> & _). by apply lookup_user_entries.
Qed.

Lemma resolve_group_meaning i :
  id_spec_ok i →
  resolve_group (Some (file_of (group_line <$> group))) (id_text i) = group_meaning group i.
Proof.
  unfold resolve_group. destruct i as [n|name]; cbn.
  - intros Hn. rewrite decimal_all_digits by (unfold id_max in Hn; lia). rewrite parse_ulong_decimal by done.
    cbn. by rewrite wrap32_small by (unfold id_max in Hn; split; [lia|unfold u32_max; lia]).
  - intros (_ & _ & -> & _). by apply lookup_group_entries.
Qed.
End meaning.
