(* ===== verification/UserProps.v ===== *)
(** * Theorems about the --user option

    Which options are accepted, what they stand for, and which privileges the
    process has once it has given up the others. *)
From Stdlib Require Import Ascii.
From S2P Require Import Prelude World Text User Privilege UserSpec.

(** ** The option *)

Lemma strchr_Some c s t : strchr_at c s = Some t → ∃ s1 s2, s = s1 ++ c :: s2 ∧ t = c :: s2 ∧ c ∉ s1.
Proof.
  revert t. induction s as [|x s IH]; intros t; cbn [strchr_at]; [done|].
  destruct (Z.eqb_spec x c) as [->|Hne].
  - intros [= <-]. exists [], s. split_and!; [done..|apply not_elem_of_nil].
  - intros (s1 & s2 & -> & -> & Hn)%IH. exists (x :: s1), s2. split_and!; [done..|].
    by apply not_elem_of_cons.
Qed.

Lemma strchr_None c s : strchr_at c s = None → c ∉ s.
Proof.
  induction s as [|x s IH]; cbn [strchr_at]; [by intros _ ?%elem_of_nil|].
  destruct (Z.eqb_spec x c); [done|]. intros Hs. apply not_elem_of_cons. auto.
Qed.

(** The syntax of --user.  An option is split into a user and a group exactly
    when it is a non-empty user of less than 128 bytes, alone or followed by one
    colon and a non-empty group; every other string is rejected. *)
Theorem userspec_syntax spec user group :
  split_userspec spec = Some (user, group) ↔ userspec_form spec user group.
Proof.
  split; [|apply split_form]. unfold split_userspec, userspec_form.
  destruct (decide (spec = [])) as [->|Hne]; [done|].
  destruct spec as [|c0 spec0] eqn:Espec; [done|]. rewrite <- Espec in *. clear Espec c0 spec0.
  destruct (strchr_at COLON spec) as [t|] eqn:E.
  - apply strchr_Some in E as (s1 & s2 & -> & -> & Hs1). cbn [drop].
    case_bool_decide as Hs2; [done|]. rewrite length_app. cbn [length].
    replace (_ - _) with (Z.of_nat (length s1)) by lia.
    destruct (Z.eqb_spec (Z.of_nat (length s1)) 0) as [|Hn]; [done|].
    destruct (Z.leb_spec USER_PART_SIZE (Z.of_nat (length s1))); [done|].
    destruct s2 as [|g s3]; [done|]. intros [= <- <-]. rewrite Nat2Z.id, take_app_length.
    split_and!; [by intros ->|done|done|done|done|]. apply strchr_None.
    destruct (strchr_at COLON (g :: s3)) eqn:E; [|done]. destruct Hs2. by eexists.
  - destruct (Z.leb_spec USER_PART_SIZE (Z.of_nat (length spec))); [done|].
    intros [= <- <-]. split_and!; [done|by apply strchr_None|done|done].
Qed.

(** C35: The meaning of --user.  For files of well-formed entries, "user" and
    "user:group", where each is a number of at most 4294967294 or a name, stand
    for what the option documents: a number is itself (and its own group), a user
    name has the ids of its first entry in /etc/passwd, a group name that of its
    first entry in /etc/group, and an unknown name is refused. *)
Theorem userspec_meaning passwd group user g :
  Forall passwd_ok passwd → Forall group_ok group →
  id_spec_ok user → (∀ i, g = Some i → id_spec_ok i) →
  ndL_parse_userspec (Some (file_of (passwd_line <$> passwd))) (Some (file_of (group_line <$> group)))
    (spec_text user g) =
  match user_meaning passwd user with
  | None => None
  | Some (uid, gid) =>
      match g with
      | None => Some (uid, gid)
      | Some i => (uid,.) <$> group_meaning group i
      end
  end.
Proof.
  intros Hp Hg Hu Hi. unfold ndL_parse_userspec. rewrite (split_form _ _ _ (spec_form user g Hu Hi)).
  cbn [mbind option_bind]. rewrite resolve_user_meaning by done.
  destruct (user_meaning passwd user) as [[uid gid]|]; [|done]. destruct g as [i|]; [|done].
  cbn [mbind option_bind fmap option_fmap option_map]. rewrite resolve_group_meaning by auto.
  by destruct (group_meaning group i).
Qed.

(** ** Privileges *)

Section drop.
Context `{CR : CredRules}.

Definition root_caps : Z := Z.lor (Z.shiftl 1 CAP_SETGID) (Z.lor (Z.shiftl 1 CAP_SETUID) cap_mask).

(** The credentials of a process that was started by root. *)
Definition privileged (c : creds) : Prop :=
  cap_subset root_caps (c_effective c) = true ∧ cap_subset cap_mask (c_permitted c) = true.

(** The calls of [ndL_drop_privileges] from [sys_keepcaps] on, when they succeed. *)
Definition drop_result (uid gid : Z) (c : creds) : creds :=
  let c1 := set_gids gid gid gid (c <| c_keepcaps := true |> <| c_groups := [gid] |>) in
  (adjust_caps c1 (set_uids uid uid uid c1))
    <| c_effective := cap_mask |> <| c_permitted := cap_mask |> <| c_inheritable := 0 |>.

Lemma drop_result_exact passwd group spec c c' :
  ndL_drop_privileges passwd group spec c = (true, c') →
  ∃ uid gid, ndL_parse_userspec passwd group spec = Some (uid, gid) ∧ uid ≠ 0 ∧ c' = drop_result uid gid c.
Proof.
  unfold ndL_drop_privileges. destruct (ndL_parse_userspec passwd group spec) as [[uid gid]|]; [|done].
  destruct (Z.eqb_spec uid 0); [done|].
  destruct (sys_keepcaps c) as [c1|] eqn:E1; [|done]. apply keepcaps_effect in E1 as ->.
  destruct (sys_setgroups _ _) as [c2|] eqn:E2; [|done]. apply setgroups_effect in E2 as ->.
  destruct (sys_setresgid _ _ _ _) as [c3|] eqn:E3; [|done]. apply setresgid_effect in E3 as ->.
  destruct (sys_setresuid _ _ _ _) as [c4|] eqn:E4; [|done]. apply setresuid_effect in E4 as ->.
  destruct (sys_capset _ _ _ _) as [c5|] eqn:E5; [|done]. apply capset_effect in E5 as ->.
  intros [= <-]. by exists uid, gid.
Qed.

Lemma drop_result_dropped uid gid c :
  uid ≠ NO_ID → gid ≠ NO_ID → dropped_to uid gid (drop_result uid gid c).
Proof.
  intros Hu Hg. unfold dropped_to, drop_result, adjust_caps.
  assert (∀ x y, x ≠ NO_ID → pick x y = x) as Hpick.
  { intros x y Hx. unfold pick. by destruct (Z.eqb_spec x NO_ID). }
  destruct (_ && negb (c_keepcaps _)), (_ && _); cbn; rewrite !Hpick by done; done.
Qed.

(** Privileges are given up for good.  When [ndL_drop_privileges] reports
    success, the option named a user other than root, and, unless an id is the
    reserved 4294967295, the real, effective and saved ids are the user's, the
    only supplementary group is the group's, and of the capabilities only
    CAP_NET_RAW and CAP_NET_ADMIN are left. *)
Theorem privileges_dropped passwd group spec c c' :
  ndL_drop_privileges passwd group spec c = (true, c') →
  ∃ uid gid, ndL_parse_userspec passwd group spec = Some (uid, gid) ∧ uid ≠ 0 ∧
    (uid ≠ NO_ID → gid ≠ NO_ID → dropped_to uid gid c').
Proof.
  intros (uid & gid & Hs & Hu & ->)%drop_result_exact. exists uid, gid. split_and!; [done|done|].
  apply drop_result_dropped.
Qed.

Lemma cap_subset_testbit a b i : cap_subset a b = true → Z.testbit a i = true → Z.testbit b i = true.
Proof.
  unfold cap_subset. intros E%Z.eqb_eq Hi. rewrite <- E, Z.land_spec in Hi.
  by apply andb_true_iff in Hi as [_ ?].
Qed.

Lemma privileged_capable c cap :
  privileged c → Z.testbit root_caps cap = true → capable c cap = true.
Proof. intros [Hc _] Ht. by eapply cap_subset_testbit. Qed.

(** C34: The order of the calls works.  A process with root's capabilities and a
    well-formed option for a user other than root gives up its privileges: the
    groups are set while it still may, the user id last, and the capabilities
    survive that change because they were kept. *)
Theorem drop_succeeds_from_root passwd group spec c uid gid :
  privileged c → ndL_parse_userspec passwd group spec = Some (uid, gid) →
  uid ≠ 0 → gid ≠ NO_ID →
  ∃ c', ndL_drop_privileges passwd group spec c = (true, c') ∧ (uid ≠ NO_ID → dropped_to uid gid c').
Proof.
  intros Hpriv Hs Hu Hg. exists (drop_result uid gid c). split; [|by intros; apply drop_result_dropped].
  unfold ndL_drop_privileges. rewrite Hs. destruct (Z.eqb_spec uid 0); [done|].
  destruct (keepcaps_permitted c) as [c1 E1]. rewrite E1. apply keepcaps_effect in E1 as ->.
  destruct (setgroups_permitted [gid] (c <| c_keepcaps := true |>)) as [c2 E2];
    [by apply privileged_capable|by intros ?%list_elem_of_singleton|].
  rewrite E2. apply setgroups_effect in E2 as ->.
  destruct (setresgid_permitted gid gid gid (c <| c_keepcaps := true |> <| c_groups := [gid] |>)) as [c3 E3];
    [by apply privileged_capable|].
  rewrite E3. apply setresgid_effect in E3 as ->.
  destruct (setresuid_permitted uid uid uid (set_gids gid gid gid (c <| c_keepcaps := true |> <| c_groups := [gid] |>)))
    as [c4 E4]; [by apply privileged_capable|].
  rewrite E4. apply setresuid_effect in E4 as ->.
  destruct (capset_permitted cap_mask cap_mask (adjust_caps
    (set_gids gid gid gid (c <| c_keepcaps := true |> <| c_groups := [gid] |>))
    (set_uids uid uid uid (set_gids gid gid gid (c <| c_keepcaps := true |> <| c_groups := [gid] |>))))) as [c5 E5].
  - unfold adjust_caps. rewrite andb_false_r. destruct (_ && _); apply Hpriv.
  - done.
  - rewrite E5. by apply capset_effect in E5 as ->.
Qed.
End drop.

(** ** The theorems on concrete files *)

Definition text (s : string) : list Z := bytes_of_string s.

Definition demo_users : list passwd_entry :=
  [mk_passwd (text "root") (text "x") 0 0 (text "root:/root:/bin/sh");
   mk_passwd (text "nobody") (text "x") 65534 65534 (text "nobody:/nonexistent:/usr/sbin/nologin")].

Definition demo_groups : list group_entry :=
  [mk_group (text "root") (text "x") 0 []; mk_group (text "nogroup") (text "x") 65533 []].

Ltac decide_byte_list := unfold field, field_byte; apply (bool_decide_unpack _); vm_compute; exact I.

Lemma demo_users_ok : Forall passwd_ok demo_users.
Proof.
  repeat (apply List.Forall_cons; [split; [decide_byte_list|done|decide_byte_list|done|done|
    split; [decide_byte_list|apply Nat.ltb_lt; vm_compute; reflexivity]]|]). apply List.Forall_nil.
Qed.

Lemma demo_groups_ok : Forall group_ok demo_groups.
Proof.
  repeat (apply List.Forall_cons; [split; [decide_byte_list|done|decide_byte_list|done|
    split; [decide_byte_list|apply Nat.ltb_lt; vm_compute; reflexivity]]|]). apply List.Forall_nil.
Qed.

Definition demo_passwd : list Z := file_of (passwd_line <$> demo_users).
Definition demo_group : list Z := file_of (group_line <$> demo_groups).

Lemma demo_name_ok s :
  bool_decide (text s ≠ [] ∧ COLON ∉ text s ∧ ndL_all_digits (text s) = false ∧
               Z.of_nat (length (text s)) < USER_PART_SIZE) = true → id_spec_ok (IdName (text s)).
Proof. by intros H%bool_decide_eq_true. Qed.

Lemma userspec_meaning_witness :
  ndL_parse_userspec (Some demo_passwd) (Some demo_group) (text "nobody:nogroup") = Some (65534, 65533).
Proof.
  etrans; [apply (userspec_meaning demo_users demo_groups (IdName (text "nobody")) (Some (IdName (text "nogroup"))))|].
  - exact demo_users_ok.
  - exact demo_groups_ok.
  - apply demo_name_ok. vm_compute. reflexivity.
  - intros i [= <-]. apply demo_name_ok. vm_compute. reflexivity.
  - vm_compute. reflexivity.
Defined.

(** root with every capability *)
Definition demo_root : creds := mk_creds 0 0 0 0 0 0 [0] (2 ^ 41 - 1) (2 ^ 41 - 1) 0 false.

Lemma drop_succeeds_from_root_witness :
  ∃ c', @ndL_drop_privileges linux_creds (Some demo_passwd) (Some demo_group) (text "nobody") demo_root =
    (true, c') ∧ dropped_to 65534 65534 c'.
Proof.
  destruct (drop_succeeds_from_root (K := linux_creds)
    (Some demo_passwd) (Some demo_group) (text "nobody") demo_root 65534 65534) as (c' & E & Hd).
  - split; vm_compute; reflexivity.
  - vm_compute. reflexivity.
  - done.
  - done.
  - exists c'. split; [exact E|by apply Hd].
Defined.

Lemma privileges_dropped_witness :
  dropped_to 65534 65534
    (mk_creds 65534 65534 65534 65534 65534 65534 [65534] cap_mask cap_mask 0 true).
Proof.
  destruct (privileges_dropped (K := linux_creds) (Some demo_passwd) (Some demo_group) (text "nobody") demo_root
    (mk_creds 65534 65534 65534 65534 65534 65534 [65534] cap_mask cap_mask 0 true)) as (uid & gid & Hs & _ & Hd).
  - vm_compute. reflexivity.
  - vm_compute in Hs. injection Hs as <- <-. by apply Hd.
Defined.

(** The ids of /etc/passwd are not checked against the reserved one: the calls
    take 4294967295 for "do not change", and the process stays root although the
    function reports success. *)
Definition ghost_passwd : list Z := text "ghost:x:4294967295:100:::".

Theorem unchecked_uid_keeps_root :
  ∃ c', @ndL_drop_privileges linux_creds (Some ghost_passwd) None (text "ghost") demo_root = (true, c') ∧
    c_ruid c' = 0 ∧ c_euid c' = 0 ∧ c_suid c' = 0.
Proof. eexists. split; [vm_compute; reflexivity|done]. Qed.
