(* ===== verification/SessionProps.v ===== *)
(** * Theorems about sessions

    The contract of session.c: the state machine it implements, who is answered
    and when, and how often a target is probed. *)
From S2P Require Import Prelude Addr World Monad Packet Route Netlink Iface Session Proxy Receive.
From S2P Require Import Daemon Counting Invariant IfaceSafe SessionSafe DaemonSafe StartSafe.
From S2P Require Import SessionSpec SessionLive Demo.

(** ** The abstract state machine

    The transitions a session may make, with the conditions under which it makes
    them; [None] is a session that is gone. *)

Inductive trigger := OnTimer | OnNS | OnNA.

Inductive transition (conf : nd_conf) (now : Z) (s : nd_session) : trigger → option nd_state → Prop :=
  | tr_stay t : transition conf now s t (Some (s_state s))
  | tr_confirmed : transition conf now s OnNA (Some ND_STATE_VALID)
  | tr_route_appeared :
      s_state s = ND_STATE_INVALID → s_iface s = None →
      transition conf now s OnNS (Some ND_STATE_INCOMPLETE)
  | tr_gave_up :
      s_state s = ND_STATE_INCOMPLETE →
      (nd_conf_retrans_limit conf ≤ s_ons_count s ∧ nd_conf_retrans_time conf ≤ now - s_ons_time s ∨
       nd_conf_invalid_ttl conf ≤ now - s_state_time s) →
      transition conf now s OnTimer (Some ND_STATE_INVALID)
  | tr_aged :
      s_state s = ND_STATE_VALID → s_iface s ≠ None →
      nd_conf_valid_ttl conf ≤ now - s_state_time s →
      transition conf now s OnTimer (Some ND_STATE_STALE)
  | tr_unowned :
      s_state s = ND_STATE_VALID → s_iface s = None →
      nd_conf_valid_ttl conf ≤ now - s_state_time s →
      transition conf now s OnTimer (Some ND_STATE_INVALID)
  | tr_expired :
      s_state s = ND_STATE_STALE → nd_conf_stale_ttl conf ≤ now - s_state_time s →
      transition conf now s OnTimer (Some ND_STATE_INVALID)
  | tr_removed :
      s_state s = ND_STATE_INVALID → nd_conf_invalid_ttl conf ≤ now - s_state_time s →
      transition conf now s OnTimer None.

Section props.
Context {BO : ByteOrder}.
Implicit Types (w : world) (l : loc) (s : nd_session).

(** The handler of a trigger. *)
Definition session_handler (K : kernel) l (t : trigger) (src : nd_addr) (src_ll : option nd_lladdr)
    : M unit :=
  match t with
  | OnTimer => nd_session_update l
  | OnNS => nd_session_handle_ns K l src src_ll
  | OnNA => nd_session_handle_na l
  end.

Lemma tick_transition conf now up keep s :
  s_state s ≠ ND_STATE_INVALID →
  transition conf now s OnTimer (Some (s_state (tick conf now up keep s).1)).
Proof.
  intros Hst. unfold tick. destruct (s_state s) eqn:Est; [| | |done].
  - destruct up.
    + destruct (Z.ltb_spec (now - s_ons_time s) (nd_conf_retrans_time conf)); [apply tr_stay|].
      destruct (Z.leb_spec (nd_conf_retrans_limit conf) (s_ons_count s)); [by apply tr_gave_up; [|left]|].
      apply (tr_stay conf now s).
    + destruct (Z.ltb_spec (now - s_state_time s) (nd_conf_invalid_ttl conf)); [apply (tr_stay conf now s)|].
      by apply tr_gave_up; [|right].
  - destruct (Z.ltb_spec (now - s_state_time s) (nd_conf_valid_ttl conf)); [apply tr_stay|].
    destruct (bool_decide_reflect (s_iface s = None)); [|by apply tr_aged].
    destruct keep; [apply (tr_stay conf now s)|by apply tr_unowned].
  - destruct (Z.leb_spec (nd_conf_stale_ttl conf) (now - s_state_time s)); [by apply tr_expired|].
    destruct (_ && _); [apply tr_stay|]. destruct (_ <? _); apply (tr_stay conf now s).
Qed.

Lemma timer_transition w l s :
  world_inv w → w_sessions w !! l = Some s →
  wp (nd_session_update l) (λ _ w',
    transition (w_conf w) (nd_current_time w) s OnTimer (s_state <$> w_sessions w' !! l)) w.
Proof.
  intros Hinv Hl. destruct (session_rule_live _ _ _ Hinv _ _ Hl) as (r & p & Hr & _).
  destruct (decide (s_state s = ND_STATE_INVALID)) as [Est|Est].
  - eapply wp_mono; [by eapply wp_invalid_exact|]. intros [] w' Hw'.
    destruct (Z.ltb_spec (nd_current_time w - s_state_time s) (nd_conf_invalid_ttl (w_conf w))).
    + subst w'. rewrite Hl. apply tr_stay.
    + destruct Hw' as [-> _]. rewrite lookup_delete_eq. by apply tr_removed.
  - eapply wp_mono; [by eapply session_update_tick|]. intros [] w' Hw'.
    rewrite (becomes_lookup _ _ _ _ _ Hw'). by apply tick_transition.
Qed.
(** C3: Session handlers refine the state machine.  In every state of the running
    daemon, the timer, a solicitation and an advertisement handler of a session
    return (they do not fault), move the session along one of the abstract
    transitions, and leave every other session, the rules and the proxies alone. *)
Theorem session_refines_state_machine K w l s t src src_ll :
  world_inv w → w_sessions w !! l = Some s → (t = OnNA → s_iface s ≠ None) →
  ∃ w', session_handler K l t src src_ll w = Ret () w' ∧
    transition (w_conf w) (nd_current_time w) s t (s_state <$> w_sessions w' !! l) ∧
    (∀ k, k ≠ l → w_sessions w' !! k = w_sessions w !! k) ∧
    w_rules w' = w_rules w ∧ w_proxies w' = w_proxies w.
Proof.
  intros Hinv Hl Hna.
  assert (wp (session_handler K l t src src_ll) (λ _ w',
    transition (w_conf w) (nd_current_time w) s t (s_state <$> w_sessions w' !! l) ∧ frame l w w') w) as Hwp.
  { destruct (session_rule_live _ _ _ Hinv _ _ Hl) as (r & p & Hr & Hp & _).
    destruct t; cbn [session_handler]; apply wp_and.
    - by apply timer_transition.
    - eapply wp_mono; [by eapply wp_session_update|]. by intros [] w' [_ ?].
    - destruct (decide (s_state s = ND_STATE_VALID)) as [Est|Est].
      + eapply wp_mono; [by eapply wp_handle_ns_valid|]. intros [] w' Hw'.
        rewrite (becomes_lookup _ _ _ _ _ Hw'). apply (tr_stay _ _ s).
      + eapply wp_mono; [by eapply wp_handle_ns_unconfirmed|].
        intros [] w' [_ (s' & -> & _ & [Es|(E1 & E2 & Es)])]; cbn; rewrite Es; by constructor.
    - eapply wp_mono; [by eapply wp_session_handle_ns|]. by intros [] w' (_ & _ & ?).
    - destruct (decide (s_state s = ND_STATE_VALID)) as [Est|Est].
      + unfold nd_session_handle_na. do 4 wp_step. rewrite bool_decide_eq_true_2 by done.
        unfold set_session. wp_step. cbn. rewrite lookup_insert_eq. apply (tr_stay _ _ s).
      + eapply wp_mono; [by eapply wp_handle_na_exact|]. intros [] w' Hw'.
        rewrite (becomes_lookup _ _ _ _ _ Hw'). apply tr_confirmed.
    - eapply wp_mono; [by eapply wp_session_handle_na; [..|apply Hna]|]. by intros [] w' (_ & _ & ?). }
  destruct (wp_returns _ _ _ Hwp) as ([] & w' & Hret & Htr & [[= E1 E2 _ _ _ _ _ _] Hother]).
  by exists w'.
Qed.

(** C9: Nothing is advertised before the target is confirmed.  A solicitation for a
    session that is INCOMPLETE, STALE or INVALID puts at most probes for the
    rewritten target on the wire (and interface memberships).  A solicitor with
    a link-layer address is queued, once, up to the limit of 32, also in the
    state INVALID, and the state is kept, unless the session is INVALID without
    an interface and a route has appeared, on which it is INCOMPLETE again.
    Nothing at all is sent when the solicitation has no link-layer address (it
    is dropped and nobody is queued) or when the session is INVALID and has an
    interface. *)
Theorem no_answer_before_confirmation K w l s src src_ll :
  world_inv w → w_sessions w !! l = Some s → s_state s ≠ ND_STATE_VALID →
  ∃ w' s', nd_session_handle_ns K l src src_ll w = Ret () w' ∧
    probes_only (s_tgt_r s) w w' ∧ w_sessions w' !! l = Some s' ∧
    s_subs s' = match src_ll with Some ll => subscribed src ll (s_subs s) | None => s_subs s end ∧
    (src_ll = None ∨ s_state s = ND_STATE_INVALID ∧ s_iface s ≠ None → w_out w' = w_out w) ∧
    (s_state s' = s_state s ∨
     s_state s = ND_STATE_INVALID ∧ s_iface s = None ∧ s_state s' = ND_STATE_INCOMPLETE).
Proof.
  intros Hinv Hl Hst.
  destruct (wp_returns _ _ _ (wp_handle_ns_unconfirmed K w l s src src_ll Hinv Hl Hst))
    as ([] & w' & Hret & Hp & s' & Hl' & Hsubs & Hs'). exists w', s'. split_and!; [done..| |done].
  intros Hc. assert (wp (nd_session_handle_ns K l src src_ll) (λ _ w', w_out w' = w_out w) w) as Hsilent.
  { eapply wp_handle_ns_silent; [done|]. destruct Hc; auto. }
  destruct (wp_returns _ _ _ Hsilent) as ([] & w2 & Hret2 & ?). rewrite Hret in Hret2. by injection Hret2 as <-.
Qed.

(** C14: A VALID session answers at once.  A solicitation makes it send exactly one
    advertisement, to the solicitor, or to all nodes when the source is
    unspecified (duplicate address detection) or its link-layer address is not
    known; only the time of the solicitation changes in the session. *)
Theorem valid_session_answers K w l s r p src src_ll :
  world_inv w → w_sessions w !! l = Some s → s_state s = ND_STATE_VALID →
  w_rules w !! s_rule s = Some r → w_proxies w !! r_proxy r = Some p →
  ∃ w', nd_session_handle_ns K l src src_ll w = Ret () w' ∧
    w_sessions w' = <[l := s <| s_ins_time := nd_current_time w |>]> (w_sessions w) ∧
    w_out w' = match src_ll with
               | Some ll => if nd_addr_is_unspecified src then answer w r p s allnodes allnodes_ll
                            else answer w r p s src ll
               | None => answer w r p s allnodes allnodes_ll
               end ++ w_out w.
Proof.
  intros Hinv Hl Hst Hr Hp.
  destruct (wp_returns _ _ _ (wp_handle_ns_valid K w l s r p src src_ll Hinv Hl Hr Hp Hst))
    as ([] & w' & Hret & ->). eauto.
Qed.

(** C10: An advertisement satisfies every waiting host.  When a session that is not
    VALID gets an advertisement of its target, it sends one advertisement to
    each queued solicitor, in the order of the queue, if the interface of the
    proxy is up (if not, they go without one), requests the host route of
    an [autowire] rule, empties the queue and becomes VALID. *)
Theorem na_answers_all_subscribers w l s r p :
  world_inv w → w_sessions w !! l = Some s → s_state s ≠ ND_STATE_VALID →
  w_rules w !! s_rule s = Some r → w_proxies w !! r_proxy r = Some p →
  ∃ w', nd_session_handle_na l w = Ret () w' ∧
    w_sessions w' = <[l := s <| s_subs := [] |> <| s_autowired := s_autowired s || wires w r s |>
                             <| s_state := ND_STATE_VALID |>
                             <| s_state_time := nd_current_time w |>]> (w_sessions w) ∧
    w_out w' = wire_request w r s ++ answers w r p s (s_subs s) ++ w_out w.
Proof.
  intros Hinv Hl Hst Hr Hp.
  destruct (wp_returns _ _ _ (wp_handle_na_exact w l s r p Hinv Hl Hr Hp Hst))
    as ([] & w' & Hret & Hw'). exists w'. rewrite app_assoc, Hw'. split_and!; [by rewrite <- Hw'|done..].
Qed.

(** C11: The timer of a live session is [tick].  On a session that is not INVALID,
    [nd_session_update] computes the reference function [tick] of the clock, the
    configuration and the state of its interface, and probes exactly when it says. *)
Theorem update_is_tick w l s r :
  world_inv w → w_sessions w !! l = Some s → w_rules w !! s_rule s = Some r →
  s_state s ≠ ND_STATE_INVALID →
  let '(s', probes) := tick (w_conf w) (nd_current_time w) (iface_is_up w (s_iface s))
                         (still_answered w r s) s in
  ∃ w', nd_session_update l w = Ret () w' ∧
    w_sessions w' = <[l := s']> (w_sessions w) ∧
    w_out w' = (if probes then probe w s else []) ++ w_out w.
Proof.
  intros Hinv Hl Hr Hst. pose proof (session_update_tick w l s r Hinv Hl Hr Hst) as Hu.
  unfold update_tick in Hu. destruct (tick _ _ _ _ _) as [s' probes]. cbn [fst snd] in Hu.
  destruct (wp_returns _ _ _ Hu) as ([] & w' & Hret & ->). eauto.
Qed.

(** An INVALID session is cached for [invalid-ttl] and then removed: before, the
    timer changes nothing; after, the session leaves the table, and the number
    of sessions drops by one. *)
Theorem invalid_session_removed w l s :
  world_inv w → w_sessions w !! l = Some s → s_state s = ND_STATE_INVALID →
  ∃ w', nd_session_update l w = Ret () w' ∧
    if nd_current_time w - s_state_time s <? nd_conf_invalid_ttl (w_conf w) then w' = w
    else w_sessions w' = delete l (w_sessions w) ∧ w_session_count w' = w_session_count w - 1.
Proof.
  intros Hinv Hl Hst. destruct (session_rule_live _ _ _ Hinv _ _ Hl) as (r & p & Hr & _).
  destruct (wp_returns _ _ _ (wp_invalid_exact w l s r Hinv Hl Hr Hst)) as ([] & w' & Hret & Hw').
  eauto.
Qed.
(** ** Timing *)

Lemma stale_backoff_shift conf n :
  0 ≤ nd_conf_retrans_time conf → 0 ≤ n →
  ∃ k, 0 ≤ k ≤ 16 ∧ stale_backoff conf n = nd_conf_retrans_time conf * 2 ^ k.
Proof.
  intros Ht Hn. unfold stale_backoff.
  assert (0 ≤ Z.quot n 3) by (apply Z.quot_pos; lia).
  destruct (_ && _); [|by exists 0; split; [lia|lia]].
  destruct (Z.ltb_spec 16 (Z.quot n 3)).
  - exists 16. by rewrite Z.shiftl_mul_pow2.
  - exists (Z.quot n 3). by rewrite Z.shiftl_mul_pow2.
Qed.

(** The delay between the probes of a STALE session never overflows [long]: for a
    configured [retrans-time] (at most 60000) and any probe count it lies
    between [retrans-time] and 2^16 times that. *)
Theorem stale_backoff_bounds conf n :
  0 ≤ nd_conf_retrans_time conf ≤ 60000 → 0 ≤ n →
  nd_conf_retrans_time conf ≤ stale_backoff conf n ≤ nd_conf_retrans_time conf * 2 ^ 16 ∧
  stale_backoff conf n < 2 ^ 63.
Proof.
  intros Ht Hn. destruct (stale_backoff_shift conf n) as (k & Hk & ->); [lia|done|].
  pose proof (Z.pow_le_mono_r 2 k 16 ltac:(lia) ltac:(lia)).
  pose proof (Z.pow_pos_nonneg 2 k ltac:(lia) ltac:(lia)).
  change (2 ^ 16) with 65536 in *. change (2 ^ 63) with 9223372036854775808. nia.
Qed.

(** One timer call as an equation. *)
Lemma update_step w l s r s' (b : bool) :
  world_inv w → w_sessions w !! l = Some s → w_rules w !! s_rule s = Some r →
  s_state s ≠ ND_STATE_INVALID →
  tick (w_conf w) (nd_current_time w) (iface_is_up w (s_iface s)) (still_answered w r s) s = (s', b) →
  ∃ w', nd_session_update l w = Ret () w' ∧ world_inv w' ∧
    becomes l w s' (if b then probe w s else []) w'.
Proof.
  intros Hinv Hl Hr Hst Ht. pose proof (session_update_tick w l s r Hinv Hl Hr Hst) as Hu.
  unfold update_tick in Hu. rewrite Ht in Hu. cbn [fst snd] in Hu.
  pose proof (wp_and _ _ _ _ Hu (wp_session_update w l s Hinv Hl)) as Hb.
  destruct (wp_returns _ _ _ Hb) as ([] & w' & Hret & ? & [? _]). eauto.
Qed.

(** Retransmissions ignore [retrans-time] after the first.  The INCOMPLETE branch of
    the timer does not record when it sent a probe: once [retrans-time] has
    passed since the first probe, two successive timer calls both probe, however
    little time [t'] has passed between them (README: retransmits every
    [retrans-time]). *)
Theorem incomplete_retransmit_ignores_interval w l s t' :
  world_inv w → w_sessions w !! l = Some s → s_state s = ND_STATE_INCOMPLETE →
  iface_is_up w (s_iface s) = true →
  nd_conf_retrans_time (w_conf w) ≤ nd_current_time w - s_ons_time s →
  s_ons_count s + 1 < nd_conf_retrans_limit (w_conf w) → nd_current_time w ≤ t' →
  ∃ w1 w2, nd_session_update l w = Ret () w1 ∧
    nd_session_update l (w1 <| nd_current_time := t' |>) = Ret () w2 ∧
    w_out w2 = probe w s ++ probe w s ++ w_out w.
Proof.
  intros Hinv Hl Hst Hup Htime Hcount Ht'.
  destruct (session_rule_live _ _ _ Hinv _ _ Hl) as (r & p & Hr & _).
  assert (∀ now s0 keep, s_state s0 = ND_STATE_INCOMPLETE → s_ons_time s0 = s_ons_time s →
    nd_current_time w ≤ now → s_ons_count s0 < nd_conf_retrans_limit (w_conf w) →
    tick (w_conf w) now true keep s0 = (s0 <| s_ons_count := s_ons_count s0 + 1 |>, true)) as Htick.
  { intros now s0 keep E1 E2 Hnow Hc. unfold tick. rewrite E1, E2.
    rewrite (proj2 (Z.ltb_ge _ _)), (proj2 (Z.leb_gt _ _)) by lia. done. }
  destruct (update_step w l s r _ _ Hinv Hl Hr ltac:(by rewrite Hst)
    ltac:(rewrite Hup; apply Htick; lia || done)) as (w1 & Hret1 & Hinv1 & Hw1).
  exists w1. unfold becomes in Hw1.
  destruct (update_step (w1 <| nd_current_time := t' |>) l (s <| s_ons_count := s_ons_count s + 1 |>) r
    (s <| s_ons_count := s_ons_count s + 1 + 1 |>) true) as (w2 & Hret2 & _ & Hw2).
  - by apply inv_time.
  - subst w1. apply lookup_insert_eq.
  - by subst w1.
  - intros E. cbn in E. congruence.
  - assert (iface_is_up (w1 <| nd_current_time := t' |>)
      (s_iface (s <| s_ons_count := s_ons_count s + 1 |>)) = true) as -> by (subst w1; exact Hup).
    subst w1. lazymatch goal with |- tick _ _ _ ?keep ?s1 = _ =>
      change (tick (w_conf w) t' true keep s1 = (s1 <| s_ons_count := s_ons_count s1 + 1 |>, true)) end.
    apply Htick; [exact Hst|done|done|exact Hcount].
  - exists w2. split_and!; [done|done|]. unfold becomes in Hw2. subst w2 w1. done.
Qed.

(** Sessions of static rules are permanent: they are VALID, and the timer keeps them
    VALID whatever the clock says, so that they hold their place under the cap
    of 4096 sessions until the daemon exits. *)
Theorem static_session_permanent w l s r :
  world_inv w → w_sessions w !! l = Some s → w_rules w !! s_rule s = Some r →
  r_mode r = ND_MODE_STATIC →
  s_state s = ND_STATE_VALID ∧
  ∃ w' s', nd_session_update l w = Ret () w' ∧ w_sessions w' !! l = Some s' ∧
    s_state s' = ND_STATE_VALID ∧ w_session_count w' = w_session_count w.
Proof.
  intros Hinv Hl Hr Hm. pose proof (inv_state_ok _ _ _ _ _ _ Hinv Hl Hr ltac:(done)) as Hok.
  unfold state_ok in Hok. rewrite Hm in Hok. destruct (s_iface s) eqn:Ei; [done|]. split; [done|].
  destruct (tick (w_conf w) (nd_current_time w) (iface_is_up w (s_iface s)) (still_answered w r s) s)
    as [s' b] eqn:Ht.
  destruct (update_step w l s r s' b Hinv Hl Hr ltac:(by rewrite Hok) Ht) as (w' & Hret & _ & Hw').
  exists w', s'. split_and!; [done|by eapply becomes_lookup| |by rewrite Hw'].
  unfold tick, still_answered in Ht. rewrite Hok, Ei in Ht.
  rewrite (bool_decide_eq_true_2 (r_mode r = _)) in Ht by done. cbn in Ht.
  destruct (_ <? _); by simplify_eq.
Qed.

(** C4: A target that is silent is forgotten.  Take settings whose times are not negative
    ([timers_ok]), a session that probes on an interface, in any state (not one
    of a [static] rule or of an own address, which has no interface and lives
    on), and turns of the main loop that come at most [gap] apart, with any
    frames and datagrams except an advertisement of the probed
    address: however often hosts ask for the target, and whatever happens to the
    interface, the session can only survive up to its deadline, which the
    settings fix; and the turns never stop. *)
Theorem unconfirmed_session_expires l gap w0 v0 s0 w v :
  world_inv w0 → timers_ok (w_conf w0) → w_sessions w0 !! l = Some s0 → s_iface s0 ≠ None →
  0 ≤ gap → last_session_update v0 ≤ nd_current_time w0 →
  survives l (s_tgt_r s0) gap w0 v0 w v →
  nd_current_time w ≤ deadline gap w0 v0 s0 ∧
  ∀ K inputs now', inputs_ok inputs → ∃ v' w', loop_iteration K inputs now' v w = Ret v' w'.
Proof.
  intros Hinv Htm Hl Hi Hgap Hlast Hs.
  destruct (survives_aging l gap w0 v0 s0 w v Htm Hgap Hinv Hl Hi Hlast Hs) as [s Hag].
  split; [apply Hag|]. intros K inputs now' Hok.
  destruct (wp_returns _ _ _ (wp_loop_iteration K inputs now' v w (ag_inv _ _ _ _ _ _ _ _ Hag) Hok))
    as (v' & w' & E & _). eauto.
Qed.
End props.

(** ** The theorems on the demonstration daemon *)

Section witnesses.
#[local] Existing Instance x86_host.

Definition s_incomplete : nd_session := demo_session demo_incomplete 0.
Definition s_valid : nd_session := demo_session demo_valid 0.
Definition s_invalid : nd_session := demo_session demo_invalid 0.
Definition s_static : nd_session := demo_session demo_static 0.
Definition r_iface_rule : nd_rule := rule_iface <| r_iface := Some 1%nat |>.
Definition p_started : nd_proxy := demo_proxy <| p_iface := Some 0%nat |>.

Ltac compute_hyp := vm_compute; reflexivity || discriminate || done.

Lemma session_refines_state_machine_witness :
  ∃ w', session_handler demo_kernel 0 OnNA addr_zero None demo_incomplete = Ret () w' ∧
    transition (w_conf demo_incomplete) (nd_current_time demo_incomplete) s_incomplete OnNA
      (s_state <$> w_sessions w' !! 0%nat) ∧
    (∀ k, k ≠ 0%nat → w_sessions w' !! k = w_sessions demo_incomplete !! k) ∧
    w_rules w' = w_rules demo_incomplete ∧ w_proxies w' = w_proxies demo_incomplete.
Proof.
  apply (session_refines_state_machine demo_kernel demo_incomplete 0 s_incomplete OnNA addr_zero None).
  - exact demo_incomplete_inv.
  - compute_hyp.
  - intros _. compute_hyp.
Defined.

Lemma no_answer_before_confirmation_witness :
  (∃ w' s', nd_session_handle_ns demo_kernel 0 tgt_auto (Some ll_up) demo_incomplete = Ret () w' ∧
     probes_only (s_tgt_r s_incomplete) demo_incomplete w' ∧
     w_sessions w' !! 0%nat = Some s' ∧ s_subs s' = subscribed tgt_auto ll_up (s_subs s_incomplete)) ∧
  (∃ w' s', nd_session_handle_ns demo_kernel 0 addr_zero None demo_incomplete = Ret () w' ∧
     w_sessions w' !! 0%nat = Some s' ∧ s_subs s' = s_subs s_incomplete ∧ w_out w' = w_out demo_incomplete).
Proof.
  split.
  - destruct (no_answer_before_confirmation demo_kernel demo_incomplete 0 s_incomplete tgt_auto (Some ll_up))
      as (w' & s' & ? & ? & ? & ? & _); [exact demo_incomplete_inv|compute_hyp|compute_hyp|]. by exists w', s'.
  - destruct (no_answer_before_confirmation demo_kernel demo_incomplete 0 s_incomplete addr_zero None)
      as (w' & s' & ? & ? & ? & ? & Hout & _); [exact demo_incomplete_inv|compute_hyp|compute_hyp|].
    exists w', s'. split; [assumption|split; [assumption|split; [assumption|]]]. apply Hout. by left.
Defined.

Lemma valid_session_answers_witness :
  ∃ w', nd_session_handle_ns demo_kernel 0 demo_src (Some ll_host) demo_valid = Ret () w' ∧
    w_sessions w' = <[0%nat := s_valid <| s_ins_time := nd_current_time demo_valid |>]> (w_sessions demo_valid) ∧
    w_out w' = answer demo_valid r_iface_rule p_started s_valid demo_src ll_host ++ w_out demo_valid.
Proof.
  apply (valid_session_answers demo_kernel demo_valid 0 s_valid r_iface_rule p_started demo_src (Some ll_host)).
  - exact demo_valid_inv.
  - compute_hyp.
  - compute_hyp.
  - compute_hyp.
  - compute_hyp.
Defined.

Lemma na_answers_all_subscribers_witness :
  ∃ w', nd_session_handle_na 0 demo_incomplete = Ret () w' ∧
    w_sessions w' = <[0%nat := s_incomplete <| s_subs := [] |>
        <| s_autowired := s_autowired s_incomplete || wires demo_incomplete r_iface_rule s_incomplete |>
        <| s_state := ND_STATE_VALID |> <| s_state_time := nd_current_time demo_incomplete |>]>
      (w_sessions demo_incomplete) ∧
    w_out w' = wire_request demo_incomplete r_iface_rule s_incomplete ++
      answers demo_incomplete r_iface_rule p_started s_incomplete [mk_sub demo_src ll_host] ++
      w_out demo_incomplete.
Proof.
  apply (na_answers_all_subscribers demo_incomplete 0 s_incomplete r_iface_rule p_started).
  - exact demo_incomplete_inv.
  - compute_hyp.
  - compute_hyp.
  - compute_hyp.
  - compute_hyp.
Defined.

Lemma update_is_tick_witness :
  ∃ w', nd_session_update 0 demo_late = Ret () w' ∧
    w_sessions w' = <[0%nat := s_incomplete <| s_ons_count := 2 |>]> (w_sessions demo_late) ∧
    w_out w' = probe demo_late s_incomplete ++ w_out demo_late.
Proof.
  assert (tick (w_conf demo_late) (nd_current_time demo_late) (iface_is_up demo_late (s_iface s_incomplete))
    (still_answered demo_late r_iface_rule s_incomplete) s_incomplete =
    (s_incomplete <| s_ons_count := 2 |>, true)) as Htick by compute_hyp.
  pose proof (update_is_tick demo_late 0 s_incomplete r_iface_rule
    (inv_time _ _ 1010000 demo_incomplete_inv) ltac:(compute_hyp) ltac:(compute_hyp) ltac:(compute_hyp)) as H.
  rewrite Htick in H. exact H.
Defined.

Definition demo_expired : world := demo_invalid <| nd_current_time := 1020000 |>.

Lemma invalid_session_removed_witness :
  ∃ w', nd_session_update 0 demo_expired = Ret () w' ∧
    w_sessions w' = delete 0%nat (w_sessions demo_expired) ∧
    w_session_count w' = w_session_count demo_expired - 1.
Proof.
  pose proof (invalid_session_removed demo_expired 0 s_invalid
    (inv_time _ _ 1020000 demo_invalid_inv) ltac:(compute_hyp) ltac:(compute_hyp)) as H.
  assert ((nd_current_time demo_expired - s_state_time s_invalid <?
    nd_conf_invalid_ttl (w_conf demo_expired)) = false) as E by compute_hyp.
  rewrite E in H. exact H.
Defined.

Lemma stale_backoff_bounds_witness :
  1000 ≤ stale_backoff conf_default 48 ≤ 1000 * 2 ^ 16 ∧ stale_backoff conf_default 48 < 2 ^ 63.
Proof. apply (stale_backoff_bounds conf_default 48); vm_compute; repeat split; discriminate. Defined.

Lemma incomplete_retransmit_ignores_interval_witness :
  ∃ w1 w2, nd_session_update 0 demo_late = Ret () w1 ∧
    nd_session_update 0 (w1 <| nd_current_time := 1010101 |>) = Ret () w2 ∧
    w_out w2 = probe demo_late s_incomplete ++ probe demo_late s_incomplete ++ w_out demo_late.
Proof.
  apply (incomplete_retransmit_ignores_interval demo_late 0 s_incomplete 1010101).
  - exact (inv_time _ _ 1010000 demo_incomplete_inv).
  - compute_hyp.
  - compute_hyp.
  - compute_hyp.
  - compute_hyp.
  - compute_hyp.
  - compute_hyp.
Defined.

Lemma static_session_permanent_witness :
  s_state s_static = ND_STATE_VALID ∧
  ∃ w' s', nd_session_update 0 (demo_static <| nd_current_time := 9000000 |>) = Ret () w' ∧
    w_sessions w' !! 0%nat = Some s' ∧ s_state s' = ND_STATE_VALID ∧
    w_session_count w' = w_session_count (demo_static <| nd_current_time := 9000000 |>).
Proof.
  apply (static_session_permanent (demo_static <| nd_current_time := 9000000 |>) 0 s_static rule_static).
  - exact (inv_time _ _ 9000000 demo_static_inv).
  - compute_hyp.
  - compute_hyp.
  - compute_hyp.
Defined.

(** A host asks again while the probe is out: with the default settings and turns
    at most 500 ms apart the session is gone 23.4 seconds after it was created. *)
Definition demo_ask : list Z := ns_frame ll_host tgt_iface.
Definition demo_vars : loop_vars := mk_loop false 1000000 1000000.
Definition demo_asked : world :=
  run demo_world (for_each [(demo_kernel, InFrame 2 demo_ask)] (λ ki, handle_input (fst ki) (snd ki))) demo_incomplete.

Lemma unconfirmed_session_expires_witness :
  1000500 ≤ deadline 500 demo_incomplete demo_vars s_incomplete ∧
  deadline 500 demo_incomplete demo_vars s_incomplete = 1023400.
Proof.
  split.
  - destruct (unconfirmed_session_expires 0 500 demo_incomplete demo_vars s_incomplete
      (demo_asked <| nd_current_time := 1000500 |>) demo_vars) as [H _].
    + exact demo_incomplete_inv.
    + split; compute_hyp.
    + compute_hyp.
    + compute_hyp.
    + compute_hyp.
    + compute_hyp.
    + apply (sv_turn 0 _ 500 demo_incomplete demo_vars demo_kernel demo_incomplete demo_vars demo_vars demo_incomplete
        [(demo_kernel, InFrame 2 demo_ask)]).
      * apply sv_start.
      * compute_hyp.
      * eexists. compute_hyp.
      * apply List.Forall_cons; [|apply List.Forall_nil]. split.
        -- apply (bool_decide_unpack _). vm_compute. exact I.
        -- vm_compute. discriminate.
      * compute_hyp.
      * split; compute_hyp.
    + exact H.
  - vm_compute. reflexivity.
Defined.
End witnesses.
