(* ===== verification/DaemonProps.v ===== *)
(** * Theorems about the whole daemon

    Memory safety from startup on, the bounds on what an attacker can make it
    allocate, the bookkeeping of interfaces, and the resolution of a target. *)
From S2P Require Import Prelude Addr World Monad Packet Route Netlink NetlinkSpec Iface Session Proxy Receive.
From S2P Require Import Daemon Counting Invariant IfaceSafe SessionSafe DaemonSafe StartSafe.
From S2P Require Import Text Conf ConfSafe SessionSpec Demo.

Section props.
Context {BO : ByteOrder}.
Implicit Types (w : world) (l : loc) (s : nd_session).

(** ** Safety *)

(** C12: Startup is safe.  Whatever the bytes of the configuration file, reading them
    ends without a fault; when they are accepted, the start of the daemon does
    not fault either, whatever the kernel answers, and when it succeeds the
    invariant of the running daemon holds. *)
Theorem startup_establishes_invariant K b1 b2 b3 b4 b5 w file :
  unconfigured w →
  ∃ res w1, nd_conf_load file w = Ret res w1 ∧ res ≠ PFuel ∧
    ∀ st, res = POk st →
    ∃ ok w2, daemon_start K b1 b2 b3 b4 b5 w1 = Ret ok w2 ∧ (ok = true → world_inv w2).
Proof.
  intros Hu. destruct (wp_returns _ _ _ (wp_conf_load w file Hu)) as (res & w1 & Hload & Hne & _ & Hres).
  exists res, w1. split_and!; [done|done|]. intros st Est. specialize (Hres st Est).
  destruct (wp_returns _ _ _ (wp_daemon_start K b1 b2 b3 b4 b5 w1 (configuring_conf_ok _ Hres)
    (configuring_rt_io _ _ Hres))) as (ok & w2 & ? & Hok).
  exists ok, w2. split; [done|]. intros E. by apply Hok.
Qed.

(** The daemon was started and reached [w]. *)
Section started.
Context (w1 w : world) (v : loop_vars) (Hstart : started w1) (Hreach : reachable w1 w v).

Lemma started_all : world_inv w ∧ tables_ok (w_routes w) (w_addrs w).
Proof using All.
  destruct (started_ok w1 Hstart) as [Hinv Ht0].
  destruct (reachable_inv _ _ _ Hinv Hreach) as [? Ht]. split; [done|]. by apply Ht.
Qed.

Lemma started_inv : world_inv w.
Proof using All. apply started_all. Qed.

(** C1: The daemon is memory safe.  After a successful start, and after any number of
    iterations of the main loop with any frames, netlink datagrams in the
    format of rtnetlink ([datagram_ok]: the bytes of well-formed messages,
    whole or cut to the buffer), clock readings and answers of the kernel, the
    next iteration returns: no handler dereferences NULL or a freed interface,
    proxy, rule or session, and no parser reads out of bounds. *)
Theorem daemon_memory_safe K inputs now' :
  inputs_ok inputs → ∃ v' w', loop_iteration K inputs now' v w = Ret v' w'.
Proof using All.
  intros Hok. destruct (wp_returns _ _ _ (wp_loop_iteration K inputs now' v w started_inv Hok))
    as (v' & w' & ? & _). eauto.
Qed.

(** C5: What a flood can allocate is bounded.  In every reachable state there are at
    most 4096 sessions, as many as the counter says, and none has more than 32
    queued hosts, all different. *)
Theorem sessions_bounded :
  w_session_count w = Z.of_nat (size (w_sessions w)) ∧ w_session_count w ≤ 4096 ∧
  ∀ l s, w_sessions w !! l = Some s → Z.of_nat (length (s_subs s)) ≤ 32 ∧ NoDup (s_subs s).
Proof using All.
  destruct started_inv as ([_ _ [_ _ Hc Hm Hok _] _] & _).
  split_and!; [done|done|]. intros l s Hl. by destruct (Hok _ _ Hl).
Qed.

(** C7: Reference counts are exact.  In every reachable state the list of interfaces is
    the heap of interfaces without repetition, the reference count of an
    interface is the number of proxies, rules and sessions that point to it and
    is positive, and every interface that is pointed to is allocated. *)
Theorem refcounts_exact :
  NoDup (w_first_iface w) ∧ (∀ l, l ∈ w_first_iface w ↔ is_Some (w_ifaces w !! l)) ∧
  (∀ l i, w_ifaces w !! l = Some i → i_refcount i = iface_refs w l ∧ 1 ≤ i_refcount i) ∧
  (∀ sl s l, w_sessions w !! sl = Some s → s_iface s = Some l → is_Some (w_ifaces w !! l)) ∧
  (∀ rl r l, w_rules w !! rl = Some r → r_iface r = Some l → is_Some (w_ifaces w !! l)) ∧
  (∀ pl p l, w_proxies w !! pl = Some p → p_iface p = Some l → is_Some (w_ifaces w !! l)).
Proof using All.
  pose proof started_inv as Hinv.
  pose proof Hinv as ([[Hnd Hdom Href _ _] _ _ _] & _). split_and!; [done|done| | | |].
  - intros l i Hi. destruct (Href _ _ Hi) as [-> ?]. unfold none in *. split; lia.
  - intros sl s l. by apply (session_iface_live _ _ _ Hinv none_nonneg).
  - intros rl r l. by apply (rule_iface_live _ _ _ Hinv none_nonneg).
  - intros pl p l Hp Ep. destruct (proxy_iface_live _ _ _ Hinv none_nonneg _ _ Hp) as (l' & i & E & Hi).
    simplify_eq. eauto.
Qed.

(** C26: Every session is consistent with its rule.  In every reachable state the
    rewritten target of a session is its target with the prefix of the rule's
    [rewrite] address; a session that is being probed (INCOMPLETE or STALE) has
    an interface to probe on, which for an [iface] rule is that of the rule; and
    only sessions of [autowire] rules own host routes. *)
Theorem sessions_consistent l s :
  w_sessions w !! l = Some s →
  ∃ r, w_rules w !! s_rule s = Some r ∧
    s_tgt_r s = nd_addr_combine (r_rewrite_tgt r) (s_tgt s) (r_rewrite_pflen r) ∧
    (s_state s = ND_STATE_INCOMPLETE ∨ s_state s = ND_STATE_STALE → s_iface s ≠ None) ∧
    (r_mode r = ND_MODE_IFACE → s_iface s ≠ None → s_iface s = r_iface r) ∧
    (s_autowired s = true → r_autowire r = true ∧ s_iface s ≠ None).
Proof using All.
  intros Hl. pose proof started_inv as Hinv.
  destruct (inv_session_ok _ _ _ _ _ Hinv Hl) as [(r & Hr & Ht & Ha) Hai _ _]. exists r.
  pose proof (inv_state_ok _ _ _ _ _ _ Hinv Hl Hr ltac:(done)) as Hok.
  split_and!; [done|done| | |].
  - intros Hst. destruct (probing_iface _ _ _ Hinv Hl Hst) as [iface ->]. done.
  - intros Hm Hi. unfold state_ok in Hok. rewrite Hm in Hok. by destruct (s_iface s).
  - intros E. split; [by apply Ha|by apply Hai].
Qed.

(** C25: Route lookup is longest prefix match.  In every reachable state, after any
    sequence of route notifications, [nd_rt_find_route] returns a route of the
    table that matches the address in the routing table asked for, and no
    matching route is longer; it returns none exactly when none matches. *)
Theorem route_lookup_longest_prefix addr table :
  match nd_rt_find_route addr table (w_routes w) with
  | Some r => r ∈ w_routes w ∧ rt_matches addr table r ∧
      ∀ r', r' ∈ w_routes w → rt_matches addr table r' → rt_pflen r' ≤ rt_pflen r
  | None => ∀ r, r ∈ w_routes w → ¬ rt_matches addr table r
  end.
Proof using All.
  destruct started_all as [_ [Hs _]]. destruct (nd_rt_find_route _ _ _) as [r|] eqn:Hf.
  - by apply find_sorted_longest.
  - by apply find_none_iff.
Qed.
End started.

(** ** Lookup *)

(** A session of the proxy [pl] for the target [tgt]. *)
Definition session_for w (tgt : nd_addr) (pl : loc) l : Prop :=
  ∃ s r, w_sessions w !! l = Some s ∧ w_rules w !! s_rule s = Some r ∧ s_tgt s = tgt ∧ r_proxy r = pl.

(** The session table is a map.  [nd_session_find] returns, changes nothing, and finds
    a session for a target and a proxy exactly when there is one; there is never
    more than one. *)
Theorem session_find_correct w tgt pl :
  world_inv w →
  ∃ o, nd_session_find tgt pl w = Ret o w ∧ ∀ l, session_for w tgt pl l ↔ o = Some l.
Proof.
  intros Hinv. eexists. split.
  { pose proof (wp_session_find _ _ w tgt pl (λ o w', w' = w ∧ o = List.find
      (on_session w (λ s, of_proxy w pl s && nd_addr_eq (s_tgt s) tgt)) (get_bucket w_buckets tgt w))
      Hinv (conj eq_refl eq_refl)) as Hf.
    destruct (wp_returns _ _ _ Hf) as (o & w' & Hret & -> & ->). exact Hret. }
  intros l. split.
  - intros (s & r & Hs & Hr & Ht & Hp). destruct (List.find _ _) as [k|] eqn:Hf.
    + apply find_session_Some in Hf as (sk & Hk & [Hof Heq%nd_addr_eq_spec]%andb_true_iff).
      unfold of_proxy in Hof. destruct (w_rules w !! s_rule sk) as [rk|] eqn:Hrk; [|done].
      apply bool_decide_eq_true in Hof. f_equal.
      destruct Hinv as ([_ _ [_ _ _ _ _ Hu] _] & _). by apply (Hu k l sk s rk r); try congruence.
    + by destruct (session_find_None _ _ _ _ _ _ _ _ Hinv Hf Hs Hr Ht).
  - intros Hf. apply find_session_Some in Hf as (sk & Hk & [Hof Heq%nd_addr_eq_spec]%andb_true_iff).
    unfold of_proxy in Hof. destruct (w_rules w !! s_rule sk) as [rk|] eqn:Hrk; [|done].
    apply bool_decide_eq_true in Hof. by exists sk, rk.
Qed.
(** ** Rebinding *)

(** An interface after [nd_iface_rebind_all], as a function of the kernel's answers. *)
Definition reconciled (K : kernel) (i : nd_iface) : nd_iface :=
  let '(cur, errno) := k_nametoindex K (i_name i) in
  if cur =? 0 then
    if negb (errno =? 0) && negb (errno =? ENODEV) then i
    else if i_up i then i <| i_up := false |> <| i_admin_up := false |> else i
  else
    let i' := match k_hwaddr K (i_name i) with Some ll => i <| i_lladdr := ll |> | None => i end in
    let admin_up := kernel_admin_up K (i_name i) in
    if (cur =? i_index i) && i_up i then i' <| i_admin_up := admin_up |>
    else if negb (k_add_membership K cur (i_promiscuous i)) then i'
    else i' <| i_index := cur |> <| i_up := true |> <| i_admin_up := admin_up |>.

(** [l] is the interface [i], every other one is as in [w]. *)
Definition iface_now w l (i : nd_iface) w' : Prop :=
  rebound w w' ∧ w_ifaces w' = <[l := i]> (w_ifaces w).

Lemma iface_now_lookup w l i w' : iface_now w l i w' → w_ifaces w' !! l = Some i.
Proof. intros [_ ->]. apply lookup_insert_eq. Qed.

Lemma iface_now_refl w l i : world_inv w → w_ifaces w !! l = Some i → iface_now w l i w.
Proof. intros. split; [by apply rebound_refl|]. by rewrite insert_id. Qed.

Lemma wp_now_set w0 w l i f :
  iface_now w0 l i w → i_proxy (f i) = i_proxy i → i_refcount (f i) = i_refcount i →
  wp (update w_ifaces l f) (λ _, iface_now w0 l (f i)) w.
Proof.
  intros Hn Hp Hr. pose proof (iface_now_lookup _ _ _ _ Hn) as Hi. destruct Hn as [Hreb Eif].
  pose proof Hreb as (Hinv & _ & _). wp_step. split.
  - eapply rebound_trans; [exact Hreb|]. split_and!; [|done..].
    pose proof Hinv as ([Hii _ _ _] & _). destruct (ii_ref _ _ _ _ Hii _ _ Hi) as [Href Hpos].
    eapply inv_ifaces_only; [exact Hinv|]. eapply iface_inv_update; [exact Hii|exact Hi|done|..]; try done.
    by rewrite Hr.
  - cbn. by rewrite Eif, insert_insert_eq.
Qed.

Lemma wp_now_changed w0 w l i k up :
  iface_now w0 l i w → wp (nd_session_iface_changed k up) (λ _, iface_now w0 l i) w.
Proof.
  intros [Hreb Eif]. pose proof Hreb as (Hinv & _ & _).
  eapply wp_mono; [by apply wp_iface_changed|]. intros [] w' (Hinv' & Hst & [= E1 E2 _ _ _ _ _ _] & ?).
  split; [|by rewrite E1]. eapply rebound_trans; [exact Hreb|]. by split_and!.
Qed.

Lemma wp_now_emit w0 w l i e : iface_now w0 l i w → wp (emit e) (λ _, iface_now w0 l i) w.
Proof.
  intros [Hreb Eif]. wp_step. split; [|exact Eif]. eapply rebound_trans; [exact Hreb|].
  destruct Hreb as (? & _ & _). split_and!; [by apply inv_out|done..].
Qed.

Lemma wp_now_bind w0 l i1 i2 w (m k : M unit) :
  wp m (λ _, iface_now w0 l i1) w →
  (∀ w', iface_now w0 l i1 w' → wp k (λ _, iface_now w0 l i2) w') →
  wp (m;; k) (λ _, iface_now w0 l i2) w.
Proof. intros Hm Hk. wp_step. eapply wp_mono; [exact Hm|]. intros []. apply Hk. Qed.

Lemma wp_now_when w0 w l i b (m : M unit) :
  iface_now w0 l i w → wp m (λ _, iface_now w0 l i) w → wp (when b m) (λ _, iface_now w0 l i) w.
Proof. intros ? ?. by apply wp_when. Qed.

Lemma set_lladdr_id (i : nd_iface) ll : i_lladdr i = ll → i <| i_lladdr := ll |> = i.
Proof. intros <-. by destruct i. Qed.

Lemma wp_rebind_exact K w l i :
  world_inv w → w_ifaces w !! l = Some i →
  wp (rebind_iface K l) (λ _, iface_now w l (reconciled K i)) w.
Proof.
  intros Hinv Hi. pose proof (iface_now_refl _ _ _ Hinv Hi) as Hnow.
  unfold rebind_iface, reconciled. wp_step. wp_step.
  destruct (k_nametoindex K (i_name i)) as [cur errno]. destruct (cur =? 0).
  - destruct (negb (errno =? 0) && negb (errno =? ENODEV)); [by wp_step|]. unfold rebind_absent.
    destruct (i_up i); cbn [when]; [|by wp_step].
    eapply wp_now_bind; [by apply (wp_now_set w w l i)|]. intros w'. by apply wp_now_changed.
  - unfold rebind_present. set (i' := match k_hwaddr K (i_name i) with Some _ => _ | None => _ end).
    assert (i_proxy i' = i_proxy i ∧ i_refcount i' = i_refcount i) as [Hp Hr]
      by (unfold i'; by destruct (k_hwaddr _ _)).
    eapply wp_now_bind; [by eapply wp_use_pkt_io; [exact Hinv|]|]. intros w1 H1.
    eapply wp_now_bind with (i1 := i').
    { unfold rebind_lladdr, i'. destruct (k_hwaddr K (i_name i)) as [ll|]; [|by wp_step].
      destruct (nd_lladdr_eq (i_lladdr i) ll) eqn:Ell; cbn [negb when].
      - apply nd_lladdr_eq_spec in Ell. wp_step. by rewrite set_lladdr_id.
      - by apply (wp_now_set w w1 l i (λ i, i <| i_lladdr := ll |>)). }
    intros w2 H2. destruct (_ && _).
    + eapply wp_now_bind; [by apply wp_now_when, wp_now_changed|]. intros w3 H3.
      by apply (wp_now_set w w3 l i' (λ i, i <| i_admin_up := _ |>)).
    + destruct (negb _); [by wp_step|].
      eapply wp_now_bind; [by apply wp_now_emit|]. intros w3 H3.
      eapply wp_now_bind; [by apply wp_now_when, wp_now_emit|]. intros w4 H4.
      eapply wp_now_bind; [by apply wp_now_when, wp_now_changed|]. intros w5 H5.
      eapply wp_now_bind; [by apply (wp_now_set w w5 l i' (λ i, i <| i_index := cur |> <| i_up := true |>))|].
      intros w6 H6. eapply wp_now_bind; [by apply wp_now_when, wp_now_changed|]. intros w7 H7.
      by apply (wp_now_set w w7 l _ (λ i, i <| i_admin_up := _ |>)).
Qed.

Lemma wp_rebind_all_exact K w :
  world_inv w →
  wp (nd_iface_rebind_all K) (λ _ w', ∀ l, w_ifaces w' !! l = reconciled K <$> w_ifaces w !! l) w.
Proof.
  intros Hinv. unfold nd_iface_rebind_all. wp_step. wp_step. rewrite (inv_pkt_io _ _ _ Hinv). cbn [negb].
  wp_step. wp_step. pose proof Hinv as ([[Hnd Hdom _ _ _] _ _ _] & _).
  apply (wp_for_each (λ rest w', rebound w w' ∧ NoDup rest ∧
    (∀ l, l ∈ rest → l ∈ w_first_iface w ∧ w_ifaces w' !! l = w_ifaces w !! l) ∧
    (∀ l, l ∉ rest → w_ifaces w' !! l = reconciled K <$> w_ifaces w !! l))).
  - split_and!; [by apply rebound_refl|done|done|]. intros l Hl.
    assert (w_ifaces w !! l = None) as ->; [|done].
    destruct (w_ifaces w !! l) eqn:E; [|done]. destruct Hl. apply Hdom. eauto.
  - intros l rest w' (Hreb & Hnd' & Hrest & Hdone). apply list.NoDup_cons in Hnd' as [Hnl Hnd'].
    destruct (Hrest l) as [Hin El]; [by left|]. apply Hdom in Hin as [i Hi].
    eapply wp_mono; [apply wp_rebind_exact; [apply Hreb|by rewrite El]|].
    intros [] w2 [Hreb2 Eif]. split_and!; [by eapply rebound_trans|done| |].
    + intros k Hk. destruct (Hrest k) as [? Ek]; [by right|]. split; [done|].
      rewrite Eif, lookup_insert_ne; [done|]. by intros ->.
    + intros k Hk. destruct (decide (k = l)) as [-> |Hne].
      * by rewrite Eif, lookup_insert_eq, Hi.
      * rewrite Eif, lookup_insert_ne by done. apply Hdone. by intros [?|?]%elem_of_cons.
  - intros w' (_ & _ & _ & H) l. apply H. by intros ?%elem_of_nil.
Qed.

(** C27: One rebind pass reconciles every interface with the kernel.  It returns, and
    afterwards an interface the kernel does not have is in the waiting state; one
    the kernel has is up at the kernel's index with its administrative state,
    unless the membership could not be added, and advertises the kernel's
    link-layer address; when the lookup itself fails, nothing changes. *)
Theorem rebind_reconciles K w l i :
  world_inv w → w_ifaces w !! l = Some i →
  ∃ w' i', nd_iface_rebind_all K w = Ret () w' ∧ w_ifaces w' !! l = Some i' ∧
    let '(cur, errno) := k_nametoindex K (i_name i) in
    (cur = 0 → errno = 0 ∨ errno = ENODEV → i_up i' = false) ∧
    (cur = 0 → errno ≠ 0 → errno ≠ ENODEV → i' = i) ∧
    (cur ≠ 0 → k_add_membership K cur (i_promiscuous i) = true →
       i_up i' = true ∧ i_index i' = cur ∧ i_admin_up i' = kernel_admin_up K (i_name i)) ∧
    (cur ≠ 0 → ∀ ll, k_hwaddr K (i_name i) = Some ll → i_lladdr i' = ll).
Proof.
  intros Hinv Hi. destruct (wp_returns _ _ _ (wp_rebind_all_exact K w Hinv)) as ([] & w' & Hret & Hall).
  exists w', (reconciled K i). split_and!; [done|by rewrite Hall, Hi|]. unfold reconciled.
  destruct (k_nametoindex K (i_name i)) as [cur errno].
  destruct (Z.eqb_spec cur 0) as [-> |Hc].
  - split_and!; [|  |done|done].
    + intros _ [-> | ->]; cbn; destruct (i_up i) eqn:E; done.
    + intros _ H1 H2. by rewrite (proj2 (Z.eqb_neq _ _) H1), (proj2 (Z.eqb_neq _ _) H2).
  - split_and!; [done|done| |].
    + intros _ ->. cbn [negb]. destruct (Z.eqb_spec cur (i_index i)) as [-> |], (i_up i) eqn:Eup;
        cbn [andb]; split_and!; try done; by destruct (k_hwaddr K (i_name i)).
    + intros _ ll ->. destruct (_ && _); [done|]. by destruct (negb _).
Qed.
(** ** Resolution of a target *)

(** The first rule of the proxy that matches the target. *)
Definition rule_for w (p : nd_proxy) (tgt : nd_addr) : option loc :=
  List.find (λ rl, match w_rules w !! rl with
                   | Some r => nd_addr_match (r_addr r) tgt (r_prefix r) | None => false end) (p_rules p).

Lemma wp_proxy_ns_new K w pl p rl src dst tgt src_ll (Q : unit → world → Prop) :
  world_inv w → w_proxies w !! pl = Some p → (∀ l, ¬ session_for w tgt pl l) →
  rule_for w p tgt = Some rl →
  wp (o ← nd_session_create K rl tgt;
      match o with Some l => nd_session_handle_ns K l src src_ll | None => mret () end) Q w →
  wp (nd_proxy_handle_ns K pl src dst tgt src_ll) Q w.
Proof.
  intros Hinv Hp Hnew Hrl HQ. unfold nd_proxy_handle_ns. wp_step. eapply wp_session_find; [exact Hinv|].
  destruct (List.find _ _) as [l|] eqn:Hf.
  { apply find_session_Some in Hf as (s & Hs & [Hof Heq%nd_addr_eq_spec]%andb_true_iff).
    unfold of_proxy in Hof. destruct (w_rules w !! s_rule s) as [r|] eqn:Hr; [|done].
    apply bool_decide_eq_true in Hof. destruct (Hnew l). by exists s, r. }
  wp_step. wp_step. wp_step.
  eapply (wp_ll_search (λ rl, match w_rules w !! rl with
                        | Some r => nd_addr_match (r_addr r) tgt (r_prefix r) | None => false end)).
  { intros k Q' Hk HQ'. destruct Hinv as ([_ [_ _ _ Hg] _ _] & _).
    destruct (Hg _ _ _ Hp Hk) as (r & Hr & _). repeat wp_step. by rewrite Hr in HQ'. }
  unfold rule_for in Hrl. rewrite Hrl. exact HQ.
Qed.

(** C13: The first solicitation starts the resolution.  When a target has no session yet
    and the first rule of the proxy that matches it is an [iface] rule, whose
    interface does not own the rewritten target, and the solicitor gave its
    link-layer address, then (below the session limit)
    one INCOMPLETE session is created, with the solicitor as its only
    subscriber, and exactly one probe for the rewritten target goes out, on
    the interface of the rule if that is up. *)
Theorem first_solicitation_probes K w pl p rl r d i src dst tgt ll :
  let tgt_r := nd_addr_combine (r_rewrite_tgt r) tgt (r_rewrite_pflen r) in
  world_inv w → w_proxies w !! pl = Some p → (∀ l, ¬ session_for w tgt pl l) →
  rule_for w p tgt = Some rl → w_rules w !! rl = Some r → r_mode r = ND_MODE_IFACE →
  r_iface r = Some d → w_ifaces w !! d = Some i → rule_owns w r tgt_r = false →
  w_session_count w < ND_SESSION_MAX →
  ∃ w' l s', nd_proxy_handle_ns K pl src dst tgt (Some ll) w = Ret () w' ∧
    w_sessions w !! l = None ∧ w_sessions w' = <[l := s']> (w_sessions w) ∧
    s_state s' = ND_STATE_INCOMPLETE ∧ s_tgt s' = tgt ∧ s_tgt_r s' = tgt_r ∧
    s_iface s' = Some d ∧ s_subs s' = [mk_sub src ll] ∧
    w_out w' = sent w (Some d) (λ ll, ns_frame ll tgt_r) ++ w_out w.
Proof.
  intros tgt_r Hinv Hp Hnew Hrl Hr Hm Hd Hi Howns Hc.
  assert (wp (nd_proxy_handle_ns K pl src dst tgt (Some ll)) (λ _ w', ∃ l s',
    w_sessions w !! l = None ∧ w_sessions w' = <[l := s']> (w_sessions w) ∧
    s_state s' = ND_STATE_INCOMPLETE ∧ s_tgt s' = tgt ∧ s_tgt_r s' = tgt_r ∧
    s_iface s' = Some d ∧ s_subs s' = [mk_sub src ll] ∧
    w_out w' = sent w (Some d) (λ ll, ns_frame ll tgt_r) ++ w_out w) w) as Hwp.
  { eapply wp_proxy_ns_new; [done..|]. wp_step.
    eapply wp_mono; [by eapply wp_create_iface_exact|].
    intros o w1 (l & -> & Hl & Es & Eo & _).
    eapply wp_mono; [eapply wp_handle_ns_incomplete; [by rewrite Es, lookup_insert_eq|done]|].
    intros [] w' Hw'. exists l. eexists. unfold becomes in Hw'. subst w'.
    split_and!; [done|cbn; by rewrite Es, insert_insert_eq|done..|exact Eo]. }
  destruct (wp_returns _ _ _ Hwp) as ([] & w' & Hret & l & s' & H). eauto.
Qed.

(** An advertisement confirms one session only.  When two sessions wait for the same
    rewritten target on the same interface (two proxies, or a rule that
    rewrites two targets to one), the advertisement of the target leaves at
    least one of them exactly as it was, its subscribers unanswered. *)
Theorem na_confirms_only_one_session K w iface tgt l1 l2 s1 s2 :
  world_inv w → l1 ≠ l2 →
  w_sessions w !! l1 = Some s1 → s_iface s1 = Some iface → s_tgt_r s1 = tgt →
  w_sessions w !! l2 = Some s2 → s_iface s2 = Some iface → s_tgt_r s2 = tgt →
  ∃ w', ndL_handle_rx K iface (RxNA tgt) w = Ret () w' ∧
    (w_sessions w' !! l1 = Some s1 ∨ w_sessions w' !! l2 = Some s2).
Proof.
  intros Hinv Hne H1 Ei1 Et1 H2 Ei2 Et2.
  assert (wp (ndL_handle_rx K iface (RxNA tgt))
    (λ _ w', w_sessions w' !! l1 = Some s1 ∨ w_sessions w' !! l2 = Some s2) w) as Hwp.
  { unfold ndL_handle_rx. wp_step. eapply wp_session_find_r; [exact Hinv|].
    destruct (List.find _ _) as [l|] eqn:Hf; [|wp_step; by left].
    apply find_session_Some in Hf as (s & Hs & [Hif _]%andb_true_iff).
    apply bool_decide_eq_true in Hif.
    eapply wp_mono; [eapply wp_session_handle_na; [exact Hinv|exact Hs|by rewrite Hif]|].
    intros [] w' (_ & _ & [_ Hother]). destruct (decide (l = l1)) as [-> |Hl].
    - right. by rewrite Hother.
    - left. by rewrite Hother. }
  destruct (wp_returns _ _ _ Hwp) as ([] & w' & ? & ?). eauto.
Qed.
End props.

(** ** The theorems on the demonstration daemon *)

Section witnesses.
#[local] Existing Instance x86_host.

Ltac compute_hyp := vm_compute; reflexivity || discriminate || done.

Definition demo_ns : list Z := ns_frame ll_host tgt_iface.
Definition demo_newroute : list Z := add_route_request (demo_addr 3 0) 48 3 254.

(** A solicitation on [eth0] and a route notification. *)
Definition demo_inputs : list (kernel * input) :=
  [(demo_kernel, InFrame 2 demo_ns); (demo_kernel, InDatagram demo_newroute)].

Lemma demo_inputs_ok : inputs_ok demo_inputs.
Proof.
  apply list.Forall_cons. split.
  - apply (bool_decide_unpack (Forall is_u8 demo_ns)). vm_compute. exact I.
  - apply list.Forall_singleton. unfold demo_newroute. rewrite add_route_request_note by lia.
    apply datagram_ok_notes; [|done]. apply add_route_note_wf; [|done]. vm_compute. repeat split; discriminate.
Qed.

(** The daemon after one iteration with these inputs. *)
Definition demo_iteration : M loop_vars := loop_iteration demo_kernel demo_inputs 1000200 loop_start.
Definition demo_later : world := run demo_world demo_iteration demo_world.
Definition demo_later_vars : loop_vars := mk_loop true 1000000 1000000.

Lemma demo_later_ret : demo_iteration demo_world = Ret demo_later_vars demo_later.
Proof. vm_compute. reflexivity. Qed.

Lemma demo_reachable : reachable demo_world demo_later demo_later_vars.
Proof. eapply reach_step; [apply reach_start|exact demo_inputs_ok|exact demo_later_ret]. Qed.

Lemma startup_establishes_invariant_witness :
  ∃ res w1, nd_conf_load (Some demo_text) demo_initial = Ret res w1 ∧ res ≠ PFuel ∧
    ∀ st, res = POk st →
    ∃ ok w2, daemon_start demo_kernel true true true true true w1 = Ret ok w2 ∧ (ok = true → world_inv w2).
Proof.
  apply (startup_establishes_invariant demo_kernel true true true true true demo_initial (Some demo_text)).
  exact demo_initial_unconfigured.
Defined.

Lemma demo_world_started : started demo_world.
Proof.
  eapply (Started demo_initial (Some demo_text) demo_end demo_conf demo_kernel true true true true true).
  - exact demo_initial_unconfigured.
  - exact demo_loaded.
  - exact demo_started.
Qed.

Lemma daemon_memory_safe_witness :
  ∃ v' w', loop_iteration demo_kernel demo_inputs 1000400 demo_later_vars demo_later = Ret v' w'.
Proof.
  apply (daemon_memory_safe demo_world demo_later
    demo_later_vars demo_world_started demo_reachable).
  exact demo_inputs_ok.
Defined.

Lemma sessions_bounded_witness :
  w_session_count demo_later = Z.of_nat (size (w_sessions demo_later)) ∧ w_session_count demo_later ≤ 4096 ∧
  ∀ l s, w_sessions demo_later !! l = Some s → Z.of_nat (length (s_subs s)) ≤ 32 ∧ NoDup (s_subs s).
Proof.
  exact (sessions_bounded demo_world demo_later
    demo_later_vars demo_world_started demo_reachable).
Defined.

Lemma refcounts_exact_witness :
  NoDup (w_first_iface demo_later) ∧
  (∀ l i, w_ifaces demo_later !! l = Some i → i_refcount i = iface_refs demo_later l ∧ 1 ≤ i_refcount i).
Proof.
  destruct (refcounts_exact demo_world demo_later
    demo_later_vars demo_world_started demo_reachable) as (H1 & _ & H2 & _).
  exact (conj H1 H2).
Defined.

Lemma sessions_consistent_witness :
  ∃ r, w_rules demo_later !! s_rule (demo_session demo_later 0) = Some r ∧
    (r_mode r = ND_MODE_IFACE → s_iface (demo_session demo_later 0) ≠ None →
     s_iface (demo_session demo_later 0) = r_iface r).
Proof.
  destruct (sessions_consistent demo_world demo_later
    demo_later_vars demo_world_started demo_reachable 0 (demo_session demo_later 0))
    as (r & Hr & _ & _ & Hm & _); [compute_hyp|].
  exact (ex_intro _ r (conj Hr Hm)).
Defined.

Lemma route_lookup_longest_prefix_witness :
  match nd_rt_find_route tgt_auto 254 (w_routes demo_later) with
  | Some r => r ∈ w_routes demo_later ∧ rt_matches tgt_auto 254 r ∧
      ∀ r', r' ∈ w_routes demo_later → rt_matches tgt_auto 254 r' → rt_pflen r' ≤ rt_pflen r
  | None => ∀ r, r ∈ w_routes demo_later → ¬ rt_matches tgt_auto 254 r
  end.
Proof.
  exact (route_lookup_longest_prefix demo_world demo_later
    demo_later_vars demo_world_started demo_reachable tgt_auto 254).
Defined.

Lemma session_find_correct_witness :
  ∃ o, nd_session_find tgt_iface 0 demo_incomplete = Ret o demo_incomplete ∧
    ∀ l, session_for demo_incomplete tgt_iface 0 l ↔ o = Some l.
Proof. apply (session_find_correct demo_incomplete tgt_iface 0). exact demo_incomplete_inv. Defined.

(** [br0] is deleted and created again with a new index. *)
Definition demo_recreated : kernel :=
  mk_kernel (λ name, if bool_decide (name = "br0") then (7, 0) else (0, ENODEV))
    (k_indextoname demo_kernel) (k_hwaddr demo_kernel) (k_flags demo_kernel) (k_add_membership demo_kernel).
Definition demo_br0 : nd_iface :=
  default (mk_iface 0 "" ll_zero 0 false false None false) (w_ifaces demo_world !! 1%nat).

Lemma rebind_reconciles_witness :
  ∃ w' i', nd_iface_rebind_all demo_recreated demo_world = Ret () w' ∧
    w_ifaces w' !! 1%nat = Some i' ∧ i_up i' = true ∧ i_index i' = 7.
Proof.
  destruct (rebind_reconciles demo_recreated demo_world 1 demo_br0) as (w' & i' & Hret & Hi & H);
    [exact demo_world_inv|compute_hyp|].
  assert (k_nametoindex demo_recreated (i_name demo_br0) = (7, 0)) as E by compute_hyp. rewrite E in H.
  destruct H as (_ & _ & H & _). destruct H as (H1 & H2 & _); [discriminate|compute_hyp|].
  exact (ex_intro _ w' (ex_intro _ i' (conj Hret (conj Hi (conj H1 H2))))).
Defined.

Definition p_demo : nd_proxy := demo_proxy <| p_iface := Some 0%nat |>.
Definition r_demo : nd_rule := rule_iface <| r_iface := Some 1%nat |>.

Lemma demo_world_no_session tgt l : ¬ session_for demo_world tgt 0 l.
Proof.
  intros (s & r & Hs & _). assert (w_sessions demo_world = ∅) as E by (vm_compute; reflexivity).
  by rewrite E, lookup_empty in Hs.
Qed.

Lemma first_solicitation_probes_witness :
  ∃ w' l s', nd_proxy_handle_ns demo_kernel 0 demo_src addr_zero tgt_iface (Some ll_host) demo_world = Ret () w' ∧
    w_sessions demo_world !! l = None ∧ w_sessions w' = <[l := s']> (w_sessions demo_world) ∧
    s_state s' = ND_STATE_INCOMPLETE ∧ s_tgt s' = tgt_iface ∧
    s_tgt_r s' = nd_addr_combine addr_zero tgt_iface 0 ∧
    s_iface s' = Some 1%nat ∧ s_subs s' = [mk_sub demo_src ll_host] ∧
    w_out w' = sent demo_world (Some 1%nat) (λ ll, ns_frame ll (nd_addr_combine addr_zero tgt_iface 0)) ++
               w_out demo_world.
Proof.
  apply (first_solicitation_probes demo_kernel demo_world 0 p_demo 0 r_demo 1 demo_br0
    demo_src addr_zero tgt_iface ll_host).
  - exact demo_world_inv.
  - compute_hyp.
  - exact (demo_world_no_session tgt_iface).
  - compute_hyp.
  - compute_hyp.
  - compute_hyp.
  - compute_hyp.
  - compute_hyp.
  - compute_hyp.
  - compute_hyp.
Defined.

Lemma na_confirms_only_one_session_witness :
  ∃ w', ndL_handle_rx demo_kernel 1 (RxNA (demo_addr 4 1)) demo_two = Ret () w' ∧
    (w_sessions w' !! 0%nat = Some (demo_session demo_two 0) ∨
     w_sessions w' !! 1%nat = Some (demo_session demo_two 1)).
Proof.
  apply (na_confirms_only_one_session demo_kernel demo_two 1 (demo_addr 4 1) 0 1
    (demo_session demo_two 0) (demo_session demo_two 1)).
  - exact demo_two_inv.
  - discriminate.
  - compute_hyp.
  - compute_hyp.
  - compute_hyp.
  - compute_hyp.
  - compute_hyp.
  - compute_hyp.
Defined.
End witnesses.
