(* ===== verification/IoProps.v ===== *)
(** * Theorems about the event loop

    The macros for linked lists implement lists, the registration of descriptors
    is exact after any sequence of operations, and both back ends deliver the
    same events. *)
From S2P Require Import Prelude World Monad LinkedList Io IoSafe IoDispatch.

(** ** Linked lists *)

(** C31: The list macros implement lists.  From any well-formed list, the macros
    of ndppd.h end within one step per node, touch no object outside the list,
    and do what their names say: prepending an object that is not on the list
    gives the list with it in front, deleting removes that element and leaves
    every payload as it was, counting gives the length, and searching finds the
    first element that satisfies the predicate. *)
Theorem ll_macros_implement_lists {A} (h : gmap loc (node A)) p l fuel :
  ll_list h p l → (length l < fuel)%nat →
  (∀ x n, h !! x = Some n → x ∉ l →
     ∃ h', nd_ll_prepend h p x = Done (h', Some x) ∧ ll_list h' (Some x) (x :: l) ∧
       ∀ y, n_val <$> h' !! y = n_val <$> h !! y) ∧
  (∀ x, x ∈ l →
     ∃ h' p', nd_ll_delete fuel h p x = Done (h', p') ∧ ll_list h' p' (ll_delete x l) ∧
       (∀ y, y ∉ l → h' !! y = h !! y) ∧ ∀ y, n_val <$> h' !! y = n_val <$> h !! y) ∧
  nd_ll_count fuel h p 0 = Done (Z.of_nat (length l)) ∧
  (∀ f, nd_ll_search fuel h p f = Done (find_val h f l)).
Proof.
  intros Hl Hf. split_and!.
  - intros x n Hn Hx. destruct (prepend_spec h p l x n Hl Hn Hx) as (h' & E & Hl' & ->).
    exists (<[x := mk_node (n_val n) p]> h). split_and!; [done|done|]. intros y.
    destruct (decide (x = y)) as [-> |Hne]; [by rewrite lookup_insert_eq, Hn|by rewrite lookup_insert_ne].
  - intros x Hx. destruct (ll_list_split _ _ _ _ Hl Hx) as (_ & _ & n & _ & _ & Hn & _).
    destruct (delete_spec fuel h p l x n Hl Hn Hf) as (h' & p' & E & Hl' & _ & _ & _ & Ho & Hv). eauto 8.
  - by rewrite (count_spec _ _ _ _ _ Hl Hf).
  - intros f. by apply search_spec.
Qed.

(** Three objects, of which the list holds two. *)
Definition demo_heap : gmap loc (node Z) :=
  <[0%nat := mk_node 10 None]> (<[1%nat := mk_node 11 (Some 0%nat)]> {[ 2%nat := mk_node 12 None ]}).

Lemma demo_list : ll_list demo_heap (Some 1%nat) [1; 0]%nat.
Proof. split; [done|]. eexists. split; [done|]. split; [done|]. by eexists. Qed.

Lemma ll_macros_implement_lists_witness :
  nd_ll_count 5 demo_heap (Some 1%nat) 0 = Done 2 ∧
  ∃ h', nd_ll_prepend demo_heap (Some 1%nat) 2%nat = Done (h', Some 2%nat) ∧ ll_list h' (Some 2%nat) [2; 1; 0]%nat.
Proof.
  destruct (ll_macros_implement_lists demo_heap (Some 1%nat) [1; 0]%nat 5 demo_list) as (Hp & _ & Hc & _).
  - cbn. lia.
  - split; [exact Hc|]. destruct (Hp 2%nat (mk_node 12 None)) as (h' & E & Hl & _); [done|set_solver|]. eauto.
Defined.

(** ** The registry of descriptors *)

(** What the rest of the program asks of io.c. *)
Inductive io_op :=
  | OpSocket (ok : bool) (a : create_answers)
  | OpOpen (ok : bool) (a : create_answers)
  | OpHandler (io : loc) (h : io_handler)
  | OpClose (io : loc).

Definition run_op (be : backend) (op : io_op) (s : io_state) : res io_state :=
  match op with
  | OpSocket ok a => '(_, s) ← nd_io_socket be ok a s; mret s
  | OpOpen ok a => '(_, s) ← nd_io_open be ok a s; mret s
  | OpHandler io h => set_handler io h s
  | OpClose io => nd_io_close be (Some io) s
  end.

(** Only objects that exist are used. *)
Definition op_ok (op : io_op) (s : io_state) : Prop :=
  match op with
  | OpSocket _ _ | OpOpen _ _ => True
  | OpHandler io _ | OpClose io => is_Some (io_heap s !! io)
  end.

#[export] Instance op_ok_dec op s : Decision (op_ok op s).
Proof. destruct op; apply _. Defined.

Inductive io_reachable (be : backend) (inh : gset Z) : io_state → Prop :=
  | ior_start : io_reachable be inh (io_start inh)
  | ior_step s op s' :
      io_reachable be inh s → op_ok op s → run_op be op s = Done s' → io_reachable be inh s'.

Section registry.
Context (be : backend) (inh : gset Z).

Lemma socket_inv ok a s l :
  io_inv be inh s l →
  ∃ o s', nd_io_socket be ok a s = Done (o, s') ∧
    (bool_decide (o = None) = negb (ok && answers_ok be a s)) ∧
    (if ok then created be inh s l (lowest_free (k_open s)) o s' else s' = s ∧ o = None).
Proof.
  intros Hinv. unfold nd_io_socket. destruct ok; cbn [negb]; [|by eexists _, _].
  unfold new_fd. destruct (create_inv be inh a s l Hinv) as (o & s' & E & Hc & Ho). eauto 6.
Qed.

Lemma socket_keeps ok a s l :
  io_inv be inh s l → ∃ o s' l', nd_io_socket be ok a s = Done (o, s') ∧ io_inv be inh s' l'.
Proof.
  intros Hinv. destruct (socket_inv ok a s l Hinv) as (o & s' & E & _ & Hc). exists o, s'. rewrite E.
  destruct ok; [|by destruct Hc as [-> _]; eauto]. unfold created in Hc. destruct o as [x|]; naive_solver.
Qed.

Lemma heap_vals s x : is_Some (io_heap s !! x) ↔ is_Some (io_vals s !! x).
Proof. unfold io_vals. rewrite lookup_fmap, fmap_is_Some. done. Qed.

Lemma run_op_inv op s l :
  io_inv be inh s l → op_ok op s → ∃ s' l', run_op be op s = Done s' ∧ io_inv be inh s' l'.
Proof.
  intros Hinv Hok. destruct op as [ok a|ok a|x h|x]; cbn [run_op].
  - destruct (socket_keeps ok a s l Hinv) as (o & s' & l' & -> & ?). cbn. eauto.
  - change (nd_io_open be ok a s) with (nd_io_socket be ok a s).
    destruct (socket_keeps ok a s l Hinv) as (o & s' & l' & -> & ?). cbn. eauto.
  - apply heap_vals, (oi_dom _ _ _ _ Hinv) in Hok.
    destruct (handler_inv be inh s l x h Hinv Hok) as (s' & io & E & ? & _). eauto.
  - apply heap_vals in Hok as [io Hio].
    destruct (close_inv be inh s l x io Hinv Hio) as (s' & E & ? & _). eauto.
Qed.

Lemma io_reachable_inv s : io_reachable be inh s → ∃ l, io_inv be inh s l.
Proof.
  induction 1 as [|s op s' _ [l Hinv] Hok E]; [exists []; apply io_start_inv|].
  destruct (run_op_inv op s l Hinv Hok) as (s1 & l1 & E1 & ?).
  rewrite E in E1. injection E1 as <-. eauto.
Qed.
End registry.

(** C28: The registry is exact.  After any sequence of creations, with system
    calls that fail or not, of handlers set and of closings, on either back end:
    the objects are those of the list, once each, the open descriptors are the
    inherited ones, the epoll instance and one per object, each object having
    its own, and the interest list of the epoll instance names exactly the
    objects; and the next operation returns. *)
Theorem io_registry_exact be inh s :
  io_reachable be inh s →
  ∃ l, ll_list (io_heap s) (ndL_first_io s) l ∧ NoDup l ∧ (∀ x, is_Some (io_heap s !! x) ↔ x ∈ l) ∧
    (∀ fd x y, io_of s fd x → io_of s fd y → x = y) ∧
    (∀ fd, fd ∈ k_open s ↔
       fd ∈ inh ∨ (0 < ndL_epoll_fd s ∧ fd = ndL_epoll_fd s) ∨ ∃ x, io_of s fd x) ∧
    (be = Epoll → ∀ fd x, k_epoll s !! fd = Some x ↔ io_of s fd x) ∧
    ∀ op, op_ok op s → ∃ s', run_op be op s = Done s'.
Proof.
  intros [l Hinv]%io_reachable_inv. exists l. split_and!; try apply Hinv.
  - eapply ll_list_NoDup, Hinv.
  - intros x. rewrite heap_vals. apply Hinv.
  - intros -> fd x. pose proof (oi_backend _ _ _ _ Hinv) as Hb. unfold epoll_ok in Hb.
    case_decide; [by apply Hb|]. destruct Hb as [Hno ->]. rewrite lookup_empty.
    split; [done|]. intros (io & Hio & _). by rewrite Hno in Hio.
  - intros op Hok. destruct (run_op_inv be inh op s l Hinv Hok) as (s' & _ & ? & _). eauto.
Qed.

(** Creation is all or nothing.  A socket is created exactly when all the
    system calls that it takes succeed; then it is a new object with the lowest
    free descriptor, and otherwise no object is added and no descriptor is left
    open (but that of the epoll instance, once it exists). *)
Theorem io_creation_exact be inh s ok a :
  io_reachable be inh s →
  ∃ o s', nd_io_socket be ok a s = Done (o, s') ∧
    bool_decide (is_Some o) = ok && answers_ok be a s ∧
    match o with
    | Some x => io_heap s !! x = None ∧ io_vals s' = <[x := mk_io (lowest_free (k_open s)) 0 None]> (io_vals s)
    | None => io_vals s' = io_vals s ∧ ∀ fd, fd ∈ k_open s' → fd ∈ k_open s ∨ fd = ndL_epoll_fd s'
    end.
Proof.
  intros [l Hinv]%io_reachable_inv. destruct (socket_inv be inh ok a s l Hinv) as (o & s' & E & Hn & Hc).
  exists o, s'. split; [done|]. split.
  { rewrite <- (negb_involutive (ok && _)), <- Hn. by destruct o. }
  destruct ok; [|destruct Hc as [-> ->]; by split; [|auto]]. destruct o as [x|]; cbn [created] in Hc.
  - destruct Hc as (Hx & _ & Ev). split; [|done]. apply eq_None_not_Some. rewrite heap_vals.
    by intros ?%(oi_dom _ _ _ _ Hinv).
  - destruct Hc as [Hinv' Ev]. split; [done|]. intros fd Hfd. apply (oi_open _ _ _ _ Hinv') in Hfd.
    rewrite (oi_open _ _ _ _ Hinv). unfold io_of in *. rewrite Ev in Hfd. naive_solver.
Qed.

(** Nothing is leaked.  From any state of the registry the cleanup at exit
    returns, frees every object and leaves open exactly the descriptors that the
    process was started with. *)
Theorem io_cleanup_restores be inh s :
  io_reachable be inh s →
  ∃ s', nd_io_cleanup be s = Done s' ∧ k_open s' = inh ∧ io_heap s' = ∅.
Proof.
  intros [l Hinv]%io_reachable_inv. destruct (cleanup_spec be inh s l Hinv) as (s' & E & _ & ? & ?). eauto.
Qed.

(** ** Waiting *)

(** A handler that runs operations of io.c, skipping those on objects that are
    gone. *)
Fixpoint run_ops (be : backend) (ops : list io_op) (s : io_state) : res io_state :=
  match ops with
  | [] => mret s
  | op :: ops => s ← (if decide (op_ok op s) then run_op be op s else mret s); run_ops be ops s
  end.

Definition ops_handler (be : backend) (script : io_handler → loc → Z → list io_op)
    (h : io_handler) (io : loc) (events : Z) (st : io_state * list loc) : res (io_state * list loc) :=
  s ← run_ops be (script h io events) (fst st);
  mret (s, io :: snd st).

Section waiting.
Context (inh : gset Z).

Lemma poll_op_array op s s' :
  run_op Poll op s = Done s' → ndL_pollfds s' = ndL_pollfds s ∧ ndL_pollfds_count s' = ndL_pollfds_count s.
Proof.
  assert (∀ x s s', unlink_io x s = Done s' →
    ndL_pollfds s' = ndL_pollfds s ∧ ndL_pollfds_count s' = ndL_pollfds_count s) as Hun.
  { intros x s0 s1. unfold unlink_io. intros ([h f] & _ & E)%res_bind_done. by injection E as <-. }
  assert (∀ ok a s o s', nd_io_socket Poll ok a s = Done (o, s') →
    ndL_pollfds s' = ndL_pollfds s ∧ ndL_pollfds_count s' = ndL_pollfds_count s) as Hso.
  { intros ok a s0 o s1. unfold nd_io_socket, new_fd, ndL_create.
    destruct (negb ok); [by intros [= <- <-]|]. destruct (negb _); [by intros [= <- <-]|].
    destruct (negb _); [by intros [= <- <-]|].
    intros ([h f] & _ & E)%res_bind_done. by injection E as <- <-. }
  destruct op as [ok a|ok a|x h|x]; cbn [run_op].
  - intros ([o s1] & E%Hso & E1)%res_bind_done. by injection E1 as <-.
  - intros ([o s1] & E%Hso & E1)%res_bind_done. by injection E1 as <-.
  - unfold set_handler. intros (n & _ & E)%res_bind_done. by injection E as <-.
  - unfold nd_io_close. intros (n & _ & E)%res_bind_done. apply res_bind_done in E as (s1 & E1%Hun & E2).
    unfold free_io in E2. apply res_bind_done in E2 as (n2 & _ & E2). by injection E2 as <-.
Qed.

Lemma run_ops_ok ops s l :
  io_inv Poll inh s l → ∃ s' l', run_ops Poll ops s = Done s' ∧ io_inv Poll inh s' l' ∧
    ndL_pollfds s' = ndL_pollfds s ∧ ndL_pollfds_count s' = ndL_pollfds_count s.
Proof.
  revert s l. induction ops as [|op ops IH]; intros s l Hinv; [by eexists _, _|]. cbn [run_ops].
  destruct (decide (op_ok op s)) as [Hok|]; [|by apply IH with (l := l)].
  destruct (run_op_inv Poll inh op s l Hinv Hok) as (s1 & l1 & E & Hinv1). rewrite E. cbn [mbind res_bind].
  destruct (poll_op_array _ _ _ E) as [Ea Ec]. rewrite <- Ea, <- Ec. by apply IH with (l := l1).
Qed.

Lemma ops_handler_ok script : handler_ok inh (ops_handler Poll script) Poll.
Proof.
  intros h x ev s l t Hinv _. unfold ops_handler. cbn [fst snd].
  destruct (run_ops_ok (script h x ev) s l Hinv) as (s' & l' & -> & ? & ? & ?). cbn. eauto 8.
Qed.
End waiting.

(** C29: The poll back end withstands its handlers.  Whatever descriptors are
    ready, and whatever sockets the handlers that are called create and close
    meanwhile (also those whose events are still to be delivered), [nd_io_poll]
    returns: it calls no handler of a freed object, never reads or writes outside
    the array of pollfds, and leaves the registry well formed; and it reports an
    error exactly when the wait failed. *)
Theorem poll_withstands_handlers inh s script a :
  io_reachable Poll inh s →
  ∃ b s' called l', nd_io_poll Poll (ops_handler Poll script) a (s, []) = Done (b, (s', called)) ∧
    io_inv Poll inh s' l' ∧ (b = false ↔ retry a = None).
Proof.
  intros [l Hinv]%io_reachable_inv.
  destruct (poll_ok inh (ops_handler Poll script) s l [] a (ops_handler_ok inh script) Hinv)
    as (b & s' & l' & t' & E & Hi & Hb). eauto 8.
Qed.

(** C30: The back ends are interchangeable.  For the same objects and the same
    ready descriptors (at most the eight that one [epoll_wait] reports), with
    handlers that leave the registry alone, one [nd_io_poll] of either back end
    calls the handlers of exactly the objects whose descriptor is ready, each
    once and with the events of that descriptor; the orders may differ. *)
Theorem backends_interchangeable {T} (handler : io_handler → loc → Z → io_state * T → res (io_state * T))
    inh inh' s s' ready a (t : T) :
  handler_quiet handler → io_reachable Epoll inh s → io_reachable Poll inh' s' → io_vals s' = io_vals s →
  NoDup ready.*1 → Forall (λ r, r.2 ≠ 0) ready → (length ready ≤ 8)%nat → retry a = Some ready →
  ∃ calls calls' s1, calls ≡ₚ calls' ∧ NoDup calls ∧
    (∀ x ev, (x, ev) ∈ calls ↔ ∃ fd, (fd, ev) ∈ ready ∧ io_of s fd x) ∧
    nd_io_poll Epoll handler a (s, t) = (st ← epoll_dispatch handler calls (s, t); mret (true, st)) ∧
    nd_io_poll Poll handler a (s', t) = (st ← epoll_dispatch handler calls' (s1, t); mret (true, st)) ∧
    io_heap s1 = io_heap s'.
Proof.
  intros Hq [l Hinv]%io_reachable_inv [l' Hinv']%io_reachable_inv Ev Hnd Hnz Hlen Hr.
  destruct (poll_exact inh' handler s' l' a ready Hq Hinv' Hr) as (s1 & _ & Eh & Ep).
  exists (epoll_events ready s), (poll_calls ready s' l'), s1. split_and!.
  - by eapply same_calls.
  - by eapply epoll_calls_NoDup.
  - intros x ev. by eapply epoll_calls_in.
  - unfold nd_io_poll. rewrite Hr. done.
  - apply Ep.
  - done.
Qed.

(** ** The theorems on a process with two sockets *)

Lemma run_ops_reachable be inh ops s s' :
  io_reachable be inh s → run_ops be ops s = Done s' → io_reachable be inh s'.
Proof.
  revert s. induction ops as [|op ops IH]; intros s Hs; cbn [run_ops]; [by intros [= <-]|].
  destruct (decide (op_ok op s)) as [Hok|]; [|by apply IH].
  intros (s1 & E1 & E)%res_bind_done. eapply IH; [|exact E]. by eapply ior_step.
Qed.

Definition all_ok : create_answers := mk_answers true true true true.
Definition two_sockets : list io_op :=
  [OpSocket true all_ok; OpHandler 0%nat PktHandler; OpSocket true all_ok; OpHandler 1%nat RtHandler].

Definition demo_io (be : backend) (inh : gset Z) : io_state :=
  match run_ops be two_sockets (io_start inh) with Done s => s | _ => io_start inh end.

Definition stdin_out_err : gset Z := {[0; 1; 2]}.

Lemma demo_io_epoll : io_reachable Epoll stdin_out_err (demo_io Epoll stdin_out_err).
Proof. eapply (run_ops_reachable _ _ two_sockets); [apply ior_start|vm_compute; reflexivity]. Qed.

Lemma demo_io_poll inh : inh = stdin_out_err ∨ inh = {[4]} ∪ stdin_out_err → io_reachable Poll inh (demo_io Poll inh).
Proof.
  intros [->| ->]; (eapply (run_ops_reachable _ _ two_sockets); [apply ior_start|vm_compute; reflexivity]).
Qed.

Lemma io_registry_exact_witness :
  ∃ l, ll_list (io_heap (demo_io Epoll stdin_out_err)) (ndL_first_io (demo_io Epoll stdin_out_err)) l ∧
    (5 ∈ k_open (demo_io Epoll stdin_out_err) ↔ 5 ∈ stdin_out_err ∨
       (0 < ndL_epoll_fd (demo_io Epoll stdin_out_err) ∧ 5 = ndL_epoll_fd (demo_io Epoll stdin_out_err)) ∨
       ∃ x, io_of (demo_io Epoll stdin_out_err) 5 x).
Proof.
  destruct (io_registry_exact Epoll stdin_out_err _ demo_io_epoll) as (l & Hl & _ & _ & _ & Hopen & _).
  exists l. split; [exact Hl|apply Hopen].
Defined.

(** The third socket gets descriptor 6, and none when [epoll_ctl] fails. *)
Lemma io_creation_exact_witness :
  ∃ o s', nd_io_socket Epoll true (mk_answers true true true false) (demo_io Epoll stdin_out_err) = Done (o, s') ∧
    bool_decide (is_Some o) = false.
Proof.
  destruct (io_creation_exact Epoll stdin_out_err (demo_io Epoll stdin_out_err) true
    (mk_answers true true true false) demo_io_epoll) as (o & s' & E & Ho & _).
  exists o, s'. split; [exact E|]. etrans; [exact Ho|]. reflexivity.
Defined.

Lemma io_cleanup_restores_witness :
  ∃ s', nd_io_cleanup Epoll (demo_io Epoll stdin_out_err) = Done s' ∧ k_open s' = stdin_out_err.
Proof.
  destruct (io_cleanup_restores Epoll stdin_out_err _ demo_io_epoll) as (s' & E & Ho & _). eauto.
Defined.

(** Each handler closes both sockets. *)
Lemma poll_withstands_handlers_witness :
  ∃ b s' called, nd_io_poll Poll (ops_handler Poll (λ _ _ _, [OpClose 0%nat; OpClose 1%nat])) (AOk [(3, 1); (4, 1)])
    (demo_io Poll stdin_out_err, []) = Done (b, (s', called)) ∧ b = true.
Proof.
  destruct (poll_withstands_handlers stdin_out_err (demo_io Poll stdin_out_err)
    (λ _ _ _, [OpClose 0%nat; OpClose 1%nat]) (AOk [(3, 1); (4, 1)])) as (b & s' & called & l' & E & _ & Hb).
  - apply demo_io_poll. by left.
  - exists b, s', called. split; [exact E|]. destruct b; [done|]. destruct Hb as [Hb _]. by specialize (Hb eq_refl).
Defined.

(** Handlers that only record that they were called. *)
Definition note_handler (h : io_handler) (io : loc) (events : Z) (st : io_state * list loc)
    : res (io_state * list loc) := mret (fst st, io :: snd st).

Lemma backends_interchangeable_witness :
  ∃ calls calls' : list (loc * Z), calls ≡ₚ calls' ∧ (0%nat, 1) ∈ calls.
Proof.
  destruct (backends_interchangeable note_handler stdin_out_err ({[4]} ∪ stdin_out_err)
    (demo_io Epoll stdin_out_err) (demo_io Poll ({[4]} ∪ stdin_out_err)) [(5, 1); (3, 1)] (AOk [(5, 1); (3, 1)]) [])
    as (calls & calls' & s1 & Hp & _ & Hc & _).
  - intros h x ev s t s' t' E. by injection E as <- _.
  - exact demo_io_epoll.
  - apply demo_io_poll. by right.
  - vm_compute. reflexivity.
  - apply (bool_decide_unpack _). vm_compute. exact I.
  - apply (bool_decide_unpack _). vm_compute. exact I.
  - cbn. lia.
  - reflexivity.
  - exists calls, calls'. split; [exact Hp|]. apply Hc. exists 3. split; [set_solver|].
    exists (mk_io 3 0 (Some PktHandler)). split; [vm_compute; reflexivity|reflexivity].
Defined.
