(* ===== verification/MainProps.v ===== *)
(** * Theorems about the program

    From the start of the process to its end: the startup, the event loop and
    the exit, with the sockets and the credentials. *)
From S2P Require Import Prelude Addr World Monad Packet Route Netlink Iface Session Proxy Receive.
From S2P Require Import Daemon Text Conf LinkedList Io User Privilege Main.
From S2P Require Import Counting Invariant IfaceSafe SessionSafe DaemonSafe StartSafe ConfSafe ExitSafe.
From S2P Require Import IoSafe IoDispatch MainSafe Demo UserSpec UserProps.

Section main.
Context {BO : ByteOrder} `{CK : CredKernel}.
Implicit Types (w : world) (t : turn) (p : process).

(** ** From start to exit *)

(** [exit] runs [ndL_exit]: it returns, no interface is left, and the memberships
    of the packet socket are given back, unless the process is the parent of the
    daemon, which shares the socket. *)
Definition exits_cleanly p : Prop :=
  ∃ p', main_exit Epoll p = Done p' ∧ w_ifaces (pr_world p') = ∅ ∧ w_first_iface (pr_world p') = [] ∧
    w_out (pr_world p') = rev (releases (pr_world p) (w_first_iface (pr_world p))) ++ w_out (pr_world p).

Lemma exit_ready_exits inh p l : exit_ready Epoll inh p l → exits_cleanly p.
Proof. intros (p' & ? & _ & ? & ? & ?)%main_exit_spec. exists p'. by split_and!. Qed.

Lemma loop_exit_ready inh p turns :
  started (pr_world p) → sockets_open Epoll inh p → Forall turn_ok turns →
  ∃ r l, main_loop Epoll turns loop_start p = Done r ∧ exit_ready Epoll inh (process_of r) l ∧
    loop_end (pr_world p) turns p r ∧ same_process p (process_of r).
Proof.
  intros Hst Hso Hok. pose proof (started_ok _ Hst) as [Hw _].
  pose proof Hso as (x & y & Ex & Ey & Hne & Hinv & _).
  destruct (main_loop_spec Epoll inh (pr_world p) turns loop_start p [y; x] Hw (reach_start _) Hinv Hok)
    as (r & E & He & Hinv' & Hs). exists r, [y; x]. split_and!; [done| |done|done].
  destruct Hs as (_ & Ep & Er & _). split; [|done|rewrite Ep|rewrite Ep, Er].
  - assert (world_inv (pr_world (process_of r))) as Hr; [|by eapply inv_closable].
    destruct r as [code q|v q]; cbn in *; [by destruct He|]. destruct He as [_ Hr]. by eapply reachable_inv.
  - rewrite Ex. intros ? [= <-]. set_solver.
  - rewrite Ex, Ey. intros ? [= <-]. split; [set_solver|congruence].
Qed.

(** C2: The program runs from start to exit.  Started with the descriptors 0 to 2
    open, whatever the options, the
    configuration and the answers of the system, the startup returns: with
    [EXIT_FAILURE], in the parent of a daemon, or in the loop; the loop returns
    after any turns with any frames and with netlink datagrams in the format of
    rtnetlink, of any length; and from
    wherever [main] ends, also half-way through the startup, the exit handler
    finishes.  No pointer that is NULL or freed is used on the way. *)
Theorem program_runs_to_exit inh e opts p :
  process_start inh p →
  ∃ r, main_start e opts p = Done r ∧
    match r with
    | SReturn code p' => code = EXIT_FAILURE ∧ exits_cleanly p'
    | SParent p' => exits_cleanly p'
    | SLoop p' =>
        ∀ turns, Forall turn_ok turns →
          ∃ r', main_loop Epoll turns loop_start p' = Done r' ∧ exits_cleanly (process_of r')
    end.
Proof.
  intros Hp. destruct (main_start_spec inh e opts p Hp) as (r & E & Hr). exists r. split; [done|].
  destruct (main_options opts options_start) as [o|].
  - destruct r as [code p'|p'|p']; cbn [start_outcome] in Hr.
    + destruct Hr as (-> & inh' & l & Hx). split; [done|]. by eapply exit_ready_exits.
    + destruct Hr as (_ & inh' & l & Hx). by eapply exit_ready_exits.
    + destruct Hr as (Hst & [inh' Hso] & _). intros turns Hok.
      destruct (loop_exit_ready inh' p' turns Hst Hso Hok) as (r & l & El & Hx & _).
      exists r. split; [done|]. by eapply exit_ready_exits.
  - subst r. split; [done|]. destruct Hp as [Hu Hio _ [Hpk Hrt]].
    eapply exit_ready_exits, start_exit_ready; [apply Hu|done..].
Qed.

(** ** The loop *)

(** C6: The loop of [main] is the loop of the daemon.  On either back end, the
    turns of the loop (the stop flag, the timers, the wait and the handlers that
    drain the sockets of frames and of well-formed netlink datagrams) lead only
    to states of the abstract daemon that handles
    one input after the other; the loop ends exactly when a signal has come or a
    wait has failed, with the exit code of that; and it never touches the
    credentials or the list of descriptors. *)
Theorem main_loop_refines_daemon be inh turns p :
  world_inv (pr_world p) → sockets_open be inh p → Forall turn_ok turns →
  ∃ r, main_loop be turns loop_start p = Done r ∧ same_process p (process_of r) ∧
    match r with
    | TNext v p' => verdict turns = None ∧ reachable (pr_world p) (pr_world p') v
    | TBreak code p' => verdict turns = Some code ∧ world_inv (pr_world p')
    end.
Proof.
  intros Hw (x & y & _ & _ & _ & Hinv & _) Hok.
  destruct (main_loop_spec be inh (pr_world p) turns loop_start p [y; x] Hw (reach_start _) Hinv Hok)
    as (r & E & He & _ & Hs). exists r. by destruct r.
Qed.

Lemma verdict_stop turns t rest :
  Forall (λ t, t_stop t = false ∧ is_Some (retry (t_wait t))) turns → t_stop t = true →
  verdict (turns ++ t :: rest) = Some EXIT_SUCCESS.
Proof.
  intros Hall Hstop. induction Hall as [|t' turns [Hs [r Hr]] _ IH]; cbn [verdict app]; [by rewrite Hstop|].
  by rewrite Hs, Hr.
Qed.

(** A termination signal ends the daemon.  After any number of turns whose
    waits succeed, the turn that sees the flag set by the signal handler ends the
    loop with [EXIT_SUCCESS], whatever is still to come, and the process exits
    cleanly. *)
Theorem signal_ends_daemon inh p turns t rest :
  started (pr_world p) → sockets_open Epoll inh p → Forall turn_ok (turns ++ t :: rest) →
  Forall (λ t, t_stop t = false ∧ is_Some (retry (t_wait t))) turns → t_stop t = true →
  ∃ p', main_loop Epoll (turns ++ t :: rest) loop_start p = Done (TBreak EXIT_SUCCESS p') ∧ exits_cleanly p'.
Proof.
  intros Hst Hso Hok Hall Hstop.
  destruct (loop_exit_ready inh p _ Hst Hso Hok) as (r & l & E & Hx & He & _).
  destruct r as [code p'|v p']; cbn [loop_end process_of] in *; destruct He as [Hv _];
    rewrite (verdict_stop turns t rest Hall Hstop) in Hv; [|done].
  injection Hv as <-. exists p'. split; [done|]. by eapply exit_ready_exits.
Qed.

(** C32: The sockets are drained.  The handler of a socket reads until the queue
    is empty or a call fails, interruptions included: it ends for every queue,
    and its effect is that of handling, in order, exactly the messages that were
    read, each cut to the buffer.  Frames are any bytes; netlink datagrams are
    in the format of rtnetlink. *)
Theorem drain_terminates :
  (∀ script w, world_inv w → Forall pkt_ok script →
     ∃ w', pkt_io_handler (S (length script)) script w = Done w' ∧ world_inv w' ∧
       for_each (pkt_inputs script) (λ ki, handle_input (fst ki) (snd ki)) w = Ret () w') ∧
  (∀ script w, world_inv w → Forall rt_ok script →
     ∃ w', rt_io_handler (S (length script)) script w = Done w' ∧ world_inv w' ∧
       for_each (rt_inputs script) (λ ki, handle_input (fst ki) (snd ki)) w = Ret () w').
Proof.
  split; intros script w Hw Hok.
  - destruct (wp_returns _ _ _ (wp_inputs _ w Hw (pkt_inputs_ok _ Hok))) as ([] & w' & E & Hw' & _).
    exists w'. rewrite pkt_handler_inputs by lia. by rewrite (lift_ret _ _ _ _ E).
  - destruct (wp_returns _ _ _ (wp_inputs _ w Hw (rt_inputs_ok _ Hok))) as ([] & w' & E & Hw' & _).
    exists w'. rewrite rt_handler_inputs by lia. by rewrite (lift_ret _ _ _ _ E).
Qed.

(** ** The exit *)

(** C33: The exit gives everything back.  From any state with both sockets open the
    exit handler returns; every interface is freed and both sockets are closed,
    so that only the inherited descriptors and the epoll instance are open.  The
    daemon drops the membership of each interface that is up exactly once, at its
    index and with its promiscuous flag; the parent of the daemon, which shares
    the packet socket with it and has [nd_iface_no_restore_flags] set, drops
    none. *)
Theorem exit_releases_everything be inh p :
  world_inv (pr_world p) → sockets_open be inh p →
  ∃ p', main_exit be p = Done p' ∧ w_ifaces (pr_world p') = ∅ ∧ io_heap (pr_io p') = ∅ ∧
    (∀ fd, fd ∈ k_open (pr_io p') ↔
       fd ∈ inh ∨ (0 < ndL_epoll_fd (pr_io p') ∧ fd = ndL_epoll_fd (pr_io p'))) ∧
    ∃ drops, w_out (pr_world p') = drops ++ w_out (pr_world p) ∧
      drops ≡ₚ if w_no_restore_flags (pr_world p) then []
              else omap membership_drop (map_to_list (w_ifaces (pr_world p))).*2.
Proof.
  intros Hw Hso. pose proof Hso as (x & y & Ex & Ey & Hne & Hinv & _).
  assert (exit_ready be inh p [y; x]) as Hx.
  { split; [by eapply inv_closable|done|rewrite Ex|rewrite Ex, Ey].
    - intros ? [= <-]. set_solver.
    - intros ? [= <-]. split; [set_solver|congruence]. }
  destruct (main_exit_spec be inh p [y; x] Hx) as (p' & E & Hinv' & Ei & _ & Eo). exists p'.
  unfold others in Hinv'. rewrite Ex, Ey in Hinv'. cbn [ll_delete] in Hinv'.
  rewrite decide_False, decide_True in Hinv' by done. cbn [ll_delete] in Hinv'. rewrite decide_True in Hinv' by done.
  destruct (inv_nil_heap _ _ _ Hinv') as [Eh Hno]. split_and!; [done|done|done| |].
  - intros fd. rewrite (oi_open _ _ _ _ Hinv'). split; [|tauto]. intros [?|[?|[z Hz]]]; [tauto..|by apply Hno in Hz].
  - eexists. split; [exact Eo|]. rewrite <- Permutation_rev. destruct (w_no_restore_flags _) eqn:Hfl.
    + by rewrite releases_kept.
    + apply releases_drops; [apply Hx|done].
Qed.

(** ** Privileges *)

(** C8: With --user the daemon never runs as root.  When the startup reaches the
    loop with the option given, the option named a user other than root, the
    privileges were dropped to that user (unless an id is the reserved one), and
    that is still so after any turns of the loop. *)
Theorem daemon_runs_unprivileged `{!CredRules CK} inh e opts o spec p p' turns :
  process_start inh p → main_options opts options_start = Some o → nd_opt_user o = Some spec →
  main_start e opts p = Done (SLoop p') → Forall turn_ok turns →
  ∃ r uid gid, main_loop Epoll turns loop_start p' = Done r ∧
    ndL_parse_userspec (se_passwd e) (se_group e) spec = Some (uid, gid) ∧ uid ≠ 0 ∧
    (uid ≠ NO_ID → gid ≠ NO_ID → dropped_to uid gid (pr_creds (process_of r))).
Proof.
  intros Hp Ho Hu E Hok. destruct (main_start_spec inh e opts p Hp) as (r & E' & Hr).
  rewrite E in E'. injection E' as <-. rewrite Ho in Hr. destruct Hr as (Hst & [inh' Hso] & Hdrop).
  destruct (loop_exit_ready inh' p' turns Hst Hso Hok) as (r & l & El & _ & _ & (Ec & _)).
  unfold user_dropped in Hdrop. rewrite Hu in Hdrop.
  destruct (drop_result_exact _ _ _ _ _ Hdrop) as (uid & gid & Hs & Hne & Hc).
  exists r, uid, gid. split_and!; [done..|]. intros. rewrite Ec, Hc. by apply drop_result_dropped.
Qed.

(** ** The background *)

(** -d without -p: the name of the pid file is NULL, [open] fails, and the program
    ends with [EXIT_FAILURE] at the end of the startup. *)
Theorem background_needs_pidfile e o p :
  nd_opt_daemonize o = true → nd_opt_pidfile_path o = None →
  ∃ p', main_background e o p = Done (SReturn EXIT_FAILURE p').
Proof.
  intros Hd Hp. unfold main_background. rewrite Hd, Hp. unfold ndL_daemonize.
  rewrite bool_decide_eq_false_2 by (by intros [? ?]). cbn [negb orb].
  destruct (nd_opt_user o); [|by eexists]. destruct (ndL_drop_privileges _ _ _ _) as [[|] c]; by eexists.
Qed.
End main.

(** ** The theorems on a concrete run *)

#[local] Existing Instance x86_host.
#[local] Existing Instance linux_creds.

Definition demo_process : process := mk_process demo_initial (io_start stdio) demo_root None None.

Lemma demo_process_start : process_start stdio demo_process.
Proof. split; [exact demo_initial_unconfigured|done|done|done]. Qed.

Definition good_socket : socket_answers := mk_socket true (mk_answers true true true true) true true.

(** ndppd -u nobody *)
Definition demo_env : start_env :=
  mk_env 1000000 (OMissing, true) (Some demo_text) (true, true) good_socket demo_kernel good_socket
    (Some demo_passwd) (Some demo_group) (mk_daemonize true true FChild true true).
Definition demo_opts : list getopt := [GUser (text "nobody")].
Definition demo_options : options := options_start <| nd_opt_user := Some (text "nobody") |>.

Definition demo_running : process :=
  match main_start demo_env demo_opts demo_process with Done (SLoop p) => p | _ => demo_process end.

Lemma demo_runs : main_start demo_env demo_opts demo_process = Done (SLoop demo_running).
Proof. vm_compute. reflexivity. Qed.

Lemma demo_running_ok :
  started (pr_world demo_running) ∧ ∃ inh, sockets_open Epoll inh demo_running.
Proof.
  destruct (main_start_spec stdio demo_env demo_opts demo_process demo_process_start) as (r & E & Hr).
  rewrite demo_runs in E. injection E as <-. destruct Hr as (? & ? & _). done.
Qed.

(** A solicitation from a host on eth0, and then a signal. *)
Definition demo_frame : list Z := ns_frame ll_host tgt_iface.
Definition demo_turn : turn :=
  mk_turn false demo_kernel (AIntr (AOk [(3, 1)])) [RIntr; RData (demo_kernel, 2) demo_frame] [] 1000150.
Definition demo_stop : turn := mk_turn true demo_kernel (AOk []) [] [] 1000200.

Lemma demo_frame_ok : Forall is_u8 demo_frame.
Proof. apply (bool_decide_unpack _). vm_compute. exact I. Qed.

Lemma demo_turns_ok : Forall turn_ok [demo_turn; demo_stop].
Proof.
  apply List.Forall_cons; [split|apply List.Forall_cons; [split|]]; try apply List.Forall_nil.
  apply List.Forall_cons; [done|]. apply List.Forall_cons; [exact demo_frame_ok|apply List.Forall_nil].
Qed.

Lemma program_runs_to_exit_witness :
  ∃ p', main_start demo_env demo_opts demo_process = Done (SLoop p') ∧
    ∃ r, main_loop Epoll [demo_turn; demo_stop] loop_start p' = Done r ∧ exits_cleanly (process_of r).
Proof.
  exists demo_running. split; [exact demo_runs|].
  destruct (program_runs_to_exit stdio demo_env demo_opts demo_process demo_process_start) as (r & E & Hr).
  rewrite demo_runs in E. injection E as <-. exact (Hr _ demo_turns_ok).
Defined.

Lemma main_loop_refines_daemon_witness :
  ∃ r, main_loop Epoll [demo_turn; demo_stop] loop_start demo_running = Done r ∧
    same_process demo_running (process_of r).
Proof.
  destruct demo_running_ok as [Hst [inh Hso]].
  destruct (main_loop_refines_daemon Epoll inh [demo_turn; demo_stop] demo_running) as (r & E & Hs & _).
  - exact (proj1 (started_ok _ Hst)).
  - exact Hso.
  - exact demo_turns_ok.
  - exists r. split; [exact E|exact Hs].
Defined.

Lemma signal_ends_daemon_witness :
  ∃ p', main_loop Epoll [demo_turn; demo_stop] loop_start demo_running = Done (TBreak EXIT_SUCCESS p').
Proof.
  destruct demo_running_ok as [Hst [inh Hso]].
  destruct (signal_ends_daemon inh demo_running [demo_turn] demo_stop []) as (p' & E & _).
  - exact Hst.
  - exact Hso.
  - exact demo_turns_ok.
  - apply List.Forall_cons; [|apply List.Forall_nil]. split; [done|]. by eexists.
  - done.
  - exists p'. exact E.
Defined.

Lemma drain_terminates_witness :
  ∃ w', pkt_io_handler 2 [RData (demo_kernel, 2) demo_frame] (pr_world demo_running) = Done w' ∧ world_inv w'.
Proof.
  destruct demo_running_ok as [Hst _]. destruct drain_terminates as [Hpkt _].
  destruct (Hpkt [RData (demo_kernel, 2) demo_frame] (pr_world demo_running)) as (w' & E & Hw' & _).
  - exact (proj1 (started_ok _ Hst)).
  - apply List.Forall_cons; [exact demo_frame_ok|apply List.Forall_nil].
  - exists w'. split; [exact E|exact Hw'].
Defined.

(** The process that has started the daemon and exits. *)
Definition demo_parent : process :=
  demo_running <| pr_world := (pr_world demo_running) <| w_no_restore_flags := true |> |>.

Lemma exit_releases_everything_witness :
  (∃ p', main_exit Epoll demo_running = Done p' ∧ w_ifaces (pr_world p') = ∅ ∧ io_heap (pr_io p') = ∅) ∧
  (∃ p' drops, main_exit Epoll demo_parent = Done p' ∧ w_ifaces (pr_world p') = ∅ ∧
     w_out (pr_world p') = drops ++ w_out (pr_world demo_parent) ∧ drops ≡ₚ []).
Proof.
  destruct demo_running_ok as [Hst [inh Hso]]. pose proof (proj1 (started_ok _ Hst)) as Hw. split.
  - destruct (exit_releases_everything Epoll inh demo_running Hw Hso) as (p' & E & Hi & Hh & _).
    exists p'. split; [exact E|split; [exact Hi|exact Hh]].
  - destruct (exit_releases_everything Epoll inh demo_parent) as (p' & E & Hi & _ & _ & drops & Eo & Hd).
    + apply inv_no_restore_flags. exact Hw.
    + apply sockets_open_world. exact Hso.
    + exists p', drops. split; [exact E|split; [exact Hi|split; [exact Eo|exact Hd]]].
Defined.

Lemma daemon_runs_unprivileged_witness :
  ∃ r, main_loop Epoll [demo_turn; demo_stop] loop_start demo_running = Done r ∧
    dropped_to 65534 65534 (pr_creds (process_of r)).
Proof.
  destruct (daemon_runs_unprivileged stdio demo_env demo_opts demo_options (text "nobody") demo_process demo_running
    [demo_turn; demo_stop]) as (r & uid & gid & E & Hs & _ & Hd).
  - exact demo_process_start.
  - reflexivity.
  - reflexivity.
  - exact demo_runs.
  - exact demo_turns_ok.
  - exists r. split; [exact E|]. vm_compute in Hs. injection Hs as <- <-. by apply Hd.
Defined.
