(* ===== verification/PacketProps.v ===== *)
(** * Theorems about frames and the socket filter

    What the receive path accepts, that it never reads outside a frame, that the
    frames the daemon sends are read back, the checksum against RFC 1071, and
    the socket filter against its specification. *)
From S2P Require Import Prelude Addr World Monad Packet Filter Demo.

Section props.
Context {BO : ByteOrder}.

(** C16: The frame parser is memory safe and total.  On every sequence of bytes the
    receive path comes to a decision, and no read of the Ethernet, IPv6,
    hop-by-hop, ICMPv6 or option fields is outside the received frame. *)
Theorem frame_parser_in_bounds f : Forall is_u8 f → ∃ r, parse_frame f = Some r.
Proof. apply parse_frame_Some. Qed.

(** C24: Accepted solicitations are valid.  A frame that is handled as a Neighbor
    Solicitation has EtherType IPv6, hop limit 255, a correct checksum, type 135
    and at least 24 bytes at the place where the (possibly hop-by-hop extended)
    IPv6 header says, and the target and source of the result are those of the
    frame; the target is not multicast, and the link-layer address is absent
    exactly when the source is unspecified. *)
Theorem accepted_solicitation_valid f src dst tgt src_ll :
  parse_frame f = Some (RxNS src dst tgt src_ll) →
  rd16 f 12 = Some ETHERTYPE_IPV6 ∧
  ∃ i, icmp6_offset f i ∧ icmp6_verified f i ∧
    rd8 f (MSG_LEN + i) = Some ND_NEIGHBOR_SOLICIT ∧
    ND_LEN ≤ wrap16 (Z.of_nat (length f) - MSG_LEN - i) ∧
    rd_addr f (MSG_LEN + i + 8) = Some tgt ∧ rd_addr f (ETH_LEN + 8) = Some src ∧
    nd_addr_is_multicast tgt = false ∧ (nd_addr_is_unspecified src = true ↔ src_ll = None).
Proof.
  intros Hp. destruct (parse_frame_inv _ _ Hp ltac:(done)) as (Het & i & Hoff & Hver & Hd).
  split; [done|]. exists i. destruct Hd as [[Hty Hns]|[[_ Hna]|[[_ ?]|[_ ?]]]]; try done.
  - apply parse_ns_inv in Hns as (? & ? & ? & ? & ?). by split_and!.
  - unfold parse_na in Hna. destruct (_ <? _); [done|]. by destruct (rd_addr _ _).
Qed.

(** Probes round-trip.  The solicitation the daemon sends for a target is accepted by
    the receive path of a daemon on the other side, as a solicitation for that
    target from the sender's link-local address to the solicited-node group
    with the sender's hardware address. *)
Theorem solicitation_roundtrip ll tgt :
  ll_wf ll → addr_wf tgt → nd_addr_is_multicast tgt = false →
  parse_frame (ns_frame ll tgt) =
  Some (RxNS (ndL_get_local_addr ll) (solicited_node tgt) tgt (Some ll)).
Proof. apply ns_frame_parse. Qed.

(** Answers round-trip.  Whatever the interface, the destination and the flags, the
    advertisement sent for a target is accepted as an advertisement of it. *)
Theorem advertisement_roundtrip ill dst dst_ll tgt tgt_ll router :
  addr_wf dst → addr_wf tgt →
  parse_frame (na_frame ill dst dst_ll tgt tgt_ll router) = Some (RxNA tgt).
Proof. apply na_frame_parse. Qed.

(** C39: The ICMPv6 checksum of a message with an even number of bytes is that of RFC 4443:
    with the result in the checksum field, the ones' complement sum of the
    pseudo-header and the message is zero. *)
Theorem icmp6_checksum_rfc src dst icmp6 :
  Forall is_u8 icmp6 → Nat.even (length icmp6) = true → (8 ≤ length icmp6)%nat →
  let size := Z.of_nat (length icmp6) in
  let cksum := ndL_calculate_icmp6_checksum src dst icmp6 size in
  is_u16 cksum ∧
  rfc1071_sum (pseudo_header src dst size ++ take 2 icmp6 ++ be16 cksum ++ drop 4 icmp6) mod 0xffff = 0.
Proof. apply icmp6_checksum_spec. Qed.

(** C38: The socket filter computes its specification.  On every frame the BPF program ends
    within its length, and keeps exactly the IPv6 frames with ICMPv6 directly or
    after one hop-by-hop header and one of the types 130, 131, 135 and 136. *)
Theorem filter_program_correct f :
  Forall is_u8 f → filter_verdict f = Some (if filter_spec f then 0xffffffff else 0).
Proof. apply filter_verdict_spec. Qed.

(** The socket filter loses nothing: it keeps every frame on which the receive path
    would act. *)
Theorem filter_keeps_handled_frames f r :
  Forall is_u8 f → parse_frame f = Some r → r ≠ RxDrop → filter_verdict f = Some 0xffffffff.
Proof.
  intros Hf Hp Hr. rewrite filter_verdict_spec by done. by rewrite (handled_frame_kept f r).
Qed.

(** ** Messages of odd length *)

(** The loop of the code on data of odd length: the last byte is added as it is,
    where RFC 1071 pads it on the right. *)
Lemma cksum_loop_odd data p sum :
  Forall is_u8 data → is_u8 p → Nat.even (length data) = true → 0 < sum ≤ 0xffff →
  0 < ndL_calculate_checksum sum (data ++ [p]) ≤ 0xffff ∧
  (ndL_calculate_checksum sum (data ++ [p])) mod 0xffff = (sum + rfc1071_sum data + p) mod 0xffff.
Proof.
  intros Hd Hp Hev Hs.
  assert (∀ sum, 0 < sum ≤ 0xffff →
    0 < ndL_cksum_loop sum (data ++ [p]) ≤ 0xffff ∧
    (ndL_cksum_loop sum (data ++ [p])) mod 0xffff = (sum + rfc1071_sum data + p) mod 0xffff) as Hloop.
  { clear sum Hs. revert Hd Hev. induction data as [|x|x y l IH] using list_ind2; intros Hd Hev sum Hs; cbn.
    - rewrite Z.add_0_r. apply cksum_fold_spec; [lia|]. unfold is_u8, u8_max in *. lia.
    - done.
    - apply Forall_cons_1 in Hd as [Hx Hd]. apply Forall_cons_1 in Hd as [Hy Hd].
      unfold is_u8, u8_max in *.
      destruct (cksum_fold_spec sum (x * 256 + y)) as [Hr Hm]; [lia|lia|].
      destruct (IH Hd Hev _ Hr) as [Hr' Hm']. split; [done|]. rewrite Hm'.
      rewrite <- Z.add_assoc, <- Zplus_mod_idemp_l, Hm, Zplus_mod_idemp_l. f_equal. lia. }
  destruct (Hloop sum Hs) as [Hr Hm]. unfold ndL_calculate_checksum.
  rewrite wrap16_small by (unfold is_u16, u16_max; lia). done.
Qed.

Lemma odd_byte_matters (x p : Z) : 0 < p < 256 → (x + p * 256) mod 0xffff = 0 → (x + p) mod 0xffff ≠ 0.
Proof. intros Hp H1 H2. zlia. Qed.

(** Odd messages are checked wrongly.  For a message of odd length whose last byte is
    not zero, the checksum that makes the RFC 1071 sum zero is not the one the
    code computes, so that the receive path drops the (valid) packet. *)
Theorem odd_message_rejected src dst a b c d e f g h rest p :
  let icmp6 := [a; b; c; d; e; f; g; h] ++ rest ++ [p] in
  let size := Z.of_nat (length icmp6) in
  Forall is_u8 icmp6 → Nat.even (length rest) = true → p ≠ 0 →
  rfc1071_sum (pseudo_header src dst size ++ icmp6) mod 0xffff = 0 →
  ndL_calculate_icmp6_checksum src dst icmp6 size ≠ c * 256 + d.
Proof.
  intros icmp6 size Hb Hev Hp Hvalid Hck. unfold ndL_calculate_icmp6_checksum, ICMP6_LEN in Hck.
  assert (take (Z.to_nat (size - 8)) (drop 8 icmp6) = rest ++ [p]) as E.
  { apply take_ge. unfold size, icmp6. cbn [drop app length]. lia. }
  rewrite E in Hck. clear E.
  apply Forall_app in Hb as [Hh [Hr Hpb]%Forall_app]. apply Forall_cons_1 in Hpb as [Hpb _].
  repeat (apply Forall_cons_1 in Hh as [? Hh]).
  change (addr_bytes src ++ _) with (cksum_header src dst size a b e f g h) in Hck.
  destruct (cksum_header_spec src dst size a b e f g h) as [Hs1 Hm1]; [repeat (apply List.Forall_cons; [done|]); apply List.Forall_nil|].
  destruct (cksum_loop_odd rest p _ Hr Hpb Hev Hs1) as [Hs2 Hm2].
  revert Hs2 Hm2 Hck. set (sum := ndL_calculate_checksum _ (rest ++ [p])). intros Hs2 Hm2 Hck.
  rewrite lnot16 in Hck by lia.
  unfold icmp6 in Hvalid. cbn [app] in Hvalid. rewrite message_sum in Hvalid.
  rewrite rfc1071_sum_app in Hvalid by done. cbn [rfc1071_sum] in Hvalid.
  eapply (odd_byte_matters _ p); [unfold is_u8, u8_max in Hpb; lia|by rewrite Z.add_assoc in Hvalid|].
  rewrite <- Hck. match goal with |- (?x + _ + ?y + _) mod _ = 0 =>
    replace (x + (0xffff - sum) + y + p) with ((0xffff + x) + (y + p) - sum) by lia end.
  rewrite <- Z.add_assoc in Hm2.
  rewrite Zminus_mod, <- Zplus_mod_idemp_l, <- Hm1, Zplus_mod_idemp_l, <- Hm2, Z.sub_diag. done.
Qed.
End props.

(** ** The theorems on concrete frames *)

Section witnesses.
#[local] Existing Instance x86_host.

Definition sample_ns : list Z := ns_frame ll_host tgt_iface.
Definition sample_result : rx :=
  RxNS (ndL_get_local_addr ll_host) (solicited_node tgt_iface) tgt_iface (Some ll_host).

Lemma sample_ns_u8 : Forall is_u8 sample_ns.
Proof. apply (bool_decide_unpack (Forall is_u8 sample_ns)). vm_compute. exact I. Qed.

Lemma sample_ns_parse : parse_frame sample_ns = Some sample_result.
Proof. vm_compute. reflexivity. Qed.

Ltac in_range := vm_compute; repeat split; (discriminate || reflexivity).

Lemma frame_parser_in_bounds_witness : ∃ r, parse_frame (take 60 sample_ns) = Some r.
Proof.
  apply (frame_parser_in_bounds (take 60 sample_ns)).
  apply (bool_decide_unpack (Forall is_u8 (take 60 sample_ns))). vm_compute. exact I.
Defined.

Lemma accepted_solicitation_valid_witness :
  rd16 sample_ns 12 = Some ETHERTYPE_IPV6 ∧ nd_addr_is_multicast tgt_iface = false.
Proof.
  destruct (accepted_solicitation_valid sample_ns (ndL_get_local_addr ll_host) (solicited_node tgt_iface)
    tgt_iface (Some ll_host) sample_ns_parse) as (H1 & i & _ & _ & _ & _ & _ & _ & H2 & _).
  exact (conj H1 H2).
Defined.

Lemma solicitation_roundtrip_witness : parse_frame (ns_frame ll_host tgt_iface) = Some sample_result.
Proof. apply (solicitation_roundtrip ll_host tgt_iface); in_range. Defined.

Lemma advertisement_roundtrip_witness :
  parse_frame (na_frame ll_up demo_src ll_host tgt_iface None true) = Some (RxNA tgt_iface).
Proof. apply (advertisement_roundtrip ll_up demo_src ll_host tgt_iface None true); in_range. Defined.

Definition sample_message : list Z := ns_message ll_host tgt_iface.

Lemma icmp6_checksum_rfc_witness :
  let cksum := ndL_calculate_icmp6_checksum demo_src tgt_iface sample_message 32 in
  is_u16 cksum ∧
  rfc1071_sum (pseudo_header demo_src tgt_iface 32 ++ take 2 sample_message ++ be16 cksum ++
    drop 4 sample_message) mod 0xffff = 0.
Proof.
  apply (icmp6_checksum_rfc demo_src tgt_iface sample_message).
  - apply (bool_decide_unpack (Forall is_u8 sample_message)). vm_compute. exact I.
  - reflexivity.
  - apply Nat.leb_le. reflexivity.
Defined.

Lemma filter_program_correct_witness : filter_verdict sample_ns = Some (if filter_spec sample_ns then 0xffffffff else 0).
Proof. apply (filter_program_correct sample_ns). exact sample_ns_u8. Defined.

Lemma filter_keeps_handled_frames_witness : filter_verdict sample_ns = Some 0xffffffff.
Proof.
  apply (filter_keeps_handled_frames sample_ns sample_result sample_ns_u8 sample_ns_parse). discriminate.
Defined.

(** An echo request of 9 bytes between two unspecified addresses. *)
Lemma odd_message_rejected_witness :
  ndL_calculate_icmp6_checksum addr_zero addr_zero [128; 0; 0x7e; 0xbc; 0; 0; 0; 0; 1] 9 ≠ 0x7e * 256 + 0xbc.
Proof.
  apply (odd_message_rejected addr_zero addr_zero 128 0 0x7e 0xbc 0 0 0 0 [] 1).
  - apply (bool_decide_unpack (Forall is_u8 [128; 0; 0x7e; 0xbc; 0; 0; 0; 0; 1])). vm_compute. exact I.
  - reflexivity.
  - discriminate.
  - vm_compute. reflexivity.
Defined.
End witnesses.
