(* ===== verification/BsdProps.v ===== *)
(** * Properties of the BSD back end

    The walk over a BPF buffer, the messages of the routing socket and the
    handles of the interfaces, instantiated at the layout of FreeBSD on amd64. *)
From S2P Require Import Prelude Addr World Monad Packet Route Netlink NetlinkSpec Iface LinkedList Io IoSafe Main Bpf RtSocket RtSocketSpec BsdIface BsdSafe Demo.

(** ** FreeBSD on amd64 *)

Definition freebsd_bpf : BpfLayout :=
  {| bh_size := 32; bh_caplen_at := 16; bh_hdrlen_at := 24; bpf_align_log := 3 |}.

Definition freebsd_rt : RtLayout :=
  {| rtm_size := 152; rtm_index_at := 4; rtm_pid_at := 16; rtm_flags_at := 8; rtm_addrs_at := 12;
     rtm_tableid_at := None; ifam_size := 20; ifam_index_at := 12; ifam_addrs_at := 4; sdl_size := 54;
     RTAX_MAX := 8; RTM_VERSION := 5; BSD_AF_INET6 := 28; BSD_AF_LINK := 18; RTF_PROTO3_bit := 18;
     BSD_RTM_IFINFO := 14; BSD_RTM_IFANNOUNCE := Some 17 |}.

Definition freebsd_if : IfLayout := 168.

Lemma freebsd_bpf_ok : BpfLayoutOk freebsd_bpf.
Proof. split; cbn; lia. Qed.

Lemma freebsd_rt_ok : RtLayoutOk freebsd_rt.
Proof. split; try done; cbn; try lia. rewrite !not_elem_of_cons. by split_and!; [..|apply not_elem_of_nil]. Qed.

Lemma freebsd_if_ok : IfLayoutOk freebsd_if.
Proof. by split. Qed.

(** ** Receiving *)

Section receive.
Context {BO : ByteOrder} {L : BpfLayout} {LOk : BpfLayoutOk L}.

(** Only bytes are read. *)
Definition script_bytes (script : list (received unit)) : Prop :=
  Forall (λ r, match r with RData _ bytes => Forall is_u8 bytes | _ => True end) script.

Lemma nd_io_read_spec count script :
  script_bytes script →
  let '(r, rest) := nd_io_read count script in
  script_bytes rest ∧
  match r with
  | Some buf => (length rest < length script)%nat ∧ Forall is_u8 buf ∧
      ∃ bytes, RData () bytes ∈ script ∧ buf = take count bytes
  | None => True
  end ∧ ∀ x, x ∈ rest → x ∈ script.
Proof.
  induction 1 as [|r script Hr Hs IH]; [by split_and!; [apply List.Forall_nil|..]|].
  destruct r as [| |[] bytes]; cbn [nd_io_read].
  - destruct (nd_io_read count script) as [[buf|] rest]; cbn [length].
    + destruct IH as (? & (? & ? & bs & ? & ?) & ?). split_and!; [done|lia|done| |set_solver].
      exists bs. set_solver.
    + destruct IH as (? & _ & ?). split_and!; [done|done|set_solver].
  - split_and!; [done|done|set_solver].
  - split_and!; [done|cbn; lia|by apply Forall_take| |set_solver]. exists bytes. set_solver.
Qed.

Lemma bpf_buffer_captured buf : Forall is_u8 buf → ∃ rs, bpf_buffer buf = Some rs ∧ captured buf rs.
Proof using LOk. intros Hb. apply bpf_walk_captured; [done|lia|]. rewrite Nat2Z.inj_succ. lia. Qed.

(** C18: The BSD [ndL_io_handler] returns whatever the device delivers, malformed
    records included: with one iteration per answer of the device it has read
    everything, it never reads outside a buffer, and every message it hands on
    is that of a frame that lies inside one of the buffers. *)
Theorem bpf_handler_safe script :
  script_bytes script →
  ∃ rs, bpf_io_handler (S (length script)) script = Some rs ∧
    Forall (λ r, ∃ bytes off frame, RData () bytes ∈ script ∧ bytes_at (take BPF_BUF bytes) off frame ∧
                   parse_frame frame = Some r) rs.
Proof using LOk.
  assert (∀ fuel script, script_bytes script → (length script < fuel)%nat →
    ∃ rs, bpf_io_handler fuel script = Some rs ∧
      Forall (λ r, ∃ bytes off frame, RData () bytes ∈ script ∧ bytes_at (take BPF_BUF bytes) off frame ∧
                     parse_frame frame = Some r) rs) as Hall; [|intros Hs; apply Hall; [done|lia]].
  clear script. induction fuel as [|fuel IH]; intros script Hs Hfuel; [lia|]. cbn [bpf_io_handler].
  pose proof (nd_io_read_spec BPF_BUF script Hs) as Hread.
  destruct (nd_io_read BPF_BUF script) as [[buf|] rest]; [|exists []; split; [done|apply List.Forall_nil]].
  destruct Hread as (Hrest & (Hlen & Hb8 & bytes & Hin & ->) & Hsub).
  destruct (_ =? 0)%nat; [exists []; split; [done|apply List.Forall_nil]|].
  destruct (bpf_buffer_captured _ Hb8) as (rs & -> & Hrs). cbn [mbind option_bind].
  destruct (IH rest Hrest ltac:(lia)) as (rs' & -> & Hrs'). cbn [mbind option_bind].
  eexists. split; [done|]. apply Forall_app. split.
  - eapply list.Forall_impl; [exact Hrs|]. intros r (off & frame & ? & ?). eauto 10.
  - eapply list.Forall_impl; [exact Hrs'|]. intros r (bs & off & frame & ? & ? & ?). eauto 10.
Qed.

(** C20: Every frame the kernel captured is delivered, once and in order, to the
    same parser as on Linux: reading a buffer of well-formed records, the last
    one without padding, gives what [parse_frame] makes of the frames. *)
Theorem bpf_delivers_frames records :
  Forall record_wf records →
  bpf_buffer (records_bytes records) = mapM (λ r, parse_frame r.2) records.
Proof using LOk.
  intros Hwf. apply bpf_walk_records; [done|apply bytes_at_all|lia|]. rewrite Nat2Z.inj_succ. lia.
Qed.
End receive.

(** ** The routing socket *)

Section routing.
Context {BO : ByteOrder} {L : RtLayout} {LOk : RtLayoutOk L}.

(** C19: The messages of the routing socket are read as they are meant: a buffer
    of route, address and interface messages, of every family, gives exactly
    the updates they stand for, in order, as long as the socket addresses carry
    their lengths and, in a message about an IPv6 destination, both that address
    and the netmask are complete.  (A netmask that is cut short, as the kernel
    may send it, is not read as it is meant: see [default_route_overread].) *)
Theorem routing_messages_decode notes :
  Forall bsd_note_wf notes →
  ndL_handle (concat (map bsd_note_bytes notes)) = Some (map bsd_meaning notes).
Proof using LOk.
  intros Hwf. apply bsd_handle_spec; [done|apply bytes_at_all|lia|]. rewrite Nat2Z.inj_succ. lia.
Qed.

(** One message on its own. *)
Lemma single_message n :
  bsd_note_wf n → ndL_handle (bsd_note_bytes n) = Some [bsd_meaning n].
Proof using LOk.
  intros Hwf. replace (bsd_note_bytes n) with (concat (map bsd_note_bytes [n])) by (cbn; apply app_nil_r).
  unfold ndL_handle. rewrite (bsd_handle_spec [n]); [done|by apply List.Forall_cons|apply bytes_at_all|lia|].
  rewrite Nat2Z.inj_succ. lia.
Qed.

(** C23: The requests of the daemon are well-formed messages: a route it adds,
    when the kernel reports it, is recognised as its own, with the destination,
    the prefix length and the table it asked for and the low 16 bits of the
    index; and a removal names the route by its destination, prefix length and
    table, with the index 0. *)
Theorem own_requests_recognised pid dst pflen oif table :
  addr_wf dst → 0 ≤ pflen ≤ 128 → is_u16 table →
  ndL_handle (add_route_msg pid dst pflen oif table) =
    Some [NlNewRoute (mk_route dst (oif mod u16_max) pflen (table_of table) true)] ∧
  ndL_handle (remove_route_msg pid dst pflen table) =
    Some [NlDelRoute (mk_route dst 0 pflen (table_of table) false)].
Proof using LOk.
  intros Hdst Hp Htab. destruct own_flags as [Hf32 Hown]. unfold add_route_msg, remove_route_msg.
  rewrite <- sas_bytes_add, <- sas_bytes_remove. split.
  - set (sas := three _ _ _). set (hdr := rt_msghdr _ _ _ _ _ _ _).
    change (hdr ++ _) with (bsd_note_bytes (BRoute hdr BSD_RTM_ADD (oif mod u16_max)
      (Z.lor RTF_UP (Z.shiftl 1 RTF_PROTO3_bit)) (table_of table) sas)).
    rewrite single_message; [unfold sas; rewrite request_meaning by done; cbn [Z.eqb]; by rewrite Hown|].
    apply request_wf with (body := sas_bytes sas); try done; [set_solver|apply sdl_wf|].
    unfold sas. rewrite sas_bytes_add, !length_app, !length_sockaddr_in6.
    pose proof (length_sockaddr_dl oif). lia.
  - set (sas := three _ _ _). set (hdr := rt_msghdr _ _ _ _ _ _ _).
    change (hdr ++ _) with (bsd_note_bytes (BRoute hdr BSD_RTM_DELETE (0 mod u16_max) 0 (table_of table) sas)).
    rewrite single_message; [unfold sas; by rewrite request_meaning, Z.testbit_0_l by done|].
    apply request_wf with (body := sas_bytes sas); try done; [set_solver|].
    unfold sas. rewrite sas_bytes_remove, !length_app, !length_sockaddr_in6. lia.
Qed.

(** The walk checks that a message has the four bytes of [ndL_msghdr_t], not that
    it has the header its type stands for: a route message of four bytes at the
    end of the buffer is read past the end. *)
Theorem short_message_overread version :
  ndL_handle (h16 MSGHDR_SIZE ++ [version; BSD_RTM_ADD]) = None.
Proof using LOk.
  assert (4 ≤ rtm_addrs_at) as Ha.
  { pose proof rtm_fields_apart as H. pose proof rtm_fields_in as Hin. unfold rtm_fields in *.
    cbn [app all_apart forallb fst snd] in *. unfold apart, MSGHDR_TYPE in *. cbn [fst snd] in *.
    rewrite !andb_true_iff, !orb_true_iff, !Z.leb_le in *. lia. }
  unfold ndL_handle. set (f := h16 _ ++ _).
  assert (length f = 4%nat) as Hlen by (unfold f; by rewrite length_app, length_h16).
  assert (bytes_at f 0 (h16 MSGHDR_SIZE ++ [version; BSD_RTM_ADD])) as Hat by apply bytes_at_all.
  rewrite Hlen. cbn [bsd_handle]. rewrite Hlen.
  rewrite (rdh16_at f 0 MSGHDR_SIZE ltac:(done) (proj1 (bytes_at_app _ _ _ _ Hat))).
  cbn [mbind option_bind Z.leb Z.ltb Z.compare orb].
  assert (rd8 f (0 + MSGHDR_TYPE) = Some BSD_RTM_ADD) as ->.
  { eapply rd8_at; [exact Hat|done|]. unfold MSGHDR_TYPE. rewrite lookup_app_r by (rewrite length_h16; lia).
    by rewrite length_h16. }
  assert (ndL_handle_rt f 0 = None) as Hnone.
  { unfold ndL_handle_rt. assert (rdh32 f (0 + rtm_addrs_at) = None) as ->; [|done].
    unfold rdh32, rd8. by rewrite (lookup_ge_None_2 f (Z.to_nat (0 + rtm_addrs_at))) by lia. }
  cbn. by rewrite Hnone.
Qed.
End routing.

(** ** Handles *)

(** The operations of the back end; the kernel answers anew in each. *)
Inductive bsd_op :=
  | OpOpen (K : bsd_kernel) (name : option string) (index : Z) (promiscuous : bool)
  | OpClose (iface : loc)
  | OpRebind (K : bsd_kernel)
  | OpRtHandler (K : bsd_kernel) (script : list (received unit))
  | OpDump (K : bsd_kernel) (size_ok malloc_ok : bool) (data : option (list Z))
  | OpRtOpen (socket : bool) (a : create_answers)
  | OpSend (iface : loc) (frame : nd_lladdr → list Z)
  | OpAddRoute (pid : Z) (dst : nd_addr) (pflen oif table : Z)
  | OpCleanup.

Section handles.
Context {BO : ByteOrder} {IL : IfLayout} {ILok : IfLayoutOk IL} {RL : RtLayout} {RLok : RtLayoutOk RL}.

Definition bsd_exec (op : bsd_op) (b : bsd) : res bsd :=
  match op with
  | OpOpen K name index promiscuous => '(_, b) ← bsd_iface_open K name index promiscuous b; mret b
  | OpClose iface => bsd_iface_close iface b
  | OpRebind K => bsd_rebind_all K b
  | OpRtHandler K script => bsd_rt_handler K (S (length script)) script b
  | OpDump K size_ok malloc_ok data => '(_, b) ← ndL_dump K size_ok malloc_ok data b; mret b
  | OpRtOpen socket a => '(_, b) ← bsd_rt_open socket a b; mret b
  | OpSend iface frame => bsd_send_icmp6 iface frame b
  | OpAddRoute pid dst pflen oif table => bsd_add_route pid dst pflen oif table b
  | OpCleanup => bsd_iface_cleanup b
  end.

(** A buffer of messages of the kernel. *)
Definition rt_messages (buf : list Z) : Prop :=
  ∃ notes, Forall bsd_note_wf notes ∧ buf = concat (map bsd_note_bytes notes).

(** When the daemon may call an operation: interfaces are live, a route is added
    with the routing socket open, and that socket delivers whole messages. *)
Definition op_pre (op : bsd_op) (b : bsd) : Prop :=
  match op with
  | OpOpen K _ _ _ | OpRebind K => bsd_kernel_ok K
  | OpRtHandler K script => bsd_kernel_ok K ∧
      Forall (λ r, match r with RData _ bytes => rt_messages (take RT_BUF bytes) | _ => True end) script
  | OpDump K _ _ data => bsd_kernel_ok K ∧ match data with Some buf => rt_messages buf | None => True end
  | OpClose iface | OpSend iface _ => is_Some (w_ifaces (b_world b) !! iface)
  | OpAddRoute _ _ _ _ _ => is_Some (b_rt b)
  | OpRtOpen _ _ | OpCleanup => True
  end.

(** A frame is sent on an interface that is up and has no handle. *)
Definition sends_without_handle (op : bsd_op) (b : bsd) : Prop :=
  match op with
  | OpSend iface _ => ∃ i, w_ifaces (b_world b) !! iface = Some i ∧ i_up i = true ∧ b_bpf b !! iface = None
  | _ => False
  end.

(** The states the daemon can reach from its start with the descriptors [inh]. *)
Inductive bsd_reach (inh : gset Z) : bsd → Prop :=
  | reach_start w :
      w_ifaces w = ∅ → w_first_iface w = [] → bsd_reach inh (mk_bsd w (io_start inh) ∅ None [])
  | reach_step op b b' : bsd_reach inh b → op_pre op b → bsd_exec op b = Done b' → bsd_reach inh b'.

Lemma written_inv inh b l io data :
  bsd_inv inh b l → bsd_inv inh (b <| b_written := (io, data) :: b_written b |>) l.
Proof. by intros [I1 I2 I3 I4 I5 I6]. Qed.

Lemma write_spec inh b l io data :
  bsd_inv inh b l → is_Some (io_vals (b_io b) !! io) →
  nd_io_write (Some io) data b = Done (b <| b_written := (io, data) :: b_written b |>).
Proof.
  intros Hinv [v Hv]. destruct (vals_lookup _ _ _ Hv) as (n & Hn & _). unfold nd_io_write, get. cbn [not_null mbind res_bind].
  by rewrite Hn.
Qed.

Lemma handle_buffer_spec inh K buf b l :
  bsd_kernel_ok K → rt_messages buf → bsd_inv inh b l →
  ∃ b' l', bsd_handle_buffer K buf b = Done b' ∧ bsd_inv inh b' l'.
Proof using ILok RLok.
  intros HK (notes & Hwf & ->) Hinv. unfold bsd_handle_buffer.
  assert (ndL_handle (concat (map bsd_note_bytes notes)) = Some (map bsd_meaning notes)) as ->.
  { apply bsd_handle_spec; [done|apply bytes_at_all|lia|]. rewrite Nat2Z.inj_succ. lia. }
  by apply (apply_all_spec inh K HK _ b l).
Qed.

Lemma rt_handler_spec inh K fuel script b l :
  op_pre (OpRtHandler K script) b → (length script < fuel)%nat → bsd_inv inh b l →
  ∃ b' l', bsd_rt_handler K fuel script b = Done b' ∧ bsd_inv inh b' l'.
Proof using ILok RLok.
  intros [HK Hs]. revert script b l Hs. induction fuel as [|fuel IH]; intros script b l Hs Hfuel Hinv; [lia|].
  cbn [bsd_rt_handler].
  assert (∀ script, Forall (λ r, match r with RData _ bytes => rt_messages (take RT_BUF bytes) | _ => True end) script →
    let '(r, rest) := nd_io_recv RT_BUF script in
    match r with
    | Some (_, buf) => rt_messages buf ∧ (length rest < length script)%nat ∧
        Forall (λ r : received unit, match r with RData _ bytes => rt_messages (take RT_BUF bytes) | _ => True end) rest
    | None => True
    end) as Hrecv.
  { clear. induction 1 as [|r script Hr Hs IH]; [done|]. destruct r as [| |x bytes]; cbn [nd_io_recv]; [|done|].
    - destruct (nd_io_recv RT_BUF script) as [[[x buf]|] rest]; [|done]. destruct IH as (? & ? & ?).
      cbn [length]. split_and!; [done|lia|done].
    - cbn [length]. split_and!; [done|lia|done]. }
  specialize (Hrecv script Hs). destruct (nd_io_recv RT_BUF script) as [[[x buf]|] rest]; [|eauto].
  destruct Hrecv as (Hbuf & Hlen & Hrest).
  destruct (handle_buffer_spec inh K buf b l HK Hbuf Hinv) as (b1 & l1 & -> & Hinv1). cbn [mbind res_bind].
  apply (IH rest b1 l1); [done|lia|done].
Qed.

Lemma send_spec inh x frame b l :
  bsd_inv inh b l → op_pre (OpSend x frame) b →
  (∃ b' l', bsd_exec (OpSend x frame) b = Done b' ∧ bsd_inv inh b' l') ∨
  sends_without_handle (OpSend x frame) b ∧ bsd_exec (OpSend x frame) b = Crash NullDeref.
Proof using Type.
  intros Hinv [i Hi]. cbn [bsd_exec sends_without_handle]. unfold bsd_send_icmp6. rewrite (on_w_load b x i Hi).
  cbn [mbind res_bind]. destruct (i_up i) eqn:Hup; cbn [negb]; [|left; eauto].
  destruct (b_bpf b !! x) as [io|] eqn:Hio; [left|right; split; [eauto|done]].
  destruct (bi_bpf _ _ _ Hinv _ _ Hio) as (_ & fd & E).
  erewrite write_spec by eauto. eexists _, l. split; [done|]. by apply written_inv.
Qed.

Lemma exec_spec inh op b l :
  bsd_inv inh b l → op_pre op b →
  (∃ b' l', bsd_exec op b = Done b' ∧ bsd_inv inh b' l') ∨
  sends_without_handle op b ∧ bsd_exec op b = Crash NullDeref.
Proof using ILok RLok.
  intros Hinv Hpre.
  destruct op as [K name ix pr|x|K|K script|K so mo data|sk a|x frame|pid dst pflen oif table|];
    [left..|by apply (send_spec inh x frame b l)|left|left]; cbn [bsd_exec op_pre] in *.
  - destruct (bsd_iface_open_spec inh K Hpre name ix pr b l Hinv) as (o & b' & l' & -> & Hinv' & _).
    cbn [mbind res_bind]. eauto.
  - destruct Hpre as [i Hi]. destruct (bsd_iface_close_spec inh b l x i Hinv Hi) as (b' & l' & E & Hinv' & _). eauto.
  - destruct (rebind_all_spec inh K Hpre b l Hinv) as (b' & l' & E & Hinv' & _). eauto.
  - apply (rt_handler_spec inh K (S (length script)) script b l); [done|lia|done].
  - destruct Hpre as [HK Hdata]. unfold ndL_dump. destruct so, mo; cbn [negb]; [|cbn [mbind res_bind]; eauto..].
    destruct data as [buf|]; cbn [mbind res_bind]; [|eauto].
    destruct (handle_buffer_spec inh K buf b l HK Hdata Hinv) as (b' & l' & -> & Hinv'). cbn [mbind res_bind]. eauto.
  - destruct (bsd_rt_open_spec inh sk a b l Hinv) as (r & b' & l' & -> & Hinv' & _). cbn [mbind res_bind]. eauto.
  - destruct Hpre as [io Hio]. unfold bsd_add_route. rewrite Hio. destruct (bi_rt _ _ _ Hinv _ Hio) as [fd E].
    erewrite write_spec by eauto. eexists _, l. split; [done|]. by apply written_inv.
  - destruct (bsd_iface_cleanup_spec inh b l Hinv) as (b' & l' & E & Hinv' & _). eauto.
Qed.

Lemma reach_inv inh b : bsd_reach inh b → ∃ l, bsd_inv inh b l.
Proof using ILok RLok.
  induction 1 as [w Hif Hfi|op b b' Hb [l IH] Hpre Hex].
  - exists []. split; cbn [b_io b_bpf b_rt b_world].
    + apply io_start_inv.
    + intros ? ?. by rewrite lookup_empty.
    + done.
    + by intros ? ?%elem_of_nil.
    + rewrite Hfi. constructor.
    + intros x. rewrite Hfi, Hif, lookup_empty. split; [by intros ?%elem_of_nil|by intros [? ?]].
  - destruct (exec_spec inh op b l IH Hpre) as [(b1 & l1 & E & Hinv1)|[_ E]]; rewrite Hex in E; [|done].
    injection E as <-. eauto.
Qed.

(** C17: In every state the BSD back end can reach, whatever calls of the kernel
    failed, every handle of an interface is live, is its own and knows it; no
    two interfaces share one; and every open handle belongs to an interface or
    is the routing socket, so that none is leaked by the error paths.  The next
    operation (on live interfaces; the messages of the routing socket whole,
    with complete IPv6 addresses and netmasks) runs without touching a closed
    handle or a freed interface, with one exception: a frame sent on an
    interface that is up but has no handle dereferences NULL. *)
Theorem bsd_handles_exact inh b :
  bsd_reach inh b →
  (∀ op, op_pre op b →
     (∃ b', bsd_exec op b = Done b') ∨ sends_without_handle op b ∧ bsd_exec op b = Crash NullDeref) ∧
  (∀ iface io, b_bpf b !! iface = Some io →
     is_Some (w_ifaces (b_world b) !! iface) ∧
     ∃ fd, io_vals (b_io b) !! io = Some (mk_io fd (Z.of_nat iface) (Some PktHandler)) ∧ fd ∈ k_open (b_io b)) ∧
  (∀ i1 i2 io, b_bpf b !! i1 = Some io → b_bpf b !! i2 = Some io → i1 = i2) ∧
  (∀ io, is_Some (io_heap (b_io b) !! io) → b_rt b = Some io ∨ ∃ iface, b_bpf b !! iface = Some io).
Proof using ILok RLok.
  intros Hr. destruct (reach_inv inh b Hr) as [l Hinv]. split_and!.
  - intros op Hpre. destruct (exec_spec inh op b l Hinv Hpre) as [(b' & l' & E & _)|?]; eauto.
  - intros iface io Hio. destruct (bi_bpf _ _ _ Hinv _ _ Hio) as (Hi & fd & E). split; [done|].
    exists fd. split; [done|]. apply (oi_open _ _ _ _ (bi_io _ _ _ Hinv)). right; right.
    exists io. unfold io_of. eauto.
  - intros i1 i2 io. by eapply bpf_inj.
  - intros io [n Hn]. apply (bi_owned _ _ _ Hinv). apply (oi_dom _ _ _ _ (bi_io _ _ _ Hinv)).
    unfold io_vals. rewrite lookup_fmap, Hn. eauto.
Qed.

(** C21: After [nd_iface_rebind_all] on a BSD every interface agrees with the
    kernel: one that the kernel reports has its current index and link-layer
    address and a handle, if a device could be opened; if none could be, it is
    without a handle and keeps the old values, so that the next round tries
    again; and one that is absent is left alone. *)
Theorem bsd_rebind_tracks_kernel inh K b :
  bsd_kernel_ok K → bsd_reach inh b →
  ∃ b', bsd_rebind_all K b = Done b' ∧ w_first_iface (b_world b') = w_first_iface (b_world b) ∧
    ∀ x i, w_ifaces (b_world b) !! x = Some i →
      rebound K i (b_bpf b !! x) (b_bpf b' !! x) (w_ifaces (b_world b') !! x).
Proof using ILok RLok.
  intros HK Hr. destruct (reach_inv inh b Hr) as [l Hinv].
  destruct (rebind_all_spec inh K HK b l Hinv) as (b' & l' & E & _ & Hf & Hres). eauto 10.
Qed.

(** C22: When the interface of a live handle has changed and no new device can be
    opened, the interface stays up without a handle, and the next frame that is
    sent on it dereferences NULL: [ndL_send_icmp6] asks only whether the
    interface is up. *)
Theorem failed_reopen_crashes_sender inh K b x i cur lladdr frame :
  bsd_kernel_ok K → bsd_reach inh b → w_ifaces (b_world b) !! x = Some i → i_up i = true →
  link_state K (i_name i) = Some (cur, lladdr) → (cur ≠ i_index i ∨ lladdr ≠ i_lladdr i) →
  reopens K (i_name i) = false →
  ∃ b', bsd_rebind_all K b = Done b' ∧ bsd_send_icmp6 x frame b' = Crash NullDeref.
Proof using ILok RLok.
  intros HK Hr Hi Hup Hlink Hch Hno. destruct (reach_inv inh b Hr) as [l Hinv].
  destruct (rebind_all_spec inh K HK b l Hinv) as (b' & l' & E & _ & _ & Hres). exists b'. split; [done|].
  specialize (Hres x i Hi). unfold rebound in Hres. rewrite Hlink, Hno in Hres.
  assert (nd_lladdr_eq (i_lladdr i) lladdr && (cur =? i_index i) = false) as Hne.
  { apply andb_false_iff. destruct Hch as [Hc|Hc]; [right; by apply Z.eqb_neq|left].
    apply not_true_iff_false. rewrite nd_lladdr_eq_spec. congruence. }
  rewrite Hne in Hres. destruct Hres as [Hi' Hb'].
  unfold bsd_send_icmp6. rewrite (on_w_load b' x i Hi'). cbn [mbind res_bind]. rewrite Hup, Hb'. done.
Qed.
End handles.

(** ** Witnesses *)

Section witnesses.
#[local] Existing Instance x86_host.
#[local] Existing Instances freebsd_bpf freebsd_bpf_ok freebsd_rt freebsd_rt_ok freebsd_if freebsd_if_ok.

(** A record of FreeBSD: a header of 26 bytes and a solicitation. *)
Definition demo_record : list Z * list Z :=
  let frame := ns_frame ll_host tgt_iface in
  (replicate 16 0 ++ h32 (Z.of_nat (length frame)) ++ h32 (Z.of_nat (length frame)) ++ h16 26, frame).

Definition demo_rx : rx :=
  RxNS (ndL_get_local_addr ll_host) (solicited_node tgt_iface) tgt_iface (Some ll_host).

Lemma demo_record_wf : record_wf demo_record.
Proof.
  split_and!; [apply bytes_at_take; by vm_compute..|done|done|by vm_compute|].
  apply (bool_decide_unpack (Forall is_u8 (snd demo_record))). vm_compute. exact I.
Qed.

Lemma bpf_delivers_frames_witness :
  bpf_buffer (records_bytes [demo_record; demo_record]) = Some [demo_rx; demo_rx].
Proof.
  rewrite (bpf_delivers_frames [demo_record; demo_record]).
  - vm_compute. reflexivity.
  - repeat (apply List.Forall_cons; [exact demo_record_wf|]). apply List.Forall_nil.
Defined.

(** An interrupted read, a good buffer, and one whose record claims more bytes
    than there are. *)
Definition demo_script : list (received unit) :=
  [RIntr; RData () (records_bytes [demo_record]); RData () (replicate 64 255); RErr].

Lemma bpf_handler_safe_witness :
  ∃ rs, bpf_io_handler 5 demo_script = Some rs ∧
    Forall (λ r, ∃ bytes off frame, RData () bytes ∈ demo_script ∧ bytes_at (take BPF_BUF bytes) off frame ∧
                   parse_frame frame = Some r) rs.
Proof.
  apply (bpf_handler_safe demo_script).
  apply List.Forall_cons; [exact I|]. apply List.Forall_cons.
  { apply (bool_decide_unpack (Forall is_u8 (records_bytes [demo_record]))). vm_compute. exact I. }
  apply List.Forall_cons; [|by apply List.Forall_cons].
  apply (bool_decide_unpack (Forall is_u8 (replicate 64 255))). vm_compute. exact I.
Defined.

Lemma own_requests_recognised_witness :
  ndL_handle (add_route_msg 77 tgt_iface 128 3 0) = Some [NlNewRoute (mk_route tgt_iface 3 128 0 true)] ∧
  ndL_handle (remove_route_msg 77 tgt_iface 128 0) = Some [NlDelRoute (mk_route tgt_iface 0 128 0 false)].
Proof.
  destruct (own_requests_recognised 77 tgt_iface 128 3 0) as [Hadd Hremove];
    [vm_compute; repeat split; (reflexivity || discriminate)|lia|by split|].
  rewrite Hadd, Hremove. split; reflexivity.
Defined.

(** A route by the daemon, an IPv4 route and an interface message. *)
Definition demo_route_note : bsd_note :=
  let sas := three (Some (sin6 (demo_addr 1 0))) (Some (sdl 3)) (Some (sin6 (nd_mask_from_pflen 48))) in
  BRoute (rt_msghdr (152 + Z.of_nat (length (sas_bytes sas))) BSD_RTM_ADD 1 (2 ^ 18) 7 3 0) BSD_RTM_ADD 3 (2 ^ 18) 0 sas.

Definition demo_ipv4_note : bsd_note :=
  let sas := [Some ([16; 2] ++ replicate 14 10)] ++ replicate 7 None in
  BRoute (rt_msghdr 168 BSD_RTM_GET 1 0 1 3 0) BSD_RTM_GET 3 0 0 sas.

Definition demo_link_note : bsd_note := BLink (h16 8 ++ [5; 14; 0; 0; 0; 0]).

Definition demo_bsd_notes : list bsd_note := [demo_route_note; demo_ipv4_note; demo_link_note].

Ltac sas_done :=
  repeat (apply List.Forall_cons; [first [exact I|by eexists]|]); apply List.Forall_nil.

Lemma demo_bsd_notes_wf : Forall bsd_note_wf demo_bsd_notes.
Proof.
  repeat (apply List.Forall_cons; [|]); try apply List.Forall_nil.
  - unfold demo_route_note. cbv zeta.
    exact (request_wf BSD_RTM_ADD 1 (2 ^ 18) 7 3 0 (demo_addr 1 0) (Some (sdl 3)) 48
      (sas_bytes (three (Some (sin6 (demo_addr 1 0))) (Some (sdl 3)) (Some (sin6 (nd_mask_from_pflen 48)))))
      ltac:(set_solver) ltac:(by split) ltac:(by split) ltac:(by split) (sdl_wf 3)
      eq_refl eq_refl eq_refl eq_refl eq_refl).
  - unfold demo_ipv4_note, bsd_note_wf. cbv zeta. cbn [bsd_note_bytes bsd_note_type].
    split_and!; try (apply bytes_at_take; by vm_compute); try done; try (by split).
    + set_solver.
    + exists 1. split; [by split|]. split; [apply bytes_at_take; by vm_compute|].
      split; [done|]. split; [sas_done|]. split.
      * intros k sa Hk. do 8 (destruct k as [|k]; [injection Hk as <-; reflexivity|]). discriminate Hk.
      * intros sa [= <-]. by split; [cbn; lia|].
  - unfold demo_link_note, bsd_note_wf. cbn [bsd_note_bytes bsd_note_type].
    split_and!; try (apply bytes_at_take; by vm_compute); done || by split.
Qed.

Lemma routing_messages_decode_witness :
  ndL_handle (concat (map bsd_note_bytes demo_bsd_notes)) =
  Some [NlNewRoute (mk_route (demo_addr 1 0) 3 48 0 true); NlIgnore; NlLink].
Proof. rewrite (routing_messages_decode demo_bsd_notes demo_bsd_notes_wf). vm_compute. reflexivity. Defined.

(** ** A FreeBSD host with the interface [em0] *)

(** The reply of [NET_RT_IFLIST] for [em0]. *)
Definition em0_reply (lladdr : nd_lladdr) : list Z :=
  replicate 168 0 ++ [20; 18; 1; 0; 6; 3; 6; 0] ++ [101; 109; 48] ++ ll_bytes lladdr.

(** [em0] has this index and address; [ok] is whether /dev/bpf can be opened. *)
Definition em0_kernel (ok : bool) (index : Z) (lladdr : nd_lladdr) : bsd_kernel :=
  mk_bsd_kernel (λ name, if bool_decide (name = "em0") then index else 0) (λ _, None)
    (λ _, mk_bpf_answers ok (mk_answers true true true true) true true true true true)
    (λ _, Some (em0_reply lladdr)) (replicate 512 0).

Lemma em0_kernel_ok ok index : bsd_kernel_ok (em0_kernel ok index ll_up) ∧ bsd_kernel_ok (em0_kernel ok index ll_host).
Proof.
  assert (Forall is_u8 (replicate 512 0)) as H0 by (apply Forall_replicate; by split).
  split; (split_and!; [done|exact H0|]; intros i reply [= <-]; split; [by vm_compute|]).
  - apply (bool_decide_unpack (Forall is_u8 (em0_reply ll_up))). vm_compute. exact I.
  - apply (bool_decide_unpack (Forall is_u8 (em0_reply ll_host))). vm_compute. exact I.
Qed.

Definition demo_bsd_start : bsd := mk_bsd demo_initial (io_start {[0; 1; 2]}) ∅ None [].

Definition bsd_after (ops : list bsd_op) : bsd :=
  match foldl (λ b op, b ← b; bsd_exec op b) (Done demo_bsd_start) ops with
  | Done b => b
  | _ => demo_bsd_start
  end.

(** The routing socket and [em0] are open. *)
Definition open_rt : bsd_op := OpRtOpen true (mk_answers true true true true).
Definition open_em0 : bsd_op := OpOpen (em0_kernel true 1 ll_up) (Some "em0") 0 false.
Definition demo_bsd : bsd := bsd_after [open_rt; open_em0].

Lemma demo_bsd_reach : bsd_reach {[0; 1; 2]} demo_bsd.
Proof.
  apply (reach_step _ open_em0 (bsd_after [open_rt])).
  - apply (reach_step _ open_rt demo_bsd_start); [by apply reach_start|exact I|vm_compute; reflexivity].
  - exact (proj1 (em0_kernel_ok true 1)).
  - vm_compute. reflexivity.
Qed.

Definition demo_em0 : nd_iface := mk_iface 1 "em0" ll_up 1 true false None false.

Lemma bsd_handles_exact_witness :
  b_bpf demo_bsd !! 0%nat = Some 1%nat ∧
  (∃ fd, io_vals (b_io demo_bsd) !! 1%nat = Some (mk_io fd 0 (Some PktHandler)) ∧ fd ∈ k_open (b_io demo_bsd)) ∧
  ∃ b', bsd_exec (OpSend 0 (λ ll, ns_frame ll tgt_iface)) demo_bsd = Done b'.
Proof.
  destruct (bsd_handles_exact _ demo_bsd demo_bsd_reach) as (Hrun & Hown & _).
  split; [vm_compute; reflexivity|]. split; [apply (Hown 0%nat 1%nat); vm_compute; reflexivity|].
  destruct (Hrun (OpSend 0 (λ ll, ns_frame ll tgt_iface))) as [?|[(i & _ & _ & Hno) _]].
  - exists demo_em0. vm_compute. reflexivity.
  - assumption.
  - vm_compute in Hno. discriminate.
Defined.

(** [em0] comes back with another index and another address. *)
Lemma bsd_rebind_tracks_kernel_witness :
  ∃ b', bsd_rebind_all (em0_kernel true 7 ll_host) demo_bsd = Done b' ∧ is_Some (b_bpf b' !! 0%nat) ∧
    w_ifaces (b_world b') !! 0%nat = Some (mk_iface 1 "em0" ll_host 7 true false None false).
Proof.
  destruct (bsd_rebind_tracks_kernel _ (em0_kernel true 7 ll_host) demo_bsd (proj2 (em0_kernel_ok true 7)) demo_bsd_reach)
    as (b' & E & _ & Hres).
  exists b'. split; [exact E|]. apply (Hres 0%nat demo_em0). vm_compute. reflexivity.
Defined.

(** The same, when /dev/bpf cannot be opened. *)
Lemma failed_reopen_crashes_sender_witness :
  ∃ b', bsd_rebind_all (em0_kernel false 7 ll_host) demo_bsd = Done b' ∧
    bsd_send_icmp6 0 (λ ll, ns_frame ll tgt_iface) b' = Crash NullDeref.
Proof.
  apply (failed_reopen_crashes_sender {[0; 1; 2]} (em0_kernel false 7 ll_host) demo_bsd 0%nat demo_em0 7 ll_host).
  - exact (proj2 (em0_kernel_ok false 7)).
  - exact demo_bsd_reach.
  - vm_compute. reflexivity.
  - reflexivity.
  - vm_compute. reflexivity.
  - left. discriminate.
  - reflexivity.
Defined.

(** ** Lengths that are not looked at *)

(** A default route: its netmask has the length 0 and, as <net/route.h> documents,
    takes [sizeof(u_long)] bytes.  Sixteen bytes of an address are read from it
    all the same, past the end of the message. *)
Definition default_route_msg : list Z :=
  let sas := sockaddr_in6 addr_zero ++ sockaddr_dl 3 ++ replicate 8 0 in
  rt_msghdr (152 + Z.of_nat (length sas)) BSD_RTM_ADD 1 RTF_UP add_addrs 3 0 ++ sas.

Theorem default_route_overread : ndL_handle default_route_msg = None.
Proof. vm_compute. reflexivity. Qed.

(** The length check of the [NET_RT_IFLIST] reply leaves the name out: a reply
    that passes it, with a name of three bytes, gives an address whose last
    bytes were in the buffer before. *)
Definition short_reply : list Z := take 182 (em0_reply ll_up).

Theorem short_reply_reads_stale_bytes :
  iflist_lladdr (replicate 512 0) short_reply = Some (Some (mk_ll 2 0 0 0 0 0)) ∧
  iflist_lladdr (replicate 512 255) short_reply = Some (Some (mk_ll 2 0 0 255 255 255)).
Proof. vm_compute. done. Qed.
End witnesses.
