(* ===== verification/NetlinkProps.v ===== *)
(** * Theorems about routes and netlink messages

    The routing table as a set of routes, and the netlink encoders against the
    parser: every well-formed notification is read inside its bytes and gives
    back what was encoded, whatever the byte order of the host. *)
From S2P Require Import Prelude Addr World Monad Packet Route Netlink NetlinkSpec Iface Session.
From S2P Require Import Receive Counting Invariant IfaceSafe SessionSafe DaemonSafe Demo.

Section tables.
Context {BO : ByteOrder}.

(** Deleting what was inserted, when no route has its key. *)
Lemma delete_rt_insert r routes :
  rt_key r ∉ map rt_key routes → ndL_delete_route r (rt_insert r routes) = routes.
Proof.
  assert (∀ a b : nd_rt_route, nd_addr_eq (rt_dst a) (rt_dst b) && (rt_oif a =? rt_oif b) &&
    (rt_pflen a =? rt_pflen b) && (rt_table a =? rt_table b) = true → rt_key a = rt_key b) as Hsame.
  { intros a b. rewrite !andb_true_iff, nd_addr_eq_spec, !Z.eqb_eq. unfold rt_key.
    by intros [[[-> _] ->] ->]. }
  assert (nd_addr_eq (rt_dst r) (rt_dst r) && (rt_oif r =? rt_oif r) &&
    (rt_pflen r =? rt_pflen r) && (rt_table r =? rt_table r) = true) as Hr.
  { rewrite !andb_true_iff, nd_addr_eq_spec, !Z.eqb_eq. done. }
  induction routes as [|cur rest IH]; cbn [rt_insert map].
  - intros _. cbn [ndL_delete_route]. by rewrite Hr.
  - rewrite not_elem_of_cons. intros [Hne Hnin]. destruct (_ <=? _); cbn [ndL_delete_route].
    + by rewrite Hr.
    + clear Hr. destruct (_ && _) eqn:E; [|by rewrite IH]. apply Hsame in E. congruence.
Qed.

(** Learning and forgetting a route are inverse.  A route notification whose
    destination, length and table are new adds exactly that route, and the
    matching delete notification restores the table. *)
Theorem route_notification_roundtrip r routes :
  rt_key r ∉ map rt_key routes →
  ndL_new_route r routes ≡ₚ r :: routes ∧ ndL_delete_route r (ndL_new_route r routes) = routes.
Proof.
  intros Hnew. unfold ndL_new_route.
  destruct (existsb _ _) eqn:E; [by apply existsb_same_route in E|].
  split; [apply rt_insert_Permutation|by apply delete_rt_insert].
Qed.

(** A replaced route is not noticed.  When the kernel announces a route with the
    destination, length and table of a known one but another interface (as
    after [ip -6 route replace]), the table and every lookup stay the same, so
    that [auto] rules keep using the old interface. *)
Theorem route_replacement_ignored r r' routes addr table :
  r ∈ routes → rt_key r' = rt_key r → rt_oif r' ≠ rt_oif r →
  ndL_new_route r' routes = routes ∧
  nd_rt_find_route addr table (ndL_new_route r' routes) = nd_rt_find_route addr table routes ∧
  (NoDup (map rt_key routes) → r' ∉ routes).
Proof.
  intros Hin Hk Hoif.
  assert (existsb (λ x, same_route x r') routes = true) as E.
  { apply existsb_same_route. rewrite Hk. by apply (list_elem_of_fmap_2 rt_key). }
  unfold ndL_new_route. rewrite E. split_and!; [done|done|]. intros Hnd Hin'. apply Hoif. f_equal.
  apply list_elem_of_lookup in Hin as [i Hi], Hin' as [j Hj].
  assert (i = j) as ->; [|congruence].
  apply (NoDup_lookup (map rt_key routes) i j (rt_key r)); [done|..];
    rewrite (list_lookup_fmap rt_key); by rewrite ?Hi, ?Hj; cbn; rewrite ?Hk.
Qed.
End tables.

(** ** Netlink *)

Section netlink.
Context {BO : ByteOrder}.

(** C15: The netlink parser decodes what the kernel encodes.  A datagram of well-formed
    route, address, link and error messages (an error message carries a whole
    [struct nlmsgerr]), with any attributes in any order and possibly
    [NLMSG_DONE] at its end, is read within its bytes, on hosts of
    either byte order, and every message means what was encoded: the last
    destination and interface attribute count, a route without one is
    ignored, and a route is [owned] when its protocol is that of the daemon.
    When only a part of the datagram fits the buffer, in whatever place it is
    cut, nothing outside that part is read. *)
Theorem notifications_decode notes fin :
  notes_wf notes → end_wf fin →
  parse_datagram (datagram_bytes notes fin) = Some (notes_meaning notes, is_done fin) ∧
  ∀ k, is_Some (parse_datagram (take k (datagram_bytes notes fin))).
Proof.
  intros Hwf Hfin. split; [by apply parse_datagram_notes|].
  intros k. apply datagram_ok_parses, datagram_ok_take. by apply datagram_ok_notes.
Qed.

(** The length of an error message is not checked.  The error and the type of the
    failed request are read from a message too short to hold them, past the
    bytes received. *)
Theorem short_error_overread rest payload :
  length rest = 10%nat → (length payload ≤ 8)%nat →
  parse_datagram (message_bytes NLMSG_ERROR rest payload) = None.
Proof.
  intros Hr Hp. set (f := message_bytes _ _ _). unfold parse_datagram.
  destruct (message_header f 0 NLMSG_ERROR rest payload) as (Hl & Ht & _); [done|done|lia|apply bytes_at_all|].
  pose proof (length_message_bytes NLMSG_ERROR rest payload Hr) as Hlen. fold f in Hlen. rewrite Hlen.
  set (mlen := NLMSG_HDRLEN + _) in *. pose proof (align4_ge mlen).
  assert (16 ≤ mlen ≤ 24) as Hm by (unfold mlen, NLMSG_HDRLEN; lia).
  assert (align4 mlen ≤ 24) as Ha by (unfold align4; zlia).
  cbn [nlmsg_walk]. rewrite (proj2 (Z.ltb_ge _ _)), Hl by (unfold NLMSG_HDRLEN; lia). cbn [mbind option_bind].
  rewrite !(proj2 (Z.ltb_ge _ _)), Ht by (unfold NLMSG_HDRLEN; lia). cbn [orb mbind option_bind].
  assert (rdh16 f (0 + NLMSG_HDRLEN + 8) = None) as E.
  { unfold rdh16. assert (rd8 f (0 + NLMSG_HDRLEN + 8) = None) as ->; [|done].
    apply lookup_ge_None_2. unfold NLMSG_HDRLEN. lia. }
  change (NLMSG_ERROR =? NLMSG_DONE) with false. cbn iota. unfold parse_nlmsg. rewrite Z.eqb_refl, E.
  by destruct (rdh32 f (0 + NLMSG_HDRLEN)).
Qed.

(** The daemon recognises its own routes.  The request that adds a host route, read
    back as a notification, is that route, marked as owned. *)
Theorem added_route_recognised dst pflen oif table :
  addr_wf dst → 0 ≤ pflen < 256 → 0 ≤ table < 256 → is_u32 oif → oif ≠ 0 →
  parse_datagram (add_route_request dst pflen oif table) =
  Some ([NlNewRoute (mk_route dst oif pflen table true)], false).
Proof.
  intros Hd Hp Ht Ho Hne. rewrite add_route_request_note by done.
  rewrite parse_datagram_notes by (done || by apply add_route_note_wf).
  unfold notes_meaning. cbn. by rewrite (proj2 (Z.eqb_neq _ _) Hne).
Qed.

(** What a list of messages does to the two tables. *)
Definition table_step (t : list nd_rt_route * list nd_rt_addr) (m : nl_msg)
    : list nd_rt_route * list nd_rt_addr :=
  let '(routes, addrs) := t in
  match m with
  | NlIgnore | NlLink => t
  | NlNewAddr index addr pflen => (routes, ndL_new_addr index addr pflen addrs)
  | NlDelAddr index addr pflen => (routes, ndL_delete_addr index addr pflen addrs)
  | NlNewRoute route => (ndL_new_route route routes, addrs)
  | NlDelRoute route => (ndL_delete_route route routes, addrs)
  end.

Definition tables (w : world) : list nd_rt_route * list nd_rt_addr := (w_routes w, w_addrs w).

Lemma wp_nlmsg_tables K w m :
  world_inv w →
  wp (ndL_handle_nlmsg K m) (λ _ w', world_inv w' ∧ tables w' = table_step (tables w) m) w.
Proof.
  intros Hinv. destruct m; unfold ndL_handle_nlmsg.
  - by wp_step.
  - wp_step. split; [by apply inv_addrs|done].
  - wp_step. split; [by apply inv_addrs|done].
  - wp_step. split; [by apply inv_routes|done].
  - wp_step. split; [by apply inv_routes|done].
  - eapply wp_mono; [by apply wp_rebind_all|]. intros [] w' (? & Hs & _). split; [done|].
    unfold static in Hs. unfold tables. cbn. congruence.
Qed.

(** Notifications keep the tables up to date.  Handling a datagram of well-formed
    messages in a running daemon returns, applies the route and address changes
    in their order (link messages rebind interfaces and leave the tables
    alone), and ends the dump when the datagram ends with [NLMSG_DONE]. *)
Theorem datagram_updates_tables K w notes fin :
  world_inv w → notes_wf notes → end_wf fin →
  ∃ w', ndL_handle_datagram K (datagram_bytes notes fin) w = Ret () w' ∧ world_inv w' ∧
    tables w' = fold_left table_step (notes_meaning notes) (tables w) ∧
    (is_done fin = true → w_dump_timeout w' = 0).
Proof.
  intros Hinv Hwf Hfin.
  assert (wp (ndL_handle_datagram K (datagram_bytes notes fin)) (λ _ w', world_inv w' ∧
    tables w' = fold_left table_step (notes_meaning notes) (tables w) ∧
    (is_done fin = true → w_dump_timeout w' = 0)) w) as Hwp.
  { unfold ndL_handle_datagram. wp_step. eapply wp_in_bounds; [by apply parse_datagram_notes|]. wp_step.
    cbn [fst snd]. apply (wp_for_each (λ rest w', world_inv w' ∧
      fold_left table_step rest (tables w') = fold_left table_step (notes_meaning notes) (tables w))).
    - done.
    - intros m rest w' [Hinv' Ht]. eapply wp_mono; [by apply wp_nlmsg_tables|].
      intros [] w2 [? E]. split; [done|]. by rewrite E.
    - intros w' [Hinv' Ht]. apply wp_when; intros E.
      + wp_step. split; [by apply inv_dump_timeout|done].
      + split_and!; [done|done|congruence]. }
  destruct (wp_returns _ _ _ Hwp) as ([] & w' & ? & ? & ? & ?). eauto 6.
Qed.
End netlink.

(** ** The theorems on concrete messages *)

Section witnesses.
#[local] Existing Instance x86_host.

Definition route_48 : nd_rt_route := mk_route (demo_addr 3 0) 3 48 254 false.
Definition route_32 : nd_rt_route := mk_route (demo_addr 0 0) 2 32 254 false.
Definition route_48' : nd_rt_route := mk_route (demo_addr 3 0) 7 48 254 false.

Lemma route_notification_roundtrip_witness :
  ndL_new_route route_48 [route_32] ≡ₚ [route_48; route_32] ∧
  ndL_delete_route route_48 (ndL_new_route route_48 [route_32]) = [route_32].
Proof.
  apply (route_notification_roundtrip route_48 [route_32]).
  apply (bool_decide_unpack (rt_key route_48 ∉ map rt_key [route_32])). vm_compute. exact I.
Defined.

Lemma route_replacement_ignored_witness :
  ndL_new_route route_48' [route_48; route_32] = [route_48; route_32] ∧
  nd_rt_find_route tgt_auto 254 (ndL_new_route route_48' [route_48; route_32]) =
    nd_rt_find_route tgt_auto 254 [route_48; route_32] ∧
  (NoDup (map rt_key [route_48; route_32]) → route_48' ∉ [route_48; route_32]).
Proof.
  apply (route_replacement_ignored route_48 route_48' [route_48; route_32] tgt_auto 254).
  - left.
  - reflexivity.
  - discriminate.
Defined.

(** A route with a metric attribute, an address, a link, a failed request, and
    the end of a dump. *)
Definition demo_notes : list (list Z * nl_note) :=
  [(replicate 10 0, NoteRoute true 48 0 0 254 3 0 1 0 [AttrOther 6 [0; 4; 0; 0]; AttrAddr (demo_addr 3 0); AttrOif 3]);
   (replicate 10 7, NoteAddr true 64 128 0 2 [AttrAddr (demo_addr 1 1); AttrOther 8 [1; 2; 3]]);
   (replicate 10 0, NoteLink false []);
   (replicate 10 0, NoteError (h32 0 ++ nlmsghdr 48 RTM_DELROUTE NLM_F_REQUEST 0))].

Definition demo_end : option (list Z * list Z) := Some (h16 2 ++ h32 1 ++ h32 0, h32 0).

Lemma demo_notes_wf : notes_wf demo_notes.
Proof.
  repeat (apply List.Forall_cons; [|]); try apply List.Forall_nil; cbn; (split; [done|]); (split; [done|]);
    try done; try split; try done; repeat (apply List.Forall_cons || apply List.Forall_nil); try done;
    cbn; by split_and!.
Qed.

Lemma notifications_decode_witness :
  parse_datagram (datagram_bytes demo_notes demo_end) =
  Some ([NlNewRoute route_48; NlNewAddr 2 (demo_addr 1 1) 64; NlLink; NlIgnore], true) ∧
  is_Some (parse_datagram (take 100 (datagram_bytes demo_notes demo_end))).
Proof.
  destruct (notifications_decode demo_notes demo_end demo_notes_wf) as [H1 H2]; [done|]. split; [|apply H2].
  rewrite H1. vm_compute. reflexivity.
Defined.

Lemma short_error_overread_witness : parse_datagram (message_bytes NLMSG_ERROR (replicate 10 0) []) = None.
Proof. apply (short_error_overread (replicate 10 0) []); [reflexivity|]. cbn. lia. Defined.

Lemma added_route_recognised_witness :
  parse_datagram (add_route_request tgt_iface 128 3 254) =
  Some ([NlNewRoute (mk_route tgt_iface 3 128 254 true)], false).
Proof.
  apply (added_route_recognised tgt_iface 128 3 254); try lia; vm_compute; repeat split; (reflexivity || discriminate).
Defined.

Lemma datagram_updates_tables_witness :
  ∃ w', ndL_handle_datagram demo_kernel (datagram_bytes demo_notes demo_end) demo_world = Ret () w' ∧ world_inv w' ∧
    tables w' = fold_left table_step (notes_meaning demo_notes) (tables demo_world) ∧
    (is_done demo_end = true → w_dump_timeout w' = 0).
Proof.
  apply (datagram_updates_tables demo_kernel demo_world demo_notes demo_end);
    [exact demo_world_inv|exact demo_notes_wf|done].
Defined.
End witnesses.
