(* ===== verification/ConfProps.v ===== *)
(** * Theorems about the configuration *)
From Stdlib Require Import Ascii.
From S2P Require Import Prelude Addr World Monad Packet Route Netlink Iface Session Proxy Text Conf.
From S2P Require Import Counting Invariant IfaceSafe SessionSafe DaemonSafe StartSafe ConfSafe Demo.

Section props.
Context {BO : ByteOrder}.

(** C36: An accepted configuration is usable.  When a file is accepted, every setting is
    in its range, every prefix length is one of an IPv6 prefix and every table
    fits the byte of a netlink request; every rule has a mode, an interface
    name exactly in [iface] mode, and [autowire] only there; and it hangs on a
    proxy of the list. *)
Theorem accepted_configuration_valid w file st w' :
  unconfigured w → nd_conf_load file w = Ret (POk st) w' →
  conf_ranges (w_conf w') ∧
  ∀ rl r, w_rules w' !! rl = Some r →
    rule_ranges r ∧ rule_conf_ok r ∧
    ∃ p, w_proxies w' !! r_proxy r = Some p ∧ rl ∈ p_rules p ∧ r_proxy r ∈ w_proxy_list w'.
Proof.
  intros Hu Hload. pose proof (wp_conf_load w file Hu) as Hl. unfold wp in Hl. rewrite Hload in Hl.
  destruct Hl as (_ & _ & Hc). destruct (Hc _ eq_refl) as [_ Hran Hg _ Hr]. split; [done|].
  intros rl r Hrl. destruct (Hr _ _ Hrl) as (_ & _ & ? & Hok & p & Hp & Hin).
  split_and!; [done|by apply Hok|]. exists p. split_and!; [done|done|].
  apply (gi_dom _ _ _ Hg). by rewrite Hp.
Qed.

(** ** Buffers *)

Lemma name_loop_room room first rest : (length (name_loop room first rest).1 ≤ room)%nat.
Proof.
  revert first rest. induction room as [|room IH]; intros first [|c rest]; cbn; [lia..|].
  destruct (negb _); [cbn; lia|]. specialize (IH false rest). destruct (name_loop room false rest).
  cbn in *. lia.
Qed.

Lemma name_loop_split room first rest :
  rest = (name_loop room first rest).1 ++ (name_loop room first rest).2.
Proof.
  revert first rest. induction room as [|room IH]; intros first [|c rest]; cbn; [done..|].
  destruct (negb _); [done|]. specialize (IH false rest). destruct (name_loop room false rest).
  cbn in *. by rewrite <- IH.
Qed.

(** The loop stops at the end, at a character that does not belong, or when full. *)
Lemma name_loop_stop room rest :
  match (name_loop room false rest).2 with
  | c :: _ => name_char c = false ∨ length (name_loop room false rest).1 = room
  | [] => True
  end.
Proof.
  revert rest. induction room as [|room IH]; intros [|c rest]; cbn; [done|by right|done|].
  destruct (name_char c) eqn:Hc; cbn [negb]; [|by left]. specialize (IH rest).
  destruct (name_loop room false rest) as [buf rest']. cbn in *. destruct rest'; [done|].
  destruct IH as [?|?]; [by left|right; lia].
Qed.

(** Names fit their buffers.  Whatever the input, the loop of [ndL_accept_name] writes
    less than [size] characters, which leaves room for the NUL; an accepted
    name is exactly the longest run of name characters at the current
    position: it is not truncated. *)
Theorem names_fit_buffers st size :
  (1 < size)%nat →
  (length (name_loop (size - 1) true (st_rest st)).1 < size)%nat ∧
  ∀ buf st', ndL_accept_name st size = Some (buf, st') →
    st_rest st = buf ++ st_rest st' ∧ (0 < length buf < size)%nat ∧
    match st_rest st' with c :: _ => name_char c = false | [] => True end.
Proof.
  intros Hsize. pose proof (name_loop_room (size - 1) true (st_rest st)) as Hroom.
  split; [lia|]. intros buf st'. unfold ndL_accept_name.
  pose proof (name_loop_split (size - 1) true (st_rest st)) as Hsp.
  assert (match (name_loop (size - 1) true (st_rest st)).2 with
          | c :: _ => name_char c = false ∨ length (name_loop (size - 1) true (st_rest st)).1 = (size - 1)%nat
                      ∨ (name_loop (size - 1) true (st_rest st)).1 = []
          | [] => True end) as Hstop.
  { destruct (size - 1)%nat as [|room] eqn:Es; [lia|]. destruct (st_rest st) as [|c rest]; [done|].
    cbn [name_loop]. destruct (isalpha c); cbn [negb]; [|by right; right].
    pose proof (name_loop_stop room rest). destruct (name_loop room false rest) as [b r]. cbn in *.
    destruct r; [done|]. naive_solver lia. }
  destruct (name_loop _ _ _) as [b r]. cbn [fst snd] in *.
  destruct (bool_decide_reflect (b = [])) as [|Hne]; [done|]. destruct (_ && _) eqn:Hfull; [done|].
  intros [= -> <-]. cbn [st_rest st_advance]. split_and!; [done|destruct buf; [done|cbn; lia]|lia|].
  destruct r as [|c r]; [done|]. destruct Hstop as [?|[Hlen|?]]; [done| |done].
  rewrite bool_decide_eq_true_2 in Hfull by done. exact Hfull.
Qed.

(** Only # starts a comment.  Wherever an item of a block may start, at any nesting, a
    slash (as in a C comment, which the README allows) ends the parse with an
    error and changes nothing. *)
Theorem slash_comment_rejected fuel scope ptr st rest w :
  st_rest (ndL_skip st) = chr "/" :: rest → block_loop (S fuel) scope ptr st w = Ret PFail w.
Proof.
  intros Hst. cbn [block_loop]. unfold ndL_accept. rewrite Hst.
  change (strchr (NEWLINE :: bytes_of_string "}") (chr "/")) with false. cbn [negb].
  change (0 =? chr "}") with false. change (0 =? NEWLINE) with false. cbn iota.
  unfold ndL_eof, ndL_accept_name. rewrite Hst. reflexivity.
Qed.
End props.

(** ** The theorems on the demonstration configuration *)

Section witnesses.
#[local] Existing Instance x86_host.

Lemma accepted_configuration_valid_witness :
  conf_ranges (w_conf demo_conf) ∧
  ∀ rl r, w_rules demo_conf !! rl = Some r →
    rule_ranges r ∧ rule_conf_ok r ∧
    ∃ p, w_proxies demo_conf !! r_proxy r = Some p ∧ rl ∈ p_rules p ∧ r_proxy r ∈ w_proxy_list demo_conf.
Proof.
  apply (accepted_configuration_valid demo_initial (Some demo_text) demo_end demo_conf).
  - exact demo_initial_unconfigured.
  - exact demo_loaded.
Defined.

(** [  /* comment], as the first line of a block *)
Definition c_comment : ndL_state := mk_state (bytes_of_string "  /* comment") 1 1.

Lemma slash_comment_rejected_witness :
  block_loop 100 NDL_DEFAULT PtrNull c_comment demo_initial = Ret PFail demo_initial.
Proof. apply (slash_comment_rejected 99 NDL_DEFAULT PtrNull c_comment (bytes_of_string "* comment")). reflexivity. Defined.

Definition long_name : ndL_state := mk_state (bytes_of_string "a-very-long-interface-name {") 1 1.

Lemma names_fit_buffers_witness :
  (length (name_loop (IF_NAMESIZE - 1) true (st_rest long_name)).1 < IF_NAMESIZE)%nat.
Proof. apply (names_fit_buffers long_name IF_NAMESIZE). apply Nat.ltb_lt. reflexivity. Defined.
End witnesses.
